(* ===== verification/_CoqProject ===== *)
-Q . S2P
Prelude.v
Draft.v
DraftWf.v
Regex.v
DraftUtils.v
DependentEdits.v
Blocks.v
ConvertBlockType.v
CollapseBlocks.v
CollapseRuns.v
InlineEntities.v
Link.v
InlineSpans.v
Pipeline.v
EditorShell.v
