(* ===== verification/Prelude.v ===== *)
(** * A verification development for the notes-app editor engine

    The program (TypeScript, [src/app]) is the autoformatting and inline
    annotation engine of a Draft.js rich-text editor.  On every change the
    block plugin ([coreBlockPlugin/index.ts]) runs three steps in order:
    convert (block types from typed prefixes), collapse (hide the prefix of
    header blocks the caret left) and expand (show it again when the caret
    comes back); the entity plugin ([Editor.tsx]) re-annotates inline code
    spans of the caret's block.  Both are built on the helpers of
    [utils/draftUtils.ts], among them the edit compiler
    [performDependentEdits].  The [Editor] component of [Editor.tsx]
    renders draft-js-plugins-editor's [DraftEditor] with the entity plugin
    and dispatches every new state to a redux store of notes.  The files
    of this development, in dependency order:

    - [Prelude.v] (this file): JavaScript value semantics shared by every
      component: [slice] on possibly negative indices ([js_slice]),
      [Immutable.List.get] with its negative-index wrap-around ([imm_get]),
      lodash [sum] ([js_sum]), writes to a sparse JS array that extend it
      with holes ([arr_set], [arr_get]); the [draft] hint databases, the
      [draft_simpl] tactic and the generic list lemmas.
    - [Draft.v]: the host library (draft-js 0.10 with Immutable.js), which
      is not under [src/] and is modelled from the spec and the library's
      behaviour ([spec_modelled] in the manifest): [ContentBlock],
      [ContentState], [SelectionState], [EditorState] as records;
      [Modifier.replaceText], [insertText], [setBlockType], [applyEntity],
      [removeInlineStyle], [removeRange], [splitBlock];
      [EditorState.push] with its undo-boundary rule, [forceSelection].
      Its laws (frame: an edit inside block [k] leaves the other blocks
      alone; [replaceText] inside a block splices text and metadata;
      character modifiers keep blocks well formed) are what the components'
      proofs use.
    - [DraftWf.v]: the well-formedness invariant of documents (a block's
      metadata list is as long as its text) and its preservation by every
      host operation, with the [draft_wf] hint database; the [WfStep]
      class, the interface between the block plugin's pipeline and its
      steps (each step keeps documents well formed; so does their
      sequence).
    - [Regex.v]: the fragment of JavaScript regular expressions the
      registries use, with [RegExp.prototype.exec] as a backtracking
      matcher and the [lastIndex] state of a [/g] expression.
    - [DraftUtils.v]: [utils/draftUtils.ts] without the edit compiler:
      selection builders, [hasEdgeWithin], [rangesOverlap],
      [getContiguousStyleRange] and the style-range queries built on it,
      [stripEntitiesFromBlock], [stripStylesFromBlock], the
      change-inspection helpers, [performUnUndoableEdits].
    - [DependentEdits.v]: [performDependentEdits] (spec §4.1) with the
      per-block [insertions] / [deletions] sparse arrays as explicit state
      threaded through a [foldl].
    - [Blocks.v]: [coreBlockPlugin/blocks.ts], the block registry, and
      [matchBlock] of [steps/convertBlockType.ts].
    - [ConvertBlockType.v]: [steps/convertBlockType.ts] (spec §4.4 a-e).
    - [CollapseBlocks.v]: [steps/collapseBlocks.ts], the expand step (its
      source [steps/expandBlocks.ts] is imported but missing from the
      repository; it is modelled from the spec) and the plugin pipeline of
      [coreBlockPlugin/index.ts].
    - [CollapseRuns.v]: the collapse re-run on every change
      ([collapse_runs]), the total text length as a decreasing measure
      ([text_size]), and the stable states it reaches ([fully_collapsed]).
    - [InlineEntities.v]: [processChange] and the plugin object of
      [components/Editor.tsx] (spec §4.3).
    - [Link.v]: the link entity component
      ([coreEntityPlugin/components/link.tsx]): the props of the anchor
      [Link] renders from the entity's data, and the [onMouseDown]
      decision.
    - [InlineSpans.v]: what the entity reconciler annotates on any text
      made of plain runs and backtick-delimited code runs: the pattern's
      [exec] on such a text, the [do ... while] loop of [processChange]
      segment by segment (a [Section] whose hypotheses fix a forward caret
      in one block), and the whole [processChange].
    - [Pipeline.v]: the engine as a whole: the host's input handling as a
      relation ([host_edit]), the engine's transitions through its entry
      points ([engine_step]: block plugin after a host edit, entity plugin
      [handleBeforeInput] and [onChange], [normalizeCoreBlocks]), the
      [WfStep] instances of convert, collapse, expand, the edit compiler
      and their composition, and the preservation of the invariant by
      every step of every component.
    - [EditorShell.v]: the application around the engine: the plugin
      objects of [Editor.tsx] and [coreBlockPlugin/index.ts] as records of
      hooks ([Plugin]), the plugins editor's [onChange] and
      [handleBeforeInput] hooks (a library, modelled from its documented
      behaviour), draft-js's own insertion of a typed character, the
      [Editor] component ([updateEditorState], [render], [connect]) over
      the store interface [NoteStore] (a [Class] with a [gmap] instance),
      and the application's events as a relation [shell_step]; the
      [PluginWf] class is what a plugin promises the plugins editor.

    Modelling conventions.  JavaScript numbers used as offsets are [Z]
    (the code computes negative offsets on some paths); texts are
    [list ascii]; keys and type tags are [string]; Immutable maps are
    association lists in insertion order, the edit compiler's counters a
    [gmap].  Reference equality of Immutable.js values ([===] on blocks,
    contents and editor states) is structural equality: Immutable's [set]
    and [merge] return the same instance exactly when the stored values are
    equal.  A thrown exception (a [TypeError] on [undefined], a draft-js
    invariant) is the [None] of an [option].  Every loop of the source is a
    [Fixpoint] on fuel or on a list: the style scans get exactly the number
    of iterations their loop can make ([aroundIndex + 1] and
    [size - aroundIndex]), [forEachBlockInSelection] the number of blocks,
    and the rescan loop of [processChange] [length text + 1]; theorems
    prove these fuels are enough (the loops return a result, never run out).
    Repeated collapse needs no fuel: each run that changes the document
    strips at least one character, so the document's length bounds the
    number of runs before it is stable.

    What is proved (claims C1-C33 of the manifest, each stated at its
    theorem, numbered by importance):
    - the edit compiler refines "apply every edit in original
      coordinates" (the splice: inserted texts in batch order before each
      original position, the positions a deletion range covers dropped, on
      the text and on the metadata, the other blocks untouched) on any
      batch of pairwise compatible edits, insertions and deletions alike;
      after any such batch a selection edit's anchor and focus land at
      their original offsets rebased by the text inserted and deleted
      before them, each leading or trailing on its own adjustment;
      outside compatibility, a deletion followed by an insertion at the
      same original offset puts the text inside the deleted range, on
      every block (finding);
    - the application: an event of one note's [Editor] (a typed character
      or a reported change) changes the store at that note only; a
      character typed into the component dispatches, for its note, the
      state [processChange] computed, or draft-js's own insertion when
      that changed nothing; the component installs only the entity
      plugin, so no keystroke typed through it ever changes a block type,
      header triggers included (finding); [Link] renders the entity
      data's [href], cancels the mouse-down default exactly under the
      platform's command modifier, and throws on an unknown entity key;
    - the block state machine, on any document with unique keys: typing a
      header trigger promotes the block to that level with the decorator
      on the hashes; editing the trigger away demotes it; a forward delete
      into an empty block gives it the pulled block's type; Enter on an
      empty list item exits the list; locked non-expandable blocks are
      never retyped; the collapse strips exactly a header's prefix and
      never touches a block a selection edge rests in; the trigger of
      level [n] selects level [n]; collapse then expand gives back the
      header block exactly, for any level, text and caret offset, when the
      text after the trigger does not start with the trigger, and when it
      does the next change's collapse deletes that text too (finding);
      re-run on every change, the collapse reaches a state it leaves
      unchanged, within as many runs as the document has characters, and
      that state is fully collapsed (liveness, by a decreasing measure);
      the expand step restores an expandable type's canonical prefix with
      its styles through the edit compiler; the forced collapse leaves a
      caret past the shortened text out of range, for every level, text
      and offset (finding);
    - the entity reconciler always returns on a well-formed state and
      resets the patterns' [lastIndex]; on a block without entities whose
      new text is a sequence of code spans between plain runs it gives each
      span, backticks included (finding), its own new entity, in order; it
      never moves the caret on a deletion trigger, and it throws whenever
      a character is typed over a selected range (finding);
    - the range utilities: maximal contiguous runs, and the inverted range
      around any index whose character fails the filter (finding); the
      exception at the end of every block (finding); overlap symmetry and
      its set meaning; the text of a selection across blocks (the block
      walk terminates); the truncation of the block by
      [stripStylesFromBlock] when [end] is [0], for every start (finding);
      and the change-inspection round trips: after an
      [insert-characters] push the inserted characters read back are the
      inserted text, after a [backspace-character] or [delete-character]
      push the deleted ones are the character removed.
    Lemmas that are not claims carry the rest: the invariants (every
    state reachable through the engine, the block plugin's [onChange] and
    the [Editor] component keeps well-formed documents, by rule induction
    over [rtc]), the loops' equivalence with list-level references, the
    decorator strategy's bounds; and [Example]s show the other findings
    on concrete inputs (the unanchored ordered-list pattern, Convert not
    idempotent, the reconciler renaming entity keys on a re-run, the
    six-level collapse/expand round trip).

    Not modelled: React's rendering itself (the component's [render] is
    modelled as the props it gives [DraftEditor], [Link] as the props of
    its anchor); the redux selector and reducer, which live outside the
    repository ([Editor.selectors], [Editor.actions]) and are the
    [NoteStore] interface; [openExternalOnCmdModifier] and [isMacOS]
    (modules outside the repository); the inline style and entity
    draft-js gives a typed character (section variables of the shell);
    the decorators, key bindings and rendering of draft-js and of the
    plugins editor; the type-level declarations at the top of
    [draftUtils.ts] (lines 7-10, no behaviour); the parts of ECMAScript
    regular expressions the registries do not use.
    Left for later: an interface (a [Class] of host operations and their
    laws) that the block plugin's proofs would use instead of the concrete
    [Draft] model; the full language semantics of the regex fragment. *)

From stdpp Require Export base list strings sets.
From Stdlib Require Export ZArith Lia Ascii.

Open Scope Z_scope.

Declare Scope draft_scope.
Delimit Scope draft_scope with draft.
Open Scope draft_scope.

(** A text literal: the characters of a string. *)
Notation "⟪ s ⟫" := (String.list_ascii_of_string s%string)
  (format "⟪ s ⟫") : draft_scope.

Create HintDb draft discriminated.
Create Rewrite HintDb draft_rw.

(** ** JavaScript indices *)

(** The index normalisation of [slice]: a negative index counts from the
    end, the result is clamped to [0, len]. *)
Definition js_norm (len i : Z) : Z :=
  if i <? 0 then Z.max 0 (len + i) else Z.min i len.

(** [l.slice(s, e)] on a JS array, string or Immutable.List. *)
Definition js_slice {A} (l : list A) (s e : Z) : list A :=
  let n := Z.of_nat (length l) in
  let s' := js_norm n s in
  let e' := js_norm n e in
  take (Z.to_nat (e' - s')) (drop (Z.to_nat s') l).

(** [l.slice(s)]: up to the end. *)
Definition js_slice_from {A} (l : list A) (s : Z) : list A :=
  js_slice l s (Z.of_nat (length l)).

(** [Immutable.List.get(i)]: a negative index wraps around once. *)
Definition imm_get {A} (l : list A) (i : Z) : option A :=
  let n := Z.of_nat (length l) in
  if i <? 0 then (if n + i <? 0 then None else l !! Z.to_nat (n + i))
  else l !! Z.to_nat i.

(** lodash [sum]. *)
Definition js_sum (l : list Z) : Z := foldr Z.add 0 l.

(** [arr[i] = v] on a sparse JS array of numbers whose holes are read as
    [0] by every reader ([arr[i] || 0] and lodash [sum] skip holes). *)
Definition arr_set (l : list Z) (i : nat) (v : Z) : list Z :=
  if decide (i < length l)%nat then <[i := v]> l
  else l ++ replicate (i - length l) 0 ++ [v].

(** [arr[i] || 0]. *)
Definition arr_get (l : list Z) (i : nat) : Z := default 0 (l !! i).

(** [f 0 + ... + f (n-1)]. *)
Fixpoint sum_upto (f : nat -> nat) (n : nat) : nat :=
  match n with O => O | S n' => (sum_upto f n' + f n')%nat end.

(** ** Lemmas on the JavaScript primitives *)

Lemma js_norm_in_range (len i : Z) :
  0 <= i <= len -> js_norm len i = i.
Proof. intros H. unfold js_norm. destruct (Z.ltb_spec i 0); lia. Qed.

Lemma js_norm_bounds (len i : Z) :
  0 <= len -> 0 <= js_norm len i <= len.
Proof. intros H. unfold js_norm. destruct (Z.ltb_spec i 0); lia. Qed.

(** In range, [slice] is [take] after [drop]. *)
Lemma js_slice_in_range {A} (l : list A) (s e : nat) :
  (s <= e <= length l)%nat ->
  js_slice l (Z.of_nat s) (Z.of_nat e) = take (e - s) (drop s l).
Proof.
  intros H. unfold js_slice.
  rewrite !js_norm_in_range by lia.
  replace (Z.of_nat e - Z.of_nat s) with (Z.of_nat (e - s)) by lia.
  by rewrite !Nat2Z.id.
Qed.

Lemma js_slice_from_in_range {A} (l : list A) (s : nat) :
  (s <= length l)%nat -> js_slice_from l (Z.of_nat s) = drop s l.
Proof.
  intros H. unfold js_slice_from. rewrite js_slice_in_range by lia.
  rewrite take_ge; [done|]. rewrite length_drop. lia.
Qed.

Lemma js_slice_length {A} (l : list A) (s e : Z) :
  Z.of_nat (length (js_slice l s e)) =
  Z.max 0 (js_norm (Z.of_nat (length l)) e - js_norm (Z.of_nat (length l)) s).
Proof.
  unfold js_slice.
  pose proof (js_norm_bounds (Z.of_nat (length l)) s ltac:(lia)).
  pose proof (js_norm_bounds (Z.of_nat (length l)) e ltac:(lia)).
  rewrite length_take, length_drop. lia.
Qed.

Lemma js_slice_whole {A} (l : list A) :
  js_slice l 0 (Z.of_nat (length l)) = l.
Proof.
  unfold js_slice. rewrite !js_norm_in_range by lia.
  rewrite Z.sub_0_r, Nat2Z.id. simpl. apply take_ge. lia.
Qed.

Lemma imm_get_in_range {A} (l : list A) (i : Z) :
  0 <= i -> imm_get l i = l !! Z.to_nat i.
Proof. intros H. unfold imm_get. destruct (Z.ltb_spec i 0); [lia|done]. Qed.

Lemma imm_get_lt {A} (l : list A) (i : Z) :
  0 <= i < Z.of_nat (length l) -> is_Some (imm_get l i).
Proof. intros H. rewrite imm_get_in_range by lia. apply lookup_lt_is_Some_2. lia. Qed.

(** Splicing at the end of a prefix. *)
Lemma take_drop_prefix {A} (l r : list A) (s : nat) :
  (s <= length l)%nat -> take s (take s l ++ r) = take s l /\ drop s (take s l ++ r) = r.
Proof.
  intros Hs. split; [apply take_app_length'|apply drop_app_length']; rewrite length_take; lia.
Qed.

(** The first element [find] returns splits the list. *)
Lemma find_split {A} (P : A -> bool) (l : list A) x :
  find P l = Some x -> exists pre post, l = pre ++ x :: post /\ Forall (fun y => P y = false) pre /\ P x = true.
Proof.
  induction l as [|y l IH]; simpl; [done|].
  destruct (P y) eqn:Hy.
  - intros [= <-]. by exists [], l.
  - intros (pre & post & -> & Hpre & Hx)%IH. exists (y :: pre), post.
    split; [done|]. split; [by constructor|done].
Qed.

(** [l.slice(o, o + 1)]: the element at [o], or nothing at the end. *)
Lemma js_slice_one {A} (l : list A) (o : nat) :
  (o <= length l)%nat -> js_slice l (Z.of_nat o) (Z.of_nat o + 1) = take 1 (drop o l).
Proof.
  intros H. destruct (decide (o = length l)) as [->|Hne].
  - rewrite drop_all, take_nil. unfold js_slice, js_norm.
    rewrite !(proj2 (Z.ltb_ge _ _)) by lia.
    match goal with |- context [Z.to_nat ?x] => replace (Z.to_nat x) with O by lia end. done.
  - replace (Z.of_nat o + 1) with (Z.of_nat (S o)) by lia.
    rewrite js_slice_in_range by lia. by replace (S o - o)%nat with 1%nat by lia.
Qed.

(** [l.slice(-1, 0)] is empty: the start counts from the end. *)
Lemma js_slice_minus_one_zero {A} (l : list A) : js_slice l (-1) 0 = [].
Proof.
  unfold js_slice, js_norm. simpl.
  match goal with |- context [Z.to_nat ?x] => replace (Z.to_nat x) with O by lia end. done.
Qed.

(** Cutting a list around position [o] and gluing it back. *)
Lemma take_one_middle {A} (l : list A) (o : nat) :
  take o l ++ take 1 (drop o l) ++ drop (S o) l = l.
Proof. by rewrite app_assoc, take_take_drop, Nat.add_1_r, take_drop. Qed.

Lemma js_slice_nil {A} (s e : Z) : js_slice (@nil A) s e = [].
Proof. unfold js_slice. by rewrite drop_nil, take_nil. Qed.

Lemma js_slice_from_nil {A} (s : Z) : js_slice_from (@nil A) s = [].
Proof. apply js_slice_nil. Qed.

(** An element in the middle of a list whose image has no duplicates has
    an image outside the images of both sides. *)
Lemma NoDup_fmap_mid {A B} (f : A -> B) l1 x l2 :
  NoDup (f <$> l1 ++ x :: l2) -> f x ∉ f <$> l1 /\ f x ∉ f <$> l2.
Proof.
  rewrite fmap_app. simpl. intros H. apply NoDup_app in H as (_ & Hd & H2).
  apply NoDup_cons in H2 as [H2 _]. split; [|done]. intros Hin. apply (Hd _ Hin). set_solver.
Qed.

Lemma not_elem_of_fmap_Forall {A B} (f : A -> B) l b :
  b ∉ f <$> l -> Forall (fun y => f y <> b) l.
Proof.
  intros Hb. apply Forall_forall. intros y Hy <-. apply Hb. by apply list_elem_of_fmap_2.
Qed.

Lemma filter_all {A} (P : A -> Prop) `{!forall x, Decision (P x)} (l : list A) :
  Forall P l -> filter P l = l.
Proof. induction 1; [done|]. rewrite filter_cons_True by done. by f_equal. Qed.

Lemma filter_ext_in {A} (P Q : A -> Prop) `{!forall x, Decision (P x), !forall x, Decision (Q x)}
    (l : list A) :
  (forall x, x ∈ l -> P x <-> Q x) -> filter P l = filter Q l.
Proof.
  induction l as [|x l IH]; intros Hx; [done|]. rewrite !filter_cons.
  rewrite IH by set_solver. destruct (decide (P x)), (decide (Q x)); try done; exfalso;
    specialize (Hx x ltac:(set_solver)); tauto.
Qed.

(** A [foldl] whose step propagates a failure ([None]) keeps every
    property its step keeps. *)
Lemma foldl_opt_None {A B} (step : option A -> B -> option A) (l : list B) :
  (forall b, step None b = None) -> foldl step None l = None.
Proof. intros Hn. induction l as [|b l IH]; simpl; [done|]. by rewrite Hn. Qed.

Lemma foldl_opt_invariant {A B} (P : A -> Prop) (step : option A -> B -> option A) (l : list B) a r :
  (forall b, step None b = None) ->
  (forall a b r, P a -> step (Some a) b = Some r -> P r) ->
  P a -> foldl step (Some a) l = Some r -> P r.
Proof.
  intros Hn Hs. revert a. induction l as [|b l IH]; intros a Ha; simpl; [by intros [= <-]|].
  destruct (step (Some a) b) as [a'|] eqn:E; [eauto|]. by rewrite foldl_opt_None.
Qed.

Lemma js_sum_app (l1 l2 : list Z) :
  js_sum (l1 ++ l2) = js_sum l1 + js_sum l2.
Proof. induction l1 as [|x l1 IH]; simpl; lia. Qed.

Lemma js_sum_replicate_0 (n : nat) : js_sum (replicate n 0) = 0.
Proof. induction n as [|n IH]; simpl; lia. Qed.

Lemma length_arr_set (l : list Z) i v :
  length (arr_set l i v) = Nat.max (length l) (S i).
Proof.
  unfold arr_set. case_decide.
  - rewrite length_insert. lia.
  - rewrite !length_app, length_replicate. simpl. lia.
Qed.

Lemma arr_get_arr_set_eq (l : list Z) i v : arr_get (arr_set l i v) i = v.
Proof.
  unfold arr_get, arr_set. case_decide.
  - by rewrite list_lookup_insert_eq.
  - rewrite lookup_app_r by lia. rewrite lookup_app_r; rewrite length_replicate; [|lia].
    by replace (i - length l - (i - length l))%nat with 0%nat by lia.
Qed.

#[export] Hint Rewrite @js_slice_whole js_sum_app js_sum_replicate_0
  arr_get_arr_set_eq : draft_rw.
#[export] Hint Resolve js_norm_in_range js_norm_bounds : draft.

(** Unfold the record projections of a concrete value and compute. *)
Ltac draft_simpl := autorewrite with draft_rw in *; simpl in *.

(** Invert a hypothesis [m >>= f = Some r]: name the intermediate result,
    discard the [None] case, and repeat on what remains. *)
Ltac opt_inv :=
  repeat match goal with
  | H : mbind _ ?m = Some _ |- _ =>
      let E := fresh "E" in destruct m eqn:E; cbn [mbind option_bind] in H; [|discriminate H]
  | H : Some _ = Some _ |- _ => injection H as H; try subst
  | H : None = Some _ |- _ => discriminate H
  end.

(** ** Prefix sums of sparse arrays *)

Lemma sum_upto_ext (f g : nat -> nat) n :
  (forall q, (q < n)%nat -> f q = g q) -> sum_upto f n = sum_upto g n.
Proof. induction n as [|n IH]; intros H; simpl; [done|]. rewrite IH, H; auto with lia. Qed.

Lemma js_sum_take_S (a : list Z) n :
  js_sum (take (S n) a) = js_sum (take n a) + arr_get a n.
Proof.
  unfold arr_get. destruct (a !! n) as [x|] eqn:E.
  - rewrite (take_S_r _ _ _ E), js_sum_app. simpl. lia.
  - apply lookup_ge_None in E. rewrite !take_ge by lia. simpl. lia.
Qed.

Lemma arr_get_arr_set (a : list Z) i v q :
  arr_get (arr_set a i v) q = if decide (q = i) then v else arr_get a q.
Proof.
  unfold arr_get, arr_set. case_decide as Hi.
  - case_decide as Hq; [subst; by rewrite list_lookup_insert_eq|].
    by rewrite list_lookup_insert_ne by lia.
  - destruct (decide (q < length a)%nat) as [Hq|Hq].
    + rewrite lookup_app_l by lia. case_decide; [lia|done].
    + rewrite lookup_app_r by lia. rewrite (lookup_ge_None_2 a q) by lia.
      rewrite lookup_app. rewrite length_replicate.
      case_decide as Hqi.
      * subst. rewrite (proj1 (lookup_replicate_None _ _ _)) by lia.
        by replace (i - length a - (i - length a))%nat with 0%nat by lia.
      * destruct (decide (q - length a < i - length a)%nat).
        -- by rewrite lookup_replicate_2 by lia.
        -- rewrite (proj1 (lookup_replicate_None _ _ _)) by lia.
           rewrite lookup_ge_None_2; [done|simpl; lia].
Qed.

(** The prefix sums of an array whose cells hold [f]. *)
Lemma js_sum_take_ext (a : list Z) (f : nat -> nat) n :
  (forall q, arr_get a q = Z.of_nat (f q)) ->
  js_sum (take n a) = Z.of_nat (sum_upto f n).
Proof.
  intros H. induction n as [|n IH]; [by rewrite take_0|].
  rewrite js_sum_take_S, IH, H. simpl. lia.
Qed.

(** A sum that decreases pointwise, and strictly at one of its points. *)
Lemma sum_list_with_le {A} (f g : A -> nat) (l : list A) :
  (forall x, x ∈ l -> (g x <= f x)%nat) -> (sum_list_with g l <= sum_list_with f l)%nat.
Proof.
  induction l as [|x l IH]; intros H; simpl; [lia|].
  pose proof (H x (list_elem_of_here x l)). assert (sum_list_with g l <= sum_list_with f l)%nat; [|lia].
  apply IH. intros y Hy. apply H. by right.
Qed.

Lemma sum_list_with_lt {A} (f g : A -> nat) (l : list A) y :
  (forall x, x ∈ l -> (g x <= f x)%nat) -> y ∈ l -> (g y < f y)%nat ->
  (sum_list_with g l < sum_list_with f l)%nat.
Proof.
  induction l as [|x l IH]; intros H Hy Hlt; [set_solver|]. simpl.
  pose proof (H x (list_elem_of_here x l)).
  assert (Hl : forall z, z ∈ l -> (g z <= f z)%nat) by (intros z Hz; apply H; by right).
  rewrite elem_of_cons in Hy. destruct Hy as [->|Hy].
  - pose proof (sum_list_with_le f g l Hl). lia.
  - specialize (IH Hl Hy Hlt). lia.
Qed.

(** ** Finite sums over [0, n) *)

Lemma sum_upto_add (f g : nat -> nat) n :
  sum_upto (fun i => f i + g i)%nat n = (sum_upto f n + sum_upto g n)%nat.
Proof. induction n as [|n IH]; simpl; lia. Qed.

Lemma sum_list_with_add {A} (f g : A -> nat) (l : list A) :
  sum_list_with (fun x => f x + g x)%nat l = (sum_list_with f l + sum_list_with g l)%nat.
Proof. induction l as [|x l IH]; simpl; lia. Qed.

(** Summing over a list and over [0, n) commute. *)
Lemma sum_upto_sum_list_with {A} (f : A -> nat -> nat) (l : list A) n :
  sum_upto (fun q => sum_list_with (fun x => f x q) l) n = sum_list_with (fun x => sum_upto (f x) n) l.
Proof.
  induction n as [|n IH]; simpl; [by induction l; simpl; lia|].
  rewrite IH, <- sum_list_with_add. done.
Qed.

(** The number of points of [[a, b)] below [n]. *)
Lemma sum_upto_interval a b n :
  sum_upto (fun q => if bool_decide (a <= q < b)%nat then 1%nat else O) n = (Nat.min n b - Nat.min n a)%nat.
Proof. induction n as [|n IH]; cbn [sum_upto]; [lia|]. rewrite IH. case_bool_decide; lia. Qed.

(** A value at one point [a], summed over [[0, n)]. *)
Lemma sum_upto_point a x n :
  sum_upto (fun q => if bool_decide (a = q) then x else O) n = (if bool_decide (a < n)%nat then x else O).
Proof. induction n as [|n IH]; cbn [sum_upto]; [done|]. rewrite IH. repeat case_bool_decide; lia. Qed.

(** Where a count is at most one, the points where it is [0] and the
    count add up to the number of points. *)
Lemma sum_upto_keep (c : nat -> nat) n :
  (forall q, (q < n)%nat -> (c q <= 1)%nat) ->
  (sum_upto (fun q => if bool_decide (c q = O) then 1%nat else O) n + sum_upto c n)%nat = n.
Proof.
  induction n as [|n IH]; intros H; simpl; [done|].
  assert (Hn : (c n <= 1)%nat) by (apply H; lia).
  assert (Hi : forall q, (q < n)%nat -> (c q <= 1)%nat) by (intros q Hq; apply H; lia).
  specialize (IH Hi). case_bool_decide; lia.
Qed.
