(* ===== verification/Draft.v ===== *)
(** * The host document container: draft-js 0.10 over Immutable.js

    The spec (§1, §6) treats the editor state container as an external
    collaborator.  This file models the part of its behaviour the engine
    depends on, from the spec's list of host operations and draft-js's
    documented semantics: the data ([CharacterMetadata], [ContentBlock],
    [ContentState], [SelectionState], [EditorState]), the [Modifier]
    transforms, [EditorState.push] with its undo boundary rule, and
    [forceSelection].  Every definition of this file is [spec_modelled] in
    the manifest.  The laws at the end (lookup after [set_block], the frame
    law of [replaceText], [replaceText] and [insertText] inside one block,
    the character modifiers on a range, [push] without undo) are the
    properties of the host the engine's proofs use. *)

From S2P Require Import Prelude.

Open Scope Z_scope.
Open Scope draft_scope.

(** ** Data *)

Inductive Mutability := MUTABLE | IMMUTABLE | SEGMENTED.

(** An entity of the entity map.  Its [data] object is an association
    list of string fields in insertion order; the engine never reads it,
    the [Link] component reads its [href]. *)
Record DraftEntity := mkEntity {
  ent_type : string;
  ent_mutability : Mutability;
  ent_data : list (string * string);
}.

(** [CharacterMetadata]: an ordered set of style names and at most one
    entity key. *)
Record CharacterMetadata := mkChar {
  cm_style : list string;
  cm_entity : option nat;
}.

Definition EMPTY_CHAR : CharacterMetadata := mkChar [] None.

Record ContentBlock := mkBlock {
  b_key : string;
  b_type : string;
  b_text : list ascii;
  b_chars : list CharacterMetadata;
}.

Record SelectionState := mkSel {
  anchorKey : string;
  anchorOffset : Z;
  focusKey : string;
  focusOffset : Z;
  isBackward : bool;
}.

Record ContentState := mkContent {
  blockMap : list ContentBlock;
  entityMap : list DraftEntity;
  selectionBefore : SelectionState;
  selectionAfter : SelectionState;
}.

(** draft-js's [EditorChangeType]. *)
Inductive ChangeType :=
  | adjust_depth | apply_entity | backspace_character | change_block_data
  | change_block_type | change_inline_style | move_block
  | delete_character | insert_characters | insert_fragment | redo
  | remove_range | spellcheck_change | split_block | undo.

Record EditorState := mkEditor {
  currentContent : ContentState;
  selection : SelectionState;
  lastChangeType : option ChangeType;
  allowUndo : bool;
  undoStack : list ContentState;
  redoStack : list ContentState;
  mustForceSelection : bool;
}.

(** Decidable equality, used for the reference-equality tests of the
    engine ([===] on blocks, contents and editor states). *)
#[export] Instance Mutability_eq_dec : EqDecision Mutability.
Proof. solve_decision. Defined.
#[export] Instance DraftEntity_eq_dec : EqDecision DraftEntity.
Proof. solve_decision. Defined.
#[export] Instance CharacterMetadata_eq_dec : EqDecision CharacterMetadata.
Proof. solve_decision. Defined.
#[export] Instance ContentBlock_eq_dec : EqDecision ContentBlock.
Proof. solve_decision. Defined.
#[export] Instance SelectionState_eq_dec : EqDecision SelectionState.
Proof. solve_decision. Defined.
#[export] Instance ContentState_eq_dec : EqDecision ContentState.
Proof. solve_decision. Defined.
#[export] Instance ChangeType_eq_dec : EqDecision ChangeType.
Proof. solve_decision. Defined.
#[export] Instance EditorState_eq_dec : EqDecision EditorState.
Proof. solve_decision. Defined.

(** ** Selections *)

Definition SelectionState_createEmpty (key : string) : SelectionState :=
  mkSel key 0 key 0 false.

Definition getStartKey (s : SelectionState) : string :=
  if isBackward s then focusKey s else anchorKey s.
Definition getStartOffset (s : SelectionState) : Z :=
  if isBackward s then focusOffset s else anchorOffset s.
Definition getEndKey (s : SelectionState) : string :=
  if isBackward s then anchorKey s else focusKey s.
Definition getEndOffset (s : SelectionState) : Z :=
  if isBackward s then anchorOffset s else focusOffset s.

Definition isCollapsed (s : SelectionState) : bool :=
  bool_decide (anchorKey s = focusKey s) && bool_decide (anchorOffset s = focusOffset s).

(** [selection.merge({anchorOffset, focusOffset})]. *)
Definition sel_with_offsets (s : SelectionState) (a f : Z) : SelectionState :=
  mkSel (anchorKey s) a (focusKey s) f (isBackward s).

(** [SelectionState.prototype.hasEdgeWithin] of draft-js. *)
Definition sel_hasEdgeWithin (s : SelectionState) (blockKey : string) (start end_ : Z) : bool :=
  if bool_decide (anchorKey s = focusKey s) && bool_decide (anchorKey s = blockKey) then
    let ss := getStartOffset s in
    let se := getEndOffset s in
    (bool_decide (start <= ss) && bool_decide (ss <= end_)) ||
    (bool_decide (start <= se) && bool_decide (se <= end_))
  else if negb (bool_decide (blockKey = anchorKey s)) && negb (bool_decide (blockKey = focusKey s))
  then false
  else
    let o := if bool_decide (blockKey = anchorKey s) then anchorOffset s else focusOffset s in
    bool_decide (start <= o) && bool_decide (o <= end_).

(** ** Blocks and contents *)

Definition getLength (b : ContentBlock) : Z := Z.of_nat (length (b_text b)).

(** A block is well formed when it has one metadata entry per character
    (spec §3). *)
Definition block_wf (b : ContentBlock) : Prop := length (b_chars b) = length (b_text b).

#[export] Instance block_wf_dec b : Decision (block_wf b).
Proof. unfold block_wf. apply _. Defined.

Definition getBlockForKey (c : ContentState) (k : string) : option ContentBlock :=
  find (fun b => bool_decide (b_key b = k)) (blockMap c).

Fixpoint block_after (bs : list ContentBlock) (k : string) : option ContentBlock :=
  match bs with
  | [] => None
  | b :: bs' =>
      if bool_decide (b_key b = k) then head bs' else block_after bs' k
  end.

(** [contentState.getBlockAfter(key)]. *)
Definition getBlockAfter (c : ContentState) (k : string) : option ContentBlock :=
  block_after (blockMap c) k.

(** [blockMap.set(key, block)] for a key already in the map. *)
Definition set_block (c : ContentState) (nb : ContentBlock) : ContentState :=
  mkContent (map (fun b => if bool_decide (b_key b = b_key nb) then nb else b) (blockMap c))
    (entityMap c) (selectionBefore c) (selectionAfter c).

Definition with_selections (c : ContentState) (before after : SelectionState) : ContentState :=
  mkContent (blockMap c) (entityMap c) before after.

(** ** The editor state *)

(** [mustBecomeBoundary] of [EditorState.push]. *)
Definition mustBecomeBoundary (es : EditorState) (ct : ChangeType) : bool :=
  bool_decide (Some ct <> lastChangeType es) ||
  (bool_decide (ct <> insert_characters) && bool_decide (ct <> backspace_character)
   && bool_decide (ct <> delete_character)).

(** [EditorState.push(editorState, contentState, changeType)]. *)
Definition EditorState_push (es : EditorState) (c : ContentState) (ct : ChangeType) : EditorState :=
  if decide (currentContent es = c) then es
  else if negb (allowUndo es) then
    mkEditor c (selectionAfter c) (Some ct) false (undoStack es) (redoStack es) true
  else
    let cur := currentContent es in
    let '(stk, nc) :=
      if negb (bool_decide (selection es = selectionAfter cur)) || mustBecomeBoundary es ct
      then (cur :: undoStack es, with_selections c (selection es) (selectionAfter c))
      else if bool_decide (ct = insert_characters) || bool_decide (ct = backspace_character)
              || bool_decide (ct = delete_character)
      then (undoStack es, with_selections c (selectionBefore cur) (selectionAfter c))
      else (undoStack es, c) in
    mkEditor nc (selectionAfter c) (Some ct) true stk [] true.

(** [EditorState.forceSelection(editorState, selection)]. *)
Definition EditorState_forceSelection (es : EditorState) (s : SelectionState) : EditorState :=
  mkEditor (currentContent es) s (lastChangeType es) (allowUndo es)
    (undoStack es) (redoStack es) true.

(** [EditorState.set(editorState, { allowUndo })]. *)
Definition EditorState_setAllowUndo (es : EditorState) (b : bool) : EditorState :=
  mkEditor (currentContent es) (selection es) (lastChangeType es) b
    (undoStack es) (redoStack es) (mustForceSelection es).

(** ** [Modifier] transforms *)

(** [Immutable.List.set(i, v)] for an index the preceding [get] found. *)
Definition imm_set {A} (l : list A) (i : Z) (v : A) : list A :=
  let n := Z.of_nat (length l) in
  <[Z.to_nat (if i <? 0 then n + i else i) := v]> l.

(** The [while (sliceStart < sliceEnd) chars = chars.set(i, op(chars.get(i)))]
    loop of the draft-js character modifiers; [op(undefined)] throws. *)
Fixpoint update_chars_loop (op : CharacterMetadata -> CharacterMetadata)
    (chars : list CharacterMetadata) (i : Z) (n : nat) : option (list CharacterMetadata) :=
  match n with
  | O => Some chars
  | S n' =>
      match imm_get chars i with
      | None => None
      | Some c => update_chars_loop op (imm_set chars i (op c)) (i + 1) n'
      end
  end.

Definition update_chars op chars (s e : Z) : option (list CharacterMetadata) :=
  update_chars_loop op chars s (Z.to_nat (e - s)).

(** The offsets a range covers inside one of its blocks. *)
Definition range_in_block (sel : SelectionState) (b : ContentBlock) : Z * Z :=
  (if bool_decide (b_key b = getStartKey sel) then getStartOffset sel else 0,
   if bool_decide (b_key b = getEndKey sel) then getEndOffset sel else getLength b).

(** [blockMap.skipUntil(start).takeUntil(end).concat([[endKey, ...]]).map(f)]
    merged back into the block map. *)
Fixpoint modify_blocks (sk ek : string) (f : ContentBlock -> option ContentBlock)
    (started : bool) (bs : list ContentBlock) : option (list ContentBlock) :=
  match bs with
  | [] => Some []
  | b :: bs' =>
      let started' := started || bool_decide (b_key b = sk) in
      if bool_decide (b_key b = ek) then
        nb ← f b;
        if started' then Some (nb :: bs')
        else rest ← modify_blocks sk ek f started bs'; Some (nb :: rest)
      else if started' then
        nb ← f b; rest ← modify_blocks sk ek f true bs'; Some (nb :: rest)
      else rest ← modify_blocks sk ek f false bs'; Some (b :: rest)
  end.

Definition modify_range (c : ContentState) (sel : SelectionState)
    (f : ContentBlock -> option ContentBlock) : option ContentState :=
  match getBlockForKey c (getEndKey sel) with
  | None => None
  | Some _ =>
      bs ← modify_blocks (getStartKey sel) (getEndKey sel) f false (blockMap c);
      Some (mkContent bs (entityMap c) sel sel)
  end.

Definition set_type (ty : string) (b : ContentBlock) : ContentBlock :=
  mkBlock (b_key b) ty (b_text b) (b_chars b).

Definition set_chars (b : ContentBlock) (cs : list CharacterMetadata) : ContentBlock :=
  mkBlock (b_key b) (b_type b) (b_text b) cs.

(** [Modifier.setBlockType]. *)
Definition Modifier_setBlockType (c : ContentState) (sel : SelectionState) (ty : string)
  : option ContentState :=
  modify_range c sel (fun b => Some (set_type ty b)).

(** [CharacterMetadata.removeStyle] on an ordered set. *)
Definition removeStyle (st : string) (m : CharacterMetadata) : CharacterMetadata :=
  mkChar (filter (fun s => s <> st) (cm_style m)) (cm_entity m).

Definition setEntity (k : option nat) (m : CharacterMetadata) : CharacterMetadata :=
  mkChar (cm_style m) k.

Definition modify_chars (c : ContentState) (sel : SelectionState)
    (op : CharacterMetadata -> CharacterMetadata) : option ContentState :=
  modify_range c sel (fun b =>
    let '(s, e) := range_in_block sel b in
    cs ← update_chars op (b_chars b) s e; Some (set_chars b cs)).

(** [Modifier.removeInlineStyle]. *)
Definition Modifier_removeInlineStyle (c : ContentState) (sel : SelectionState) (st : string)
  : option ContentState :=
  modify_chars c sel (removeStyle st).

(** [Modifier.applyEntity] ([removeEntitiesAtEdges] only touches
    IMMUTABLE and SEGMENTED entities, which the engine never creates, and is
    not modelled). *)
Definition Modifier_applyEntity (c : ContentState) (sel : SelectionState) (k : option nat)
  : option ContentState :=
  modify_chars c sel (setEntity k).

(** [contentState.createEntity(type, mutability)]; the new key is the
    position of the entity in the map, its data the empty object
    ([data || {}]). *)
Definition createEntity (c : ContentState) (ty : string) (mu : Mutability) : ContentState :=
  mkContent (blockMap c) (entityMap c ++ [mkEntity ty mu []]) (selectionBefore c) (selectionAfter c).

Definition getLastCreatedEntityKey (c : ContentState) : nat := pred (length (entityMap c)).

Definition getEntity (c : ContentState) (k : nat) : option DraftEntity := entityMap c !! k.

(** [removeEntitiesAtEdges]: on contents whose entities are MUTABLE it
    only records the range as [selectionAfter]; it reads both edge blocks. *)
Definition removeEntitiesAtEdges (c : ContentState) (sel : SelectionState) : option ContentState :=
  match getBlockForKey c (getStartKey sel), getBlockForKey c (getEndKey sel) with
  | Some _, Some _ => Some (with_selections c (selectionBefore c) sel)
  | _, _ => None
  end.

(** The keys [skipUntil(start).takeUntil(end)] visits, then the end key. *)
Fixpoint keys_between (sk ek : string) (started : bool) (bs : list ContentBlock) : list string :=
  match bs with
  | [] => [ek]
  | b :: bs' =>
      let started' := started || bool_decide (b_key b = sk) in
      if started' && bool_decide (b_key b = ek) then [ek]
      else if started' then b_key b :: keys_between sk ek true bs'
      else keys_between sk ek false bs'
  end.

(** [removeRangeFromContentState]. *)
Definition removeRangeFromContentState (c : ContentState) (sel : SelectionState)
  : option ContentState :=
  if isCollapsed sel then Some c else
  let sk := getStartKey sel in
  let so := getStartOffset sel in
  let ek := getEndKey sel in
  let eo := getEndOffset sel in
  match getBlockForKey c sk, getBlockForKey c ek with
  | Some sb, Some eb =>
      let nb := mkBlock sk (b_type sb)
                  (js_slice (b_text sb) 0 so ++ js_slice_from (b_text eb) eo)
                  (js_slice (b_chars sb) 0 so ++ js_slice_from (b_chars eb) eo) in
      let ks := keys_between sk ek false (blockMap c) in
      let bs := omap (fun b => if bool_decide (b_key b = sk) then Some nb
                              else if bool_decide (b_key b ∈ ks) then None
                              else Some b) (blockMap c) in
      Some (mkContent bs (entityMap c) sel (mkSel sk so sk so false))
  | _, _ => None
  end.

(** The block of [insertTextIntoContentState]: [text.slice(0, offset) +
    chars + text.slice(offset)] and [insertIntoList] on the metadata. *)
Definition insert_in_block (b : ContentBlock) (off : Z) (txt : list ascii) (m : CharacterMetadata)
  : ContentBlock :=
  mkBlock (b_key b) (b_type b)
    (js_slice (b_text b) 0 off ++ txt ++ js_slice_from (b_text b) off)
    (js_slice (b_chars b) 0 off ++ replicate (length txt) m ++ js_slice_from (b_chars b) off).

(** [insertTextIntoContentState]: an invariant requires a collapsed
    target; empty text leaves the content untouched. *)
Definition insertTextIntoContentState (c : ContentState) (sel : SelectionState)
    (txt : list ascii) (m : CharacterMetadata) : option ContentState :=
  if negb (isCollapsed sel) then None else
  let len := Z.of_nat (length txt) in
  if bool_decide (len = 0) then Some c else
  let off := getStartOffset sel in
  match getBlockForKey c (getStartKey sel) with
  | None => None
  | Some b =>
      let c' := set_block c (insert_in_block b off txt m) in
      Some (with_selections c' (selectionBefore c') (sel_with_offsets sel (off + len) (off + len)))
  end.

(** [Modifier.replaceText(content, range, text, style, entity)]. *)
Definition Modifier_replaceText (c : ContentState) (range : SelectionState) (txt : list ascii)
    (style : list string) (ent : option nat) : option ContentState :=
  c1 ← removeEntitiesAtEdges c range;
  c2 ← removeRangeFromContentState c1 range;
  insertTextIntoContentState c2 (selectionAfter c2) txt (mkChar style ent).

(** [Modifier.insertText]: the target must be collapsed. *)
Definition Modifier_insertText (c : ContentState) (range : SelectionState) (txt : list ascii)
    (style : list string) (ent : option nat) : option ContentState :=
  if isCollapsed range then Modifier_replaceText c range txt style ent else None.

(** [Modifier.removeRange]. *)
Definition Modifier_removeRange (c : ContentState) (range : SelectionState) : option ContentState :=
  c1 ← removeEntitiesAtEdges c range;
  removeRangeFromContentState c1 range.

(** [splitBlockInContentState] with the key the host generates for the new
    block. *)
Definition splitBlockInContentState (c : ContentState) (sel : SelectionState) (keyBelow : string)
  : option ContentState :=
  if negb (isCollapsed sel) then None else
  let key := anchorKey sel in
  let off := anchorOffset sel in
  match getBlockForKey c key with
  | None => None
  | Some b =>
      let above := mkBlock key (b_type b) (js_slice (b_text b) 0 off) (js_slice (b_chars b) 0 off) in
      let below := mkBlock keyBelow (b_type b) (js_slice_from (b_text b) off)
                     (js_slice_from (b_chars b) off) in
      let bs := flat_map (fun x => if bool_decide (b_key x = key) then [above; below] else [x])
                  (blockMap c) in
      Some (mkContent bs (entityMap c) sel (mkSel keyBelow 0 keyBelow 0 false))
  end.

(** [Modifier.splitBlock]. *)
Definition Modifier_splitBlock (c : ContentState) (sel : SelectionState) (keyBelow : string)
  : option ContentState :=
  c1 ← removeEntitiesAtEdges c sel;
  c2 ← removeRangeFromContentState c1 sel;
  splitBlockInContentState c2 (selectionAfter c2) keyBelow.

(** Block [k] of [c] exists, is well formed and holds the text [t]. *)
Definition block_text_at (c : ContentState) (k : string) (t : list ascii) : Prop :=
  exists b, getBlockForKey c k = Some b /\ b_text b = t /\ block_wf b.

(** Every block of [c] is well formed. *)
Definition all_blocks_wf (c : ContentState) : Prop :=
  forall k b, getBlockForKey c k = Some b -> block_wf b.

(** ** Laws of the host operations *)

Lemma getBlockForKey_blockMap c c' k :
  blockMap c = blockMap c' -> getBlockForKey c k = getBlockForKey c' k.
Proof. unfold getBlockForKey. by intros ->. Qed.

Lemma getBlockForKey_set_block c b nb k :
  getBlockForKey c k = Some b -> b_key nb = k -> getBlockForKey (set_block c nb) k = Some nb.
Proof.
  unfold getBlockForKey, set_block. simpl. intros Hf <-.
  induction (blockMap c) as [|x bs IH]; simpl in *; [done|].
  destruct (decide (b_key x = b_key nb)) as [E|E].
  - rewrite (bool_decide_true _ E). simpl. by rewrite bool_decide_true.
  - rewrite (bool_decide_false _ E) in Hf |- *. simpl.
    rewrite bool_decide_false by done. by apply IH.
Qed.

Lemma EditorState_push_blockMap es c ct :
  blockMap (currentContent (EditorState_push es c ct)) = blockMap c.
Proof.
  unfold EditorState_push. case_decide as Hc; [by subst|].
  destruct (allowUndo es); simpl; [|done].
  repeat case_match; simplify_eq; done.
Qed.

Lemma EditorState_setAllowUndo_content es b :
  currentContent (EditorState_setAllowUndo es b) = currentContent es.
Proof. done. Qed.

(** Inside the block, [insert_in_block] splices the text and one metadata
    entry per inserted character. *)
Lemma insert_in_block_in_range b (off : nat) txt m :
  (off <= length (b_text b))%nat -> block_wf b ->
  b_text (insert_in_block b (Z.of_nat off) txt m) = take off (b_text b) ++ txt ++ drop off (b_text b) /\
  b_chars (insert_in_block b (Z.of_nat off) txt m) =
    take off (b_chars b) ++ replicate (length txt) m ++ drop off (b_chars b).
Proof.
  unfold block_wf. intros Hoff Hwf. simpl.
  rewrite <- (Nat2Z.inj_0).
  rewrite !js_slice_in_range, !js_slice_from_in_range by lia.
  rewrite !Nat.sub_0_r. split; done.
Qed.

Lemma insert_in_block_wf b (off : nat) txt m :
  (off <= length (b_text b))%nat -> block_wf b -> block_wf (insert_in_block b (Z.of_nat off) txt m).
Proof.
  intros Hoff Hwf. destruct (insert_in_block_in_range b off txt m Hoff Hwf) as [Ht Hc].
  unfold block_wf in *. rewrite Ht, Hc, !length_app, !length_take, !length_drop, length_replicate.
  lia.
Qed.

(** [Modifier.replaceText] on a collapsed range inserts into the block. *)
Lemma Modifier_replaceText_collapsed c k off b txt st ent :
  getBlockForKey c k = Some b ->
  exists c', Modifier_replaceText c (mkSel k off k off false) txt st ent = Some c' /\
    blockMap c' = blockMap (match txt with [] => c
                            | _ => set_block c (insert_in_block b off txt (mkChar st ent)) end).
Proof.
  intros Hb. unfold Modifier_replaceText, removeEntitiesAtEdges, getStartKey, getEndKey; simpl.
  rewrite Hb. simpl. unfold removeRangeFromContentState, isCollapsed; simpl.
  rewrite !bool_decide_true by done. simpl.
  unfold insertTextIntoContentState, isCollapsed; simpl.
  rewrite !bool_decide_true by done. simpl.
  destruct txt as [|x txt]; simpl.
  - eexists; split; [done|done].
  - cbn [getStartKey isBackward anchorKey].
    rewrite (getBlockForKey_blockMap _ c), Hb by done.
    eexists; split; [done|done].
Qed.

Lemma getBlockForKey_key c k b : getBlockForKey c k = Some b -> b_key b = k.
Proof. unfold getBlockForKey. intros H. apply find_some in H as [_ H]. by case_bool_decide. Qed.

Lemma find_key_replace (bs : list ContentBlock) k k' nb :
  k <> k' -> b_key nb = k ->
  find (fun b => bool_decide (b_key b = k')) (map (fun b => if bool_decide (b_key b = k) then nb else b) bs)
  = find (fun b => bool_decide (b_key b = k')) bs.
Proof.
  intros Hne Hk. induction bs as [|x bs IH]; simpl; [done|].
  destruct (decide (b_key x = k)) as [E|E].
  - rewrite (bool_decide_true _ E), !bool_decide_false by congruence. done.
  - rewrite (bool_decide_false _ E). simpl. case_bool_decide; [done|apply IH].
Qed.

Lemma keys_between_same k bs : keys_between k k false bs = [k].
Proof. induction bs as [|b bs IH]; simpl; [done|]. by case_bool_decide. Qed.

Lemma set_block_frame c nb k' :
  b_key nb <> k' -> getBlockForKey (set_block c nb) k' = getBlockForKey c k'.
Proof. intros Hne. unfold getBlockForKey, set_block; simpl. by apply find_key_replace. Qed.

Lemma omap_replace (bs : list ContentBlock) k nb :
  omap (fun b => if bool_decide (b_key b = k) then Some nb
                 else if bool_decide (b_key b ∈ [k]) then None else Some b) bs =
  map (fun b => if bool_decide (b_key b = k) then nb else b) bs.
Proof.
  induction bs as [|b bs IH]; simpl; [done|].
  case_bool_decide; simpl; [by f_equal|].
  rewrite bool_decide_false by (rewrite list_elem_of_singleton; done). simpl. by f_equal.
Qed.

(** Replacing a block keeps the list of keys. *)
Lemma set_block_keys c nb : b_key <$> blockMap (set_block c nb) = b_key <$> blockMap c.
Proof.
  unfold set_block; simpl. induction (blockMap c) as [|b bs IH]; [done|].
  simpl. case_bool_decide; simpl; by f_equal.
Qed.

(** [Modifier.replaceText] on a range inside one block keeps the list of
    block keys. *)
Lemma Modifier_replaceText_keys c k s e txt st ent c' :
  Modifier_replaceText c (mkSel k s k e false) txt st ent = Some c' ->
  b_key <$> blockMap c' = b_key <$> blockMap c.
Proof.
  unfold Modifier_replaceText.
  destruct (removeEntitiesAtEdges c _) as [c1|] eqn:E1; [|done]. cbn [mbind option_bind].
  destruct (removeRangeFromContentState c1 _) as [c2|] eqn:E2; [|done]. cbn [mbind option_bind].
  assert (Hc1 : b_key <$> blockMap c1 = b_key <$> blockMap c).
  { revert E1. unfold removeEntitiesAtEdges. repeat case_match; intros; simplify_eq; done. }
  assert (Hc2 : b_key <$> blockMap c2 = b_key <$> blockMap c1).
  { revert E2. unfold removeRangeFromContentState. case_match; [by intros [= <-]|].
    unfold getStartKey, getEndKey; simpl. repeat case_match; intros; simplify_eq; [|done..].
    simpl. rewrite keys_between_same, omap_replace.
    match goal with |- context [map (fun b => if bool_decide (b_key b = k) then ?nb else b)] =>
      exact (set_block_keys c1 nb) end. }
  unfold insertTextIntoContentState. repeat case_match; intros; simplify_eq; try done.
  - congruence.
  - cbn [with_selections blockMap]. rewrite set_block_keys. congruence.
Qed.

(** [removeRangeFromContentState] inside block [k]: other blocks are kept
    and the caret lands in [k]. *)
Lemma removeRange_frame c k s e c' k' :
  k <> k' -> selectionAfter c = mkSel k s k e false ->
  removeRangeFromContentState c (mkSel k s k e false) = Some c' ->
  getBlockForKey c' k' = getBlockForKey c k' /\ getStartKey (selectionAfter c') = k.
Proof.
  intros Hne Hafter. unfold removeRangeFromContentState.
  destruct (isCollapsed _); [intros [= <-]; by rewrite Hafter|].
  unfold getStartKey, getEndKey; simpl.
  destruct (getBlockForKey c k) as [b|]; [|done]. intros [= <-].
  split; [|done]. unfold getBlockForKey; simpl. rewrite keys_between_same, omap_replace.
  by apply find_key_replace.
Qed.

(** The frame law: replacing text inside block [k] leaves every other block
    as it was. *)
Lemma Modifier_replaceText_frame c k s e txt st ent c' k' :
  k <> k' ->
  Modifier_replaceText c (mkSel k s k e false) txt st ent = Some c' ->
  getBlockForKey c' k' = getBlockForKey c k'.
Proof.
  intros Hne. unfold Modifier_replaceText, removeEntitiesAtEdges, getStartKey, getEndKey; simpl.
  destruct (getBlockForKey c k) as [b|] eqn:Hb; simpl; [|done].
  destruct (removeRangeFromContentState _ _) as [c2|] eqn:Hrm; simpl; [|done].
  destruct (removeRange_frame (with_selections c (selectionBefore c) (mkSel k s k e false))
              k s e c2 k' Hne eq_refl Hrm) as [Hc2 Hkey].
  rewrite (getBlockForKey_blockMap (with_selections c (selectionBefore c) (mkSel k s k e false)) c)
    in Hc2 by done.
  unfold insertTextIntoContentState.
  destruct (negb _); [done|]. destruct (bool_decide _); [by intros [= <-]|].
  rewrite Hkey. destruct (getBlockForKey c2 k) as [b2|] eqn:Hb2; [|done].
  intros [= <-]. rewrite <- Hc2. rewrite (getBlockForKey_blockMap _ (set_block c2 _)) by done.
  apply set_block_frame. simpl. by rewrite (getBlockForKey_key _ _ _ Hb2).
Qed.

(** ** Laws of the character modifiers *)

Lemma length_imm_set {A} (l : list A) i v : length (imm_set l i v) = length l.
Proof. apply length_insert. Qed.

Lemma update_chars_loop_spec op chars i n :
  0 <= i -> i + Z.of_nat n <= Z.of_nat (length chars) ->
  update_chars_loop op chars i n =
    Some (imap (fun j c => if bool_decide (i <= Z.of_nat j < i + Z.of_nat n) then op c else c) chars).
Proof.
  revert chars i. induction n as [|n IH]; intros chars i Hi Hn; simpl.
  - f_equal. apply list_eq. intros j. rewrite list_lookup_imap.
    destruct (chars !! j); simpl; [|done]. by rewrite bool_decide_false by lia.
  - destruct (imm_get_lt chars i) as [x Hx]; [lia|]. rewrite Hx.
    rewrite imm_get_in_range in Hx by lia.
    rewrite IH by (try rewrite length_imm_set; lia).
    f_equal. apply list_eq. intros j. rewrite !list_lookup_imap.
    unfold imm_set. rewrite (proj2 (Z.ltb_ge i 0)) by lia.
    rewrite list_lookup_insert. case_decide as Hd.
    + destruct Hd as [<- _]. rewrite Hx. simpl.
      rewrite bool_decide_false, bool_decide_true by lia. done.
    + assert (Hne : j <> Z.to_nat i)
        by (intros ->; apply Hd; split; [done|apply (lookup_lt_Some _ _ _ Hx)]).
      destruct (chars !! j); simpl; [|done].
      do 2 case_bool_decide; try done; lia.
Qed.

(** [update_chars op chars s e] applies [op] to the characters of
    [[s, e)] (none when [e <= s]). *)
Definition update_range (op : CharacterMetadata -> CharacterMetadata) (chars : list CharacterMetadata)
    (s e : Z) : list CharacterMetadata :=
  imap (fun j c => if bool_decide (s <= Z.of_nat j < e) then op c else c) chars.

Lemma length_update_range op chars s e : length (update_range op chars s e) = length chars.
Proof. apply length_imap. Qed.

(** The character loop succeeds on any range inside the list. *)
Lemma update_chars_spec op chars s e :
  0 <= s <= Z.of_nat (length chars) -> 0 <= e <= Z.of_nat (length chars) ->
  update_chars op chars s e = Some (update_range op chars s e).
Proof.
  intros Hs He. unfold update_chars, update_range.
  destruct (Z.le_gt_cases e s) as [Hle|Hgt].
  - replace (Z.to_nat (e - s)) with O by lia. simpl. f_equal. apply list_eq. intros j.
    rewrite list_lookup_imap. destruct (chars !! j); simpl; [|done]. by rewrite bool_decide_false by lia.
  - rewrite update_chars_loop_spec by lia. rewrite Z2Nat.id by lia.
    by replace (s + (e - s)) with e by lia.
Qed.

(** On a range inside one block, [modify_blocks] rewrites the first block
    of that key and keeps the others. *)
Lemma modify_blocks_single k (f : ContentBlock -> option ContentBlock) bs b nb :
  find (fun x => bool_decide (b_key x = k)) bs = Some b -> f b = Some nb -> b_key nb = k ->
  exists bs', modify_blocks k k f false bs = Some bs' /\
    find (fun x => bool_decide (b_key x = k)) bs' = Some nb /\
    forall k', k' <> k -> find (fun x => bool_decide (b_key x = k')) bs' =
                          find (fun x => bool_decide (b_key x = k')) bs.
Proof.
  intros Hfind Hf Hk. induction bs as [|x bs IH]; simpl in *; [done|].
  destruct (decide (b_key x = k)) as [E|E].
  - rewrite (bool_decide_true _ E) in Hfind |- *. injection Hfind as ->. simpl.
    rewrite Hf. simpl. exists (nb :: bs). split; [done|]. simpl.
    rewrite (bool_decide_true _ Hk). split; [done|].
    intros k' Hne. by rewrite !bool_decide_false by congruence.
  - rewrite (bool_decide_false _ E) in Hfind |- *. simpl.
    destruct (IH Hfind) as (bs' & Hm & Hb & Hfr). rewrite Hm. simpl.
    exists (x :: bs'). split; [done|]. simpl. rewrite (bool_decide_false _ E).
    split; [done|]. intros k' Hne. case_bool_decide; [done|]. by apply Hfr.
Qed.

(** A character modifier on a range inside one well-formed block succeeds,
    keeps the block's key, type and text, and touches nothing else. *)
Lemma modify_chars_single c k a f bk op b :
  getBlockForKey c k = Some b -> block_wf b ->
  0 <= a <= getLength b -> 0 <= f <= getLength b ->
  exists c' b', modify_chars c (mkSel k a k f bk) op = Some c' /\
    getBlockForKey c' k = Some b' /\ b_key b' = k /\ b_type b' = b_type b /\
    b_text b' = b_text b /\ block_wf b' /\
    b_chars b' = update_range op (b_chars b) (getStartOffset (mkSel k a k f bk))
                   (getEndOffset (mkSel k a k f bk)) /\
    (forall k', k' <> k -> getBlockForKey c' k' = getBlockForKey c k') /\
    entityMap c' = entityMap c.
Proof.
  intros Hb Hwf Ha Hf. unfold getLength, block_wf in *.
  pose proof (getBlockForKey_key _ _ _ Hb) as Hk.
  set (sel := mkSel k a k f bk).
  assert (HS : getStartKey sel = k /\ getEndKey sel = k) by (unfold getStartKey, getEndKey; by destruct bk).
  destruct HS as [HS HE].
  assert (Hr : range_in_block sel b = (getStartOffset sel, getEndOffset sel)).
  { unfold range_in_block. rewrite HS, HE, Hk, !bool_decide_true by done. done. }
  assert (Hcs : update_chars op (b_chars b) (getStartOffset sel) (getEndOffset sel) =
                Some (update_range op (b_chars b) (getStartOffset sel) (getEndOffset sel)))
    by (apply update_chars_spec; unfold getStartOffset, getEndOffset; rewrite Hwf; destruct bk; simpl; lia).
  set (cs := update_range op (b_chars b) (getStartOffset sel) (getEndOffset sel)) in *.
  assert (Hl : length cs = length (b_chars b)) by apply length_update_range.
  unfold modify_chars, modify_range. rewrite HE, Hb, HS.
  destruct (modify_blocks_single k (fun b0 => let '(s, e) := range_in_block sel b0 in
              cs0 ← update_chars op (b_chars b0) s e; Some (set_chars b0 cs0))
              (blockMap c) b (set_chars b cs)) as (bs' & Hm & Hfk & Hfr).
  - exact Hb.
  - rewrite Hr, Hcs. done.
  - done.
  - rewrite Hm. cbn [mbind option_bind]. eexists _, (set_chars b cs). split; [done|].
    split; [exact Hfk|]. simpl. split; [done|]. split; [done|]. split; [done|].
    split; [unfold block_wf; simpl; lia|]. split; [done|]. split; [|done].
    intros k' Hne. apply (Hfr k' Hne).
Qed.

Lemma block_text_at_blockMap c c' k t :
  blockMap c = blockMap c' -> block_text_at c k t -> block_text_at c' k t.
Proof. intros Hm (b & Hb & Ht & Hwf). exists b. by rewrite <- (getBlockForKey_blockMap c c' k Hm). Qed.

(** The character modifiers on a range inside a block keep it well formed
    with the same text. *)
Lemma modify_chars_text_at c k a f bk op t :
  block_text_at c k t ->
  0 <= a <= Z.of_nat (length t) -> 0 <= f <= Z.of_nat (length t) ->
  exists c', modify_chars c (mkSel k a k f bk) op = Some c' /\ block_text_at c' k t /\
    (forall k', k' <> k -> getBlockForKey c' k' = getBlockForKey c k') /\
    entityMap c' = entityMap c.
Proof.
  intros (b & Hb & <- & Hwf) Ha Hf.
  destruct (modify_chars_single c k a f bk op b Hb Hwf Ha Hf)
    as (c' & b' & Hm & Hb' & _ & _ & Ht & Hwf' & _ & Hfr & He).
  exists c'. split; [done|]. split; [|done]. exists b'. done.
Qed.

(** [Modifier.insertText] at a caret inside a well-formed block splices the
    text in at the caret and touches no other block. *)
Lemma Modifier_insertText_caret c k (off : nat) bk b txt st ent :
  getBlockForKey c k = Some b -> block_wf b -> (off <= length (b_text b))%nat ->
  exists c', Modifier_insertText c (mkSel k (Z.of_nat off) k (Z.of_nat off) bk) txt st ent = Some c' /\
    block_text_at c' k (take off (b_text b) ++ txt ++ drop off (b_text b)) /\
    (forall k', k' <> k -> getBlockForKey c' k' = getBlockForKey c k').
Proof.
  intros Hb Hwf Hoff. pose proof (getBlockForKey_key _ _ _ Hb) as Hk.
  set (sel := mkSel k (Z.of_nat off) k (Z.of_nat off) bk).
  assert (Hsel : getStartKey sel = k /\ getEndKey sel = k /\ getStartOffset sel = Z.of_nat off /\
                 isCollapsed sel = true).
  { unfold getStartKey, getEndKey, getStartOffset, isCollapsed. destruct bk; simpl;
      by rewrite !bool_decide_true. }
  destruct Hsel as (HS & HE & HO & HC).
  unfold Modifier_insertText, Modifier_replaceText, removeEntitiesAtEdges.
  rewrite HC, HS, HE, Hb. cbn [mbind option_bind].
  unfold removeRangeFromContentState. rewrite HC. cbn [mbind option_bind].
  unfold insertTextIntoContentState. simpl. rewrite HC. simpl.
  case_bool_decide as Hlen.
  - destruct txt; [|done]. eexists; split; [done|]. split; [|done].
    exists b. split; [by rewrite (getBlockForKey_blockMap _ c)|].
    split; [by rewrite app_nil_l, take_drop|done].
  - rewrite HO, HS. rewrite (getBlockForKey_blockMap _ c), Hb by done.
    eexists; split; [done|].
    destruct (insert_in_block_in_range b off txt (mkChar st ent) Hoff Hwf) as [Ht _].
    split.
    + exists (insert_in_block b (Z.of_nat off) txt (mkChar st ent)).
      split; [|split; [done|by apply insert_in_block_wf]].
      rewrite (getBlockForKey_blockMap _ (set_block (with_selections c (selectionBefore c) sel)
                 (insert_in_block b (Z.of_nat off) txt (mkChar st ent)))) by done.
      apply (getBlockForKey_set_block _ b); [by rewrite (getBlockForKey_blockMap _ c)|done].
    + intros k' Hne.
      rewrite (getBlockForKey_blockMap _ (set_block (with_selections c (selectionBefore c) sel)
                 (insert_in_block b (Z.of_nat off) txt (mkChar st ent)))) by done.
      rewrite set_block_frame by (simpl; congruence). by apply getBlockForKey_blockMap.
Qed.

(** [removeRangeFromContentState] on a forward range inside one block cuts
    the text and the metadata of the range out of that block. *)
Lemma removeRange_in_block c k (s e : nat) b :
  getBlockForKey c k = Some b -> (s <= e <= length (b_text b))%nat ->
  length (b_chars b) = length (b_text b) ->
  selectionAfter c = mkSel k (Z.of_nat s) k (Z.of_nat e) false ->
  exists c2 b2, removeRangeFromContentState c (mkSel k (Z.of_nat s) k (Z.of_nat e) false) = Some c2 /\
    selectionAfter c2 = mkSel k (Z.of_nat s) k (Z.of_nat s) false /\
    getBlockForKey c2 k = Some b2 /\ b_key b2 = k /\ b_type b2 = b_type b /\
    b_text b2 = take s (b_text b) ++ drop e (b_text b) /\
    b_chars b2 = take s (b_chars b) ++ drop e (b_chars b) /\
    entityMap c2 = entityMap c.
Proof.
  intros Hb Hse Hwf Hafter. pose proof (getBlockForKey_key _ _ _ Hb) as Hk.
  unfold removeRangeFromContentState, isCollapsed. simpl.
  rewrite bool_decide_true by done. simpl.
  destruct (decide (s = e)) as [<-|Hne].
  - rewrite bool_decide_true by done. exists c, b. rewrite Hafter.
    rewrite !take_drop. done.
  - rewrite bool_decide_false by lia. unfold getStartKey, getEndKey, getStartOffset, getEndOffset.
    simpl. rewrite Hb.
    eexists _, _. split; [reflexivity|]. split; [done|].
    split.
    + unfold getBlockForKey; simpl. rewrite keys_between_same, omap_replace.
      change (map _ (blockMap c)) with (blockMap (set_block c (mkBlock k (b_type b)
        (js_slice (b_text b) 0 (Z.of_nat s) ++ js_slice_from (b_text b) (Z.of_nat e))
        (js_slice (b_chars b) 0 (Z.of_nat s) ++ js_slice_from (b_chars b) (Z.of_nat e))))).
      apply (getBlockForKey_set_block c b); done.
    + simpl. change 0 with (Z.of_nat 0).
      rewrite !js_slice_in_range, !js_slice_from_in_range by lia.
      rewrite !drop_0, !Nat.sub_0_r. done.
Qed.

(** [Modifier.replaceText] on a forward range inside one well-formed block
    replaces the range's text and metadata by the new text, every new
    character carrying the given style and entity. *)
Lemma Modifier_replaceText_in_block c k (s e : nat) b txt st ent :
  getBlockForKey c k = Some b -> block_wf b -> (s <= e <= length (b_text b))%nat ->
  exists c' b', Modifier_replaceText c (mkSel k (Z.of_nat s) k (Z.of_nat e) false) txt st ent = Some c' /\
    getBlockForKey c' k = Some b' /\ b_key b' = k /\ b_type b' = b_type b /\
    b_text b' = take s (b_text b) ++ txt ++ drop e (b_text b) /\
    b_chars b' = take s (b_chars b) ++ replicate (length txt) (mkChar st ent) ++ drop e (b_chars b) /\
    entityMap c' = entityMap c /\
    selectionAfter c' = mkSel k (Z.of_nat (s + length txt)) k (Z.of_nat (s + length txt)) false.
Proof.
  intros Hb Hwf Hse. unfold Modifier_replaceText, removeEntitiesAtEdges, getStartKey, getEndKey. simpl.
  rewrite Hb. cbn [mbind option_bind].
  destruct (removeRange_in_block (with_selections c (selectionBefore c) (mkSel k (Z.of_nat s) k (Z.of_nat e) false))
              k s e b) as (c2 & b2 & -> & Hafter & Hb2 & Hk2 & Hty & Ht & Hc & He);
    [by rewrite (getBlockForKey_blockMap _ c)|done|done|done|].
  cbn [mbind option_bind]. rewrite Hafter. unfold insertTextIntoContentState, isCollapsed. simpl.
  rewrite !bool_decide_true by done. simpl.
  unfold block_wf in Hwf.
  destruct (take_drop_prefix (b_text b) (drop e (b_text b)) s) as [Ht1 Ht2]; [lia|].
  destruct (take_drop_prefix (b_chars b) (drop e (b_chars b)) s) as [Hc1 Hc2]; [lia|].
  case_bool_decide as Hlen.
  - destruct txt; [|done]. exists c2, b2. simpl. rewrite Nat.add_0_r. done.
  - unfold getStartKey, getStartOffset. simpl. rewrite Hb2.
    assert (Hs2 : (s <= length (b_text b2))%nat) by (rewrite Ht, length_app, length_take; lia).
    assert (Hwf2 : block_wf b2).
    { unfold block_wf. rewrite Ht, Hc, !length_app, !length_take, !length_drop. lia. }
    destruct (insert_in_block_in_range b2 s txt (mkChar st ent) Hs2 Hwf2) as [Hti Hci].
    eexists _, _. split; [reflexivity|]. split.
    + rewrite (getBlockForKey_blockMap _ (set_block c2 (insert_in_block b2 (Z.of_nat s) txt (mkChar st ent))))
        by done.
      apply (getBlockForKey_set_block _ b2); done.
    + split; [done|]. split; [done|].
      rewrite Hti, Hci, Ht, Hc, Ht1, Ht2, Hc1, Hc2. do 3 (split; [done|]).
      simpl. unfold sel_with_offsets. simpl. f_equal; lia.
Qed.

(** With undo disabled, [EditorState.push] records no undo step. *)
(** [Modifier.removeRange] on a range inside one block cuts the range out
    of its text and metadata and leaves the caret at the range's start. *)
Lemma Modifier_removeRange_in_block c k (s e : nat) b :
  getBlockForKey c k = Some b -> block_wf b -> (s <= e <= length (b_text b))%nat ->
  exists c' b', Modifier_removeRange c (mkSel k (Z.of_nat s) k (Z.of_nat e) false) = Some c' /\
    selectionAfter c' = mkSel k (Z.of_nat s) k (Z.of_nat s) false /\
    getBlockForKey c' k = Some b' /\
    b_text b' = take s (b_text b) ++ drop e (b_text b) /\
    b_chars b' = take s (b_chars b) ++ drop e (b_chars b).
Proof.
  intros Hb Hwf Hse. unfold Modifier_removeRange, removeEntitiesAtEdges, getStartKey, getEndKey. simpl.
  rewrite Hb. cbn [mbind option_bind].
  destruct (removeRange_in_block (with_selections c (selectionBefore c) (mkSel k (Z.of_nat s) k (Z.of_nat e) false))
              k s e b) as (c2 & b2 & -> & Hafter & Hb2 & _ & _ & Ht & Hc & _);
    [by rewrite (getBlockForKey_blockMap _ c)|done|done|done|].
  by exists c2, b2.
Qed.

Lemma EditorState_push_no_undo es c ct :
  allowUndo es = false -> undoStack (EditorState_push es c ct) = undoStack es.
Proof. intros H. unfold EditorState_push. rewrite H. by case_decide. Qed.

(** Every key of the block map has a block. *)
Lemma getBlockForKey_of_key c k :
  k ∈ b_key <$> blockMap c -> is_Some (getBlockForKey c k).
Proof.
  intros (b & -> & Hin)%list_elem_of_fmap. unfold getBlockForKey.
  destruct (find _ _) eqn:Hf; [done|].
  apply list_elem_of_In in Hin. pose proof (find_none _ _ Hf b Hin) as Hb. simpl in Hb.
  by rewrite bool_decide_true in Hb.
Qed.

Lemma all_blocks_wf_of_Forall c : Forall block_wf (blockMap c) -> all_blocks_wf c.
Proof.
  intros Hall k b Hb. unfold getBlockForKey in Hb. apply find_some in Hb as [Hin _].
  rewrite Forall_forall in Hall. apply Hall. by apply list_elem_of_In.
Qed.

Lemma update_range_full op chars :
  update_range op chars 0 (Z.of_nat (length chars)) = op <$> chars.
Proof.
  apply list_eq. intros j. unfold update_range. rewrite list_lookup_imap, list_lookup_fmap.
  destruct (chars !! j) eqn:Hj; simpl; [|done].
  apply lookup_lt_Some in Hj. by rewrite bool_decide_true by lia.
Qed.

(** A character modifier on [[s, e)] inside the list: the list cut in
    three, the modifier mapped over the middle. *)
Lemma update_range_split op cs (s e : nat) :
  (s <= e <= length cs)%nat ->
  update_range op cs (Z.of_nat s) (Z.of_nat e) = take s cs ++ (op <$> take (e - s) (drop s cs)) ++ drop e cs.
Proof.
  intros H. apply list_eq. intros j. unfold update_range. rewrite list_lookup_imap.
  destruct (decide (j < s)%nat).
  - rewrite lookup_app_l by (rewrite length_take; lia). rewrite lookup_take, decide_True by lia.
    destruct (cs !! j); simpl; [|done]. by rewrite bool_decide_false by lia.
  - rewrite lookup_app_r by (rewrite length_take; lia). rewrite length_take.
    destruct (decide (j < e)%nat).
    + rewrite lookup_app_l by (rewrite length_fmap, length_take, length_drop; lia).
      rewrite list_lookup_fmap, lookup_take, decide_True, lookup_drop by lia.
      replace (s + (j - Nat.min s (length cs)))%nat with j by lia.
      destruct (cs !! j); simpl; [|done]. by rewrite bool_decide_true by lia.
    + rewrite lookup_app_r by (rewrite length_fmap, length_take, length_drop; lia).
      rewrite length_fmap, length_take, length_drop, lookup_drop.
      match goal with |- _ = cs !! ?x => replace x with j by lia end.
      destruct (cs !! j); simpl; [|done]. by rewrite bool_decide_false by lia.
Qed.

(** [Modifier.setBlockType] on a range inside one block retypes it. *)
Lemma Modifier_setBlockType_single c k a f bk ty b :
  getBlockForKey c k = Some b ->
  exists c', Modifier_setBlockType c (mkSel k a k f bk) ty = Some c' /\
    getBlockForKey c' k = Some (set_type ty b) /\
    (forall k', k' <> k -> getBlockForKey c' k' = getBlockForKey c k') /\
    entityMap c' = entityMap c.
Proof.
  intros Hb. pose proof (getBlockForKey_key _ _ _ Hb) as Hk.
  assert (HS : getStartKey (mkSel k a k f bk) = k /\ getEndKey (mkSel k a k f bk) = k)
    by (unfold getStartKey, getEndKey; by destruct bk).
  destruct HS as [HS HE].
  unfold Modifier_setBlockType, modify_range. rewrite HE, Hb, HS.
  destruct (modify_blocks_single k (fun b0 => Some (set_type ty b0)) (blockMap c) b (set_type ty b))
    as (bs' & -> & Hfk & Hfr); [exact Hb|done|done|].
  cbn [mbind option_bind]. eexists. split; [done|]. split; [exact Hfk|]. split; [|done].
  intros k' Hne. apply (Hfr k' Hne).
Qed.

(** ** Laws on a block list split around the edited blocks *)

Lemma modify_blocks_split k f pre x post y :
  Forall (fun z => b_key z <> k) pre -> b_key x = k -> f x = Some y ->
  modify_blocks k k f false (pre ++ x :: post) = Some (pre ++ y :: post).
Proof.
  intros Hpre Hx Hf. induction Hpre as [|z pre Hz _ IH]; simpl.
  - by rewrite !bool_decide_true, Hf by done.
  - rewrite !bool_decide_false by done. simpl. by rewrite IH.
Qed.

Lemma keys_between_adjacent ka kb pre x y post :
  Forall (fun z => b_key z <> ka) pre -> b_key x = ka -> b_key y = kb -> ka <> kb ->
  keys_between ka kb false (pre ++ x :: y :: post) = [ka; kb].
Proof.
  intros Hpre Hx Hy Hne. induction Hpre as [|z pre Hz _ IH]; simpl.
  - rewrite (bool_decide_true (b_key x = ka)), (bool_decide_false (b_key x = kb)) by congruence.
    simpl. by rewrite Hx, bool_decide_true.
  - by rewrite bool_decide_false by done.
Qed.

(** The [omap] of [removeRangeFromContentState] over two adjacent
    blocks: the first is replaced, the second dropped. *)
Lemma omap_remove_adjacent ka kb nb pre x y post :
  Forall (fun z => b_key z <> ka /\ b_key z <> kb) (pre ++ post) ->
  b_key x = ka -> b_key y = kb -> ka <> kb ->
  omap (fun b => if bool_decide (b_key b = ka) then Some nb
                 else if bool_decide (b_key b ∈ [ka; kb]) then None else Some b)
    (pre ++ x :: y :: post) = pre ++ nb :: post.
Proof.
  intros Hall Hx Hy Hne. apply Forall_app in Hall as [Hpre Hpost].
  assert (Hkeep : forall l, Forall (fun z => b_key z <> ka /\ b_key z <> kb) l ->
    omap (fun b => if bool_decide (b_key b = ka) then Some nb
                   else if bool_decide (b_key b ∈ [ka; kb]) then None else Some b) l = l).
  { induction 1 as [|z l [Hz1 Hz2] _ IH]; simpl; [done|].
    rewrite bool_decide_false by done. rewrite bool_decide_false by set_solver. simpl. by f_equal. }
  rewrite omap_app. rewrite Hkeep by done. simpl.
  rewrite bool_decide_true by done. rewrite (bool_decide_false (b_key y = ka)) by congruence.
  rewrite bool_decide_true by set_solver. simpl. by rewrite Hkeep.
Qed.

(** The [flatMap] of [splitBlockInContentState]. *)
Lemma flat_map_split_block ka above below pre a post :
  Forall (fun z => b_key z <> ka) (pre ++ post) -> b_key a = ka ->
  flat_map (fun x => if bool_decide (b_key x = ka) then [above; below] else [x]) (pre ++ a :: post) =
  pre ++ above :: below :: post.
Proof.
  intros Hall Ha. apply Forall_app in Hall as [Hpre Hpost].
  assert (Hkeep : forall l, Forall (fun z => b_key z <> ka) l ->
    flat_map (fun x => if bool_decide (b_key x = ka) then [above; below] else [x]) l = l).
  { induction 1 as [|z l Hz _ IH]; simpl; [done|]. rewrite bool_decide_false by done. simpl. by f_equal. }
  rewrite flat_map_app, Hkeep by done. simpl. rewrite bool_decide_true by done. simpl. by rewrite Hkeep.
Qed.

(** Lookup in a list whose prefix avoids the key. *)
Lemma find_key_split k pre x post :
  Forall (fun z => b_key z <> k) pre -> b_key x = k ->
  find (fun b => bool_decide (b_key b = k)) (pre ++ x :: post) = Some x.
Proof.
  intros Hpre Hx. induction Hpre as [|z pre Hz _ IH]; simpl.
  - by rewrite bool_decide_true.
  - by rewrite bool_decide_false.
Qed.

(** A push of a different content takes its [selectionAfter] and records
    the change type. *)
Lemma EditorState_push_changed es c ct :
  currentContent es <> c ->
  selection (EditorState_push es c ct) = selectionAfter c /\
  lastChangeType (EditorState_push es c ct) = Some ct /\
  blockMap (currentContent (EditorState_push es c ct)) = blockMap c.
Proof.
  intros Hne. unfold EditorState_push. rewrite decide_False by done.
  destruct (allowUndo es); simpl; [|done]. repeat case_match; simplify_eq; done.
Qed.

Lemma block_after_split pre b post k :
  Forall (fun y => bool_decide (b_key y = k) = false) pre -> b_key b = k ->
  block_after (pre ++ b :: post) k = head post.
Proof.
  intros Hpre Hk. induction Hpre as [|y pre Hy _ IH]; simpl.
  - by rewrite bool_decide_true.
  - by rewrite Hy.
Qed.
