(* ===== verification/DraftWf.v ===== *)
(** * Well-formed documents and the host operations that keep them so

    A block is well formed when its metadata list is as long as its text
    ([block_wf]); a content is well formed when every block of its block
    map is ([content_wf]), an editor state when its current content is
    ([editor_wf]).  Every [Modifier] transform of [Draft.v], the entity
    map update and the editor-state operations preserve the invariant,
    whatever their arguments: the slices they take of a block's text and of
    its metadata are cut at the same offsets, so they have the same length.
    The lemmas are registered in the [draft_wf] hint database, and
    [wf_auto] closes the goals that compose them.  The class [WfStep]
    states the promise a step of a pipeline makes (well formed in, well
    formed out); sequencing preserves it. *)

From S2P Require Import Prelude Draft.

(** ** The invariant *)

Definition content_wf (c : ContentState) : Prop := Forall block_wf (blockMap c).

#[export] Instance content_wf_dec c : Decision (content_wf c).
Proof. unfold content_wf. apply _. Defined.

Definition editor_wf (es : EditorState) : Prop := content_wf (currentContent es).

#[export] Instance editor_wf_dec es : Decision (editor_wf es).
Proof. unfold editor_wf. apply _. Defined.

Create HintDb draft_wf.

(** ** Slices of lists of equal length *)

Lemma length_js_slice_eq {A B} (l1 : list A) (l2 : list B) s e :
  length l1 = length l2 -> length (js_slice l1 s e) = length (js_slice l2 s e).
Proof.
  intros Hl. pose proof (js_slice_length l1 s e) as H1. pose proof (js_slice_length l2 s e) as H2.
  rewrite Hl in H1. lia.
Qed.

Lemma length_js_slice_from_eq {A B} (l1 : list A) (l2 : list B) s :
  length l1 = length l2 -> length (js_slice_from l1 s) = length (js_slice_from l2 s).
Proof. intros Hl. unfold js_slice_from. rewrite Hl. by apply length_js_slice_eq. Qed.

(** ** Lemmas on the invariant *)

Lemma content_wf_all_blocks c : content_wf c -> all_blocks_wf c.
Proof. apply all_blocks_wf_of_Forall. Qed.

Lemma getBlockForKey_elem_of c k b : getBlockForKey c k = Some b -> b ∈ blockMap c.
Proof. unfold getBlockForKey. intros H. apply find_some in H as [H _]. by apply list_elem_of_In. Qed.

Lemma content_wf_block c k b : content_wf c -> getBlockForKey c k = Some b -> block_wf b.
Proof.
  intros Hwf Hb. apply getBlockForKey_elem_of in Hb. unfold content_wf in Hwf.
  rewrite Forall_forall in Hwf. auto.
Qed.

Lemma with_selections_wf c b a : content_wf c -> content_wf (with_selections c b a).
Proof. done. Qed.

Lemma createEntity_wf c ty mu : content_wf c -> content_wf (createEntity c ty mu).
Proof. done. Qed.

Lemma set_block_wf c nb : block_wf nb -> content_wf c -> content_wf (set_block c nb).
Proof.
  intros Hnb Hwf. unfold content_wf, set_block; simpl. apply Forall_fmap.
  eapply Forall_impl; [exact Hwf|]. intros b Hb. simpl. by case_bool_decide.
Qed.

(** ** The character and type modifiers *)

Lemma update_chars_loop_length op cs i n cs' :
  update_chars_loop op cs i n = Some cs' -> length cs' = length cs.
Proof.
  revert cs i. induction n as [|n IH]; intros cs i; simpl; [congruence|].
  destruct (imm_get cs i); [|done]. intros H. rewrite (IH _ _ H). apply length_imm_set.
Qed.

Lemma modify_blocks_Forall (P : ContentBlock -> Prop) sk ek f :
  (forall b b', P b -> f b = Some b' -> P b') ->
  forall started bs bs', Forall P bs -> modify_blocks sk ek f started bs = Some bs' -> Forall P bs'.
Proof.
  intros Hf started bs. revert started. induction bs as [|b bs IH]; intros started bs' Hall H;
    simpl in H; [by injection H as <-|].
  apply Forall_cons in Hall as [Hb Hbs].
  destruct (bool_decide (b_key b = ek)), (started || _); opt_inv; constructor; eauto.
Qed.

Lemma modify_range_wf c sel f c' :
  (forall b b', block_wf b -> f b = Some b' -> block_wf b') ->
  modify_range c sel f = Some c' -> content_wf c -> content_wf c'.
Proof.
  intros Hf. unfold modify_range. destruct (getBlockForKey _ _); [|done].
  destruct (modify_blocks _ _ _ _ _) eqn:Hm; simplify_eq/=; [|done].
  intros [= <-] Hwf. eapply modify_blocks_Forall; eauto.
Qed.

Lemma Modifier_setBlockType_wf c sel ty c' :
  Modifier_setBlockType c sel ty = Some c' -> content_wf c -> content_wf c'.
Proof. apply modify_range_wf. intros b b' Hb [= <-]. done. Qed.

Lemma modify_chars_wf c sel op c' :
  modify_chars c sel op = Some c' -> content_wf c -> content_wf c'.
Proof.
  apply modify_range_wf. intros b b' Hb. destruct (range_in_block sel b) as [s e].
  destruct (update_chars op (b_chars b) s e) as [cs|] eqn:Hu; simplify_eq/=; [|done].
  intros [= <-]. unfold block_wf in *. simpl. by rewrite (update_chars_loop_length _ _ _ _ _ Hu).
Qed.

Lemma Modifier_removeInlineStyle_wf c sel st c' :
  Modifier_removeInlineStyle c sel st = Some c' -> content_wf c -> content_wf c'.
Proof. apply modify_chars_wf. Qed.

Lemma Modifier_applyEntity_wf c sel k c' :
  Modifier_applyEntity c sel k = Some c' -> content_wf c -> content_wf c'.
Proof. apply modify_chars_wf. Qed.

(** ** The text modifiers *)

Lemma removeEntitiesAtEdges_wf c sel c' :
  removeEntitiesAtEdges c sel = Some c' -> content_wf c -> content_wf c'.
Proof. unfold removeEntitiesAtEdges. repeat case_match; intros; simplify_eq; done. Qed.

Lemma removeRangeFromContentState_wf c sel c' :
  removeRangeFromContentState c sel = Some c' -> content_wf c -> content_wf c'.
Proof.
  unfold removeRangeFromContentState. destruct (isCollapsed sel); [by intros [= <-]|].
  destruct (getBlockForKey c (getStartKey sel)) as [sb|] eqn:Hsb; [|done].
  destruct (getBlockForKey c (getEndKey sel)) as [eb|] eqn:Heb; [|done].
  intros [= <-] Hwf. pose proof (content_wf_block _ _ _ Hwf Hsb) as Hs.
  pose proof (content_wf_block _ _ _ Hwf Heb) as He.
  unfold content_wf; simpl. apply Forall_forall. intros y (x & Hx & Hg)%list_elem_of_omap.
  repeat case_bool_decide; simplify_eq.
  - unfold block_wf in *; simpl. rewrite !length_app.
    by rewrite (length_js_slice_eq _ _ _ _ Hs), (length_js_slice_from_eq _ _ _ He).
  - unfold content_wf in Hwf. rewrite Forall_forall in Hwf. auto.
Qed.

Lemma insert_in_block_wf_any b off txt m : block_wf b -> block_wf (insert_in_block b off txt m).
Proof.
  unfold block_wf, insert_in_block. simpl. intros Hb. rewrite !length_app, length_replicate.
  by rewrite (length_js_slice_eq _ _ _ _ Hb), (length_js_slice_from_eq _ _ _ Hb).
Qed.

Lemma insertTextIntoContentState_wf c sel txt m c' :
  insertTextIntoContentState c sel txt m = Some c' -> content_wf c -> content_wf c'.
Proof.
  unfold insertTextIntoContentState. destruct (isCollapsed sel); simpl; [|done].
  case_bool_decide; [by intros [= <-]|].
  destruct (getBlockForKey c _) as [b|] eqn:Hb; [|done]. intros [= <-] Hwf.
  apply with_selections_wf, set_block_wf; [|done].
  apply insert_in_block_wf_any. by apply (content_wf_block c (getStartKey sel)).
Qed.

Lemma Modifier_replaceText_wf c r txt st ent c' :
  Modifier_replaceText c r txt st ent = Some c' -> content_wf c -> content_wf c'.
Proof.
  unfold Modifier_replaceText. intros H Hwf. opt_inv.
  eapply insertTextIntoContentState_wf; [done|].
  eapply removeRangeFromContentState_wf; [done|]. by eapply removeEntitiesAtEdges_wf.
Qed.

Lemma Modifier_insertText_wf c r txt st ent c' :
  Modifier_insertText c r txt st ent = Some c' -> content_wf c -> content_wf c'.
Proof. unfold Modifier_insertText. case_match; [apply Modifier_replaceText_wf|done]. Qed.

Lemma Modifier_removeRange_wf c r c' :
  Modifier_removeRange c r = Some c' -> content_wf c -> content_wf c'.
Proof.
  unfold Modifier_removeRange. intros H Hwf. opt_inv.
  eapply removeRangeFromContentState_wf; [done|]. by eapply removeEntitiesAtEdges_wf.
Qed.

Lemma splitBlockInContentState_wf c sel kb c' :
  splitBlockInContentState c sel kb = Some c' -> content_wf c -> content_wf c'.
Proof.
  unfold splitBlockInContentState. destruct (isCollapsed sel); simpl; [|done].
  destruct (getBlockForKey c _) as [b|] eqn:Hb; [|done]. intros [= <-] Hwf.
  pose proof (content_wf_block _ _ _ Hwf Hb) as Hbw. unfold content_wf in *; simpl.
  rewrite Forall_forall in *. intros y Hy. apply list_elem_of_In, in_flat_map in Hy as (x & Hx & Hy).
  apply list_elem_of_In in Hx. case_bool_decide; simpl in Hy.
  - unfold block_wf in *. destruct Hy as [<- | [<- | []]]; simpl.
    + by apply length_js_slice_eq.
    + by apply length_js_slice_from_eq.
  - destruct Hy as [<- | []]. auto.
Qed.

Lemma Modifier_splitBlock_wf c sel kb c' :
  Modifier_splitBlock c sel kb = Some c' -> content_wf c -> content_wf c'.
Proof.
  unfold Modifier_splitBlock. intros H Hwf. opt_inv.
  eapply splitBlockInContentState_wf; [done|].
  eapply removeRangeFromContentState_wf; [done|]. by eapply removeEntitiesAtEdges_wf.
Qed.

(** ** The editor-state operations *)

Lemma EditorState_push_wf es c ct :
  content_wf c -> editor_wf (EditorState_push es c ct) <-> editor_wf es \/ currentContent es <> c.
Proof.
  intros Hc. unfold EditorState_push, editor_wf. case_decide as Heq.
  - subst. tauto.
  - destruct (allowUndo es); simpl; [|tauto]. repeat case_match; simplify_eq; simpl; tauto.
Qed.

Lemma EditorState_push_preserves_wf es c ct :
  content_wf c -> editor_wf es -> editor_wf (EditorState_push es c ct).
Proof. intros Hc Hes. apply EditorState_push_wf; auto. Qed.

Lemma EditorState_forceSelection_wf es s : editor_wf es -> editor_wf (EditorState_forceSelection es s).
Proof. done. Qed.

Lemma EditorState_setAllowUndo_wf es b : editor_wf es -> editor_wf (EditorState_setAllowUndo es b).
Proof. done. Qed.

(** ** Steps that keep documents well formed

    The interface between the steps of a pipeline and the pipeline: a
    step of the editor (a function that may throw) promises to return a
    well-formed state from a well-formed one.  Sequencing two such steps
    keeps the promise, so a pipeline's guarantee is derived from its
    steps' instances by type-class resolution. *)
Class WfStep (f : EditorState -> option EditorState) : Prop :=
  wf_step : forall es es', f es = Some es' -> editor_wf es -> editor_wf es'.
Arguments wf_step f {_} es es'.

#[export] Instance WfStep_ret : WfStep Some.
Proof. by intros es es' [= <-]. Qed.

#[export] Instance WfStep_bind f g `{!WfStep f} `{!WfStep g} : WfStep (fun es => f es ≫= g).
Proof.
  intros es es' H Hwf. destruct (f es) as [e1|] eqn:E; [|done].
  apply (wf_step g e1); [done|]. by apply (wf_step f es).
Qed.

#[export] Hint Resolve content_wf_all_blocks with_selections_wf createEntity_wf set_block_wf
  insert_in_block_wf_any EditorState_push_preserves_wf EditorState_forceSelection_wf
  EditorState_setAllowUndo_wf : draft_wf.
#[export] Hint Resolve Modifier_setBlockType_wf Modifier_removeInlineStyle_wf
  Modifier_applyEntity_wf Modifier_replaceText_wf Modifier_insertText_wf Modifier_removeRange_wf
  Modifier_splitBlock_wf removeRangeFromContentState_wf insertTextIntoContentState_wf : draft_wf.

Ltac wf_auto := eauto 8 with draft_wf.
