(* ===== verification/Regex.v ===== *)
(** * The JavaScript regular expressions of the registries

    The block registry ([blocks.ts]) and the inline registry
    ([Editor.tsx]) use five shapes of regular expression:
    [/^(#) /] ... [/^(######) /], [/^> /], [/^- /], [/1[.)] /] and the
    global [/`([^`]+)`/g].  This file models the fragment they live in as a
    list of atoms (a literal, a character class, a greedy [+] over a negated
    class, the brackets of capture group 1) with an optional [^] anchor and
    the [g] flag, and [RegExp.prototype.exec] as the backtracking, leftmost
    matcher of ECMAScript, including the [lastIndex] state a global
    expression keeps between calls.

    Lemmas: a match found by [match_here] or [search] lies inside the
    subject and is at least [min_len] characters long; a successful [exec]
    of a global expression sets [lastIndex] to the end of the match, at
    least [min_len] past the old [lastIndex] and within the subject, and a
    failed one resets it to [0] (the basis of the termination of the rescan
    loop in [InlineEntities.v]); the match is never longer than the
    subject. *)

From S2P Require Import Prelude.

Open Scope Z_scope.
Open Scope draft_scope.

Inductive atom :=
  | ALit (c : ascii)            (** a literal character *)
  | AClass (cs : list ascii)    (** [[...]] *)
  | APlusNot (cs : list ascii)  (** [[^...]+], greedy *)
  | AOpen                       (** [(] of group 1 *)
  | AClose.                     (** [)] of group 1 *)

Record RegExp := mkRegExp {
  re_anchored : bool;           (** starts with [^] *)
  re_atoms : list atom;
  re_global : bool;             (** the [g] flag *)
  re_lastIndex : nat;
}.

(** The [RegExpExecArray]: [index], [match[0]] and [match[1]]. *)
Record ExecResult := mkExec {
  ex_index : nat;
  ex_match : list ascii;
  ex_group1 : option (list ascii);
}.

Definition groups := (option nat * option nat)%type.

(** Greedy [+]: try the longest run first, then shorter ones. *)
Fixpoint try_lengths {R} (f : nat -> option R) (n : nat) : option R :=
  match n with
  | O => None
  | S n' => match f n with Some r => Some r | None => try_lengths f n' end
  end.

(** The length of the longest prefix of [s] outside [cs]. *)
Fixpoint run_not (cs : list ascii) (s : list ascii) : nat :=
  match s with
  | [] => O
  | x :: s' => if bool_decide (x ∈ cs) then O else S (run_not cs s')
  end.

(** Match [atoms] at the start of [s] (the subject from position [pos]
    on); the result is the end position and group 1's bounds. *)
Fixpoint match_here (atoms : list atom) (s : list ascii) (pos : nat) (g : groups)
  : option (nat * groups) :=
  match atoms with
  | [] => Some (pos, g)
  | ALit c :: r =>
      match s with
      | x :: s' => if bool_decide (x = c) then match_here r s' (S pos) g else None
      | [] => None
      end
  | AClass cs :: r =>
      match s with
      | x :: s' => if bool_decide (x ∈ cs) then match_here r s' (S pos) g else None
      | [] => None
      end
  | APlusNot cs :: r =>
      try_lengths (fun k => match_here r (drop k s) (pos + k) g) (run_not cs s)
  | AOpen :: r => match_here r s pos (Some pos, snd g)
  | AClose :: r => match_here r s pos (fst g, Some pos)
  end.

(** Scan the start positions from [i] on (the subject suffix is [s]). *)
Fixpoint search (atoms : list atom) (s : list ascii) (i : nat) : option (nat * nat * groups) :=
  match match_here atoms s i (None, None) with
  | Some (e, g) => Some (i, e, g)
  | None => match s with [] => None | _ :: s' => search atoms s' (S i) end
  end.

Definition group_text (subject : list ascii) (g : groups) : option (list ascii) :=
  match g with
  | (Some b, Some e) => Some (take (e - b) (drop b subject))
  | _ => None
  end.

Definition set_lastIndex (re : RegExp) (n : nat) : RegExp :=
  mkRegExp (re_anchored re) (re_atoms re) (re_global re) n.

(** [re.exec(subject)]: the result and the expression with its new
    [lastIndex]. *)
Definition exec (re : RegExp) (subject : list ascii) : option ExecResult * RegExp :=
  let start := if re_global re then re_lastIndex re else O in
  let found :=
    if (length subject <? start)%nat then None
    else if re_anchored re then
      (if bool_decide (start = O) then
         match match_here (re_atoms re) subject O (None, None) with
         | Some (e, g) => Some (O, e, g)
         | None => None
         end
       else None)
    else search (re_atoms re) (drop start subject) start in
  match found with
  | None => (None, if re_global re then set_lastIndex re O else re)
  | Some (i, e, g) =>
      (Some (mkExec i (take (e - i) (drop i subject)) (group_text subject g)),
       if re_global re then set_lastIndex re e else re)
  end.

(** [String.prototype.match] with a non-global expression. *)
Definition str_match (subject : list ascii) (re : RegExp) : option ExecResult :=
  fst (exec re subject).

(** [match[i] ? 1 : 0] then [match[..].length]: the length of group 1 when
    it is a non-empty string, of the whole match otherwise. *)
Definition matched_prefix (m : ExecResult) : list ascii :=
  match ex_group1 m with
  | Some ((_ :: _) as g) => g
  | _ => ex_match m
  end.

(** [match[1] || match[0]]. *)
Definition group_or_match (m : ExecResult) : list ascii := matched_prefix m.

(** The least number of characters the atoms consume. *)
Fixpoint min_len (atoms : list atom) : nat :=
  match atoms with
  | [] => O
  | (ALit _ | AClass _ | APlusNot _) :: r => S (min_len r)
  | (AOpen | AClose) :: r => min_len r
  end.

(** ** Lemmas *)

Lemma try_lengths_Some {R} (f : nat -> option R) n r :
  try_lengths f n = Some r -> exists k, (1 <= k <= n)%nat /\ f k = Some r.
Proof.
  induction n as [|n IH]; simpl; [done|].
  destruct (f (S n)) eqn:Hf; [intros [= <-]; exists (S n); split; [lia|done]|].
  intros H. destruct (IH H) as (k & Hk & Hfk). exists k. split; [lia|done].
Qed.

Lemma run_not_le cs s : (run_not cs s <= length s)%nat.
Proof. induction s as [|x s IH]; simpl; [lia|]. case_bool_decide; lia. Qed.

(** A match ends at least [min_len] and at most the subject's length after
    its start. *)
Lemma match_here_bounds atoms s pos g e g' :
  match_here atoms s pos g = Some (e, g') ->
  (pos + min_len atoms <= e <= pos + length s)%nat.
Proof.
  revert s pos g. induction atoms as [|a atoms IH]; intros s pos g; simpl.
  - intros [= <- _]. lia.
  - destruct a as [c|cs|cs| |].
    + destruct s as [|x s]; [done|]. case_bool_decide; [|done].
      intros Hm%IH. simpl. lia.
    + destruct s as [|x s]; [done|]. case_bool_decide; [|done].
      intros Hm%IH. simpl. lia.
    + intros Hm. apply try_lengths_Some in Hm as (k & Hk & Hm). apply IH in Hm.
      pose proof (run_not_le cs s). rewrite length_drop in Hm. lia.
    + apply IH.
    + apply IH.
Qed.

Lemma search_bounds atoms s i i' e g :
  search atoms s i = Some (i', e, g) ->
  (i <= i' /\ i' + min_len atoms <= e <= i + length s)%nat.
Proof.
  revert i. induction s as [|x s IH]; intros i; simpl.
  - destruct (match_here atoms [] i _) as [[e' g']|] eqn:Hm; [|done].
    intros [= <- <- _]. apply match_here_bounds in Hm. simpl in Hm. lia.
  - destruct (match_here atoms (x :: s) i _) as [[e' g']|] eqn:Hm.
    + intros [= <- <- _]. apply match_here_bounds in Hm. simpl in Hm. lia.
    + intros Hs%IH. simpl. lia.
Qed.

(** A successful [exec] of a global expression sets [lastIndex] to the end
    of the match, which lies between the old [lastIndex] plus [min_len] and
    the length of the subject. *)
Lemma exec_global_Some re s m re' :
  re_global re = true -> exec re s = (Some m, re') ->
  re' = set_lastIndex re (re_lastIndex re') /\
  re_lastIndex re' = (ex_index m + length (ex_match m))%nat /\
  (re_lastIndex re + min_len (re_atoms re) <= re_lastIndex re' <= length s)%nat.
Proof.
  intros Hg. unfold exec. rewrite Hg.
  destruct (Nat.ltb_spec (length s) (re_lastIndex re)) as [_|Hle]; [done|].
  destruct (re_anchored re).
  - case_bool_decide as H0; [|done].
    destruct (match_here _ s O _) as [[e g]|] eqn:Hm; [|done].
    intros [= <- <-]. apply match_here_bounds in Hm. simpl.
    rewrite length_take, drop_0. split; [done|]. split; lia.
  - destruct (search _ _ _) as [[[i e] g]|] eqn:Hs; [|done].
    intros [= <- <-]. apply search_bounds in Hs. rewrite length_drop in Hs. simpl.
    rewrite length_take, length_drop. split; [done|]. split; lia.
Qed.

(** A failed [exec] of a global expression resets [lastIndex] to [0]. *)
Lemma exec_global_None re s :
  re_global re = true -> fst (exec re s) = None -> snd (exec re s) = set_lastIndex re O.
Proof. intros Hg. unfold exec. rewrite Hg. by repeat case_match. Qed.

Lemma set_lastIndex_twice re a b : set_lastIndex (set_lastIndex re a) b = set_lastIndex re b.
Proof. done. Qed.

Lemma set_lastIndex_fields re n :
  re_atoms (set_lastIndex re n) = re_atoms re /\ re_global (set_lastIndex re n) = re_global re /\
  re_lastIndex (set_lastIndex re n) = n.
Proof. done. Qed.

Lemma exec_match_length re s m : fst (exec re s) = Some m -> (length (ex_match m) <= length s)%nat.
Proof.
  unfold exec. repeat case_match; simpl; intros; simplify_eq; simpl;
    rewrite length_take, length_drop; lia.
Qed.

(** A match is at least [min_len] characters long. *)
Lemma exec_match_min re s m : fst (exec re s) = Some m -> (min_len (re_atoms re) <= length (ex_match m))%nat.
Proof.
  unfold exec. destruct (_ <? _)%nat eqn:Hlt; [done|]. apply Nat.ltb_ge in Hlt.
  destruct (re_anchored re).
  - case_bool_decide; [|done]. destruct (match_here _ s O _) as [[e g]|] eqn:Hm; [|done].
    intros [= <-]. apply match_here_bounds in Hm. simpl. rewrite length_take, drop_0. lia.
  - destruct (search _ _ _) as [[[i e] g]|] eqn:Hs; [|done].
    intros [= <-]. apply search_bounds in Hs. rewrite length_drop in Hs. simpl.
    rewrite length_take, length_drop. lia.
Qed.

(** [search] skips the start positions at which the atoms do not match. *)
Lemma search_skip atoms pre s i :
  (forall j, (j < length pre)%nat -> match_here atoms (drop j pre ++ s) (i + j) (None, None) = None) ->
  search atoms (pre ++ s) i = search atoms s (i + length pre).
Proof.
  revert i. induction pre as [|x pre IH]; intros i H; simpl; [by rewrite Nat.add_0_r|].
  pose proof (H O ltac:(simpl; lia)) as H0. simpl in H0. rewrite Nat.add_0_r in H0. rewrite H0.
  rewrite IH; [f_equal; lia|]. intros j Hj. replace (S i + j)%nat with (i + S j)%nat by lia.
  apply (H (S j)). simpl. lia.
Qed.

(** [run_not] stops at the first excluded character. *)
Lemma run_not_app cs s c rest :
  Forall (fun x => x ∉ cs) s -> c ∈ cs -> run_not cs (s ++ c :: rest) = length s.
Proof.
  intros Hs Hc. induction Hs as [|x s Hx _ IH]; simpl.
  - by rewrite bool_decide_true.
  - rewrite bool_decide_false by done. by rewrite IH.
Qed.

Lemma search_here atoms s i e g :
  match_here atoms s i (None, None) = Some (e, g) -> search atoms s i = Some (i, e, g).
Proof. intros H. destruct s; simpl; by rewrite H. Qed.
