(* ===== verification/DraftUtils.v ===== *)
(** * [src/app/utils/draftUtils.ts]: range and style query utilities

    The pure helpers of draftUtils.ts (spec §4.2): the selection
    builders, [hasEdgeWithin], [rangesOverlap], the contiguous style range
    scans, [stripEntitiesFromBlock], [stripStylesFromBlock], the
    change-inspection helpers and [performUnUndoableEdits].  The
    dependent-edit compiler of the same file is in [DependentEdits.v].

    Theorems: [rangesOverlap] is symmetric and, on non-empty half-open
    intervals, is exactly "the intervals share a point" (an empty range
    inside another is reported as overlapping: a finding); the two scanning
    loops of [getContiguousStyleRange] (Fixpoints with exactly the number
    of iterations the loop can make as fuel) return the maximal run around
    an index whose character passes the filter, and the inverted range
    [[i + 1, i)] around one that fails (a finding);
    [getEquivalentStyleRangeAtOffset] throws at the end of every block (a
    finding); on a document with unique keys the walk of
    [forEachBlockInSelection] reaches the end block within its fuel (the
    number of blocks) and [getTextFromSelection] returns the selected tail,
    middle blocks and head joined by the delimiter.  Lemmas: [stripEntitiesFromBlock] succeeds on a well-formed
    block with registered entity keys and changes neither its text nor any
    other block; [performUnUndoableEdits] around a push records no undo
    step.  Also: the scanning loops agree at every index with a list-level
    reference ([contiguous_range_ref], built on [prefix_run]); the ranges
    a decorator strategy reports are non-empty, increasing, disjoint and
    inside the block ([ranges_chain]); [stripStylesFromBlock] on a range
    removes exactly the filtered styles, and truncates the block when
    [end] is [0] (a finding); the inserted and deleted characters read
    back after an insertion, a backspace and a forward delete are the
    ones the host changed; [getAdjacentCharacters] at the edges of a
    block. *)

From S2P Require Import Prelude Draft.

Open Scope Z_scope.
Open Scope draft_scope.

(** ** Ranges and selections *)

Record Range := mkRange {
  r_blockKey : string;
  r_start : Z;
  r_end : Z;
}.

#[export] Instance Range_eq_dec : EqDecision Range.
Proof. solve_decision. Defined.

(** [createSelectionWithRange(blockKey, start, end)]. *)
Definition createSelectionWithRange (key : string) (start end_ : Z) : SelectionState :=
  mkSel key start key end_ false.

(** [createSelectionWithSelection(selection, moveAnchor, moveFocus)]. *)
Definition createSelectionWithSelection (s : SelectionState) (ma mf : Z) : SelectionState :=
  sel_with_offsets s (anchorOffset s + ma) (focusOffset s + mf).

(** [createSelectionWithBlock(block)]: the whole block. *)
Definition createSelectionWithBlock (b : ContentBlock) : SelectionState :=
  mkSel (b_key b) 0 (b_key b) (getLength b) false.

(** [hasEdgeWithin]: for a selection inside one block, the block must be
    the focus block and one of the two offsets must lie in [[start, end]]. *)
Definition hasEdgeWithin (s : SelectionState) (blockKey : string) (start end_ : Z) : bool :=
  if negb (bool_decide (focusKey s = anchorKey s)) then sel_hasEdgeWithin s blockKey start end_
  else if negb (bool_decide (focusKey s = blockKey)) then false
  else (bool_decide (start <= focusOffset s) && bool_decide (focusOffset s <= end_)) ||
       (bool_decide (start <= anchorOffset s) && bool_decide (anchorOffset s <= end_)).

(** [rangesOverlapUnidirectionally]. *)
Definition rangesOverlapUnidirectionally (a b : Z * Z) : bool :=
  bool_decide (a.1 <= b.1) && bool_decide (b.1 < a.2).

(** [rangesOverlap]. *)
Definition rangesOverlap (a b : Z * Z) : bool :=
  rangesOverlapUnidirectionally a b || rangesOverlapUnidirectionally b a.

(** [performUnUndoableEdits(editorState, performEdits)]. *)
Definition performUnUndoableEdits (es : EditorState) (f : EditorState -> EditorState) : EditorState :=
  EditorState_setAllowUndo (f (EditorState_setAllowUndo es false)) true.

(** ** Contiguous style ranges *)

(** [while (start >= 0 && filter(characters.get(start))) start--;]
    run for at most [fuel] iterations; [filter(undefined)] throws. *)
Fixpoint scan_left (f : CharacterMetadata -> bool) (chars : list CharacterMetadata)
    (start : Z) (fuel : nat) : option Z :=
  match fuel with
  | O => Some start
  | S n =>
      if bool_decide (0 <= start) then
        match imm_get chars start with
        | None => None
        | Some c => if f c then scan_left f chars (start - 1) n else Some start
        end
      else Some start
  end.

(** [while (end < characters.size && filter(characters.get(end))) end++;] *)
Fixpoint scan_right (f : CharacterMetadata -> bool) (chars : list CharacterMetadata)
    (end_ : Z) (fuel : nat) : option Z :=
  match fuel with
  | O => Some end_
  | S n =>
      if bool_decide (end_ < Z.of_nat (length chars)) then
        match imm_get chars end_ with
        | None => None
        | Some c => if f c then scan_right f chars (end_ + 1) n else Some end_
        end
      else Some end_
  end.

(** [getContiguousStyleRange(block, filter, aroundIndex)].  The left loop
    runs at most [aroundIndex + 1] times, the right loop at most
    [size - aroundIndex] times: these are the fuels. *)
Definition getContiguousStyleRange (b : ContentBlock) (f : CharacterMetadata -> bool)
    (aroundIndex : Z) : option Range :=
  let chars := b_chars b in
  start ← scan_left f chars aroundIndex (Z.to_nat (aroundIndex + 1));
  end_ ← scan_right f chars aroundIndex (Z.to_nat (Z.of_nat (length chars) - aroundIndex));
  Some (mkRange (b_key b) (start + 1) end_).

(** The reference for the two scans: the length of the run of characters
    passing the filter at the head of a list. *)
Fixpoint prefix_run {A} (f : A -> bool) (l : list A) : nat :=
  match l with [] => O | x :: l' => if f x then S (prefix_run f l') else O end.

(** The range around index [i] in list terms: the run ending at [i] read
    backwards, the run starting at [i] read forwards. *)
Definition contiguous_range_ref (b : ContentBlock) (f : CharacterMetadata -> bool) (i : nat) : Range :=
  mkRange (b_key b) (Z.of_nat i + 1 - Z.of_nat (prefix_run f (reverse (take (S i) (b_chars b)))))
    (Z.of_nat (i + prefix_run f (drop i (b_chars b)))).

(** The string overload: [char.hasStyle(styleKey)]. *)
Definition hasStyle (st : string) (c : CharacterMetadata) : bool :=
  bool_decide (st ∈ cm_style c).

(** [block.getInlineStyleAt(offset)]. *)
Definition getInlineStyleAt (b : ContentBlock) (offset : Z) : list string :=
  match imm_get (b_chars b) offset with Some c => cm_style c | None => [] end.

(** The character at a valid index, as a total function. *)
Definition char_at (chars : list CharacterMetadata) (i : Z) : CharacterMetadata :=
  default EMPTY_CHAR (imm_get chars i).

(** ** Style ranges around offsets and selections *)

(** [Map.set(key, value)] on an Immutable map kept in insertion order. *)
Fixpoint amap_set {V} (k : string) (v : V) (m : list (string * V)) : list (string * V) :=
  match m with
  | [] => [(k, v)]
  | (k', v') :: m' => if bool_decide (k = k') then (k, v) :: m' else (k', v') :: amap_set k v m'
  end.

(** The reduce of the [getContiguousStyleRanges...] functions: every style
    passing [styleKeyFilter] is mapped to its contiguous range around
    [at_ style]. *)
Fixpoint style_ranges (b : ContentBlock) (styleKeyFilter : string -> bool) (at_ : string -> Z)
    (styles : list string) (acc : list (string * Range)) : option (list (string * Range)) :=
  match styles with
  | [] => Some acc
  | st :: sts =>
      if styleKeyFilter st then
        r ← getContiguousStyleRange b (hasStyle st) (at_ st);
        style_ranges b styleKeyFilter at_ sts (amap_set st r acc)
      else style_ranges b styleKeyFilter at_ sts acc
  end.

(** [getContiguousStyleRangesAtOffset(block, offset, styleKeyFilter)]. *)
Definition getContiguousStyleRangesAtOffset (b : ContentBlock) (offset : Z)
    (styleKeyFilter : string -> bool) : option (list (string * Range)) :=
  style_ranges b styleKeyFilter (fun _ => offset) (getInlineStyleAt b (Z.max 0 offset)) [].

(** [getEquivalentStyleRangeAtOffset(block, offset)]: the style set is read
    at [max(0, offset)], the range is scanned around [offset]. *)
Definition getEquivalentStyleRangeAtOffset (b : ContentBlock) (offset : Z)
  : option (list string * Range) :=
  let stylesAtOffset := getInlineStyleAt b (Z.max 0 offset) in
  r ← getContiguousStyleRange b (fun ch => bool_decide (cm_style ch = stylesAtOffset)) offset;
  Some (stylesAtOffset, r).

(** [OrderedSet.subtract], [union] and [add]. *)
Definition oset_subtract (a b : list string) : list string := filter (fun x => x ∉ b) a.
Definition oset_union (a b : list string) : list string := a ++ filter (fun x => x ∉ a) b.
Definition oset_add {A} `{EqDecision A} (a : list A) (x : A) : list A :=
  if bool_decide (x ∈ a) then a else a ++ [x].

(** [getContiguousStyleRangesNearOffset(block, offset, styleKeyFilter)]:
    the styles at [offset], and those at [offset - 1] only, scanned around
    [offset - 1]. *)
Definition getContiguousStyleRangesNearOffset (b : ContentBlock) (offset : Z)
    (styleKeyFilter : string -> bool) : option (list (string * Range)) :=
  let stylesAtOffset := getInlineStyleAt b offset in
  let stylesAdjacentToOffset :=
    if bool_decide (0 < offset) then oset_subtract (getInlineStyleAt b (offset - 1)) stylesAtOffset
    else [] in
  style_ranges b styleKeyFilter
    (fun st => if bool_decide (st ∈ stylesAdjacentToOffset) then offset - 1 else offset)
    (oset_union stylesAtOffset stylesAdjacentToOffset) [].

(** [a.mergeWith((a, b) => a.add(b.first()), ...)] for one entry. *)
Fixpoint merge_add_range (m : list (string * list Range)) (k : string) (r : Range)
  : list (string * list Range) :=
  match m with
  | [] => [(k, [r])]
  | (k', a) :: m' =>
      if bool_decide (k = k') then (k', oset_add a r) :: m' else (k', a) :: merge_add_range m' k r
  end.

(** [getContiguousStyleRangesNearSelectionEdges(content, selection,
    styleKeyFilter)]: missing edge blocks contribute nothing. *)
Definition getContiguousStyleRangesNearSelectionEdges (c : ContentState) (sel : SelectionState)
    (styleKeyFilter : string -> bool) : option (list (string * list Range)) :=
  let startBlock := getBlockForKey c (getStartKey sel) in
  let endBlock := getBlockForKey c (getEndKey sel) in
  let stylesNearStart : option (list (string * list Range)) :=
    match startBlock with
    | Some sb =>
        match getContiguousStyleRangesNearOffset sb (getStartOffset sel) styleKeyFilter with
        | Some m => Some ((fun kr : string * Range => (kr.1, [kr.2])) <$> m)
        | None => None
        end
    | None => Some []
    end in
  match stylesNearStart, endBlock with
  | None, _ => None
  | Some ns, Some eb =>
      if isCollapsed sel then Some ns else
      match getContiguousStyleRangesNearOffset eb (getEndOffset sel) styleKeyFilter with
      | Some m => Some (foldl (fun acc (kr : string * Range) => merge_add_range acc kr.1 kr.2) ns m)
      | None => None
      end
  | Some ns, None => Some ns
  end.

(** ** Entity and style stripping *)

(** [findRangesImmutable(haystack, areEqual, filter, found)]: the runs of
    equal neighbours, reported when the run's last value passes the
    filter. *)
Fixpoint find_ranges_go {A} (areEqual : A -> A -> bool) (filt : A -> bool)
    (value : A) (rest : list A) (cursor idx : nat) : list (nat * nat) :=
  match rest with
  | [] => if filt value then [(cursor, idx)] else []
  | nx :: rest' =>
      if areEqual value nx then find_ranges_go areEqual filt nx rest' cursor (S idx)
      else (if filt value then [(cursor, idx)] else []) ++ find_ranges_go areEqual filt nx rest' idx (S idx)
  end.

Definition findRangesImmutable {A} (areEqual : A -> A -> bool) (filt : A -> bool) (l : list A)
  : list (nat * nat) :=
  match l with [] => [] | x :: rest => find_ranges_go areEqual filt x rest 0 1 end.

(** [block.findEntityRanges(filter, callback)]: runs of equal entity keys. *)
Definition findEntityRanges (filt : CharacterMetadata -> bool) (b : ContentBlock) : list (nat * nat) :=
  findRangesImmutable (fun x y => bool_decide (cm_entity x = cm_entity y)) filt (b_chars b).

(** A list of ranges that are non-empty, in increasing order, disjoint,
    and between [lo] and [hi]. *)
Fixpoint ranges_chain (l : list (nat * nat)) (lo hi : nat) : Prop :=
  match l with
  | [] => (lo <= hi)%nat
  | (s, e) :: l' => (lo <= s < e)%nat /\ ranges_chain l' e hi
  end.

(** The filter of [stripEntitiesFromBlock]:
    [entity && entityFilter(entity) || false]. *)
Definition entity_filter (c : ContentState) (entityFilter : DraftEntity -> bool)
    (ch : CharacterMetadata) : bool :=
  match cm_entity ch with
  | Some k => match getEntity c k with Some e => entityFilter e | None => false end
  | None => false
  end.

(** Every entity key of the block is in the entity map ([getEntity] throws
    on an unknown key). *)
Definition entity_refs_valid (c : ContentState) (b : ContentBlock) : bool :=
  forallb (fun ch => match cm_entity ch with Some k => bool_decide (is_Some (getEntity c k)) | None => true end)
    (b_chars b).

(** [stripEntitiesFromBlock(contentState, blockKey, entityFilter)]: every
    run of a filtered entity gets the entity [null]. *)
Definition stripEntitiesFromBlock (c : ContentState) (key : string) (entityFilter : DraftEntity -> bool)
  : option ContentState :=
  block ← getBlockForKey c key;
  if negb (entity_refs_valid c block) then None else
  foldl (fun acc '(s, e) => c' ← acc;
           Modifier_applyEntity c' (createSelectionWithRange (b_key block) (Z.of_nat s) (Z.of_nat e)) None)
        (Some c) (findEntityRanges (entity_filter c entityFilter) block).

(** [character.getStyle().reduce((char, style) => styleFilter(style) ?
    CharacterMetadata.removeStyle(char, style) : char, character)]. *)
Definition strip_styles (styleFilter : string -> bool) (ch : CharacterMetadata) : CharacterMetadata :=
  foldl (fun m st => if styleFilter st then removeStyle st m else m) ch (cm_style ch).

(** [stripStylesFromBlock(contentState, blockKey, styleFilter, start = 0, end)]:
    the characters of [[start, end)] lose the filtered styles; the tail is
    [slice(end || size + 1)]. *)
Definition stripStylesFromBlock (c : ContentState) (key : string) (styleFilter : string -> bool)
    (start : Z) (end_ : option Z) : option ContentState :=
  if bool_decide (Some start = end_) then Some c else
  block ← getBlockForKey c key;
  let orig := b_chars block in
  let mid := match end_ with Some e => js_slice orig start e | None => js_slice_from orig start end in
  let newChars := strip_styles styleFilter <$> mid in
  let tailFrom := match end_ with Some e => if bool_decide (e = 0) then Z.of_nat (length orig) + 1 else e
                  | None => Z.of_nat (length orig) + 1 end in
  Some (set_block c (set_chars block (js_slice orig 0 start ++ newChars ++ js_slice_from orig tailFrom))).

(** [createDecoratorStrategyMatchingEntityType(type)]: the ranges of the
    entities of that type ([getEntity] throws on an unknown key). *)
Definition decoratorStrategyRanges (ty : string) (b : ContentBlock) (c : ContentState)
  : option (list (nat * nat)) :=
  if negb (entity_refs_valid c b) then None else
  Some (findEntityRanges (fun ch => match cm_entity ch with
                                    | Some k => match getEntity c k with
                                                | Some e => bool_decide (ent_type e = ty) | None => false end
                                    | None => false end) b).

(** ** Reading selections and changes *)

(** The arguments [(block, start, end)] of the callback for one block. *)
Definition selection_item (sel : SelectionState) (b : ContentBlock) : ContentBlock * Z * Z :=
  let k := b_key b in
  (b, if bool_decide (k = getStartKey sel) then getStartOffset sel else 0,
      if bool_decide (k = getEndKey sel) then getEndOffset sel else getLength b).

(** [forEachBlockInSelection] as the list of its callback arguments: the
    do-while loop walks [getBlockAfter] from the start block to the end
    block, for at most [fuel] blocks; [getBlockAfter] past the last block
    is [undefined] and [block.getKey()] throws; the loop condition is the
    new key itself, so an empty key ends the walk. *)
Fixpoint blocks_in_selection_go (c : ContentState) (sel : SelectionState) (b : ContentBlock)
    (fuel : nat) : option (list (ContentBlock * Z * Z)) :=
  match fuel with
  | O => None
  | S n =>
      let k := b_key b in
      if bool_decide (k = getEndKey sel) then Some [selection_item sel b]
      else nb ← getBlockAfter c k;
           if bool_decide (b_key nb = "") then Some [selection_item sel b] else
           rest ← blocks_in_selection_go c sel nb n; Some (selection_item sel b :: rest)
  end.

(** The loop visits each block at most once: the fuel is the number of
    blocks. *)
Definition forEachBlockInSelection (es : EditorState) : option (list (ContentBlock * Z * Z)) :=
  let c := currentContent es in
  b ← getBlockForKey c (getStartKey (selection es));
  blocks_in_selection_go c (selection es) b (length (blockMap c)).

(** [mapBlocksInSelection(editorState, callback)]: the callback's results,
    one per visited block, in order. *)
Definition mapBlocksInSelection {T} (es : EditorState) (callback : ContentBlock -> Z -> Z -> T)
  : option (list T) :=
  match forEachBlockInSelection es with
  | Some items => Some ((fun '(b, s, e) => callback b s e) <$> items)
  | None => None
  end.

(** [Array.prototype.join(delim)] on texts. *)
Fixpoint js_join (delim : list ascii) (l : list (list ascii)) : list ascii :=
  match l with
  | [] => []
  | [x] => x
  | x :: l' => x ++ delim ++ js_join delim l'
  end.

(** The default [blockDelimiter], a newline. *)
Definition newline : list ascii := ["010"%char].

(** [getTextFromSelection(editorState, blockDelimiter)]. *)
Definition getTextFromSelection (es : EditorState) (delim : list ascii)
  : option (list ascii * list CharacterMetadata) :=
  items ← forEachBlockInSelection es;
  Some (js_join delim ((fun '(b, s, e) => js_slice (b_text b) s e) <$> items),
        mjoin ((fun '(b, s, e) => js_slice (b_chars b) s e) <$> items)).

(** [getInsertedCharactersFromChange(changeType, old, new)]. *)
Definition getInsertedCharactersFromChange (ct : option ChangeType) (old new : EditorState)
  : option (list ascii) :=
  if bool_decide (ct = Some insert_characters) then
    b ← getBlockForKey (currentContent new) (getStartKey (selection new));
    Some (js_slice (b_text b) (getStartOffset (selection old)) (getEndOffset (selection new)))
  else Some [].

(** [getDeletedCharactersFromChange(changeType, old, new)]. *)
Definition getDeletedCharactersFromChange (ct : option ChangeType) (old new : EditorState)
  : option (list ascii * list CharacterMetadata) :=
  let osel := selection old in
  if bool_decide (ct = Some backspace_character) || bool_decide (ct = Some remove_range) then
    block ← getBlockForKey (currentContent old) (getStartKey osel);
    if negb (isCollapsed osel) then getTextFromSelection old newline else
    let s := getStartOffset (selection new) in
    let e := getStartOffset osel in
    Some (js_slice (b_text block) s e, js_slice (b_chars block) s e)
  else if bool_decide (ct = Some delete_character) then
    block ← getBlockForKey (currentContent old) (getStartKey osel);
    let o := getStartOffset osel in
    Some (js_slice (b_text block) o (o + 1), js_slice (b_chars block) o (o + 1))
  else if negb (isCollapsed osel)
          && (bool_decide (ct = Some insert_characters) || bool_decide (ct = Some split_block)) then
    getTextFromSelection old newline
  else Some ([], []).

(** [getAdjacentCharacters(contentState, selectionState)]. *)
Definition getAdjacentCharacters (c : ContentState) (sel : SelectionState)
  : option (list ascii * list ascii) :=
  let o := focusOffset sel in
  b ← getBlockForKey c (focusKey sel);
  Some (js_slice (b_text b) (o - 1) o, js_slice (b_text b) o (o + 1)).

(** ** Lemmas *)

Lemma imm_get_char_at chars i :
  0 <= i < Z.of_nat (length chars) -> imm_get chars i = Some (char_at chars i).
Proof.
  intros H. unfold char_at. destruct (imm_get_lt chars i H) as [c ->]. done.
Qed.

Section Scans.
Context (f : CharacterMetadata -> bool) (chars : list CharacterMetadata).

(** The left loop stops at the first index, going down, whose character
    fails the filter, or at [-1]. *)
Lemma scan_left_spec (fuel : nat) (start : Z) :
    -1 <= start < Z.of_nat (length chars) ->
  (Z.to_nat (start + 1) <= fuel)%nat ->
  exists r, scan_left f chars start fuel = Some r /\ -1 <= r <= start /\
    (forall i, r < i <= start -> f (char_at chars i) = true) /\
    (r = -1 \/ f (char_at chars r) = false).
Proof.
  revert start. induction fuel as [|n IH]; intros start Hs Hf; simpl.
    - exists start. split; [done|]. split; [lia|]. split; [intros; lia|]. left; lia.
    - case_bool_decide as H0.
    + rewrite (imm_get_char_at chars start) by lia.
      destruct (f (char_at chars start)) eqn:Hc.
      * destruct (IH (start - 1)) as (r & -> & Hr & Hall & Hstop); [lia|lia|].
        exists r. split; [done|]. split; [lia|]. split; [|done].
        intros i Hi. destruct (decide (i = start)) as [->|]; [done|]. apply Hall. lia.
      * exists start. split; [done|]. split; [lia|]. split; [intros; lia|]. by right.
    + exists start. split; [done|]. split; [lia|]. split; [intros; lia|]. left; lia.
Qed.

(** The right loop stops at the first index, going up, whose character
    fails the filter, or at the size. *)
Lemma scan_right_spec (fuel : nat) (e : Z) :
  0 <= e <= Z.of_nat (length chars) ->
  (Z.to_nat (Z.of_nat (length chars) - e) <= fuel)%nat ->
  exists r, scan_right f chars e fuel = Some r /\ e <= r <= Z.of_nat (length chars) /\
    (forall i, e <= i < r -> f (char_at chars i) = true) /\
    (r = Z.of_nat (length chars) \/ f (char_at chars r) = false).
Proof.
  revert e. induction fuel as [|n IH]; intros e He Hf; simpl.
    - exists e. split; [done|]. split; [lia|]. split; [intros; lia|]. left; lia.
    - case_bool_decide as H0.
    + rewrite (imm_get_char_at chars e) by lia.
      destruct (f (char_at chars e)) eqn:Hc.
      * destruct (IH (e + 1)) as (r & -> & Hr & Hall & Hstop); [lia|lia|].
        exists r. split; [done|]. split; [lia|]. split; [|done].
        intros i Hi. destruct (decide (i = e)) as [->|]; [done|]. apply Hall. lia.
      * exists e. split; [done|]. split; [lia|]. split; [intros; lia|]. by right.
    + exists e. split; [done|]. split; [lia|]. split; [intros; lia|]. left; lia.
Qed.
(** Both loops compute the reference runs, given their fuels. *)
Lemma scan_right_run (fuel e : nat) :
  (e <= length chars)%nat -> (length chars - e <= fuel)%nat ->
  scan_right f chars (Z.of_nat e) fuel = Some (Z.of_nat (e + prefix_run f (drop e chars))).
Proof.
  revert e. induction fuel as [|n IH]; intros e He Hf; simpl.
  - by replace (drop e chars) with (@nil CharacterMetadata)
      by (symmetry; apply drop_ge; lia); rewrite Nat.add_0_r.
  - case_bool_decide as Hlt.
    + destruct (lookup_lt_is_Some_2 chars e) as [x Hx]; [lia|].
      rewrite imm_get_in_range, Nat2Z.id, Hx, (drop_S _ x) by (done || lia). simpl. destruct (f x).
      * replace (Z.of_nat e + 1) with (Z.of_nat (S e)) by lia. rewrite IH by lia. f_equal. lia.
      * f_equal. lia.
    + by replace (drop e chars) with (@nil CharacterMetadata)
        by (symmetry; apply drop_ge; lia); rewrite Nat.add_0_r.
Qed.

Lemma scan_left_run (fuel n : nat) :
  (n <= length chars)%nat -> (n <= fuel)%nat ->
  scan_left f chars (Z.of_nat n - 1) fuel =
    Some (Z.of_nat n - 1 - Z.of_nat (prefix_run f (reverse (take n chars)))).
Proof.
  revert n. induction fuel as [|fuel IH]; intros n Hn Hf.
  - replace n with O by lia. done.
  - destruct n as [|m]; cbn [scan_left]; [by rewrite bool_decide_false by lia|].
    rewrite bool_decide_true by lia.
    destruct (lookup_lt_is_Some_2 chars m) as [x Hx]; [lia|].
    rewrite imm_get_in_range by lia. replace (Z.to_nat (Z.of_nat (S m) - 1)) with m by lia.
    rewrite Hx.
    rewrite (take_S_r _ _ x), reverse_snoc by done. simpl. destruct (f x).
    + replace (Z.of_nat (S m) - 1 - 1) with (Z.of_nat m - 1) by lia.
      rewrite IH by lia. f_equal. lia.
    + f_equal. lia.
Qed.

End Scans.

(** Every run [findRangesImmutable] reports lies inside the list. *)
Lemma find_ranges_go_bounds {A} (areEqual : A -> A -> bool) filt value rest cursor idx :
  (cursor <= idx)%nat ->
  Forall (fun p => (fst p <= snd p <= idx + length rest)%nat)
    (find_ranges_go areEqual filt value rest cursor idx).
Proof.
  revert value cursor idx. induction rest as [|nx rest IH]; intros value cursor idx Hc; simpl.
  - destruct (filt value); repeat constructor; simpl; lia.
  - destruct (areEqual value nx).
    + eapply Forall_impl; [apply IH; lia|]. simpl. lia.
    + apply Forall_app. split.
      * destruct (filt value); repeat constructor; simpl; lia.
      * eapply Forall_impl; [apply IH; lia|]. simpl. lia.
Qed.

Lemma find_ranges_go_chain {A} (areEqual : A -> A -> bool) filt rest :
  forall value cursor idx lo, (lo <= cursor < idx)%nat ->
  ranges_chain (find_ranges_go areEqual filt value rest cursor idx) lo (idx + length rest).
Proof.
  induction rest as [|nx rest IH]; intros value cursor idx lo Hc; simpl.
  - destruct (filt value); simpl; lia.
  - destruct (areEqual value nx).
    + replace (idx + S (length rest))%nat with (S idx + length rest)%nat by lia. apply IH. lia.
    + replace (idx + S (length rest))%nat with (S idx + length rest)%nat by lia.
      destruct (filt value); simpl; [split; [lia|]|]; apply IH; lia.
Qed.

Lemma findEntityRanges_bounds filt b :
  Forall (fun p => (fst p <= snd p <= length (b_chars b))%nat) (findEntityRanges filt b).
Proof.
  unfold findEntityRanges, findRangesImmutable. destruct (b_chars b) as [|x rest]; [done|].
  eapply Forall_impl; [apply find_ranges_go_bounds; lia|]. simpl. lia.
Qed.

(** Clearing the entity on a list of ranges inside block [k] succeeds and
    keeps the block's text, well-formedness and every other block. *)
Lemma clear_entity_ranges_total c k t (ranges : list (nat * nat)) :
  block_text_at c k t ->
  Forall (fun p => (fst p <= snd p <= length t)%nat) ranges ->
  exists c', foldl (fun acc '(s, e) => c' ← acc;
                     Modifier_applyEntity c' (createSelectionWithRange k (Z.of_nat s) (Z.of_nat e)) None)
               (Some c) ranges = Some c' /\
    block_text_at c' k t /\
    (forall k', k' <> k -> getBlockForKey c' k' = getBlockForKey c k') /\ entityMap c' = entityMap c.
Proof.
  revert c. induction ranges as [|[s e] ranges IH]; intros c Hat Hall; simpl; [by exists c|].
  apply Forall_cons in Hall as [Hse Hall]. simpl in Hse.
  destruct (modify_chars_text_at c k (Z.of_nat s) (Z.of_nat e) false (setEntity None) t Hat)
    as (c1 & Hc1 & Hat1 & Hfr1 & He1); [lia|lia|].
  unfold Modifier_applyEntity, createSelectionWithRange. rewrite Hc1.
  destruct (IH c1 Hat1 Hall) as (c' & Hf & Hat' & Hfr' & He'). exists c'.
  split; [done|]. split; [done|]. split; [|congruence].
  intros k' Hne. rewrite Hfr', Hfr1 by done. done.
Qed.

(** [stripEntitiesFromBlock] succeeds on a well-formed block whose entity
    keys are all in the entity map, and changes neither its text nor any
    other block. *)
Lemma stripEntitiesFromBlock_total c k flt b :
  getBlockForKey c k = Some b -> block_wf b -> entity_refs_valid c b = true ->
  exists c', stripEntitiesFromBlock c k flt = Some c' /\ block_text_at c' k (b_text b) /\
    (forall k', k' <> k -> getBlockForKey c' k' = getBlockForKey c k') /\ entityMap c' = entityMap c.
Proof.
  intros Hb Hwf Hv. unfold stripEntitiesFromBlock. rewrite Hb. cbn [mbind option_bind].
  rewrite Hv. simpl. rewrite (getBlockForKey_key _ _ _ Hb).
  apply clear_entity_ranges_total; [by exists b|].
  eapply Forall_impl; [apply findEntityRanges_bounds|]. unfold block_wf in Hwf. simpl. lia.
Qed.

(** A push run through [performUnUndoableEdits] records no undo step and
    leaves undo enabled again. *)
(** The [reduce] of [stripStylesFromBlock] removes from a character exactly
    the styles the filter selects, in order, and keeps its entity. *)
Lemma strip_styles_fold (f : string -> bool) (l : list string) m :
  foldl (fun m st => if f st then removeStyle st m else m) m l =
  mkChar (filter (fun x => ~ (f x = true /\ x ∈ l)) (cm_style m)) (cm_entity m).
Proof.
  revert m. induction l as [|st l IH]; intros m; simpl.
  - rewrite filter_all; [by destruct m|]. apply Forall_forall. set_solver.
  - rewrite IH. destruct (f st) eqn:Hf; simpl; f_equal.
    + rewrite list_filter_filter. apply list_filter_iff. intros x.
      rewrite elem_of_cons. destruct (decide (x = st)); subst; intuition congruence.
    + apply list_filter_iff. intros x.
      rewrite elem_of_cons. destruct (decide (x = st)); subst; intuition congruence.
Qed.

Lemma strip_styles_spec f ch :
  strip_styles f ch = mkChar (filter (fun x => f x = false) (cm_style ch)) (cm_entity ch).
Proof.
  unfold strip_styles. rewrite strip_styles_fold. f_equal.
  apply filter_ext_in. intros x Hx. destruct (f x); intuition congruence.
Qed.

Lemma performUnUndoableEdits_push es c ct :
  let es' := performUnUndoableEdits es (fun d => EditorState_push d c ct) in
  undoStack es' = undoStack es /\ allowUndo es' = true /\ blockMap (currentContent es') = blockMap c.
Proof.
  unfold performUnUndoableEdits. simpl. split; [|split; [done|]].
  - by rewrite EditorState_push_no_undo.
  - apply EditorState_push_blockMap.
Qed.

(** From the start block, the walk visits the blocks up to the end block
    in document order, for any fuel covering them. *)
Lemma blocks_in_selection_go_spec c sel pre b mid be post fuel :
  blockMap c = pre ++ b :: mid ++ be :: post -> NoDup (b_key <$> blockMap c) ->
  b_key be = getEndKey sel -> b_key b <> getEndKey sel ->
  Forall (fun x => b_key x <> "") (mid ++ [be]) -> (length mid + 2 <= fuel)%nat ->
  blocks_in_selection_go c sel b fuel = Some (selection_item sel <$> b :: mid ++ [be]).
Proof.
  revert pre b fuel. induction mid as [|m mid IH]; intros pre b fuel Hbm Hnd Hbe Hb Hne Hf;
    destruct fuel as [|n]; try (simpl in Hf; lia); cbn [blocks_in_selection_go];
    rewrite bool_decide_false by done; unfold getBlockAfter; rewrite Hbm;
    rewrite Hbm in Hnd; destruct (NoDup_fmap_mid b_key pre b _ Hnd) as [Hpre _];
    pose proof (not_elem_of_fmap_Forall b_key pre (b_key b) Hpre) as Hpre';
    rewrite (block_after_split pre b) by (done || (eapply Forall_impl; [exact Hpre'|];
                                                  intros; by apply bool_decide_false));
    cbn [head app mbind option_bind]; apply Forall_app in Hne as [Hmid Hbe'].
  - apply Forall_cons in Hbe' as [Hbe' _]. rewrite bool_decide_false by done.
    destruct n as [|n]; [simpl in Hf; lia|]. cbn [blocks_in_selection_go].
    by rewrite bool_decide_true.
  - apply Forall_cons in Hmid as [Hm Hmid]. rewrite bool_decide_false by done.
    assert (Hbm' : blockMap c = (pre ++ [b]) ++ m :: mid ++ be :: post)
      by (rewrite Hbm, <- app_assoc; done).
    assert (Hmend : b_key m <> getEndKey sel).
    { replace (pre ++ b :: (m :: mid) ++ be :: post) with ((pre ++ b :: m :: mid) ++ be :: post)
        in Hnd by (by rewrite <- app_assoc).
      destruct (NoDup_fmap_mid b_key _ be post Hnd) as [Hbe2 _]. rewrite <- Hbe. intros Hmb.
      apply Hbe2. rewrite <- Hmb. apply list_elem_of_fmap_2. set_solver. }
    rewrite (IH (pre ++ [b]) m n Hbm'); [done| |done|done|by apply Forall_app|simpl in Hf; lia].
    by rewrite Hbm.
Qed.

(** ** Properties *)

(** C19 (functional, spec §4.2 [contiguousRange]).  Around an index
    whose character passes the filter, [getContiguousStyleRange] returns
    the maximal run of passing characters that contains it: the range
    [[start, end)] holds the index, every character in it passes, and the
    characters just outside it (when they exist) fail. *)
Theorem getContiguousStyleRange_maximal b f i :
  0 <= i < Z.of_nat (length (b_chars b)) -> f (char_at (b_chars b) i) = true ->
  exists s e, getContiguousStyleRange b f i = Some (mkRange (b_key b) s e) /\
    0 <= s <= i /\ i < e <= Z.of_nat (length (b_chars b)) /\
    (forall j, s <= j < e -> f (char_at (b_chars b) j) = true) /\
    (s = 0 \/ f (char_at (b_chars b) (s - 1)) = false) /\
    (e = Z.of_nat (length (b_chars b)) \/ f (char_at (b_chars b) e) = false).
Proof.
  intros Hi Hf. unfold getContiguousStyleRange.
  destruct (scan_left_spec f (b_chars b) (Z.to_nat (i + 1)) i)
    as (l & -> & Hl & Hlall & Hlstop); [lia|lia|].
  destruct (scan_right_spec f (b_chars b) (Z.to_nat (Z.of_nat (length (b_chars b)) - i)) i)
    as (r & -> & Hr & Hrall & Hrstop); [lia|lia|].
  cbn [mbind option_bind].
  assert (l < i) by (destruct (decide (l = i)) as [->|]; [destruct Hlstop; [lia|congruence]|lia]).
  assert (i < r) by (destruct (decide (r = i)) as [->|]; [destruct Hrstop; [lia|congruence]|lia]).
  exists (l + 1), r. split; [done|]. split; [lia|]. split; [lia|]. split.
  - intros j Hj. destruct (Z.le_gt_cases j i); [apply Hlall; lia|apply Hrall; lia].
  - split; [|done]. destruct Hlstop as [->|Hl']; [by left|right].
    by replace (l + 1 - 1) with l by lia.
Qed.

Lemma getContiguousStyleRange_maximal_witness :
  exists s e,
    getContiguousStyleRange (mkBlock "k" "unstyled" ⟪"abcd"⟫
      [EMPTY_CHAR; mkChar ["BOLD"] None; mkChar ["BOLD"] None; EMPTY_CHAR]) (hasStyle "BOLD") 1
      = Some (mkRange "k" s e) /\
    0 <= s <= 1 /\ 1 < e <= 4 /\
    (forall j, s <= j < e -> hasStyle "BOLD"
       (char_at [EMPTY_CHAR; mkChar ["BOLD"] None; mkChar ["BOLD"] None; EMPTY_CHAR] j) = true) /\
    (s = 0 \/ hasStyle "BOLD"
       (char_at [EMPTY_CHAR; mkChar ["BOLD"] None; mkChar ["BOLD"] None; EMPTY_CHAR] (s - 1)) = false) /\
    (e = 4 \/ hasStyle "BOLD"
       (char_at [EMPTY_CHAR; mkChar ["BOLD"] None; mkChar ["BOLD"] None; EMPTY_CHAR] e) = false).
Proof.
  apply (getContiguousStyleRange_maximal
           (mkBlock "k" "unstyled" ⟪"abcd"⟫
              [EMPTY_CHAR; mkChar ["BOLD"] None; mkChar ["BOLD"] None; EMPTY_CHAR])).
  - simpl. lia.
  - reflexivity.
Defined.

(** C27 (functional, finding; spec §4.2 [contiguousRange]).  Around an
    index whose character fails the filter, both loops stop at once and the
    result is the inverted range [[index + 1, index)]: its start is past its
    end, where the spec promises a run containing the index. *)
Theorem getContiguousStyleRange_outside_inverted b f i :
  0 <= i < Z.of_nat (length (b_chars b)) -> f (char_at (b_chars b) i) = false ->
  getContiguousStyleRange b f i = Some (mkRange (b_key b) (i + 1) i).
Proof.
  intros Hi Hf. unfold getContiguousStyleRange.
  replace (Z.to_nat (i + 1)) with (S (Z.to_nat i)) by lia.
  replace (Z.to_nat (Z.of_nat (length (b_chars b)) - i))
    with (S (Z.to_nat (Z.of_nat (length (b_chars b)) - i - 1))) by lia.
  cbn [scan_left scan_right]. rewrite !bool_decide_true by lia.
  rewrite imm_get_char_at, Hf by lia. done.
Qed.

Lemma getContiguousStyleRange_outside_inverted_witness :
  getContiguousStyleRange (mkBlock "k" "unstyled" ⟪"ab"⟫ [EMPTY_CHAR; mkChar ["BOLD"] None])
    (hasStyle "BOLD") 0 = Some (mkRange "k" (0 + 1) 0).
Proof. apply getContiguousStyleRange_outside_inverted; [simpl; lia|reflexivity]. Defined.

(** C26 (error, finding).  [getEquivalentStyleRangeAtOffset] at the end of
    any well-formed block (a caret at the end of a line) throws: the left
    loop reads [characters.get(length)], which is [undefined], and the
    filter calls [getStyle()] on it. *)
Theorem getEquivalentStyleRangeAtOffset_end_throws b :
  block_wf b -> getEquivalentStyleRangeAtOffset b (getLength b) = None.
Proof.
  unfold block_wf, getEquivalentStyleRangeAtOffset, getContiguousStyleRange, getLength.
  intros Hwf. rewrite <- Hwf.
  replace (Z.to_nat (Z.of_nat (length (b_chars b)) + 1)) with (S (length (b_chars b))) by lia.
  cbn [scan_left]. rewrite bool_decide_true by lia.
  rewrite imm_get_in_range, Nat2Z.id, lookup_ge_None_2 by lia. done.
Qed.

Lemma getEquivalentStyleRangeAtOffset_end_throws_witness :
  block_wf (mkBlock "k" "unstyled" ⟪"ab"⟫ [EMPTY_CHAR; EMPTY_CHAR]) /\
  getEquivalentStyleRangeAtOffset (mkBlock "k" "unstyled" ⟪"ab"⟫ [EMPTY_CHAR; EMPTY_CHAR])
    (getLength (mkBlock "k" "unstyled" ⟪"ab"⟫ [EMPTY_CHAR; EMPTY_CHAR])) = None.
Proof.
  assert (H : block_wf (mkBlock "k" "unstyled" ⟪"ab"⟫ [EMPTY_CHAR; EMPTY_CHAR])) by reflexivity.
  split; [exact H|]. exact (getEquivalentStyleRangeAtOffset_end_throws _ H).
Defined.

(** C20 (functional, spec §4.2 [rangesOverlap]).  [rangesOverlap] is
    symmetric, and on non-empty half-open intervals it holds exactly when
    the two intervals share a point. *)
Theorem rangesOverlap_spec a b :
  rangesOverlap a b = rangesOverlap b a /\
  (a.1 < a.2 -> b.1 < b.2 ->
   rangesOverlap a b = true <-> exists x, a.1 <= x < a.2 /\ b.1 <= x < b.2).
Proof.
  unfold rangesOverlap, rangesOverlapUnidirectionally. split; [apply orb_comm|].
  intros Ha Hb. rewrite orb_true_iff, !andb_true_iff, !bool_decide_eq_true. split.
  - intros [[H1 H2]|[H1 H2]]; [exists b.1|exists a.1]; lia.
  - intros (x & Hx1 & Hx2). destruct (Z.le_gt_cases a.1 b.1); [left|right]; lia.
Qed.

(** (functional, finding; spec §4.2 "half-open interval overlap").
    An empty range [[2, 2)] is reported as overlapping [[0, 5)], although
    the two share no point. *)
Example rangesOverlap_empty_range : rangesOverlap (2, 2) (0, 5) = true.
Proof. reflexivity. Qed.

(** C21 (functional, termination).  On a document with unique, non-empty
    keys, the text and the characters of a selection that runs from block
    [bs] forward to block [be] are the tail of [bs] from the start offset,
    every block in between whole, and the head of [be] up to the end
    offset, joined by the delimiter: the do-while walk of
    [forEachBlockInSelection] reaches the end block within its fuel. *)
Theorem getTextFromSelection_across_blocks es delim pre bs mid be post :
  blockMap (currentContent es) = pre ++ bs :: mid ++ be :: post ->
  NoDup (b_key <$> blockMap (currentContent es)) ->
  getStartKey (selection es) = b_key bs -> getEndKey (selection es) = b_key be ->
  Forall (fun x => b_key x <> "") (mid ++ [be]) -> Forall block_wf mid ->
  getTextFromSelection es delim = Some
    (js_join delim (js_slice (b_text bs) (getStartOffset (selection es)) (getLength bs) ::
                    (b_text <$> mid) ++ [js_slice (b_text be) 0 (getEndOffset (selection es))]),
     js_slice (b_chars bs) (getStartOffset (selection es)) (getLength bs) ++
     mjoin (b_chars <$> mid) ++ js_slice (b_chars be) 0 (getEndOffset (selection es))).
Proof.
  intros Hbm Hnd HS HE Hne Hwf.
  pose proof Hnd as Hnd'. rewrite Hbm in Hnd'.
  destruct (NoDup_fmap_mid b_key pre bs _ Hnd') as [Hpre Hrest].
  replace (pre ++ bs :: mid ++ be :: post) with ((pre ++ bs :: mid) ++ be :: post) in Hnd'
    by (by rewrite <- app_assoc).
  destruct (NoDup_fmap_mid b_key _ be post Hnd') as [Hbe _].
  assert (Hsb : b_key bs <> b_key be) by (intros Heq; apply Hbe; rewrite <- Heq; set_solver).
  unfold getTextFromSelection, forEachBlockInSelection, getBlockForKey.
  rewrite HS, Hbm, find_key_split by (done || by apply not_elem_of_fmap_Forall).
  cbn [mbind option_bind]. rewrite <- Hbm.
  rewrite (blocks_in_selection_go_spec _ _ pre bs mid be post) by
    (done || congruence || (rewrite Hbm, !length_app; simpl; rewrite length_app; simpl; lia)).
  cbn [mbind option_bind]. f_equal.
  assert (Hmid : Forall (fun x => b_key x <> b_key bs /\ b_key x <> b_key be) mid).
  { apply Forall_forall. intros x Hx. split; intros Hk.
    - apply Hrest. rewrite <- Hk. apply list_elem_of_fmap_2. set_solver.
    - apply Hbe. rewrite <- Hk. apply list_elem_of_fmap_2. set_solver. }
  assert (Hmid' : forall x, x ∈ mid -> selection_item (selection es) x = (x, 0, getLength x)).
  { intros x Hx. rewrite Forall_forall in Hmid. destruct (Hmid x Hx) as [H1 H2].
    unfold selection_item. rewrite HS, HE, !bool_decide_false by done. done. }
  assert (Ht : (fun '(b, s, e) => js_slice (b_text b) s e) <$> (selection_item (selection es) <$> mid)
               = b_text <$> mid).
  { rewrite <- list_fmap_compose. apply Forall_fmap_ext_1, Forall_forall. intros x Hx.
    unfold compose. rewrite Hmid' by done. unfold getLength. by rewrite js_slice_whole. }
  assert (Hc : (fun '(b, s, e) => js_slice (b_chars b) s e) <$> (selection_item (selection es) <$> mid)
               = b_chars <$> mid).
  { rewrite <- list_fmap_compose. apply Forall_fmap_ext_1, Forall_forall. intros x Hx.
    unfold compose. rewrite Hmid' by done. rewrite Forall_forall in Hwf. unfold getLength.
    rewrite <- (Hwf x Hx). by rewrite js_slice_whole. }
  assert (Hs : selection_item (selection es) bs = (bs, getStartOffset (selection es), getLength bs))
    by (unfold selection_item; rewrite HS, HE, bool_decide_true, bool_decide_false by done; done).
  assert (He : selection_item (selection es) be = (be, 0, getEndOffset (selection es))).
  { unfold selection_item. rewrite HS, HE, (bool_decide_false (b_key be = b_key bs)) by congruence.
    by rewrite bool_decide_true. }
  rewrite !fmap_cons, !fmap_app, !fmap_cons, Ht, Hc, Hs, He.
  rewrite !fmap_nil. f_equal. simpl. rewrite join_app. simpl. by rewrite app_nil_r.
Qed.

Lemma getTextFromSelection_across_blocks_witness :
  let p := mkBlock "p" "unstyled" ⟪"alpha"⟫ (replicate 5 EMPTY_CHAR) in
  let q := mkBlock "q" "unstyled" ⟪"beta"⟫ (replicate 4 EMPTY_CHAR) in
  let r := mkBlock "r" "unstyled" ⟪"gamma"⟫ (replicate 5 EMPTY_CHAR) in
  let es := mkEditor (mkContent [p; q; r] [] (mkSel "p" 2 "r" 3 false) (mkSel "p" 2 "r" 3 false))
              (mkSel "p" 2 "r" 3 false) None true [] [] false in
  getTextFromSelection es newline = Some
    (js_join newline (js_slice (b_text p) (getStartOffset (selection es)) (getLength p) ::
                      (b_text <$> [q]) ++ [js_slice (b_text r) 0 (getEndOffset (selection es))]),
     js_slice (b_chars p) (getStartOffset (selection es)) (getLength p) ++
     mjoin (b_chars <$> [q]) ++ js_slice (b_chars r) 0 (getEndOffset (selection es))).
Proof.
  intros p q r es. apply (getTextFromSelection_across_blocks es newline [] p [q] r []).
  - reflexivity.
  - apply (bool_decide_unpack _). vm_compute. reflexivity.
  - reflexivity.
  - reflexivity.
  - apply (bool_decide_unpack _). vm_compute. reflexivity.
  - apply (bool_decide_unpack _). vm_compute. reflexivity.
Defined.

(** (functional, spec §4.2 [stripStylesFromBlock]).  On a non-empty
    range [[s, e)] inside block [k], [stripStylesFromBlock] succeeds; the new
    block keeps the characters before [s] and from [e] on, and every
    character of the range keeps its entity and exactly the styles the filter
    rejects; every other block is unchanged. *)
Theorem stripStylesFromBlock_range c k f b (s e : nat) :
  getBlockForKey c k = Some b -> (s < e <= length (b_chars b))%nat ->
  exists c', stripStylesFromBlock c k f (Z.of_nat s) (Some (Z.of_nat e)) = Some c' /\
    getBlockForKey c' k =
      Some (set_chars b (take s (b_chars b) ++
              ((fun ch => mkChar (filter (fun x => f x = false) (cm_style ch)) (cm_entity ch))
                <$> take (e - s) (drop s (b_chars b))) ++ drop e (b_chars b))) /\
    (forall k', k' <> k -> getBlockForKey c' k' = getBlockForKey c k').
Proof.
  intros Hb Hse. unfold stripStylesFromBlock.
  rewrite bool_decide_false by (intros [= ?]; lia). rewrite Hb. cbn [mbind option_bind].
  rewrite bool_decide_false by lia.
  pose proof (js_slice_in_range (b_chars b) 0 s) as H0. change (Z.of_nat 0) with 0%Z in H0.
  rewrite H0, Nat.sub_0_r, drop_0 by lia. clear H0.
  rewrite js_slice_in_range, js_slice_from_in_range by lia.
  erewrite list_fmap_ext; [|intros ? ? ?; apply strip_styles_spec].
  eexists; split; [reflexivity|]. split.
  - apply getBlockForKey_set_block with b; [done|]. simpl. by apply (getBlockForKey_key c).
  - intros k' Hk'. apply set_block_frame. simpl. by rewrite (getBlockForKey_key c k b Hb).
Qed.

Lemma stripStylesFromBlock_range_witness :
  let chs := [mkChar ["BOLD"] None; mkChar ["BOLD"; "ITALIC"] None; mkChar ["BOLD"] None; EMPTY_CHAR] in
  let b := mkBlock "k" "unstyled" ⟪"abcd"⟫ chs in
  let c := mkContent [b] [] (mkSel "k" 0 "k" 0 false) (mkSel "k" 0 "k" 0 false) in
  let isBold := fun st => bool_decide (st = "BOLD") in
  exists c', stripStylesFromBlock c "k" isBold (Z.of_nat 1) (Some (Z.of_nat 3)) = Some c' /\
    getBlockForKey c' "k" =
      Some (set_chars b (take 1 chs ++
              ((fun ch => mkChar (filter (fun x => isBold x = false) (cm_style ch)) (cm_entity ch))
                <$> take (3 - 1) (drop 1 chs)) ++ drop 3 chs)) /\
    (forall k', k' <> "k" -> getBlockForKey c' k' = getBlockForKey c k').
Proof.
  intros chs b c isBold. apply (stripStylesFromBlock_range c "k" isBold b 1 3).
  - reflexivity.
  - simpl. lia.
Defined.

(** C28 (functional, finding; spec §4.2 [stripStylesFromBlock]).  The tail
    of the character list is [slice(end || size + 1)], so an explicit
    [end = 0] reads as "no end": for every block and every start [s] with
    [0 < s <= size], the middle [slice(s, 0)] and the tail are empty and
    the block keeps only its first [s] characters' metadata, whatever the
    filter; the other blocks are untouched.  When [s] is less than the
    size, the block's character list no longer matches its text. *)
Theorem stripStylesFromBlock_end_zero_truncates c k f b (s : nat) :
  getBlockForKey c k = Some b -> (0 < s <= length (b_chars b))%nat ->
  exists c', stripStylesFromBlock c k f (Z.of_nat s) (Some 0) = Some c' /\
    getBlockForKey c' k = Some (set_chars b (take s (b_chars b))) /\
    (forall k', k' <> k -> getBlockForKey c' k' = getBlockForKey c k') /\
    (block_wf b -> (s < length (b_chars b))%nat -> ~ block_wf (set_chars b (take s (b_chars b)))).
Proof.
  intros Hb Hs. unfold stripStylesFromBlock.
  rewrite bool_decide_false by (intros [= ?]; lia). rewrite Hb. cbn [mbind option_bind].
  rewrite bool_decide_true by done.
  pose proof (js_slice_in_range (b_chars b) 0 s) as H0. change (Z.of_nat 0) with 0%Z in H0.
  rewrite H0, Nat.sub_0_r, drop_0 by lia. clear H0.
  assert (Hm : js_slice (b_chars b) (Z.of_nat s) 0 = []).
  { unfold js_slice, js_norm. rewrite !(proj2 (Z.ltb_ge _ _)) by lia.
    replace (Z.to_nat (Z.min 0 _ - Z.min (Z.of_nat s) _)) with O by lia. done. }
  assert (Ht : js_slice_from (b_chars b) (Z.of_nat (length (b_chars b)) + 1) = []).
  { unfold js_slice_from, js_slice, js_norm. rewrite !(proj2 (Z.ltb_ge _ _)) by lia.
    replace (Z.to_nat _) with O by lia. done. }
  rewrite Hm, Ht. simpl. rewrite app_nil_r.
  eexists; split; [reflexivity|]. split; [|split].
  - apply getBlockForKey_set_block with b; [done|]. simpl. by apply (getBlockForKey_key c).
  - intros k' Hk'. apply set_block_frame. simpl. by rewrite (getBlockForKey_key c k b Hb).
  - unfold block_wf. simpl. rewrite length_take. lia.
Qed.

(** With [start = 2] and [end = 0] a block of four characters keeps only
    the metadata of its first two. *)
Lemma stripStylesFromBlock_end_zero_truncates_witness :
  let chs := [mkChar ["BOLD"] None; EMPTY_CHAR; mkChar ["BOLD"] None; EMPTY_CHAR] in
  let b := mkBlock "k" "unstyled" ⟪"abcd"⟫ chs in
  let c := mkContent [b] [] (mkSel "k" 0 "k" 0 false) (mkSel "k" 0 "k" 0 false) in
  exists c', stripStylesFromBlock c "k" (fun st => bool_decide (st = "BOLD")) (Z.of_nat 2) (Some 0) = Some c' /\
    getBlockForKey c' "k" = Some (set_chars b (take 2 chs)) /\
    (forall k', k' <> "k" -> getBlockForKey c' k' = getBlockForKey c k') /\
    (block_wf b -> (2 < length chs)%nat -> ~ block_wf (set_chars b (take 2 chs))).
Proof.
  intros chs b c. apply (stripStylesFromBlock_end_zero_truncates c "k" _ b 2); [reflexivity|simpl; lia].
Defined.

(** C29 (roundtrip, spec §4.2 [getInsertedCharactersFromChange]).  When
    [Modifier.insertText] puts a non-empty text at the collapsed caret of a
    block and the result is pushed as [insert-characters], the helper reads
    back exactly the inserted text from the new editor state. *)
Theorem getInsertedCharactersFromChange_insertText es k (off : nat) b txt st ent :
  getBlockForKey (currentContent es) k = Some b -> block_wf b ->
  (off <= length (b_text b))%nat -> txt <> [] ->
  selection es = mkSel k (Z.of_nat off) k (Z.of_nat off) false ->
  exists c', Modifier_insertText (currentContent es) (selection es) txt st ent = Some c' /\
    getInsertedCharactersFromChange (Some insert_characters) es
      (EditorState_push es c' insert_characters) = Some txt.
Proof.
  intros Hb Hwf Hoff Hne Hsel.
  destruct (Modifier_replaceText_in_block (currentContent es) k off off b txt st ent Hb Hwf)
    as (c' & b' & Hr & Hb' & _ & _ & Ht' & _ & _ & Ha'); [lia|].
  exists c'. split.
  { rewrite Hsel. unfold Modifier_insertText, isCollapsed. simpl. by rewrite !bool_decide_true. }
  assert (Hch : currentContent es <> c').
  { intros <-. rewrite Hb in Hb'. injection Hb' as <-. apply (f_equal length) in Ht'.
    rewrite !length_app, length_take, length_drop in Ht'. destruct txt; [done|]. simpl in Ht'. lia. }
  destruct (EditorState_push_changed es c' insert_characters Hch) as (Hs & _ & Hm).
  unfold getInsertedCharactersFromChange. rewrite bool_decide_true by done.
  rewrite Hs, Ha', Hsel. unfold getStartKey, getStartOffset, getEndOffset. simpl.
  rewrite (getBlockForKey_blockMap _ c' k Hm), Hb'. cbn [mbind option_bind]. f_equal.
  assert (Hlt : length (take off (b_text b)) = off) by (rewrite length_take; lia).
  rewrite Ht', js_slice_in_range by (rewrite !length_app, Hlt; lia).
  rewrite drop_app_length' by done.
  replace (off + length txt - off)%nat with (length txt) by lia.
  apply take_app_length.
Qed.

Lemma getInsertedCharactersFromChange_insertText_witness :
  let b := mkBlock "k" "unstyled" ⟪"abcd"⟫ (replicate 4 EMPTY_CHAR) in
  let c := mkContent [b] [] (mkSel "k" 2 "k" 2 false) (mkSel "k" 2 "k" 2 false) in
  let es := mkEditor c (mkSel "k" 2 "k" 2 false) None true [] [] false in
  exists c', Modifier_insertText (currentContent es) (selection es) ⟪"xy"⟫ [] None = Some c' /\
    getInsertedCharactersFromChange (Some insert_characters) es
      (EditorState_push es c' insert_characters) = Some ⟪"xy"⟫.
Proof.
  intros b c es. apply (getInsertedCharactersFromChange_insertText es "k" 2 b).
  - reflexivity.
  - reflexivity.
  - simpl. lia.
  - discriminate.
  - reflexivity.
Defined.

(** C30 (roundtrip, spec §4.2 [getDeletedCharactersFromChange]).  When a
    backspace at a collapsed caret [o > 0] removes the character before it
    ([Modifier.removeRange] on [[o - 1, o)]) and the result is pushed as
    [backspace-character], the helper reads back exactly that character,
    text and metadata, from the old block. *)
Theorem getDeletedCharactersFromChange_backspace es k (o : nat) b :
  getBlockForKey (currentContent es) k = Some b -> block_wf b ->
  (0 < o <= length (b_text b))%nat ->
  selection es = mkSel k (Z.of_nat o) k (Z.of_nat o) false ->
  exists c', Modifier_removeRange (currentContent es) (mkSel k (Z.of_nat (o - 1)) k (Z.of_nat o) false)
               = Some c' /\
    getDeletedCharactersFromChange (Some backspace_character) es
      (EditorState_push es c' backspace_character) =
      Some (take 1 (drop (o - 1) (b_text b)), take 1 (drop (o - 1) (b_chars b))).
Proof.
  intros Hb Hwf Ho Hsel.
  destruct (Modifier_removeRange_in_block (currentContent es) k (o - 1) o b Hb Hwf)
    as (c' & b' & Hr & Ha' & Hb' & Ht' & _); [lia|].
  exists c'. split; [done|].
  assert (Hch : currentContent es <> c').
  { intros <-. rewrite Hb in Hb'. injection Hb' as <-. apply (f_equal length) in Ht'.
    rewrite length_app, length_take, length_drop in Ht'. lia. }
  destruct (EditorState_push_changed es c' backspace_character Hch) as (Hs & _ & _).
  unfold getDeletedCharactersFromChange. rewrite bool_decide_true by done. simpl.
  rewrite Hsel. unfold getStartKey, isCollapsed, getStartOffset. simpl.
  rewrite Hb, !bool_decide_true by done. cbn [mbind option_bind negb]. rewrite Hs, Ha'. simpl.
  replace (Z.of_nat o) with (Z.of_nat (o - 1 + 1)) by lia.
  unfold block_wf in Hwf. rewrite !js_slice_in_range by lia.
  by replace (o - 1 + 1 - (o - 1))%nat with 1%nat by lia.
Qed.

Lemma getDeletedCharactersFromChange_backspace_witness :
  let b := mkBlock "k" "unstyled" ⟪"abcd"⟫ (replicate 4 EMPTY_CHAR) in
  let c := mkContent [b] [] (mkSel "k" 3 "k" 3 false) (mkSel "k" 3 "k" 3 false) in
  let es := mkEditor c (mkSel "k" 3 "k" 3 false) None true [] [] false in
  exists c', Modifier_removeRange (currentContent es) (mkSel "k" (Z.of_nat (3 - 1)) "k" (Z.of_nat 3) false)
               = Some c' /\
    getDeletedCharactersFromChange (Some backspace_character) es
      (EditorState_push es c' backspace_character) =
      Some (take 1 (drop (3 - 1) (b_text b)), take 1 (drop (3 - 1) (b_chars b))).
Proof.
  intros b c es. apply (getDeletedCharactersFromChange_backspace es "k" 3 b).
  - reflexivity.
  - reflexivity.
  - simpl. lia.
  - reflexivity.
Defined.

(** (equivalence, spec §4.2 [contiguousRange]).  At every index inside
    the block, the two scanning loops of [getContiguousStyleRange] compute
    the list-level reference [contiguous_range_ref]: the start is [i + 1]
    minus the run of passing characters ending at [i], the end is [i] plus
    the run starting at [i] (both runs are empty when the character at [i]
    fails the filter). *)
Theorem getContiguousStyleRange_equiv b f (i : nat) :
  (i < length (b_chars b))%nat ->
  getContiguousStyleRange b f (Z.of_nat i) = Some (contiguous_range_ref b f i).
Proof.
  intros Hi. unfold getContiguousStyleRange, contiguous_range_ref.
  pose proof (scan_left_run f (b_chars b) (Z.to_nat (Z.of_nat i + 1)) (S i)) as Hl.
  replace (Z.of_nat (S i) - 1) with (Z.of_nat i) in Hl by lia.
  rewrite Hl, scan_right_run by lia. cbn [mbind option_bind]. do 2 f_equal. lia.
Qed.

Lemma getContiguousStyleRange_equiv_witness :
  let b := mkBlock "k" "unstyled" ⟪"abcd"⟫
             [EMPTY_CHAR; mkChar ["BOLD"] None; mkChar ["BOLD"] None; EMPTY_CHAR] in
  getContiguousStyleRange b (hasStyle "BOLD") (Z.of_nat 2) =
    Some (contiguous_range_ref b (hasStyle "BOLD") 2) /\
  contiguous_range_ref b (hasStyle "BOLD") 2 = mkRange "k" 1 3.
Proof.
  intros b. split.
  - apply (getContiguousStyleRange_equiv b (hasStyle "BOLD") 2). simpl. lia.
  - vm_compute. reflexivity.
Defined.

(** (bounds, spec §4.3 decorator strategy).  The ranges a decorator
    strategy reports for a block are non-empty, in increasing order,
    pairwise disjoint, and inside the block's character list: each one
    starts at or after the end of the previous one and none ends past the
    block's length. *)
Theorem decoratorStrategyRanges_bounds ty b c rs :
  decoratorStrategyRanges ty b c = Some rs -> ranges_chain rs 0 (length (b_chars b)).
Proof.
  unfold decoratorStrategyRanges. case_match; [done|]. intros [= <-].
  unfold findEntityRanges, findRangesImmutable. destruct (b_chars b) as [|x rest]; simpl; [lia|].
  apply find_ranges_go_chain. lia.
Qed.

Lemma decoratorStrategyRanges_bounds_witness :
  let c := mkContent [] [mkEntity "LINK" MUTABLE []] (mkSel "k" 0 "k" 0 false) (mkSel "k" 0 "k" 0 false) in
  let b := mkBlock "k" "unstyled" ⟪"abcde"⟫
             [EMPTY_CHAR; mkChar [] (Some 0%nat); mkChar [] (Some 0%nat); EMPTY_CHAR; mkChar [] (Some 0%nat)] in
  decoratorStrategyRanges "LINK" b c = Some [(1, 3); (4, 5)]%nat /\
  ranges_chain [(1, 3); (4, 5)]%nat 0 (length (b_chars b)).
Proof.
  intros c b. split; [vm_compute; reflexivity|].
  apply (decoratorStrategyRanges_bounds "LINK" b c). vm_compute. reflexivity.
Defined.

(** C31 (roundtrip, spec §4.2 [getDeletedCharactersFromChange]).  A
    forward delete at a collapsed caret [o] inside a block removes the
    character at [o] ([Modifier.removeRange] on [[o, o + 1)]); pushed as
    [delete-character], the helper reports a text and a metadata list
    which, put back at [o] into the new block, give the old block back. *)
Theorem getDeletedCharactersFromChange_delete es k (o : nat) b :
  getBlockForKey (currentContent es) k = Some b -> block_wf b ->
  (o < length (b_text b))%nat ->
  selection es = mkSel k (Z.of_nat o) k (Z.of_nat o) false ->
  exists c' b' del, Modifier_removeRange (currentContent es) (mkSel k (Z.of_nat o) k (Z.of_nat (S o)) false)
                      = Some c' /\
    getBlockForKey c' k = Some b' /\
    getDeletedCharactersFromChange (Some delete_character) es
      (EditorState_push es c' delete_character) = Some del /\
    take o (b_text b') ++ del.1 ++ drop o (b_text b') = b_text b /\
    take o (b_chars b') ++ del.2 ++ drop o (b_chars b') = b_chars b.
Proof.
  intros Hb Hwf Ho Hsel. unfold block_wf in Hwf.
  destruct (Modifier_removeRange_in_block (currentContent es) k o (S o) b Hb Hwf)
    as (c' & b' & Hr & _ & Hb' & Ht' & Hc'); [lia|].
  exists c', b', (take 1 (drop o (b_text b)), take 1 (drop o (b_chars b))).
  split; [done|]. split; [done|]. split.
  - unfold getDeletedCharactersFromChange. rewrite Hsel.
    rewrite (bool_decide_false (Some delete_character = Some backspace_character)),
      (bool_decide_false (Some delete_character = Some remove_range)), bool_decide_true by done.
    unfold getStartKey, getStartOffset. cbn [orb isBackward anchorKey anchorOffset].
    rewrite Hb. cbn [mbind option_bind]. by rewrite !js_slice_one by lia.
  - destruct (take_drop_prefix (b_text b) (drop (S o) (b_text b)) o) as [Ht1 Ht2]; [lia|].
    destruct (take_drop_prefix (b_chars b) (drop (S o) (b_chars b)) o) as [Hc1 Hc2]; [lia|].
    rewrite Ht', Hc', Ht1, Ht2, Hc1, Hc2. simpl. split; apply take_one_middle.
Qed.

Lemma getDeletedCharactersFromChange_delete_witness :
  let b := mkBlock "k" "unstyled" ⟪"abcd"⟫ (replicate 4 EMPTY_CHAR) in
  let c := mkContent [b] [] (mkSel "k" 1 "k" 1 false) (mkSel "k" 1 "k" 1 false) in
  let es := mkEditor c (mkSel "k" 1 "k" 1 false) None true [] [] false in
  exists c' b' del, Modifier_removeRange (currentContent es) (mkSel "k" (Z.of_nat 1) "k" (Z.of_nat 2) false)
                      = Some c' /\
    getBlockForKey c' "k" = Some b' /\
    getDeletedCharactersFromChange (Some delete_character) es
      (EditorState_push es c' delete_character) = Some del /\
    take 1 (b_text b') ++ del.1 ++ drop 1 (b_text b') = b_text b /\
    take 1 (b_chars b') ++ del.2 ++ drop 1 (b_chars b') = b_chars b.
Proof.
  intros b c es. apply (getDeletedCharactersFromChange_delete es "k" 1 b).
  - reflexivity.
  - reflexivity.
  - simpl. lia.
  - reflexivity.
Defined.

(** (functional, boundaries; spec §4.2 [getAdjacentCharacters]).  The
    characters around the focus offset [o] of a block are the one before
    and the one at [o]; at the start of the block the first is empty
    ([slice(-1, 0)] counts [-1] from the end, past [0]), at its end the
    second is. *)
Theorem getAdjacentCharacters_edges c sel b (o : nat) :
  getBlockForKey c (focusKey sel) = Some b -> focusOffset sel = Z.of_nat o ->
  (o <= length (b_text b))%nat ->
  getAdjacentCharacters c sel =
    Some (if decide (o = 0%nat) then [] else take 1 (drop (o - 1) (b_text b)),
          take 1 (drop o (b_text b))).
Proof.
  intros Hb Ho Hle. unfold getAdjacentCharacters. rewrite Hb, Ho. cbn [mbind option_bind].
  rewrite js_slice_one by done. case_decide as H0.
  - subst. by rewrite js_slice_minus_one_zero.
  - replace (Z.of_nat o - 1) with (Z.of_nat (o - 1)) by lia.
    replace (Z.of_nat o) with (Z.of_nat (o - 1) + 1) by lia.
    rewrite js_slice_one by lia. done.
Qed.

Lemma getAdjacentCharacters_edges_witness :
  let b := mkBlock "k" "unstyled" ⟪"abcd"⟫ (replicate 4 EMPTY_CHAR) in
  let c := mkContent [b] [] (mkSel "k" 0 "k" 0 false) (mkSel "k" 0 "k" 0 false) in
  getAdjacentCharacters c (mkSel "k" 0 "k" 0 false) =
    Some (if decide (0%nat = 0%nat) then [] else take 1 (drop (0 - 1) (b_text b)),
          take 1 (drop 0 (b_text b))).
Proof.
  intros b c. apply (getAdjacentCharacters_edges c (mkSel "k" 0 "k" 0 false) b 0).
  - reflexivity.
  - reflexivity.
  - simpl. lia.
Defined.
