(* ===== verification/DependentEdits.v ===== *)
(** * The position-adjusted edit compiler: [performDependentEdits]

    [performDependentEdits] of [src/app/utils/draftUtils.ts] (spec §4.1)
    applies a list of edits whose offsets are expressed against the
    original text.  It keeps, per block key, two sparse arrays
    [insertions] and [deletions] (a [gmap string (list Z)] here, the arrays
    as [list Z] with holes read as [0]) and rebases each edit by the
    amounts recorded at or before its offset.  The fold over the edits is
    [step_edit]; the whole compiler is [performDependentEdits].

    Theorems.  A reference semantics [splice] works in original
    coordinates: every original position [p] is preceded by the texts the
    batch inserts there, in batch order, and is kept unless some edit's
    deletion range covers it.  For a batch on one block whose edits are
    pairwise [compatible] (no later edit starts inside, or strictly
    encloses the start of, an earlier edit's deletion range) the compiler
    refines it: the final text is the splice of the original text, the
    final metadata the splice of the original metadata with each text's
    style run, the block keeps its type, the other blocks are untouched,
    and the arrays record the inserted and deleted lengths.  For
    insertion-only batches a trailing/leading selection edit lands
    after/before the texts inserted at its offset.  Outside the
    compatibility condition the rebasing is wrong for a later edit at the
    offset where a deletion starts (a recorded finding). *)

From S2P Require Import Prelude Draft DraftUtils.
From stdpp Require Import gmap.

Open Scope Z_scope.
Open Scope draft_scope.


(** ** Edits *)

Record InsertionEdit := mkInsertion {
  ie_text : list ascii;
  ie_blockKey : string;
  ie_offset : nat;
  ie_deletionLength : option nat;
  ie_style : option (list string);
  ie_disableUndo : bool;
}.

Inductive Adjustment := leading | trailing.

Record SelectionEdit := mkSelectionEdit {
  se_anchorKey : string;
  se_anchorOffset : nat;
  se_focusKey : string;
  se_focusOffset : nat;
  se_isBackward : bool;
  se_adjustFocusForInsertions : option Adjustment;
  se_adjustAnchorForInsertions : option Adjustment;
}.

Inductive Edit :=
  | Insertion (e : InsertionEdit)
  | SelectionE (e : SelectionEdit).

(** The two dictionaries [insertions] and [deletions]. *)
Record Counters := mkCounters {
  insertions : gmap string (list Z);
  deletions : gmap string (list Z);
}.

Definition counters_empty : Counters := mkCounters ∅ ∅.

(** [insertions[k] = insertions[k] || [0]] and the same for deletions. *)
Definition ensure_key (k : string) (st : Counters) : Counters :=
  mkCounters (<[k := default [0] (insertions st !! k)]> (insertions st))
             (<[k := default [0] (deletions st !! k)]> (deletions st)).

Definition ins_of (st : Counters) (k : string) : list Z := default [0] (insertions st !! k).
Definition del_of (st : Counters) (k : string) : list Z := default [0] (deletions st !! k).

(** [sum(arr.slice(0, n))]. *)
Definition prefix_sum (arr : list Z) (n : nat) : Z := js_sum (take n arr).

(** The live offset of an insertion at original offset [o]. *)
Definition insert_offset (st : Counters) (k : string) (o : nat) : Z :=
  Z.of_nat o + prefix_sum (ins_of st k) (S o) - prefix_sum (del_of st k) (S o).

(** [edit.adjust...ForInsertions === 'leading' ? 0 : 1]. *)
Definition adjust_amount (a : option Adjustment) : nat :=
  match a with Some leading => 0 | _ => 1 end.

(** The delta of a selection endpoint at original offset [o]. *)
Definition selection_delta (st : Counters) (k : string) (o : nat) (a : option Adjustment) : Z :=
  prefix_sum (ins_of st k) (o + adjust_amount a) - prefix_sum (del_of st k) (o + adjust_amount a).

(** The [case 'insertion'] branch. *)
Definition step_insertion (es : EditorState) (st : Counters) (e : InsertionEdit)
  : option (EditorState * Counters) :=
  let k := ie_blockKey e in
  let st1 := ensure_key k st in
  let o := ie_offset e in
  let dl := default O (ie_deletionLength e) in
  let io := insert_offset st1 k o in
  let st2 := mkCounters
    (<[k := arr_set (ins_of st1 k) o (arr_get (ins_of st1 k) o + Z.of_nat (length (ie_text e)))]>
       (insertions st1))
    (<[k := arr_set (del_of st1 k) o (arr_get (del_of st1 k) o + Z.of_nat dl)]> (deletions st1)) in
  nc ← Modifier_replaceText (currentContent es) (createSelectionWithRange k io (io + Z.of_nat dl))
         (ie_text e) (default [] (ie_style e)) None;
  let ct := if bool_decide (length (ie_text e) = O) then remove_range else insert_characters in
  let es' := if ie_disableUndo e
             then performUnUndoableEdits es (fun d => EditorState_push d nc ct)
             else EditorState_push es nc ct in
  Some (es', st2).

(** The [case 'selection'] branch. *)
Definition step_selection (es : EditorState) (st : Counters) (e : SelectionEdit)
  : EditorState * Counters :=
  let st1 := ensure_key (se_focusKey e) (ensure_key (se_anchorKey e) st) in
  let ad := selection_delta st1 (se_anchorKey e) (se_anchorOffset e) (se_adjustAnchorForInsertions e) in
  let fd := selection_delta st1 (se_focusKey e) (se_focusOffset e) (se_adjustFocusForInsertions e) in
  (EditorState_forceSelection es
     (mkSel (se_anchorKey e) (Z.of_nat (se_anchorOffset e) + ad)
            (se_focusKey e) (Z.of_nat (se_focusOffset e) + fd) (se_isBackward e)),
   st1).

Definition step_edit (acc : option (EditorState * Counters)) (e : Edit)
  : option (EditorState * Counters) :=
  '(es, st) ← acc;
  match e with
  | Insertion ie => step_insertion es st ie
  | SelectionE se => Some (step_selection es st se)
  end.

(** [performDependentEdits(editorState, edits)]. *)
Definition performDependentEdits (es : EditorState) (edits : list Edit) : option EditorState :=
  fst <$> foldl step_edit (Some (es, counters_empty)) edits.

(** ** The reference semantics: edits in original coordinates *)

(** What a batch inserts at original offset [p], in batch order, as seen
    through [f]. *)
Definition inserted_by {A} (f : InsertionEdit -> list A) (edits : list InsertionEdit) (p : nat) : list A :=
  mjoin (f <$> filter (fun e => ie_offset e = p) edits).

(** The texts a batch inserts at [p]. *)
Definition inserted_at : list InsertionEdit -> nat -> list ascii := inserted_by ie_text.

(** The metadata of an inserted text: [Modifier.replaceText] gives every
    character the edit's style ([edit.style || OrderedSet()]) and no
    entity. *)
Definition ie_meta (e : InsertionEdit) : list CharacterMetadata :=
  replicate (length (ie_text e)) (mkChar (default [] (ie_style e)) None).

Definition inserted_meta : list InsertionEdit -> nat -> list CharacterMetadata := inserted_by ie_meta.

(** An insertion on block [k], inside the original text [orig], deleting
    nothing. *)
Definition plain_insertion (k : string) (orig : list ascii) (e : InsertionEdit) : Prop :=
  ie_blockKey e = k /\ (ie_offset e <= length orig)%nat /\ default O (ie_deletionLength e) = O.

(** ** The reference semantics with deletions *)

(** [edit.deletionLength || 0]. *)
Definition ie_dl (e : InsertionEdit) : nat := default O (ie_deletionLength e).

(** Every original position [p] is preceded by the text [g p] inserted
    there, and kept unless some edit deletes it ([dc p], the number of
    edits whose range covers [p], is not [0]). *)
Fixpoint splice_from {A} (orig : list A) (g : nat -> list A) (dc : nat -> nat) (p : nat) : list A :=
  match orig with
  | [] => g p
  | c :: r => g p ++ (if bool_decide (dc p = O) then [c] else []) ++ splice_from r g dc (S p)
  end.

Definition splice {A} (orig : list A) (g : nat -> list A) (dc : nat -> nat) : list A :=
  splice_from orig g dc 0.

(** Whether an edit's deleted range [[offset, offset + deletionLength)]
    covers original position [q]. *)
Definition covers (e : InsertionEdit) (q : nat) : nat :=
  if bool_decide (ie_offset e <= q < ie_offset e + ie_dl e)%nat then 1%nat else O.

Definition deleted_count (edits : list InsertionEdit) (q : nat) : nat :=
  sum_list_with (fun e => covers e q) edits.

(** The lengths deleted by the edits at offset [p]: what the [deletions]
    array of the block records at [p]. *)
Definition deleted_at (edits : list InsertionEdit) (p : nat) : nat :=
  sum_list_with (fun e => if bool_decide (ie_offset e = p) then ie_dl e else O) edits.

(** The live offset, after a batch, of a caret at original offset [o]:
    the offset, plus what the batch inserted and minus what it deleted at
    the offsets before [o], and at [o] itself too unless the caret is to
    stay [leading], before the texts inserted there. *)
Definition rebased_offset (edits : list InsertionEdit) (o : nat) (a : option Adjustment) : Z :=
  Z.of_nat o + Z.of_nat (sum_upto (fun q => length (inserted_at edits q)) o)
  - Z.of_nat (sum_upto (deleted_at edits) o)
  + match a with
    | Some leading => 0
    | _ => Z.of_nat (length (inserted_at edits o)) - Z.of_nat (deleted_at edits o)
    end.

(** The live position, in the spliced list from [p] on, right after the
    texts inserted at [p + o]. *)
Definition gap_pos {A} (g : nat -> list A) (dc : nat -> nat) (p o : nat) : nat :=
  (sum_upto (fun i => length (g (p + i)%nat) + (if bool_decide (dc (p + i)%nat = O) then 1 else O)) o
   + length (g (p + o)%nat))%nat.

(** An edit on block [k] whose deleted range lies inside [orig]. *)
Definition valid_edit (k : string) (orig : list ascii) (e : InsertionEdit) : Prop :=
  ie_blockKey e = k /\ (ie_offset e + ie_dl e <= length orig)%nat.

(** An earlier edit [d] and a later edit [e] the compiler can rebase: [e]
    is not addressed inside (or at the start of) the range [d] deleted,
    and [d] is not addressed strictly inside the range [e] deletes. *)
Definition compatible (d e : InsertionEdit) : Prop :=
  ~ (ie_offset d <= ie_offset e < ie_offset d + ie_dl d)%nat /\
  ~ (ie_offset e < ie_offset d < ie_offset e + ie_dl e)%nat.

(** Every edit is compatible with each one after it. *)
Fixpoint batch_ok (edits : list InsertionEdit) : Prop :=
  match edits with
  | [] => True
  | e :: l => Forall (compatible e) l /\ batch_ok l
  end.

(** After the edits [done] on the content [c0] whose block [k], of type
    [ty], held the text [orig] with the metadata [origc]: the block keeps
    its type and holds the splice of [done], on its text and on its
    metadata, the other blocks are those of [c0], the [insertions] array
    of [k] holds the inserted lengths per original offset, the [deletions]
    array the deleted lengths, and no position is deleted twice. *)
Definition edits_inv (k ty : string) (orig : list ascii) (origc : list CharacterMetadata) (c0 : ContentState)
    (done : list InsertionEdit) (es : EditorState) (st : Counters) : Prop :=
  (exists b, getBlockForKey (currentContent es) k = Some b /\ b_type b = ty /\
    b_text b = splice orig (inserted_at done) (deleted_count done) /\
    b_chars b = splice origc (inserted_meta done) (deleted_count done) /\ block_wf b) /\
  (forall k', k' <> k -> getBlockForKey (currentContent es) k' = getBlockForKey c0 k') /\
  (forall q, arr_get (ins_of st k) q = Z.of_nat (length (inserted_at done q))) /\
  (forall q, arr_get (del_of st k) q = Z.of_nat (deleted_at done q)) /\
  (forall q, deleted_count done q <= 1)%nat.

(** ** Concrete inputs of the examples of spec §8 *)

Definition ex_sel (k : string) : SelectionState := mkSel k 0 k 0 false.

(** An editor holding the single unstyled block [k] with text [t]. *)
Definition ex_editor (k : string) (t : list ascii) : EditorState :=
  let c := mkContent [mkBlock k "unstyled" t (replicate (length t) EMPTY_CHAR)] []
             (ex_sel k) (ex_sel k) in
  mkEditor c (ex_sel k) None true [] [] false.

Definition ex_insert (k : string) (o : nat) (t : list ascii) (dl : option nat) : InsertionEdit :=
  mkInsertion t k o dl None false.

(** The text of block [k] after a run of the compiler. *)
Definition text_of (k : string) (r : option EditorState) : option (list ascii) :=
  es ← r; b ← getBlockForKey (currentContent es) k; Some (b_text b).

(** ** Lemmas *)

Lemma inserted_by_snoc {A} (f : InsertionEdit -> list A) edits e p :
  inserted_by f (edits ++ [e]) p =
  inserted_by f edits p ++ (if decide (ie_offset e = p) then f e else []).
Proof.
  unfold inserted_by. rewrite filter_app, fmap_app, join_app. f_equal.
  rewrite filter_cons, filter_nil. case_decide; simpl; by rewrite ?app_nil_r.
Qed.

Lemma sum_upto_shift (f : nat -> nat) n :
  sum_upto f (S n) = (f O + sum_upto (fun i => f (S i)) n)%nat.
Proof. induction n as [|n IH]; simpl in *; lia. Qed.

Lemma inserted_at_snoc edits e p :
  inserted_at (edits ++ [e]) p =
  inserted_at edits p ++ (if decide (ie_offset e = p) then ie_text e else []).
Proof. apply inserted_by_snoc. Qed.

(** Each inserted text has one metadata entry per character. *)
Lemma length_inserted_meta edits p : length (inserted_meta edits p) = length (inserted_at edits p).
Proof.
  induction edits as [|e edits IH] using rev_ind; [done|].
  unfold inserted_meta, inserted_at in *. rewrite !inserted_by_snoc, !length_app, IH.
  case_decide; [|done]. unfold ie_meta. by rewrite length_replicate.
Qed.

(** ** Splicing *)

Lemma splice_from_ext {A} (orig : list A) g g' dc dc' p :
  (forall q, (p <= q)%nat -> g q = g' q) -> (forall q, (p <= q)%nat -> dc q = dc' q) ->
  splice_from orig g dc p = splice_from orig g' dc' p.
Proof.
  revert p. induction orig as [|c r IH]; intros p Hg Hd; simpl; rewrite Hg by lia; [done|].
  rewrite Hd by lia. f_equal. f_equal. apply IH; intros; [apply Hg|apply Hd]; lia.
Qed.

Lemma keep_length {A} (b : bool) (c : A) : length (if b then [c] else []) = (if b then 1 else O)%nat.
Proof. by destruct b. Qed.

(** The gap of [p + S o] seen from [p] is the gap of [S p + o] seen from
    [S p], behind position [p]. *)
Lemma gap_pos_shift {A} (g : nat -> list A) dc p o :
  gap_pos g dc p (S o) =
    (length (g p) + (if bool_decide (dc p = O) then 1 else O) + gap_pos g dc (S p) o)%nat.
Proof.
  unfold gap_pos. rewrite sum_upto_shift, Nat.add_0_r.
  rewrite (sum_upto_ext _ (fun i => length (g (S p + i)%nat) + (if bool_decide (dc (S p + i)%nat = O) then 1 else O))%nat)
    by (intros; by rewrite <- Nat.add_succ_comm).
  rewrite <- Nat.add_succ_comm. lia.
Qed.

(** Appending [t] to the texts inserted at [p + o] puts [t] in the gap. *)
Lemma splice_from_insert {A} (orig : list A) g g' dc p o t :
  (o <= length orig)%nat ->
  g' (p + o)%nat = g (p + o)%nat ++ t -> (forall q, q <> (p + o)%nat -> g' q = g q) ->
  let W := splice_from orig g dc p in
  let pos := gap_pos g dc p o in
  splice_from orig g' dc p = take pos W ++ t ++ drop pos W /\ (pos <= length W)%nat.
Proof.
  revert p o. induction orig as [|c r IH]; intros p o Ho Hg Hq W pos; subst W pos; cbn [splice_from length] in *.
  - assert (o = O) as -> by lia. unfold gap_pos. simpl. rewrite Nat.add_0_r in *.
    rewrite Hg, take_ge, drop_ge by lia. split; [by rewrite app_nil_r|lia].
  - destruct o as [|o].
    + unfold gap_pos. simpl. rewrite Nat.add_0_r in *. rewrite Hg.
      rewrite (splice_from_ext r g' g dc dc) by (intros; first [done | apply Hq; lia]).
      rewrite take_app_length, drop_app_length, length_app. split; [by rewrite <- app_assoc|lia].
    + rewrite (Hq p) by lia.
      destruct (IH (S p) o) as [Heq Hle]; [lia| |intros; apply Hq; lia|].
      { by replace (S p + o)%nat with (p + S o)%nat by lia. }
      rewrite gap_pos_shift, <- (keep_length (bool_decide (dc p = O)) c), <- !Nat.add_assoc.
      rewrite !take_app_add, !drop_app_add, Heq, !length_app. split; [by rewrite <- !app_assoc|lia].
Qed.

(** Deleting the [dl] original positions from [p + o] on, which carry no
    text inserted after the first of them and are not yet deleted, removes
    [dl] elements right after the gap of [p + o]. *)
Lemma splice_from_delete {A} (orig : list A) g dc dc' p o dl :
  (o + dl <= length orig)%nat ->
  (forall q, (p + o <= q < p + o + dl)%nat -> dc q = O) ->
  (forall q, (p + o < q < p + o + dl)%nat -> g q = []) ->
  (forall q, (p <= q)%nat -> dc' q = (dc q + if bool_decide (p + o <= q < p + o + dl)%nat then 1 else O)%nat) ->
  let W := splice_from orig g dc p in
  let pos := gap_pos g dc p o in
  splice_from orig g dc' p = take pos W ++ drop (pos + dl) W /\ (pos + dl <= length W)%nat.
Proof.
  revert p o dl. induction orig as [|c r IH]; intros p o dl Hlen Hdc Hg Hdc' W pos; subst W pos;
    cbn [splice_from length] in *.
  - assert (o = O /\ dl = O) as [-> ->] by lia. unfold gap_pos. simpl. rewrite !Nat.add_0_r.
    rewrite take_ge, drop_ge by lia. split; [by rewrite app_nil_r|lia].
  - destruct o as [|o].
    + rewrite Nat.add_0_r in Hdc, Hg, Hdc'. unfold gap_pos. cbn [sum_upto]. rewrite !Nat.add_0_r, Nat.add_0_l.
      destruct dl as [|dl].
      * rewrite (Hdc' p), (bool_decide_false (_ <= _ < _)%nat), Nat.add_0_r by lia.
        rewrite (splice_from_ext r g g dc' dc)
          by (intros q Hq; first [done | rewrite Hdc', (bool_decide_false (_ <= _ < _)%nat) by lia; lia]).
        rewrite Nat.add_0_r, take_drop. split; [done|]. rewrite !length_app. lia.
      * rewrite (Hdc' p), (Hdc p), (bool_decide_true (_ <= _ < _)%nat), (bool_decide_false (_ + 1 = O)%nat) by lia.
        destruct (IH (S p) O dl) as [Heq Hle]; [lia|intros; apply Hdc; lia|intros; apply Hg; lia|..].
        { intros q Hq. rewrite Hdc' by lia. repeat case_bool_decide; lia. }
        rewrite (bool_decide_true (O = O)%nat) by done. rewrite Heq.
        rewrite take_app_length. replace (length (g p) + S dl)%nat with (length (g p ++ [c]) + dl)%nat
          by (rewrite length_app; simpl; lia).
        rewrite (app_assoc (g p) [c]), drop_app_add. cbn [app]. unfold gap_pos in Heq, Hle |- *. cbn [sum_upto] in *.
        rewrite Nat.add_0_r in *. split.
        -- destruct dl as [|dl]; [by rewrite Nat.add_0_r, take_drop|].
           rewrite (Hg (S p)) by lia. simpl. done.
        -- rewrite !length_app. simpl. lia.
    + rewrite (Hdc' p), (bool_decide_false (p + S o <= p < _)%nat) by lia. rewrite Nat.add_0_r.
      destruct (IH (S p) o dl) as [Heq Hle]; [lia|intros; apply Hdc; lia|intros; apply Hg; lia|..].
      { intros q Hq. rewrite Hdc' by lia. repeat case_bool_decide; lia. }
      rewrite gap_pos_shift, <- (keep_length (bool_decide (dc p = O)) c), <- !Nat.add_assoc.
      rewrite !take_app_add, !drop_app_add, Heq, !length_app. split; [by rewrite <- !app_assoc|lia].
Qed.

Lemma gap_pos_app {A} (g g' : nat -> list A) dc o t :
  g' o = g o ++ t -> (forall q, q <> o -> g' q = g q) ->
  gap_pos g' dc 0 o = (gap_pos g dc 0 o + length t)%nat.
Proof.
  intros Ho Hq. unfold gap_pos. simpl. rewrite Ho, length_app.
  rewrite (sum_upto_ext _ (fun i => length (g i) + (if bool_decide (dc i = O) then 1 else O))%nat)
    by (intros i Hi; by rewrite Hq by lia). lia.
Qed.

(** Replacing the [dl] original positions from [o] by the text [t]
    inserted behind the texts already at [o]: what [Modifier.replaceText]
    does at the live position of [o]. *)
Lemma splice_replace {A} (orig : list A) g dc g' dc' o dl t :
  (o + dl <= length orig)%nat ->
  (forall q, (o <= q < o + dl)%nat -> dc q = O) ->
  (forall q, (o < q < o + dl)%nat -> g q = []) ->
  g' o = g o ++ t -> (forall q, q <> o -> g' q = g q) ->
  (forall q, dc' q = (dc q + if bool_decide (o <= q < o + dl)%nat then 1 else O)%nat) ->
  let W := splice orig g dc in
  let pos := gap_pos g dc 0 o in
  splice orig g' dc' = take pos W ++ t ++ drop (pos + dl) W /\ (pos + dl <= length W)%nat.
Proof.
  intros Hlen Hdc Hg Ho Hq Hdc' W pos.
  destruct (splice_from_insert orig g g' dc 0 o t) as [Hi Hle]; [lia|done|done|].
  destruct (splice_from_delete orig g' dc dc' 0 o dl) as [Hd Hle']; [lia|exact Hdc| |intros q _; apply Hdc'|].
  { intros q Hq'. rewrite Hq by lia. apply Hg. lia. }
  subst W pos. unfold splice. rewrite (gap_pos_app g g' dc o t Ho Hq), Hi in Hle'.
  rewrite !length_app, length_take, length_drop in Hle'.
  rewrite Hd, (gap_pos_app g g' dc o t Ho Hq), Hi.
  set (W := splice_from orig g dc 0) in *. set (pos := gap_pos g dc 0 o) in *.
  assert (Hp : length (take pos W ++ t) = (pos + length t)%nat) by (rewrite length_app, length_take; lia).
  rewrite app_assoc, <- Hp, take_app_length, drop_app_add, <- app_assoc, drop_drop. split; [done|lia].
Qed.

(** ** Counters *)

Lemma ins_of_ensure_key st k k' : ins_of (ensure_key k' st) k = ins_of st k.
Proof.
  unfold ins_of, ensure_key; simpl. destruct (decide (k = k')) as [->|].
  - rewrite lookup_insert_eq. by destruct (insertions st !! k').
  - by rewrite lookup_insert_ne.
Qed.

Lemma del_of_ensure_key st k k' : del_of (ensure_key k' st) k = del_of st k.
Proof.
  unfold del_of, ensure_key; simpl. destruct (decide (k = k')) as [->|].
  - rewrite lookup_insert_eq. by destruct (deletions st !! k').
  - by rewrite lookup_insert_ne.
Qed.

Lemma sum_upto_zero n : sum_upto (fun _ => O) n = O.
Proof. induction n; simpl; lia. Qed.

(** ** Deleted positions *)

Lemma deleted_count_snoc done e q :
  deleted_count (done ++ [e]) q = (deleted_count done q + covers e q)%nat.
Proof. unfold deleted_count. rewrite sum_list_with_app. simpl. lia. Qed.

Lemma deleted_at_snoc done e p :
  deleted_at (done ++ [e]) p = (deleted_at done p + if bool_decide (ie_offset e = p) then ie_dl e else O)%nat.
Proof. unfold deleted_at. rewrite sum_list_with_app. simpl. lia. Qed.

(** The edits before [e] are compatible with it. *)
Section Compatible.
Context (done : list InsertionEdit) (e : InsertionEdit).
Hypothesis Hc : Forall (fun d => compatible d e) done.

(** The positions [e] deletes are not deleted yet. *)
Lemma compatible_not_deleted q :
  (ie_offset e <= q < ie_offset e + ie_dl e)%nat -> deleted_count done q = O.
Proof.
  intros Hq. unfold deleted_count. pose proof Hc as H. clear Hc. induction H as [|d l [H1 H2] _ IH]; [done|].
  simpl. rewrite IH. unfold covers. case_bool_decide; lia.
Qed.

(** Nothing was inserted strictly inside the range [e] deletes. *)
Lemma compatible_no_text {A} (f : InsertionEdit -> list A) q :
  (ie_offset e < q < ie_offset e + ie_dl e)%nat -> inserted_by f done q = [].
Proof.
  intros Hq. unfold inserted_by. pose proof Hc as H. clear Hc. induction H as [|d l [H1 H2] _ IH]; [done|].
  rewrite filter_cons. case_decide; [lia|done].
Qed.

(** The deleted positions before [e]'s offset are those of the ranges
    that start at or before it: the amount the [deletions] array holds up
    to that offset. *)
Lemma compatible_deleted_prefix :
  sum_upto (deleted_count done) (ie_offset e) = sum_upto (deleted_at done) (S (ie_offset e)).
Proof.
  unfold deleted_count, deleted_at. rewrite !sum_upto_sum_list_with.
  pose proof Hc as H. clear Hc. induction H as [|d l [H1 H2] _ IH]; [done|]. cbn [sum_list_with]. rewrite IH.
  unfold covers. rewrite sum_upto_interval, sum_upto_point. case_bool_decide; lia.
Qed.

Lemma compatible_count_le :
  (forall q, deleted_count done q <= 1)%nat -> forall q, (deleted_count (done ++ [e]) q <= 1)%nat.
Proof.
  intros H q. rewrite deleted_count_snoc. unfold covers. case_bool_decide; [|specialize (H q); lia].
  rewrite compatible_not_deleted by done. lia.
Qed.
End Compatible.

(** The live offset [step_insertion] computes for an edit at [o] is the
    gap of [o] in the spliced text. *)
Lemma insert_offset_gap st k done o :
  (forall q, arr_get (ins_of st k) q = Z.of_nat (length (inserted_at done q))) ->
  (forall q, arr_get (del_of st k) q = Z.of_nat (deleted_at done q)) ->
  (forall q, deleted_count done q <= 1)%nat ->
  sum_upto (deleted_count done) o = sum_upto (deleted_at done) (S o) ->
  insert_offset (ensure_key k st) k o = Z.of_nat (gap_pos (inserted_at done) (deleted_count done) 0 o).
Proof.
  intros Hins Hdel Hle Hpre. unfold insert_offset, prefix_sum, gap_pos.
  rewrite ins_of_ensure_key, del_of_ensure_key.
  rewrite (js_sum_take_ext _ _ _ Hins), (js_sum_take_ext _ _ _ Hdel). cbn [Nat.add].
  rewrite sum_upto_add. pose proof (sum_upto_keep (deleted_count done) o (fun q _ => Hle q)).
  cbn [sum_upto] in *. lia.
Qed.

(** ** Refinement: insertion-only batches on one block *)

Section Refinement.
Context (k ty : string) (orig : list ascii) (origc : list CharacterMetadata) (c0 : ContentState).
Hypothesis Hlen : length origc = length orig.

Lemma gap_pos_meta done dc o :
  gap_pos (inserted_meta done) dc 0 o = gap_pos (inserted_at done) dc 0 o.
Proof.
  unfold gap_pos. rewrite !length_inserted_meta. f_equal. apply sum_upto_ext. intros.
  by rewrite length_inserted_meta.
Qed.

(** One more edit, compatible with those before it, keeps the invariant. *)
Lemma step_insertion_inv done es st e :
  edits_inv k ty orig origc c0 done es st -> valid_edit k orig e -> Forall (fun d => compatible d e) done ->
  exists es' st', step_insertion es st e = Some (es', st') /\ edits_inv k ty orig origc c0 (done ++ [e]) es' st'.
Proof.
  intros ((b & Hb & Hty & Htext & Hchars & Hwf) & Hfr & Hins & Hdel & Hle1) (Hk & Ho) Hc.
  pose proof (getBlockForKey_key _ _ _ Hb) as Hkey.
  set (o := ie_offset e) in *. set (dl := ie_dl e) in *.
  set (pos := gap_pos (inserted_at done) (deleted_count done) 0 o).
  assert (Hdc' : forall q, deleted_count (done ++ [e]) q =
                   (deleted_count done q + if bool_decide (o <= q < o + dl) then 1 else O)%nat)
    by (intros q; apply deleted_count_snoc).
  destruct (splice_replace orig (inserted_at done) (deleted_count done) (inserted_at (done ++ [e]))
              (deleted_count (done ++ [e])) o dl (ie_text e)) as [Hsp Hle];
    [lia|by apply compatible_not_deleted|by apply compatible_no_text| | |done|].
  { rewrite inserted_at_snoc. by rewrite decide_True. }
  { intros q Hq. rewrite inserted_at_snoc, decide_False by done. apply app_nil_r. }
  destruct (splice_replace origc (inserted_meta done) (deleted_count done) (inserted_meta (done ++ [e]))
              (deleted_count (done ++ [e])) o dl (ie_meta e)) as [Hspc _];
    [lia|by apply compatible_not_deleted|by apply compatible_no_text| | |done|].
  { unfold inserted_meta. rewrite inserted_by_snoc. by rewrite decide_True. }
  { intros q Hq. unfold inserted_meta. rewrite inserted_by_snoc, decide_False by done. apply app_nil_r. }
  rewrite gap_pos_meta in Hspc. fold pos in Hsp, Hle, Hspc. rewrite <- Htext in Hsp, Hle. rewrite <- Hchars in Hspc.
  unfold step_insertion. fold o. rewrite Hk.
  rewrite (insert_offset_gap st k done o) by (done || by apply compatible_deleted_prefix). fold pos.
  change (default O (ie_deletionLength e)) with dl. unfold createSelectionWithRange.
  rewrite <- Nat2Z.inj_add.
  set (m := mkChar (default [] (ie_style e)) None).
  destruct (Modifier_replaceText_in_block (currentContent es) k pos (pos + dl) b (ie_text e)
              (default [] (ie_style e)) None Hb Hwf) as (c' & b' & Hc' & Hb' & _ & Hty' & Ht' & Hch' & _); [lia|].
  rewrite Hc'. simpl. eexists _, _. split; [done|].
  set (es' := if ie_disableUndo e then _ else _).
  assert (blockMap (currentContent es') = blockMap c') as Hes'.
  { subst es'. destruct (ie_disableUndo e); unfold performUnUndoableEdits;
      rewrite ?EditorState_setAllowUndo_content, EditorState_push_blockMap; done. }
  split; [|split; [|split; [|split]]].
  - exists b'. rewrite (getBlockForKey_blockMap _ _ _ Hes'). split; [done|]. split; [congruence|].
    rewrite Ht', Hch', Hsp, Hspc. split; [done|]. split; [done|].
    unfold block_wf in *. rewrite Ht', Hch', !length_app, !length_take, !length_drop, length_replicate. lia.
  - intros k' Hne. rewrite (getBlockForKey_blockMap _ _ _ Hes'), <- Hfr by done.
    by apply (Modifier_replaceText_frame _ k (Z.of_nat pos) (Z.of_nat (pos + dl)) (ie_text e) (default [] (ie_style e)) None).
  - intros q. unfold ins_of at 1; simpl. rewrite lookup_insert_eq. simpl.
    rewrite arr_get_arr_set, inserted_at_snoc, ins_of_ensure_key.
    case_decide as Hq; subst; [rewrite decide_True by done|rewrite decide_False by done];
      rewrite ?length_app, ?Hins; simpl; lia.
  - intros q. unfold del_of at 1; simpl. rewrite lookup_insert_eq. simpl.
    rewrite arr_get_arr_set, del_of_ensure_key, deleted_at_snoc.
    case_decide as Hq; rewrite ?Hdel; case_bool_decide; subst; simpl in *; lia.
  - by apply compatible_count_le.
Qed.

(** A batch of valid edits, each compatible with the later ones and with
    the edits already applied, keeps the invariant. *)
Lemma fold_edits_inv done todo es st :
  edits_inv k ty orig origc c0 done es st -> Forall (valid_edit k orig) todo -> batch_ok todo ->
  Forall (fun d => Forall (compatible d) todo) done ->
  exists es' st', foldl step_edit (Some (es, st)) (Insertion <$> todo) = Some (es', st') /\
    edits_inv k ty orig origc c0 (done ++ todo) es' st'.
Proof.
  revert done es st. induction todo as [|e todo IH]; intros done es st Hinv Hall Hok Hc.
  - exists es, st. by rewrite app_nil_r.
  - apply Forall_cons in Hall as [He Hall]. destruct Hok as [Hhead Hok].
    destruct (step_insertion_inv done es st e Hinv He) as (es1 & st1 & Hstep & Hinv1).
    { eapply Forall_impl; [exact Hc|]. intros d Hd. by apply Forall_cons in Hd as [Hd _]. }
    simpl. rewrite Hstep.
    destruct (IH (done ++ [e]) es1 st1 Hinv1 Hall Hok) as (es2 & st2 & Hfold & Hinv2).
    { apply Forall_app. split; [|by constructor].
      eapply Forall_impl; [exact Hc|]. intros d Hd. by apply Forall_cons in Hd as [_ Hd]. }
    exists es2, st2. rewrite <- app_assoc in Hinv2. done.
Qed.
End Refinement.

Lemma splice_from_nothing {A} (orig : list A) p : splice_from orig (fun _ => []) (fun _ => O) p = orig.
Proof. revert p. induction orig as [|c r IH]; intros p; simpl; by rewrite ?IH. Qed.

Lemma edits_inv_initial b es :
  getBlockForKey (currentContent es) (b_key b) = Some b -> block_wf b ->
  edits_inv (b_key b) (b_type b) (b_text b) (b_chars b) (currentContent es) [] es counters_empty.
Proof.
  intros Hb Hwf. split; [exists b|split; [done|split; [intros [|q]; done|split; [intros [|q]; done|intros; simpl; lia]]]].
  unfold splice. rewrite (splice_from_ext (b_text b) _ (fun _ => []) _ (fun _ => O)) by (intros; reflexivity).
  rewrite (splice_from_ext (b_chars b) _ (fun _ => []) _ (fun _ => O)) by (intros; reflexivity).
  by rewrite !splice_from_nothing.
Qed.

(** Insertions that delete nothing are valid and compatible. *)
Lemma plain_insertion_valid k orig e : plain_insertion k orig e -> valid_edit k orig e.
Proof. intros (Hk & Ho & Hd). split; [done|]. unfold ie_dl. lia. Qed.

Lemma plain_batch_ok l : Forall (fun e => ie_dl e = O) l -> batch_ok l.
Proof.
  induction 1 as [|e l He Hl IH]; [done|]. split; [|done].
  eapply Forall_impl; [exact Hl|]. intros d Hd. cbn in Hd. unfold compatible. lia.
Qed.

Lemma deleted_at_plain l q : Forall (fun e => ie_dl e = O) l -> deleted_at l q = O.
Proof. unfold deleted_at. induction 1 as [|e l He _ IH]; [done|]. simpl. rewrite IH, He. by case_bool_decide. Qed.

Lemma deleted_count_plain l q : Forall (fun e => ie_dl e = O) l -> deleted_count l q = O.
Proof. unfold deleted_count. induction 1 as [|e l He _ IH]; [done|]. simpl. rewrite IH. unfold covers. case_bool_decide; lia. Qed.

Lemma plain_insertions_dl k orig l : Forall (plain_insertion k orig) l -> Forall (fun e => ie_dl e = O) l.
Proof. intros H. eapply Forall_impl; [exact H|]. by intros e (_ & _ & Hd). Qed.

(** Dropping the positions of [[a, b)] from a text, seen from position
    [i]. *)
Lemma splice_from_interval {A} (l : list A) a b i :
  (a <= b)%nat ->
  splice_from l (fun _ => []) (fun q => if bool_decide (a <= q < b)%nat then 1%nat else O) i =
  take (a - i) l ++ drop (b - i) l.
Proof.
  intros Hab. revert i. induction l as [|c r IH]; intros i; simpl; [by rewrite take_nil, drop_nil|].
  rewrite IH. destruct (decide (i < a)%nat); [|destruct (decide (i < b)%nat)].
  - rewrite (bool_decide_false (a <= i < b)%nat) by lia. simpl.
    replace (a - i)%nat with (S (a - S i)) by lia. replace (b - i)%nat with (S (b - S i)) by lia. done.
  - rewrite (bool_decide_true (a <= i < b)%nat) by lia. simpl.
    replace (a - i)%nat with O by lia. replace (a - S i)%nat with O by lia.
    replace (b - i)%nat with (S (b - S i)) by lia. done.
  - rewrite (bool_decide_false (a <= i < b)%nat) by lia. simpl.
    replace (a - i)%nat with O by lia. replace (a - S i)%nat with O by lia.
    replace (b - i)%nat with O by lia. replace (b - S i)%nat with O by lia. done.
Qed.

(** ** Properties *)

(** C1 (refinement).  For a batch of edits addressed to one block in
    original coordinates, each inside the block's text and compatible with
    the edits after it (no edit is addressed inside, or at the start of,
    a range an earlier edit deleted, nor is an earlier edit addressed
    strictly inside a range a later one deletes), [performDependentEdits]
    succeeds and leaves the block, with its type, holding exactly the
    reference splice, on its text and on its metadata: every inserted text,
    with its style and no entity, lands in front of the original character
    it was addressed to, texts addressed to the same offset in batch
    order, and every deleted original character is gone; the block stays
    well formed and every other block is untouched. *)
Theorem performDependentEdits_refines es b edits :
  getBlockForKey (currentContent es) (b_key b) = Some b -> block_wf b ->
  Forall (valid_edit (b_key b) (b_text b)) edits -> batch_ok edits ->
  exists es' b', performDependentEdits es (Insertion <$> edits) = Some es' /\
    getBlockForKey (currentContent es') (b_key b) = Some b' /\ b_type b' = b_type b /\
    b_text b' = splice (b_text b) (inserted_at edits) (deleted_count edits) /\
    b_chars b' = splice (b_chars b) (inserted_meta edits) (deleted_count edits) /\ block_wf b' /\
    (forall k', k' <> b_key b -> getBlockForKey (currentContent es') k' = getBlockForKey (currentContent es) k').
Proof.
  intros Hb Hwf Hall Hok.
  destruct (fold_edits_inv (b_key b) (b_type b) (b_text b) (b_chars b) (currentContent es) Hwf [] edits es
              counters_empty (edits_inv_initial b es Hb Hwf) Hall Hok (Forall_nil_2 _))
    as (es' & st' & Hfold & (b' & Hb' & Hty & Ht & Hc & Hwf') & Hfr & _).
  exists es', b'. unfold performDependentEdits. rewrite Hfold. done.
Qed.

(** Replacing ["YZ"] of ["XYZW"] by ["AB"], inserting ["C"] at [0] and
    replacing ["W"] by ["D"] gives ["CXABD"]. *)
Lemma performDependentEdits_refines_witness :
  let edits := [ex_insert "k" 1 ⟪"AB"⟫ (Some 2%nat); ex_insert "k" 0 ⟪"C"⟫ None;
                ex_insert "k" 3 ⟪"D"⟫ (Some 1%nat)] in
  exists es' b', performDependentEdits (ex_editor "k" ⟪"XYZW"⟫) (Insertion <$> edits) = Some es' /\
    getBlockForKey (currentContent es') "k" = Some b' /\ b_type b' = "unstyled" /\
    b_text b' = splice ⟪"XYZW"⟫ (inserted_at edits) (deleted_count edits) /\
    b_chars b' = splice (replicate 4 EMPTY_CHAR) (inserted_meta edits) (deleted_count edits) /\
    block_wf b' /\
    (forall k', k' <> "k" -> getBlockForKey (currentContent es') k' =
                            getBlockForKey (currentContent (ex_editor "k" ⟪"XYZW"⟫)) k').
Proof.
  intros edits.
  apply (performDependentEdits_refines _ (mkBlock "k" "unstyled" ⟪"XYZW"⟫ (replicate 4 EMPTY_CHAR))).
  - reflexivity.
  - reflexivity.
  - repeat constructor; simpl; lia.
  - repeat split; repeat constructor; unfold compatible, ie_dl; simpl; lia.
Defined.

(** The test of spec §8 "edit compiler rebasing", an instance of
    [performDependentEdits_refines] by evaluation.  Applying the
    insertions ["AB"] at offset 0 then ["CD"] at offset 0 to the text
    ["XY"] yields ["ABCDXY"]: the second insertion is rebased past the
    first. *)
Example performDependentEdits_rebases_same_offset :
  text_of "k" (performDependentEdits (ex_editor "k" ⟪"XY"⟫)
    [Insertion (ex_insert "k" 0 ⟪"AB"⟫ None); Insertion (ex_insert "k" 0 ⟪"CD"⟫ None)])
  = Some ⟪"ABCDXY"⟫.
Proof. vm_compute. reflexivity. Qed.

(** The delta of a selection endpoint on the batch's block, in terms of
    the batch. *)
Lemma selection_delta_batch k done st o a :
  (forall q, arr_get (ins_of st k) q = Z.of_nat (length (inserted_at done q))) ->
  (forall q, arr_get (del_of st k) q = Z.of_nat (deleted_at done q)) ->
  (Z.of_nat o + selection_delta (ensure_key k (ensure_key k st)) k o a)%Z = rebased_offset done o a.
Proof.
  intros Hins Hdel. unfold selection_delta, prefix_sum, rebased_offset.
  rewrite !ins_of_ensure_key, !del_of_ensure_key.
  rewrite (js_sum_take_ext _ _ _ Hins), (js_sum_take_ext _ _ _ Hdel).
  destruct a as [[|]|]; cbn [adjust_amount]; rewrite ?Nat.add_0_r, ?Nat.add_1_r; cbn [sum_upto]; lia.
Qed.

Lemma selection_delta_inv k done st o a :
  (forall q, arr_get (ins_of st k) q = Z.of_nat (length (inserted_at done q))) ->
  (forall q, arr_get (del_of st k) q = 0) ->
  selection_delta (ensure_key k (ensure_key k st)) k o a =
  Z.of_nat (sum_upto (fun q => length (inserted_at done q)) (o + adjust_amount a)).
Proof.
  intros Hins Hdel. unfold selection_delta, prefix_sum.
  rewrite !ins_of_ensure_key, !del_of_ensure_key.
  rewrite (js_sum_take_ext _ _ _ Hins).
  rewrite (js_sum_take_ext _ (fun _ => O)) by (intros; rewrite Hdel; done).
  rewrite sum_upto_zero. lia.
Qed.

(** C2 (refinement, caret).  A selection edit that follows a batch of
    pairwise compatible edits on one block lands, at each of its two
    endpoints independently, on the live position of its original offset
    [o]: [o] plus the lengths inserted and minus the lengths deleted by
    edits at offsets before [o]; the edits at [o] itself count too under
    the default [trailing] adjustment, and do not under [leading], so the
    caret lands after or before the texts inserted there.  The direction
    flag is kept. *)
Theorem performDependentEdits_selection_rebase es b edits oa ofs aa af bk :
  getBlockForKey (currentContent es) (b_key b) = Some b -> block_wf b ->
  Forall (valid_edit (b_key b) (b_text b)) edits -> batch_ok edits ->
  exists es', performDependentEdits es ((Insertion <$> edits) ++
      [SelectionE (mkSelectionEdit (b_key b) oa (b_key b) ofs bk af aa)]) = Some es' /\
    selection es' = mkSel (b_key b) (rebased_offset edits oa aa) (b_key b) (rebased_offset edits ofs af) bk.
Proof.
  intros Hb Hwf Hall Hok.
  destruct (fold_edits_inv (b_key b) (b_type b) (b_text b) (b_chars b) (currentContent es) Hwf [] edits es
              counters_empty (edits_inv_initial b es Hb Hwf) Hall Hok (Forall_nil_2 _))
    as (es' & st' & Hfold & _ & _ & Hins & Hdel & _).
  unfold performDependentEdits. rewrite foldl_app, Hfold. simpl.
  eexists; split; [done|]. simpl.
  by rewrite !(selection_delta_batch (b_key b) edits st').
Qed.

(** On ["XYZW"], inserting ["AB"] at [1] and deleting ["Z"] at [2]: a
    [leading] anchor at [1] stays before ["AB"] (live [1]), a [trailing]
    focus at [3] moves past ["AB"] and back over the deleted ["Z"] (live
    [4]). *)
Lemma performDependentEdits_selection_rebase_witness :
  let edits := [ex_insert "k" 1 ⟪"AB"⟫ None; ex_insert "k" 2 ⟪""⟫ (Some 1%nat)] in
  Forall (valid_edit "k" ⟪"XYZW"⟫) edits /\ batch_ok edits /\
  rebased_offset edits 1 (Some leading) = 1 /\ rebased_offset edits 3 None = 4 /\
  exists es', performDependentEdits (ex_editor "k" ⟪"XYZW"⟫)
      ((Insertion <$> edits) ++ [SelectionE (mkSelectionEdit "k" 1 "k" 3 false None (Some leading))]) = Some es' /\
    selection es' = mkSel "k" (rebased_offset edits 1 (Some leading)) "k" (rebased_offset edits 3 None) false.
Proof.
  intros edits.
  assert (Hv : Forall (valid_edit "k" ⟪"XYZW"⟫) edits) by (repeat constructor; simpl; unfold ie_dl; simpl; lia).
  assert (Hok : batch_ok edits) by (repeat split; repeat constructor; unfold compatible, ie_dl; simpl; lia).
  split; [exact Hv|]. split; [exact Hok|]. split; [reflexivity|]. split; [reflexivity|].
  apply (performDependentEdits_selection_rebase _ (mkBlock "k" "unstyled" ⟪"XYZW"⟫ (replicate 4 EMPTY_CHAR)));
    [reflexivity|reflexivity|exact Hv|exact Hok].
Defined.

(** C22 (functional, finding).  A deletion is recorded at the offset
    where it starts and is subtracted from every later edit at that offset
    or after.  On any well-formed block, deleting [d > 0] characters at
    offset [p] and then inserting any text [s] at the same original offset
    [p] rebases the insertion to [p - d]: when [d <= p] the text lands [d]
    characters too early, in front of the [d] characters before the
    deleted range, instead of where the range was (the splice of C1,
    [take p t ++ s ++ drop (p + d) t]); when [d > p] the offset is
    negative and [slice] reads it from the end.  The two edits are not
    [compatible]: the insertion starts inside the deletion's range. *)
Theorem performDependentEdits_deletion_misrebases es b p d s :
  getBlockForKey (currentContent es) (b_key b) = Some b -> block_wf b ->
  (0 < d <= p)%nat -> (p + d <= length (b_text b))%nat ->
  text_of (b_key b) (performDependentEdits es
    [Insertion (ex_insert (b_key b) p [] (Some d)); Insertion (ex_insert (b_key b) p s None)])
  = Some (take (p - d) (b_text b) ++ s ++ drop (p - d) (take p (b_text b)) ++ drop (p + d) (b_text b)).
Proof.
  intros Hb Hwf Hd Hpd. set (k := b_key b). set (t := b_text b).
  set (e1 := ex_insert k p [] (Some d)).
  assert (Hv : valid_edit k t e1) by (split; [done|]; unfold e1, ie_dl; simpl; subst t; lia).
  destruct (step_insertion_inv k (b_type b) t (b_chars b) (currentContent es) Hwf [] es counters_empty e1
              (edits_inv_initial b es Hb Hwf) Hv (Forall_nil_2 _))
    as (es1 & st1 & Hs1 & (b1 & Hb1 & _ & Ht1 & _ & Hwf1) & _ & Hins & Hdel & _).
  assert (Hg : forall q, inserted_at [e1] q = []).
  { intros q. unfold inserted_at, inserted_by. rewrite filter_cons, filter_nil. by case_decide. }
  assert (Hdc : forall q, deleted_count [e1] q = if bool_decide (p <= q < p + d)%nat then 1%nat else O).
  { intros q. unfold deleted_count, covers, ie_dl. simpl. case_bool_decide; lia. }
  assert (Ht1' : b_text b1 = take p t ++ drop (p + d) t).
  { rewrite Ht1. unfold splice.
    rewrite (splice_from_ext _ _ (fun _ => []) _ (fun q => if bool_decide (p <= q < p + d)%nat then 1%nat else O))
      by (intros; first [apply Hg|apply Hdc]).
    rewrite splice_from_interval by lia. by rewrite !Nat.sub_0_r. }
  unfold performDependentEdits. cbn [foldl step_edit mbind option_bind]. rewrite Hs1. cbn [mbind option_bind].
  unfold step_insertion. cbn [ie_blockKey ie_offset ie_deletionLength ie_text ie_style ie_disableUndo ex_insert].
  assert (Hio : insert_offset (ensure_key k st1) k p = Z.of_nat (p - d)).
  { unfold insert_offset, prefix_sum. rewrite ins_of_ensure_key, del_of_ensure_key.
    rewrite (js_sum_take_ext _ _ _ Hins), (js_sum_take_ext _ _ _ Hdel).
    rewrite app_nil_l.
    rewrite (sum_upto_ext (fun q => length (inserted_at [e1] q)) (fun _ => O)) by (intros q _; by rewrite Hg).
    rewrite (sum_upto_ext (deleted_at [e1]) (fun q => if bool_decide (p = q) then d else O))
      by (intros q _; unfold deleted_at, ie_dl; simpl; case_bool_decide; lia).
    rewrite sum_upto_zero, sum_upto_point, bool_decide_true by lia. lia. }
  rewrite Hio. cbn [default]. unfold createSelectionWithRange. rewrite Nat2Z.inj_0.
  replace (Z.of_nat (p - d) + 0)%Z with (Z.of_nat (p - d)) by lia.
  destruct (Modifier_replaceText_in_block (currentContent es1) k (p - d) (p - d) b1 s [] None Hb1 Hwf1)
    as (c' & b' & Hc' & Hb' & _ & _ & Ht' & _);
    [rewrite Ht1', length_app, length_take, length_drop, Nat.min_l; subst t; lia|].
  rewrite Hc'. unfold text_of. simpl.
  rewrite (getBlockForKey_blockMap _ c' k) by apply EditorState_push_blockMap. rewrite Hb'. simpl.
  rewrite Ht', Ht1'. f_equal.
  rewrite take_app_le, drop_app_le by (rewrite length_take; subst t; lia).
  rewrite take_take, Nat.min_l by lia. by rewrite app_assoc.
Qed.

(** Deleting ["de"] at [3] of ["abcdefg"] and inserting ["X"] at [3]
    gives ["aXbcfg"], not ["abcXfg"]. *)
Lemma performDependentEdits_deletion_misrebases_witness :
  text_of "k" (performDependentEdits (ex_editor "k" ⟪"abcdefg"⟫)
    [Insertion (ex_insert "k" 3 [] (Some 2%nat)); Insertion (ex_insert "k" 3 ⟪"X"⟫ None)])
  = Some ⟪"aXbcfg"⟫.
Proof.
  exact (performDependentEdits_deletion_misrebases (ex_editor "k" ⟪"abcdefg"⟫)
           (mkBlock "k" "unstyled" ⟪"abcdefg"⟫ (replicate 7 EMPTY_CHAR)) 3 2 ⟪"X"⟫
           eq_refl eq_refl ltac:(lia) ltac:(simpl; lia)).
Defined.
