(* ===== verification/Blocks.v ===== *)
(** * The block registry: [coreBlockPlugin/blocks.ts] and [matchBlock]

    [blocks] maps a Draft block type to its [CoreBlockDefinition]: a
    static definition (quote, list items: the prefix is consumed, the block
    can only be left by deleting it) or an expandable one (the six header
    levels: the prefix stays visible with the decorator style).
    [blockValues] is lodash [values(blocks)], in the object's key order, and
    [matchBlock] (convertBlockType.ts) returns the first definition whose
    pattern [exec]s on the text.

    Theorems: a header trigger of [n] hashes and a space selects exactly
    level [n] whatever text follows (the lower levels' anchored patterns
    fail on the [n]-th hash); ["> "] and ["- "] select the quote and the
    unordered list.  Lemmas: each header definition is registered under its
    own type and its pattern matches its trigger at offset [0] with the
    hashes as group 1. *)

From S2P Require Import Prelude Draft Regex.

Open Scope Z_scope.
Open Scope draft_scope.

Definition core_block_decorator : string := "core.block.decorator".

(** [Pick<InsertionEdit, 'text' | 'style'>]: one run of a canonical
    prefix. *)
Record CanonicalPart := mkPart {
  cp_text : list ascii;
  cp_style : option (list string);
}.

(** [CoreStaticBlockDefinition | CoreExpandableBlockDefinition]. *)
Inductive CoreBlockDefinition :=
  | StaticBlock (type : string) (pattern : RegExp) (canonicalPattern : list ascii)
      (continues : bool)
  | ExpandableBlock (type : string) (pattern : RegExp) (canonicalPattern : list CanonicalPart).

#[export] Instance atom_eq_dec : EqDecision atom.
Proof. solve_decision. Defined.
#[export] Instance RegExp_eq_dec : EqDecision RegExp.
Proof. solve_decision. Defined.
#[export] Instance CanonicalPart_eq_dec : EqDecision CanonicalPart.
Proof. solve_decision. Defined.
#[export] Instance CoreBlockDefinition_eq_dec : EqDecision CoreBlockDefinition.
Proof. solve_decision. Defined.

Definition def_type (d : CoreBlockDefinition) : string :=
  match d with StaticBlock t _ _ _ | ExpandableBlock t _ _ => t end.
Definition def_pattern (d : CoreBlockDefinition) : RegExp :=
  match d with StaticBlock _ p _ _ | ExpandableBlock _ p _ => p end.
Definition def_expandable (d : CoreBlockDefinition) : bool :=
  match d with StaticBlock _ _ _ _ => false | ExpandableBlock _ _ _ => true end.
(** [continues] is absent from expandable definitions (falsy). *)
Definition def_continues (d : CoreBlockDefinition) : bool :=
  match d with StaticBlock _ _ _ c => c | ExpandableBlock _ _ _ => false end.

(** [/^(#...#) /] with [n] hashes. *)
Definition header_pattern (n : nat) : RegExp :=
  mkRegExp true ([AOpen] ++ replicate n (ALit "#") ++ [AClose; ALit " "]) false 0.

(** [[{ text: '#...#', style: OrderedSet([decorator]) }, { text: ' ' }]]. *)
Definition header_canonical (n : nat) : list CanonicalPart :=
  [mkPart (replicate n "#"%char) (Some [core_block_decorator]); mkPart ⟪" "⟫ None].

Definition header_def (ty : string) (n : nat) : CoreBlockDefinition :=
  ExpandableBlock ty (header_pattern n) (header_canonical n).

Definition header_one := header_def "header-one" 1.
Definition header_two := header_def "header-two" 2.
Definition header_three := header_def "header-three" 3.
Definition header_four := header_def "header-four" 4.
Definition header_five := header_def "header-five" 5.
Definition header_six := header_def "header-six" 6.

Definition blockquote : CoreBlockDefinition :=
  StaticBlock "blockquote" (mkRegExp true [ALit ">"; ALit " "] false 0) ⟪"> "⟫ false.

Definition unordered_list_item : CoreBlockDefinition :=
  StaticBlock "unordered-list-item" (mkRegExp true [ALit "-"; ALit " "] false 0) ⟪"- "⟫ true.

(** [/1[.)] /]: no [^] anchor; no canonical prefix. *)
Definition ordered_list_item : CoreBlockDefinition :=
  StaticBlock "ordered-list-item"
    (mkRegExp false [ALit "1"; AClass ["."%char; ")"%char]; ALit " "] false 0) [] true.

(** [values(blocks)], in the key order of the object literal. *)
Definition blockValues : list CoreBlockDefinition :=
  [header_one; header_two; header_three; header_four; header_five; header_six;
   blockquote; unordered_list_item; ordered_list_item].

(** [blocks[type]]. *)
Definition blocks (ty : string) : option CoreBlockDefinition :=
  find (fun d => bool_decide (def_type d = ty)) blockValues.

(** [matchBlock(text)]: the first definition whose [pattern.exec(text)]
    succeeds, with the match. *)
Fixpoint match_first (defs : list CoreBlockDefinition) (text : list ascii)
  : option (CoreBlockDefinition * ExecResult) :=
  match defs with
  | [] => None
  | d :: ds =>
      match fst (exec (def_pattern d) text) with
      | Some m => Some (d, m)
      | None => match_first ds text
      end
  end.

Definition matchBlock (text : list ascii) : option (CoreBlockDefinition * ExecResult) :=
  match_first blockValues text.

(** The definition of header level [n], [1 <= n <= 6]. *)
Definition header_of_level (n : nat) : option CoreBlockDefinition :=
  if decide (1 <= n <= 6)%nat then blockValues !! (n - 1)%nat else None.

(** ** Lemmas *)

Lemma match_here_replicate_lit c n r s pos g :
  match_here (replicate n (ALit c) ++ r) (replicate n c ++ s) pos g = match_here r s (pos + n) g.
Proof.
  revert pos. induction n as [|n IH]; intros pos; simpl; [by rewrite Nat.add_0_r|].
  rewrite bool_decide_true by done. rewrite IH. f_equal. lia.
Qed.

(** The header pattern of level [n] matches [n] hashes and a space at the
    start of any text, with the hashes as group 1. *)
Lemma exec_header_pattern n t :
  exec (header_pattern n) (replicate n "#"%char ++ " "%char :: t) =
    (Some (mkExec 0 (replicate n "#"%char ++ [" "%char]) (Some (replicate n "#"%char))),
     header_pattern n).
Proof.
  unfold exec, header_pattern. simpl. rewrite match_here_replicate_lit. simpl.
  rewrite drop_0, Nat.sub_0_r.
  replace (" "%char :: t) with ([" "%char] ++ t) by done.
  rewrite app_assoc, (take_app_length' _ _ (S n)) by (rewrite length_app, length_replicate; simpl; lia).
  rewrite <- app_assoc, (take_app_length' _ _ n) by (by rewrite length_replicate).
  done.
Qed.

(** The six header definitions are registered under their own types and
    expand to their level's pattern. *)
Lemma header_of_level_spec n d :
  header_of_level n = Some d ->
  blocks (def_type d) = Some d /\ def_pattern d = header_pattern n /\ def_expandable d = true /\
  (1 <= n <= 6)%nat.
Proof.
  unfold header_of_level. case_decide as Hn; [|done].
  destruct n as [|[|[|[|[|[|[|n]]]]]]]; try lia; intros [= <-]; repeat split; lia.
Qed.

(** The six levels, by evaluation: the text after the trigger is never
    read. *)
Lemma match_header_trigger n d t :
  header_of_level n = Some d ->
  matchBlock (replicate n "#"%char ++ " "%char :: t) =
    Some (d, mkExec 0 (replicate n "#"%char ++ [" "%char]) (Some (replicate n "#"%char))).
Proof.
  unfold header_of_level. case_decide as Hn; [|done].
  destruct n as [|[|[|[|[|[|[|n]]]]]]]; try lia; intros [= <-]; vm_compute; reflexivity.
Qed.

Lemma blocks_unstyled : blocks "unstyled" = None.
Proof. reflexivity. Qed.

(** ** Properties *)

(** C18 (functional, spec §4.4 rule d).  The trigger of header level [n]
    ([n] hashes and a space, followed by any text) selects exactly the
    definition of level [n]: the patterns of the lower levels fail on the
    [n]-th hash (they are anchored and demand a space there), and the match
    is the prefix with the hashes as group 1. *)
Theorem matchBlock_header n d t :
  header_of_level n = Some d ->
  matchBlock (replicate n "#"%char ++ " "%char :: t) =
    Some (d, mkExec 0 (replicate n "#"%char ++ [" "%char]) (Some (replicate n "#"%char))).
Proof. apply match_header_trigger. Qed.

Lemma matchBlock_header_witness :
  matchBlock (replicate 3 "#"%char ++ " "%char :: ⟪"Title"⟫) =
    Some (header_three, mkExec 0 (replicate 3 "#"%char ++ [" "%char]) (Some (replicate 3 "#"%char))).
Proof. apply matchBlock_header. reflexivity. Defined.

(** (functional, spec §4.4 rule d).  ["> "] and ["- "] at the start of
    any text select the quote and the unordered-list definitions, whose
    whole match (there is no group) is the prefix. *)
Theorem matchBlock_static_triggers t :
  matchBlock (">"%char :: " "%char :: t) = Some (blockquote, mkExec 0 ⟪"> "⟫ None) /\
  matchBlock ("-"%char :: " "%char :: t) = Some (unordered_list_item, mkExec 0 ⟪"- "⟫ None).
Proof. split; vm_compute; reflexivity. Qed.
