(* ===== verification/ConvertBlockType.v ===== *)
(** * The convert step: [coreBlockPlugin/steps/convertBlockType.ts]

    [convertBlockType editorState prevEditorState] (spec §4.4, Convert)
    decides, after a change, whether the changed blocks change type:
    - [didCompleteList]: Enter on an empty list item merges the new block
      back and demotes the item to [unstyled] (rule a);
    - otherwise it folds [convert_step] over the blocks from the first
      selection start to the block before the block after the new
      selection end ([blocks_to_visit]), with the accumulator
      [{ content, adjustSelection }] of the source ([ConvertAcc]):
      empty-block merge (rule b), locked non-expandable blocks (rule c),
      pattern promotion (rule d), demotion (rule e);
    - a changed content is pushed as a [change-block-type] step with undo
      disabled and the selection moved back by the prefix length consumed
      in the selection's start block.
    A thrown [TypeError] (an [undefined] block) is [None].

    Theorems: on any document with unique keys, Enter on an empty list
    item exits the list (rule a), a forward delete into an empty block
    gives it the pulled block's type (rule b), typing a header trigger
    promotes the block with the decorator on the hashes (rule d), and
    editing a header's trigger away demotes it to [unstyled] without the
    decorator (rule e); the step is the
    identity when every visited block is unchanged or locked (rule c); the
    two scenarios of spec §8 evaluated; the unanchored ordered-list pattern
    with its backwards replace range (a recorded finding); converting
    twice on the same pair is not converting once: rule c demotes a
    blockquote the first run created in a new block (a finding against
    spec §8). *)

From S2P Require Import Prelude Draft Regex DraftUtils Blocks.
From stdpp Require Import gmap.

Open Scope Z_scope.
Open Scope draft_scope.

Definition list_item_types : list string := ["unordered-list-item"; "ordered-list-item"].

(** [didCompleteList(prevEditorState, editorState)]; reading the type of
    an [undefined] previous block throws. *)
Definition didCompleteList (prev es : EditorState) : option bool :=
  let sel := selection es in
  let psel := selection prev in
  if bool_decide (lastChangeType es = Some split_block) && isCollapsed sel && isCollapsed psel then
    match getBlockForKey (currentContent prev) (getStartKey psel) with
    | None => None
    | Some pb => Some (bool_decide (b_type pb ∈ list_item_types) && bool_decide (b_text pb = []))
    end
  else Some false.

(** [Seq.skipUntil] and [Seq.takeUntil]. *)
Fixpoint skip_until {A} (p : A -> bool) (l : list A) : list A :=
  match l with [] => [] | x :: l' => if p x then l else skip_until p l' end.
Fixpoint take_until {A} (p : A -> bool) (l : list A) : list A :=
  match l with [] => [] | x :: l' => if p x then [] else x :: take_until p l' end.

(** The blocks the reduce visits. *)
Definition blocks_to_visit (content : ContentState) (sel psel : SelectionState) : list ContentBlock :=
  let after := getBlockAfter content (getEndKey sel) in
  take_until (fun b => match after with Some a => bool_decide (b_key b = b_key a) | None => false end)
    (skip_until (fun b => bool_decide (b_key b = getStartKey sel) || bool_decide (b_key b = getStartKey psel))
       (blockMap content)).

(** The accumulator [{ content, adjustSelection }]. *)
Record ConvertAcc := mkAcc {
  acc_content : ContentState;
  acc_adjust : gmap string Z;
}.

(** [matchBlock(prevBlockText || '')[0] === currentBlockDefinition]:
    [null] and [undefined] are different. *)
Definition same_definition (m : option (CoreBlockDefinition * ExecResult))
    (cur : option CoreBlockDefinition) : bool :=
  match m, cur with
  | Some (d, _), Some c => bool_decide (d = c)
  | _, _ => false
  end.

(** Rule d: strip the decorator, replace the matched prefix, set the type;
    record the prefix length consumed before the caret. *)
Definition promote_block (acc : ConvertAcc) (block : ContentBlock) (nd : CoreBlockDefinition)
    (m : ExecResult) : option ConvertAcc :=
  let plen := Z.of_nat (length (matched_prefix m)) in
  c1 ← Modifier_removeInlineStyle (acc_content acc) (createSelectionWithBlock block) core_block_decorator;
  c2 ← Modifier_replaceText c1 (createSelectionWithRange (b_key block) (Z.of_nat (ex_index m)) plen)
         (if def_expandable nd then group_or_match m else []) [core_block_decorator] None;
  c3 ← Modifier_setBlockType c2 (createSelectionWithBlock block) (def_type nd);
  Some (mkAcc c3 (<[b_key block := if def_expandable nd then 0 else plen - Z.of_nat (ex_index m)]>
                    (acc_adjust acc))).

(** Rule e: demote to [unstyled] and strip the decorator. *)
Definition demote_block (acc : ConvertAcc) (block : ContentBlock) : option ConvertAcc :=
  c1 ← Modifier_setBlockType (acc_content acc) (createSelectionWithBlock block) "unstyled";
  c2 ← Modifier_removeInlineStyle c1 (createSelectionWithBlock block) core_block_decorator;
  Some (mkAcc c2 (acc_adjust acc)).

(** Rules d and e, for blocks that are not locked. *)
Definition convert_by_pattern (acc : ConvertAcc) (block : ContentBlock)
    (prevBlock : option ContentBlock) (prevBlockText : list ascii)
    (cur : option CoreBlockDefinition) : option ConvertAcc :=
  match matchBlock (b_text block) with
  | Some (nd, m) =>
      if bool_decide (b_type block <> def_type nd) then promote_block acc block nd m else Some acc
  | None =>
      if bool_decide (prevBlock = None) ||
         (bool_decide (b_type block <> "unstyled")
          && match cur with None => true | Some d => def_expandable d end
          && same_definition (matchBlock prevBlockText) cur)
      then demote_block acc block
      else Some acc
  end.

(** The body of the reduce over one block. *)
Definition convert_step (prevContent : ContentState) (lastCT : option ChangeType)
    (acc : ConvertAcc) (block : ContentBlock) : option ConvertAcc :=
  let prevBlock := getBlockForKey prevContent (b_key block) in
  if bool_decide (prevBlock = Some block) then Some acc else
  let prevBlockText := match prevBlock with Some pb => b_text pb | None => [] end in
  if bool_decide (prevBlock <> None) && bool_decide (prevBlockText = [])
     && bool_decide (lastCT = Some delete_character) then
    next ← (pb ← prevBlock; getBlockAfter prevContent (b_key pb));
    c ← Modifier_setBlockType (acc_content acc) (createSelectionWithBlock block) (b_type next);
    Some (mkAcc c (acc_adjust acc))
  else
  let cur := blocks (b_type block) in
  match cur with
  | Some d =>
      if negb (def_expandable d) then
        (if bool_decide (prevBlock = None) && negb (def_continues d) then
           c ← Modifier_setBlockType (acc_content acc) (createSelectionWithBlock block) "unstyled";
           Some (mkAcc c (acc_adjust acc))
         else Some acc)
      else convert_by_pattern acc block prevBlock prevBlockText cur
  | None => convert_by_pattern acc block prevBlock prevBlockText cur
  end.

(** The list-completion branch. *)
Definition complete_list (es prev : EditorState) : option EditorState :=
  let content := currentContent es in
  blockToConvert ← getBlockForKey content (getStartKey (selection prev));
  blockToDelete ← getBlockForKey content (getStartKey (selection es));
  c1 ← Modifier_removeRange content
         (mkSel (b_key blockToConvert) 0 (b_key blockToDelete) 0 false);
  c2 ← Modifier_setBlockType c1 (createSelectionWithBlock blockToConvert) "unstyled";
  Some (performUnUndoableEdits es (fun d =>
    EditorState_forceSelection (EditorState_push d c2 change_block_type)
      (createSelectionWithBlock blockToConvert))).

(** [convertBlockType(editorState, prevEditorState)]. *)
Definition convertBlockType (es prev : EditorState) : option EditorState :=
  let content := currentContent es in
  let prevContent := currentContent prev in
  if decide (content = prevContent) then Some es else
  let sel := selection es in
  match didCompleteList prev es with
  | None => None
  | Some true => complete_list es prev
  | Some false =>
      result ← foldl (fun acc b => a ← acc; convert_step prevContent (lastChangeType es) a b)
                 (Some (mkAcc content ∅)) (blocks_to_visit content sel (selection prev));
      if decide (acc_content result <> content) then
        let adj := - default 0 (acc_adjust result !! getStartKey sel) in
        Some (performUnUndoableEdits es (fun d =>
          EditorState_forceSelection (EditorState_push d (acc_content result) change_block_type)
            (createSelectionWithSelection sel adj adj)))
      else Some es
  end.

(** ** Concrete states of the examples of spec §8 *)

Definition plain_char : CharacterMetadata := EMPTY_CHAR.

Definition caret (k : string) (o : Z) : SelectionState := mkSel k o k o false.

(** An editor state over the blocks [bs] with the caret at [s]. *)
Definition editor_of (bs : list ContentBlock) (s : SelectionState) (ct : option ChangeType)
  : EditorState :=
  mkEditor (mkContent bs [] s s) s ct true [] [] false.

(** An unstyled block holding [t], every character plain. *)
Definition plain_block (k ty : string) (t : list ascii) : ContentBlock :=
  mkBlock k ty t (replicate (length t) plain_char).

(** Pressing Enter: [Modifier.splitBlock] at the selection, pushed as a
    [split-block] change; [keyBelow] is the key the host generates. *)
Definition press_enter (es : EditorState) (keyBelow : string) : option EditorState :=
  c ← Modifier_splitBlock (currentContent es) (selection es) keyBelow;
  Some (EditorState_push es c split_block).

(** Typing one character: [Modifier.insertText] at the caret with no
    style, pushed as an [insert-characters] change. *)
Definition type_char (es : EditorState) (ch : ascii) : option EditorState :=
  c ← Modifier_insertText (currentContent es) (selection es) [ch] [] None;
  Some (EditorState_push es c insert_characters).

(** The blocks after a run. *)
Definition blocks_of (r : option EditorState) : option (list ContentBlock) :=
  es ← r; Some (blockMap (currentContent es)).


(** ** Lemmas *)



Lemma skip_until_split {A} (p : A -> bool) pre x post :
  Forall (fun y => p y = false) pre -> p x = true -> skip_until p (pre ++ x :: post) = x :: post.
Proof. intros Hpre Hx. induction Hpre as [|y pre Hy _ IH]; simpl; [by rewrite Hx|by rewrite Hy]. Qed.

(** With unique keys and both selections starting and ending in block
    [k], the convert step visits exactly that block. *)
Lemma blocks_to_visit_single c sel psel k b :
  NoDup (b_key <$> blockMap c) -> getBlockForKey c k = Some b ->
  getStartKey sel = k -> getEndKey sel = k -> getStartKey psel = k ->
  blocks_to_visit c sel psel = [b].
Proof.
  intros Hnd Hb HS HE HP. pose proof (getBlockForKey_key _ _ _ Hb) as Hk.
  unfold getBlockForKey in Hb. apply find_split in Hb as (pre & post & Hbm & Hpre & _).
  unfold blocks_to_visit, getBlockAfter. rewrite HE, HS, HP, Hbm, (block_after_split pre b post k) by done.
  rewrite Hbm, fmap_app in Hnd. simpl in Hnd.
  apply NoDup_app in Hnd as (_ & _ & Hnd). apply NoDup_cons in Hnd as [Hkpost _].
  rewrite skip_until_split.
  - destruct post as [|a post]; simpl; [done|].
    rewrite bool_decide_false by (intros Ha; apply Hkpost; rewrite Ha; simpl; set_solver).
    by rewrite bool_decide_true.
  - eapply Forall_impl; [exact Hpre|]. simpl. intros y ->. done.
  - by rewrite bool_decide_true.
Qed.


(** Rule e: the block becomes [unstyled] and loses the decorator style
    on every character; the caret adjustments are untouched. *)
Lemma demote_block_spec acc block :
  getBlockForKey (acc_content acc) (b_key block) = Some block -> block_wf block ->
  exists acc' b', demote_block acc block = Some acc' /\
    getBlockForKey (acc_content acc') (b_key block) = Some b' /\ b_type b' = "unstyled" /\
    b_text b' = b_text block /\ b_chars b' = removeStyle core_block_decorator <$> b_chars block /\
    acc_adjust acc' = acc_adjust acc.
Proof.
  intros Hb Hwf. unfold demote_block, createSelectionWithBlock.
  destruct (Modifier_setBlockType_single (acc_content acc) (b_key block) 0 (getLength block) false
              "unstyled" block Hb) as (c1 & -> & Hb1 & _ & _).
  cbn [mbind option_bind].
  destruct (modify_chars_single c1 (b_key block) 0 (getLength block) false
              (removeStyle core_block_decorator) (set_type "unstyled" block) Hb1)
    as (c2 & b2 & Hc2 & Hb2 & _ & Hty2 & Ht2 & _ & Hch2 & _); [done|unfold getLength; simpl; lia..|].
  unfold Modifier_removeInlineStyle. rewrite Hc2. cbn [mbind option_bind].
  eexists _, b2. split; [reflexivity|]. split; [done|]. split; [done|]. split; [done|].
  split; [|done]. rewrite Hch2. unfold getStartOffset, getEndOffset, getLength. simpl.
  unfold block_wf in Hwf. rewrite <- Hwf. apply update_range_full.
Qed.

(** Enter at the start of an empty block splits it into two empty blocks
    of its type, the caret moving to the new one. *)
Lemma press_enter_empty_block es0 ka kb ty pre post :
  blockMap (currentContent es0) = pre ++ mkBlock ka ty [] [] :: post ->
  Forall (fun z => b_key z <> ka /\ b_key z <> kb) (pre ++ post) -> ka <> kb ->
  selection es0 = caret ka 0 ->
  exists es, press_enter es0 kb = Some es /\
    blockMap (currentContent es) = pre ++ mkBlock ka ty [] [] :: mkBlock kb ty [] [] :: post /\
    selection es = caret kb 0 /\ lastChangeType es = Some split_block.
Proof.
  intros Hbm Hpp Hne Hsel.
  assert (Hpre : Forall (fun z => b_key z <> ka) pre)
    by (apply Forall_app in Hpp as [Hp _]; eapply Forall_impl; [exact Hp|]; naive_solver).
  assert (Hb : getBlockForKey (currentContent es0) ka = Some (mkBlock ka ty [] []))
    by (unfold getBlockForKey; rewrite Hbm; by apply find_key_split).
  unfold press_enter, Modifier_splitBlock, removeEntitiesAtEdges. rewrite Hsel.
  unfold caret, getStartKey, getEndKey. cbn [isBackward anchorKey focusKey]. rewrite Hb.
  cbn [mbind option_bind]. unfold removeRangeFromContentState, isCollapsed. cbn.
  rewrite !bool_decide_true by done. cbn [negb andb].
  unfold splitBlockInContentState, isCollapsed. cbn. rewrite !bool_decide_true by done. cbn [negb andb].
  unfold getBlockForKey in Hb. rewrite Hb. cbn.
  rewrite js_slice_nil, js_slice_from_nil, Hbm, flat_map_split_block
    by (done || (eapply Forall_impl; [exact Hpp|]; naive_solver)).
  eexists; split; [reflexivity|].
  match goal with |- context [EditorState_push es0 ?c split_block] =>
    destruct (EditorState_push_changed es0 c split_block) as (Hs & Hct & Hm) end.
  { intros Heq. apply (f_equal (fun c => length (blockMap c))) in Heq. rewrite Hbm in Heq.
    simpl in Heq. rewrite !length_app in Heq. simpl in Heq. lia. }
  by rewrite Hs, Hct, Hm.
Qed.

(** The list-completion branch on an empty block followed by the empty
    block Enter created: the second is removed and the first becomes
    [unstyled], with the caret at its start and no undo step. *)
Lemma complete_list_adjacent es prev ka kb ty tyb pre post :
  blockMap (currentContent es) = pre ++ mkBlock ka ty [] [] :: mkBlock kb tyb [] [] :: post ->
  Forall (fun z => b_key z <> ka /\ b_key z <> kb) (pre ++ post) -> ka <> kb ->
  getStartKey (selection prev) = ka -> getStartKey (selection es) = kb ->
  exists es', complete_list es prev = Some es' /\
    blockMap (currentContent es') = pre ++ mkBlock ka "unstyled" [] [] :: post /\
    selection es' = caret ka 0 /\ undoStack es' = undoStack es.
Proof.
  intros Hbm Hpp Hne Hpsel Hsel.
  assert (Hpre : Forall (fun z => b_key z <> ka /\ b_key z <> kb) pre) by (by apply Forall_app in Hpp as [? _]).
  assert (Hfa : forall bs, bs = pre ++ mkBlock ka ty [] [] :: mkBlock kb tyb [] [] :: post ->
            find (fun b => bool_decide (b_key b = ka)) bs = Some (mkBlock ka ty [] [])).
  { intros bs ->. apply find_key_split; [eapply Forall_impl; [exact Hpre|]; naive_solver|done]. }
  assert (Hfb : forall bs, bs = pre ++ mkBlock ka ty [] [] :: mkBlock kb tyb [] [] :: post ->
            find (fun b => bool_decide (b_key b = kb)) bs = Some (mkBlock kb tyb [] [])).
  { intros bs ->.
    replace (pre ++ mkBlock ka ty [] [] :: mkBlock kb tyb [] [] :: post)
      with ((pre ++ [mkBlock ka ty [] []]) ++ mkBlock kb tyb [] [] :: post) by (by rewrite <- app_assoc).
    apply find_key_split; [|done]. apply Forall_app. split; [eapply Forall_impl; [exact Hpre|]; naive_solver|].
    constructor; [simpl; congruence|constructor]. }
  unfold complete_list, getBlockForKey. rewrite Hpsel, Hsel, (Hfa _ Hbm), (Hfb _ Hbm).
  cbn [mbind option_bind]. unfold Modifier_removeRange, removeEntitiesAtEdges, getBlockForKey.
  cbn [getStartKey getEndKey isBackward anchorKey focusKey b_key]. rewrite (Hfa _ Hbm), (Hfb _ Hbm).
  cbn [mbind option_bind]. unfold removeRangeFromContentState, isCollapsed, with_selections, getBlockForKey.
  cbn [anchorKey focusKey blockMap getStartKey getEndKey isBackward
       getStartOffset getEndOffset anchorOffset focusOffset entityMap].
  rewrite bool_decide_false by done. cbn [andb]. rewrite (Hfa _ Hbm), (Hfb _ Hbm).
  cbn [b_text b_chars b_type]. rewrite js_slice_nil, js_slice_from_nil.
  rewrite Hbm, (keys_between_adjacent ka kb pre) by (done || (eapply Forall_impl; [exact Hpre|]; naive_solver)).
  rewrite (omap_remove_adjacent ka kb) by done. cbn [mbind option_bind app].
  unfold Modifier_setBlockType, modify_range, createSelectionWithBlock, getBlockForKey.
  cbn [getStartKey getEndKey isBackward anchorKey focusKey blockMap b_key].
  rewrite find_key_split by (done || (eapply Forall_impl; [exact Hpre|]; naive_solver)).
  rewrite (modify_blocks_split ka _ pre (mkBlock ka ty [] []) post (set_type "unstyled" (mkBlock ka ty [] [])))
    by (done || (eapply Forall_impl; [exact Hpre|]; naive_solver)).
  cbn [mbind option_bind]. eexists; split; [reflexivity|].
  unfold performUnUndoableEdits. cbn [EditorState_setAllowUndo EditorState_forceSelection currentContent
    selection undoStack].
  rewrite EditorState_push_blockMap, EditorState_push_no_undo by done. done.
Qed.

(** ** Properties *)

(** The test of spec §8 "list exit", an instance of
    [convertBlockType_exits_list] by evaluation.  In a document made of one
    empty unordered-list item with the caret at its start, pressing Enter
    and running [convertBlockType] leaves a single empty [unstyled] block
    under the original key, with the caret at its start. *)
Example convertBlockType_list_exit :
  let es := editor_of [plain_block "a" "unordered-list-item" []] (caret "a" 0) None in
  (es' ← press_enter es "b"; convertBlockType es' es) ≫= (fun r => Some (blockMap (currentContent r), selection r))
  = Some ([mkBlock "a" "unstyled" [] []], caret "a" 0).
Proof. vm_compute. reflexivity. Qed.

(** The test of spec §8 "header promotion", an instance of
    [convertBlockType_promotes_header] by evaluation.  Typing ["# "] into an
    empty unstyled block makes it a [header-one] whose text stays ["# "];
    only the ["#"] (the capture group) carries the decorator style, the
    space is plain, and the caret stays after the space. *)
Example convertBlockType_header_promotion :
  let e0 := editor_of [plain_block "a" "unstyled" []] (caret "a" 0) None in
  (e1 ← type_char e0 "#"; e2 ← type_char e1 " "; convertBlockType e2 e1)
    ≫= (fun r => Some (blockMap (currentContent r), selection r))
  = Some ([mkBlock "a" "header-one" ⟪"# "⟫
             [mkChar [core_block_decorator] None; plain_char]], caret "a" 2).
Proof. vm_compute. reflexivity. Qed.



(** (functional, finding).  The ordered-list pattern [/1[.)] /] has
    no [^] anchor, and the replaced range is [(match.index, match.length)]
    rather than [(index, index + length)]: typing ["see 1. "] into an
    unstyled block turns it into an ordered-list item whose text is
    ["see  1. "] (the range [(4, 3)] runs backwards and duplicates a
    character) with the caret moved one character right. *)
Example convertBlockType_ordered_list_unanchored :
  let prev := editor_of [plain_block "a" "unstyled" ⟪"see 1."⟫] (caret "a" 6) None in
  (es ← type_char prev " "; convertBlockType es prev)
    ≫= (fun r => Some (map (fun b => (b_type b, b_text b)) (blockMap (currentContent r)), selection r))
  = Some ([("ordered-list-item", ⟪"see  1. "⟫)], caret "a" 8).
Proof. vm_compute. reflexivity. Qed.



(** C5 (state machine, spec §4.4 rule a).  Enter on an empty list item
    exits the list, in any document with unique keys: pressing Enter with
    the caret in the empty item [ka] (the host creating the block [kb], a
    fresh key) and running [convertBlockType] gives back the original
    document with only [ka] retyped [unstyled], the caret at its start; the
    conversion records no undo step of its own. *)
Theorem convertBlockType_exits_list es0 ka kb ty :
  NoDup (b_key <$> blockMap (currentContent es0)) -> kb ∉ b_key <$> blockMap (currentContent es0) ->
  getBlockForKey (currentContent es0) ka = Some (mkBlock ka ty [] []) -> ty ∈ list_item_types ->
  selection es0 = caret ka 0 ->
  exists es es', press_enter es0 kb = Some es /\ convertBlockType es es0 = Some es' /\
    blockMap (currentContent es') =
      (fun x => if bool_decide (b_key x = ka) then set_type "unstyled" x else x)
        <$> blockMap (currentContent es0) /\
    selection es' = caret ka 0 /\ undoStack es' = undoStack es.
Proof.
  intros Hnd Hkb Hb Hty Hsel.
  pose proof Hb as Hb0. unfold getBlockForKey in Hb. apply find_split in Hb as (pre & post & Hbm & Hpre & _).
  rewrite Hbm, fmap_app in Hnd, Hkb. simpl in Hnd, Hkb.
  apply NoDup_app in Hnd as (_ & _ & Hnd). apply NoDup_cons in Hnd as [Hkapost _].
  assert (Hne : ka <> kb) by (intros ->; apply Hkb; set_solver).
  assert (Hpp : Forall (fun z => b_key z <> ka /\ b_key z <> kb) (pre ++ post)).
  { apply Forall_forall. intros z Hz. apply elem_of_app in Hz as [Hz|Hz].
    - rewrite Forall_forall in Hpre. pose proof (Hpre z Hz) as Hk. simpl in Hk.
      split; [by case_bool_decide|]. intros Hzk. apply Hkb. rewrite <- Hzk. set_solver.
    - split; intros Hzk; [apply Hkapost|apply Hkb]; rewrite <- Hzk; set_solver. }
  destruct (press_enter_empty_block es0 ka kb ty pre post Hbm Hpp Hne Hsel) as (es & Henter & Hbm' & Hsel' & Hct).
  destruct (complete_list_adjacent es es0 ka kb ty ty pre post Hbm' Hpp Hne) as (es' & Hcl & Hbm'' & Hsel'' & Hu);
    [by rewrite Hsel|by rewrite Hsel'|].
  exists es, es'. split; [done|]. split.
  - unfold convertBlockType. rewrite decide_False.
    + assert (Hdcl : didCompleteList es0 es = Some true).
      { unfold didCompleteList. rewrite Hct, Hsel', Hsel. unfold isCollapsed, caret, getStartKey. simpl.
        rewrite !bool_decide_true by done. simpl. rewrite Hb0. simpl.
        rewrite !bool_decide_true by done. done. }
      by rewrite Hdcl.
    + intros Heq. apply (f_equal (fun c => length (blockMap c))) in Heq. rewrite Hbm', Hbm in Heq.
      rewrite !length_app in Heq. simpl in Heq. lia.
  - split; [|done]. rewrite Hbm'', Hbm, fmap_app. simpl. rewrite bool_decide_true by done.
    assert (Hid : forall l, Forall (fun z => b_key z <> ka /\ b_key z <> kb) l ->
      (fun x => if bool_decide (b_key x = ka) then set_type "unstyled" x else x) <$> l = l).
    { induction 1 as [|z l [Hz _] _ IH]; simpl; [done|]. rewrite bool_decide_false by done. by f_equal. }
    apply Forall_app in Hpp as [Hp1 Hp2]. rewrite !Hid by done. done.
Qed.

Lemma convertBlockType_exits_list_witness :
  let es0 := editor_of [plain_block "p" "unstyled" ⟪"intro"⟫; plain_block "a" "unordered-list-item" [];
                        plain_block "q" "unstyled" ⟪"outro"⟫] (caret "a" 0) None in
  exists es es', press_enter es0 "b" = Some es /\ convertBlockType es es0 = Some es' /\
    blockMap (currentContent es') =
      (fun x => if bool_decide (b_key x = "a") then set_type "unstyled" x else x)
        <$> blockMap (currentContent es0) /\
    selection es' = caret "a" 0 /\ undoStack es' = undoStack es.
Proof.
  intros es0. apply (convertBlockType_exits_list es0 "a" "b" "unordered-list-item").
  - apply (bool_decide_unpack _). vm_compute. reflexivity.
  - apply (bool_decide_unpack _). vm_compute. reflexivity.
  - reflexivity.
  - apply (bool_decide_unpack _). vm_compute. reflexivity.
  - reflexivity.
Defined.

(** (functional, finding; spec §8 "Convert idempotence").  Converting
    twice on the same (previous, new) pair is not converting once.  Enter
    before the [>] of ["abc> x"] makes a new block ["> x"]; the first run
    promotes it to a blockquote holding ["x"]; the second run finds a
    blockquote with no previous version whose definition does not
    continue, and rule c demotes it to an unstyled ["x"]: the quote is
    lost together with its consumed prefix. *)
Example convertBlockType_not_idempotent :
  let prev := editor_of [plain_block "a" "unstyled" ⟪"abc> x"⟫] (caret "a" 3) None in
  (e ← press_enter prev "b"; blocks_of (convertBlockType e prev)) =
    Some [plain_block "a" "unstyled" ⟪"abc"⟫; plain_block "b" "blockquote" ⟪"x"⟫] /\
  (e ← press_enter prev "b"; e1 ← convertBlockType e prev; blocks_of (convertBlockType e1 prev)) =
    Some [plain_block "a" "unstyled" ⟪"abc"⟫; plain_block "b" "unstyled" ⟪"x"⟫].
Proof. vm_compute. split; reflexivity. Qed.

(** C7 (functional, spec §4.4 rule e).  Editing the trigger of an
    expandable block away demotes it: when a changed block of an
    expandable type (a header) under the caret, in a document with unique
    keys and after a backspace, no longer matches any pattern while its
    previous version matched its own type's pattern, [convertBlockType]
    makes it [unstyled], keeps its text, strips the decorator style from
    every character, and leaves the caret and the undo stack alone. *)
Theorem convertBlockType_demotes_expandable es prev k o d b pb :
  blocks (b_type b) = Some d -> def_expandable d = true ->
  NoDup (b_key <$> blockMap (currentContent es)) ->
  selection es = caret k o -> getStartKey (selection prev) = k ->
  lastChangeType es = Some backspace_character ->
  getBlockForKey (currentContent es) k = Some b -> block_wf b -> matchBlock (b_text b) = None ->
  getBlockForKey (currentContent prev) k = Some pb -> fst <$> matchBlock (b_text pb) = Some d ->
  pb <> b ->
  exists es' b', convertBlockType es prev = Some es' /\
    getBlockForKey (currentContent es') k = Some b' /\ b_type b' = "unstyled" /\
    b_text b' = b_text b /\ b_chars b' = removeStyle core_block_decorator <$> b_chars b /\
    selection es' = selection es /\ undoStack es' = undoStack es.
Proof.
  intros Hcur Hexp Hnd Hsel Hpsel Hct Hb Hwf Hm Hpb Hpm Hne.
  pose proof (getBlockForKey_key _ _ _ Hb) as Hk.
  assert (Hun : b_type b <> "unstyled") by (intros Heq; rewrite Heq, blocks_unstyled in Hcur; done).
  unfold convertBlockType.
  rewrite decide_False by (intros Heq; apply Hne; rewrite <- Heq, Hb in Hpb; congruence).
  assert (Hdcl : didCompleteList prev es = Some false) by (unfold didCompleteList; by rewrite Hct).
  rewrite Hdcl, (blocks_to_visit_single _ _ _ k b Hnd Hb) by (rewrite ?Hsel; done).
  cbn [foldl mbind option_bind]. unfold convert_step. rewrite Hk, Hpb, bool_decide_false by congruence.
  rewrite Hct, (bool_decide_false (Some backspace_character = Some delete_character)), andb_false_r
    by done.
  rewrite Hcur, Hexp. cbn [negb]. unfold convert_by_pattern. rewrite Hm.
  destruct (matchBlock (b_text pb)) as [[d' m]|]; simpl in Hpm; [|done]. injection Hpm as ->.
  rewrite (bool_decide_false (Some pb = None)), bool_decide_true by congruence.
  unfold same_definition. rewrite Hexp, bool_decide_true by done. cbn [orb andb].
  destruct (demote_block_spec (mkAcc (currentContent es) ∅) b)
    as (acc' & b' & -> & Hb' & Hty' & Ht' & Hch' & Hadj); [by rewrite Hk|done|].
  cbn [mbind option_bind]. rewrite Hk in Hb'.
  rewrite decide_True by (intros Heq; rewrite Heq, Hb in Hb'; injection Hb' as <-; congruence).
  rewrite Hadj, Hsel. cbn [acc_adjust]. rewrite !lookup_empty. cbn [default Z.opp].
  eexists _, b'. split; [reflexivity|].
  unfold performUnUndoableEdits. cbn [EditorState_setAllowUndo EditorState_forceSelection currentContent
    selection undoStack].
  split; [rewrite <- Hb'; apply getBlockForKey_blockMap, EditorState_push_blockMap|].
  split; [done|]. split; [done|]. split; [done|].
  split; [unfold createSelectionWithSelection; simpl; by rewrite Z.add_0_r|].
  by rewrite EditorState_push_no_undo.
Qed.

Lemma convertBlockType_demotes_expandable_witness :
  let pb := mkBlock "a" "header-two" ⟪"## title"⟫ (replicate 2 (mkChar [core_block_decorator] None) ++ replicate 6 plain_char) in
  let b := mkBlock "a" "header-two" ⟪"##title"⟫ (replicate 2 (mkChar [core_block_decorator] None) ++ replicate 5 plain_char) in
  let prev := editor_of [pb] (caret "a" 3) None in
  let es := editor_of [b] (caret "a" 2) (Some backspace_character) in
  exists es' b', convertBlockType es prev = Some es' /\
    getBlockForKey (currentContent es') "a" = Some b' /\ b_type b' = "unstyled" /\
    b_text b' = b_text b /\ b_chars b' = removeStyle core_block_decorator <$> b_chars b /\
    selection es' = selection es /\ undoStack es' = undoStack es.
Proof.
  intros pb b prev es.
  apply (convertBlockType_demotes_expandable es prev "a" 2 header_two b pb).
  - reflexivity.
  - reflexivity.
  - apply (bool_decide_unpack _). vm_compute. reflexivity.
  - reflexivity.
  - reflexivity.
  - reflexivity.
  - reflexivity.
  - reflexivity.
  - vm_compute. reflexivity.
  - reflexivity.
  - vm_compute. reflexivity.
  - vm_compute. congruence.
Defined.

(** C8 (functional, spec §4.4 rule b).  A forward delete at the end of an
    empty block pulls the next block into it; the merged block then takes
    the type the pulled block had in the previous document: when the
    changed block under the caret (the keys of the document being unique)
    was empty before a [delete-character] change, [convertBlockType] gives
    it the type of the block that followed it, keeps the caret, and
    records no undo step. *)
Theorem convertBlockType_merge_forward es prev k o b pb nb :
  NoDup (b_key <$> blockMap (currentContent es)) ->
  selection es = caret k o -> getStartKey (selection prev) = k ->
  lastChangeType es = Some delete_character ->
  getBlockForKey (currentContent es) k = Some b ->
  getBlockForKey (currentContent prev) k = Some pb -> b_text pb = [] -> pb <> b ->
  getBlockAfter (currentContent prev) k = Some nb ->
  exists es', convertBlockType es prev = Some es' /\
    getBlockForKey (currentContent es') k = Some (set_type (b_type nb) b) /\
    selection es' = selection es /\ undoStack es' = undoStack es.
Proof.
  intros Hnd Hsel Hpsel Hct Hb Hpb Hpt Hne Hnb.
  pose proof (getBlockForKey_key _ _ _ Hb) as Hk. pose proof (getBlockForKey_key _ _ _ Hpb) as Hpk.
  unfold convertBlockType.
  rewrite decide_False by (intros Heq; apply Hne; rewrite <- Heq, Hb in Hpb; congruence).
  assert (Hdcl : didCompleteList prev es = Some false) by (unfold didCompleteList; by rewrite Hct).
  rewrite Hdcl, (blocks_to_visit_single _ _ _ k b Hnd Hb) by (rewrite ?Hsel; done).
  cbn [foldl mbind option_bind]. unfold convert_step. rewrite Hk, Hpb, bool_decide_false by congruence.
  rewrite Hct, Hpt, !bool_decide_true by done. cbn [andb mbind option_bind]. rewrite Hpk, Hnb.
  cbn [mbind option_bind]. unfold createSelectionWithBlock. cbn [acc_content acc_adjust].
  destruct (Modifier_setBlockType_single (currentContent es) (b_key b) 0 (getLength b) false
              (b_type nb) b) as (c1 & -> & Hb1 & _ & _); [by rewrite Hk|].
  cbn [mbind option_bind acc_content acc_adjust]. rewrite Hk in Hb1.
  case_decide as Hc.
  - rewrite Hsel, !lookup_empty. cbn [default Z.opp]. eexists. split; [reflexivity|].
    unfold performUnUndoableEdits. cbn [EditorState_setAllowUndo EditorState_forceSelection currentContent
      selection undoStack].
    split; [rewrite <- Hb1; apply getBlockForKey_blockMap, EditorState_push_blockMap|].
    split; [unfold createSelectionWithSelection; simpl; by rewrite Z.add_0_r|].
    by rewrite EditorState_push_no_undo.
  - exists es. split; [done|]. split; [|done]. by rewrite <- Hc.
Qed.

Lemma convertBlockType_merge_forward_witness :
  let prev := editor_of [plain_block "a" "unstyled" []; plain_block "b" "blockquote" ⟪"quote"⟫]
                (caret "a" 0) None in
  let es := editor_of [plain_block "a" "unstyled" ⟪"quote"⟫] (caret "a" 0) (Some delete_character) in
  exists es', convertBlockType es prev = Some es' /\
    getBlockForKey (currentContent es') "a" =
      Some (set_type (b_type (plain_block "b" "blockquote" ⟪"quote"⟫)) (plain_block "a" "unstyled" ⟪"quote"⟫)) /\
    selection es' = selection es /\ undoStack es' = undoStack es.
Proof.
  intros prev es.
  apply (convertBlockType_merge_forward es prev "a" 0 (plain_block "a" "unstyled" ⟪"quote"⟫)
           (plain_block "a" "unstyled" []) (plain_block "b" "blockquote" ⟪"quote"⟫)).
  - apply (bool_decide_unpack _). vm_compute. reflexivity.
  - reflexivity.
  - reflexivity.
  - reflexivity.
  - reflexivity.
  - reflexivity.
  - reflexivity.
  - vm_compute. congruence.
  - reflexivity.
Defined.
