(* ===== verification/CollapseBlocks.v ===== *)
(** * Collapse, expand and the block plugin: [steps/collapseBlocks.ts],
      [coreBlockPlugin/index.ts]

    [collapseBlocks editorState affectedBlocks force] folds [collapse_step]
    over the affected keys (all keys by default): an expandable block whose
    text still matches its pattern, and which no selection edge touches
    (or any such block when [force] is set), loses its matched prefix.  A
    changed content is pushed as an un-undoable [remove-range] step and the
    previous selection is forced back.  [collapseBlocksAtSelectionEdges]
    forces the collapse of the two edge blocks of the selection; it is
    [normalizeCoreBlocks].

    [expandBlocks] is imported by [index.ts] from [steps/expandBlocks.ts],
    which is not in the repository: [expandBlocks] here is modelled from the
    spec (§4.4 Expand: "the converse of Collapse ... same traversal,
    opposite text operation"): every expandable block that a selection edge
    touches and whose text does not match its pattern gets its canonical
    prefix ([canonicalPattern]: ["#...#"] with the decorator style, then a
    plain space) inserted at offset 0 through [performDependentEdits], with
    undo disabled, followed by a selection edit that rebases the selection.

    [coreBlockPlugin_onChange] is the plugin's [onChange]: convert, then
    collapse, then expand.

    Theorems: collapse leaves every block a selection edge touches alone
    unless forced, and keeps the list of block keys; on a content with
    unique keys and well-formed blocks it strips exactly the hashes and the
    space of every untouched header, keeps the selection and records no
    undo step.  The expand step, through the edit compiler's refinement
    ([DependentEdits.v]), puts an expandable type's canonical prefix, text
    and styled metadata, in front of a collapsed block the caret is in and
    moves the caret past it.  Together: collapse then expand gives back
    exactly the header block as convert left it, for every level, text
    and caret offset, provided the text after the trigger does not itself
    start with the trigger; when it does, the collapse strips the user's
    text on the next change (a recorded finding).  The forced collapse of
    [normalizeCoreBlocks] leaves the caret past the end of the collapsed
    block (a recorded finding). *)

From S2P Require Import Prelude Draft Regex DraftUtils DependentEdits Blocks ConvertBlockType.

Open Scope Z_scope.
Open Scope draft_scope.

(** The body of [affectedBlocks.reduce]; [block.getType()] on an
    [undefined] block throws. *)
Definition collapse_step (sel : SelectionState) (force : bool) (acc : option ContentState)
    (blockKey : string) : option ContentState :=
  content ← acc;
  block ← getBlockForKey content blockKey;
  match blocks (b_type block) with
  | Some d =>
      if def_expandable d && (force || negb (hasEdgeWithin sel blockKey 0 (getLength block))) then
        match str_match (b_text block) (def_pattern d) with
        | Some m =>
            Modifier_replaceText content
              (createSelectionWithRange blockKey 0 (Z.of_nat (length (ex_match m)))) [] [] None
        | None => Some content
        end
      else Some content
  | None => Some content
  end.

(** [collapseBlocks(editorState, affectedBlocks = all keys, force)]. *)
Definition collapseBlocks (es : EditorState) (affectedBlocks : option (list string)) (force : bool)
  : option EditorState :=
  let sel := selection es in
  let cur := currentContent es in
  let keys := default (b_key <$> blockMap cur) affectedBlocks in
  nextContent ← foldl (collapse_step sel force) (Some cur) keys;
  if decide (nextContent <> cur) then
    Some (EditorState_forceSelection
            (performUnUndoableEdits es (fun d => EditorState_push d nextContent remove_range)) sel)
  else Some es.

(** lodash [uniq]: the first occurrence of each key, in order. *)
Fixpoint uniq_from (seen : list string) (l : list string) : list string :=
  match l with
  | [] => []
  | x :: l' => if bool_decide (x ∈ seen) then uniq_from seen l' else x :: uniq_from (x :: seen) l'
  end.

(** [collapseBlocksAtSelectionEdges(editorState)]. *)
Definition collapseBlocksAtSelectionEdges (es : EditorState) : option EditorState :=
  let sel := selection es in
  collapseBlocks es (Some (uniq_from [] [getStartKey sel; getEndKey sel])) true.

(** [normalizeCoreBlocks]. *)
Definition normalizeCoreBlocks (es : EditorState) : option EditorState :=
  collapseBlocksAtSelectionEdges es.

(** The insertions of a block's canonical prefix at offset 0. *)
Definition expand_edits (d : CoreBlockDefinition) (key : string) : list Edit :=
  match d with
  | ExpandableBlock _ _ parts =>
      (fun p => Insertion (mkInsertion (cp_text p) key 0 None (cp_style p) true)) <$> parts
  | StaticBlock _ _ _ _ => []
  end.

(** The insertions of a block's canonical prefix. *)
Definition prefix_insertions (parts : list CanonicalPart) (key : string) : list InsertionEdit :=
  (fun p => mkInsertion (cp_text p) key 0 None (cp_style p) true) <$> parts.

(** The text and the metadata of a canonical prefix: each part's text,
    every character carrying the part's style and no entity. *)
Definition canonical_text (parts : list CanonicalPart) : list ascii := mjoin (cp_text <$> parts).

Definition canonical_chars (parts : list CanonicalPart) : list CharacterMetadata :=
  mjoin ((fun p => replicate (length (cp_text p)) (mkChar (default [] (cp_style p)) None)) <$> parts).

(** An expandable block a selection edge touches, whose visible text lacks
    its prefix. *)
Definition needs_expand (sel : SelectionState) (b : ContentBlock) : option CoreBlockDefinition :=
  match blocks (b_type b) with
  | Some d =>
      if def_expandable d && hasEdgeWithin sel (b_key b) 0 (getLength b)
         && bool_decide (str_match (b_text b) (def_pattern d) = None)
      then Some d else None
  | None => None
  end.

(** [expandBlocks(editorState)] (modelled from the spec). *)
Definition expandBlocks (es : EditorState) : option EditorState :=
  let sel := selection es in
  let edits := mjoin ((fun b => match needs_expand sel b with
                               | Some d => expand_edits d (b_key b)
                               | None => [] end) <$> blockMap (currentContent es)) in
  if bool_decide (edits = []) then Some es
  else performDependentEdits es (edits ++
         [SelectionE (mkSelectionEdit (anchorKey sel) (Z.to_nat (anchorOffset sel))
                        (focusKey sel) (Z.to_nat (focusOffset sel)) (isBackward sel) None None)]).

(** The plugin's [onChange]: [prev] is [getEditorState()]. *)
Definition coreBlockPlugin_onChange (es prev : EditorState) : option EditorState :=
  e1 ← convertBlockType es prev;
  e2 ← collapseBlocks e1 None false;
  expandBlocks e2.

(** ** Concrete states of the examples *)

Definition decorator_char : CharacterMetadata := mkChar [core_block_decorator] None.

(** A header block of level [n] ([1 <= n <= 6]) as the convert step leaves
    it: the hashes carry the decorator, the space and [t] are plain. *)
Definition header_block (k : string) (n : nat) (t : list ascii) : ContentBlock :=
  mkBlock k (default "" (def_type <$> header_of_level n))
    (replicate n "#"%char ++ " "%char :: t)
    (replicate n decorator_char ++ replicate (S (length t)) plain_char).

(** Leave the header block [h] for the unstyled block [u], collapse, come
    back into [h] at offset [o] and expand. *)
Definition leave_and_return (n : nat) (o : Z) : option EditorState :=
  let es := editor_of [header_block "h" n ⟪"abc"⟫; plain_block "u" "unstyled" ⟪"xy"⟫] (caret "u" 1) None in
  e1 ← collapseBlocks es None false;
  expandBlocks (EditorState_forceSelection e1 (caret "h" o)).

(** ** Lemmas *)

Lemma foldl_collapse_None sel force keys : foldl (collapse_step sel force) None keys = None.
Proof. induction keys; simpl; done. Qed.

Lemma collapse_step_frame sel k b c key c' :
  getBlockForKey c k = Some b -> hasEdgeWithin sel k 0 (getLength b) = true ->
  collapse_step sel false (Some c) key = Some c' -> getBlockForKey c' k = Some b.
Proof.
  intros Hb Hedge. unfold collapse_step. cbn [mbind option_bind].
  destruct (getBlockForKey c key) as [blk|] eqn:Hblk; [|done].
  cbn [mbind option_bind].
  destruct (blocks (b_type blk)) as [d|]; [|by intros [= <-]].
  destruct (decide (key = k)) as [->|Hne].
  - rewrite Hb in Hblk. injection Hblk as <-. rewrite Hedge, orb_false_l, andb_false_r.
    by intros [= <-].
  - destruct (_ && _); [|by intros [= <-]].
    destruct (str_match _ _) as [m|]; [|by intros [= <-]].
    intros Hr. rewrite <- Hb.
    by apply (Modifier_replaceText_frame c key 0 (Z.of_nat (length (ex_match m))) [] [] None c' k).
Qed.

Lemma foldl_collapse_frame sel k b keys c c' :
  getBlockForKey c k = Some b -> hasEdgeWithin sel k 0 (getLength b) = true ->
  foldl (collapse_step sel false) (Some c) keys = Some c' -> getBlockForKey c' k = Some b.
Proof.
  intros Hb Hedge. revert c Hb. induction keys as [|key keys IH]; intros c Hb; cbn [foldl].
  - by intros [= <-].
  - destruct (collapse_step sel false (Some c) key) as [c1|] eqn:Hs.
    + intros H. apply (IH c1); [|done]. by apply (collapse_step_frame sel k b c key).
    + by rewrite foldl_collapse_None.
Qed.

(** A [replaceText] of a prefix of a block keeps every block well formed
    and every block present. *)
Lemma replace_prefix_wf c k b (e : nat) c' :
  getBlockForKey c k = Some b -> all_blocks_wf c -> (e <= length (b_text b))%nat ->
  Modifier_replaceText c (createSelectionWithRange k 0 (Z.of_nat e)) [] [] None = Some c' ->
  all_blocks_wf c' /\ is_Some (getBlockForKey c' k) /\
  forall k', k' <> k -> getBlockForKey c' k' = getBlockForKey c k'.
Proof.
  intros Hb Hwf He Hr. pose proof (Hwf k b Hb) as Hwfb.
  unfold createSelectionWithRange in Hr. change 0 with (Z.of_nat 0) in Hr.
  destruct (Modifier_replaceText_in_block c k 0 e b [] [] None Hb Hwfb)
    as (c2 & b2 & Hr2 & Hb2 & _ & _ & Ht & Hc & _); [lia|].
  rewrite Hr in Hr2. injection Hr2 as <-.
  assert (Hfr : forall k', k' <> k -> getBlockForKey c' k' = getBlockForKey c k')
    by (intros k' Hne; by apply (Modifier_replaceText_frame c k (Z.of_nat 0) (Z.of_nat e) [] [] None c' k')).
  split; [|split; [by rewrite Hb2|done]].
  intros k' b' Hb'. destruct (decide (k' = k)) as [->|Hne].
  - rewrite Hb2 in Hb'. injection Hb' as <-. unfold block_wf in *.
    rewrite Ht, Hc, !length_app, !length_take, !length_drop. simpl. lia.
  - rewrite Hfr in Hb' by done. by apply (Hwf k').
Qed.

(** Each step of the collapse succeeds on a present block of a content
    whose blocks are well formed, and changes no other block. *)
Lemma collapse_step_total sel force c key :
  all_blocks_wf c -> is_Some (getBlockForKey c key) ->
  exists c', collapse_step sel force (Some c) key = Some c' /\ all_blocks_wf c' /\
    (forall k', is_Some (getBlockForKey c k') -> is_Some (getBlockForKey c' k')) /\
    (forall k', k' <> key -> getBlockForKey c' k' = getBlockForKey c k').
Proof.
  intros Hwf [b Hb]. unfold collapse_step. cbn [mbind option_bind]. rewrite Hb.
  cbn [mbind option_bind].
  assert (Hid : exists c', Some c = Some c' /\ all_blocks_wf c' /\
    (forall k', is_Some (getBlockForKey c k') -> is_Some (getBlockForKey c' k')) /\
    (forall k', k' <> key -> getBlockForKey c' k' = getBlockForKey c k')) by eauto 10.
  destruct (blocks (b_type b)) as [d|]; [|done].
  destruct (_ && _); [|done].
  destruct (str_match (b_text b) (def_pattern d)) as [m|] eqn:Hm; [|done].
  pose proof (exec_match_length (def_pattern d) (b_text b) m Hm) as Hlen.
  destruct (Modifier_replaceText_in_block c key 0 (length (ex_match m)) b [] [] None Hb (Hwf key b Hb))
    as (c' & _ & Hr & _); [lia|].
  change (Z.of_nat 0) with 0 in Hr. unfold createSelectionWithRange. rewrite Hr.
  destruct (replace_prefix_wf c key b (length (ex_match m)) c' Hb Hwf Hlen Hr) as (Hwf' & Hk & Hfr).
  exists c'. split; [done|]. split; [done|]. split; [|done].
  intros k' Hk'. destruct (decide (k' = key)) as [->|Hne]; [done|]. by rewrite Hfr.
Qed.

Lemma foldl_collapse_total sel force keys c :
  all_blocks_wf c -> (forall key, key ∈ keys -> is_Some (getBlockForKey c key)) ->
  exists c', foldl (collapse_step sel force) (Some c) keys = Some c' /\ all_blocks_wf c' /\
    (forall k', is_Some (getBlockForKey c k') -> is_Some (getBlockForKey c' k')) /\
    (forall k', k' ∉ keys -> getBlockForKey c' k' = getBlockForKey c k').
Proof.
  revert c. induction keys as [|key keys IH]; intros c Hwf Hkeys; cbn [foldl]; [by exists c|].
  destruct (collapse_step_total sel force c key Hwf) as (c1 & -> & Hwf1 & Hex1 & Hfr1);
    [apply Hkeys; set_solver|].
  destruct (IH c1 Hwf1) as (c' & Hf & Hwf' & Hex' & Hfr'); [intros; apply Hex1, Hkeys; set_solver|].
  exists c'. split; [done|]. split; [done|]. split; [auto|].
  intros k' Hk'. rewrite Hfr', Hfr1 by set_solver. done.
Qed.

(** The step at an expandable header block that the selection does not
    touch removes the [n] hashes and the space. *)
Lemma collapse_step_header sel force c k n d t b :
  getBlockForKey c k = Some b -> block_wf b -> header_of_level n = Some d ->
  b_type b = def_type d -> b_text b = replicate n "#"%char ++ " "%char :: t ->
  (force = true \/ hasEdgeWithin sel k 0 (getLength b) = false) ->
  exists c' b', collapse_step sel force (Some c) k = Some c' /\ getBlockForKey c' k = Some b' /\
    b_type b' = b_type b /\ b_text b' = t /\ b_chars b' = drop (S n) (b_chars b).
Proof.
  intros Hb Hwf Hd Hty Ht Hguard.
  destruct (header_of_level_spec n d Hd) as (Hblocks & Hpat & Hexp & _).
  unfold collapse_step. cbn [mbind option_bind]. rewrite Hb. cbn [mbind option_bind].
  assert (Hg : force || negb (hasEdgeWithin sel k 0 (getLength b)) = true)
    by (destruct Hguard as [Hf | Hh]; [rewrite Hf | rewrite Hh, orb_true_r]; reflexivity).
  rewrite Hty, Hblocks, Hexp, Hg.
  cbn [andb]. unfold str_match. rewrite Hpat, Ht, exec_header_pattern. cbn [fst ex_match].
  destruct (Modifier_replaceText_in_block c k 0 (length (replicate n "#"%char ++ [" "%char])) b [] [] None
              Hb Hwf) as (c' & b' & Hr & Hb' & _ & Hty' & Ht' & Hc' & _);
    [rewrite Ht, !length_app, length_replicate; simpl; lia|].
  unfold createSelectionWithRange. change 0 with (Z.of_nat 0). rewrite Hr.
  exists c', b'. split; [done|]. split; [done|]. split; [congruence|].
  rewrite length_app, length_replicate in Ht', Hc'. simpl in Ht', Hc'. rewrite Nat.add_1_r in Ht', Hc'.
  split; [|done]. rewrite Ht', Ht. simpl.
  replace (replicate n "#"%char ++ " "%char :: t) with ((replicate n "#"%char ++ [" "%char]) ++ t)
    by (by rewrite <- app_assoc).
  apply drop_app_length'. rewrite length_app, length_replicate. simpl. lia.
Qed.

(** ** Collapsing a header *)

Lemma collapse_step_keys sel force c key c' :
  collapse_step sel force (Some c) key = Some c' -> b_key <$> blockMap c' = b_key <$> blockMap c.
Proof.
  unfold collapse_step. cbn [mbind option_bind]. destruct (getBlockForKey c key); [|done].
  cbn [mbind option_bind]. repeat case_match; intros Hr; simplify_eq; try done.
  by apply Modifier_replaceText_keys in Hr.
Qed.

(** The collapse keeps the list of block keys. *)
Lemma collapseBlocks_keys es ab force es' :
  collapseBlocks es ab force = Some es' ->
  b_key <$> blockMap (currentContent es') = b_key <$> blockMap (currentContent es).
Proof.
  unfold collapseBlocks. destruct (foldl _ _ _) as [nc|] eqn:Hf; cbn [mbind option_bind]; [|done].
  assert (Hk : b_key <$> blockMap nc = b_key <$> blockMap (currentContent es)).
  { revert Hf. apply (foldl_opt_invariant (fun c => b_key <$> blockMap c = b_key <$> blockMap (currentContent es)));
      [done| |done].
    intros a b r Ha Hr. rewrite <- Ha. by eapply collapse_step_keys. }
  case_decide; intros [= <-]; [|done]. cbn [EditorState_forceSelection currentContent].
  destruct (performUnUndoableEdits_push es nc remove_range) as (_ & _ & ->). done.
Qed.

(** The unforced collapse on a header that the selection does not touch. *)
Lemma collapseBlocks_header es k n d t b :
  header_of_level n = Some d ->
  NoDup (b_key <$> blockMap (currentContent es)) -> all_blocks_wf (currentContent es) ->
  getBlockForKey (currentContent es) k = Some b -> b_type b = def_type d ->
  b_text b = replicate n "#"%char ++ " "%char :: t ->
  hasEdgeWithin (selection es) k 0 (getLength b) = false ->
  exists es' b', collapseBlocks es None false = Some es' /\
    getBlockForKey (currentContent es') k = Some b' /\ b_type b' = def_type d /\
    b_text b' = t /\ b_chars b' = drop (S n) (b_chars b) /\
    selection es' = selection es /\ undoStack es' = undoStack es.
Proof.
  intros Hd Hnd Hwf Hb Hty Ht Hedge. unfold collapseBlocks. cbn [default].
  assert (Hall : forall key, key ∈ b_key <$> blockMap (currentContent es) ->
                 is_Some (getBlockForKey (currentContent es) key)) by apply getBlockForKey_of_key.
  assert (Hk : k ∈ b_key <$> blockMap (currentContent es)).
  { apply list_elem_of_fmap. exists b. split; [symmetry; by apply (getBlockForKey_key (currentContent es))|].
    unfold getBlockForKey in Hb. apply find_some in Hb as [Hin _]. by apply list_elem_of_In. }
  apply list_elem_of_split in Hk as (pre & post & Hsplit). rewrite Hsplit in Hnd, Hall |- *.
  apply NoDup_app in Hnd as (_ & Hdisj & Hndpost). apply NoDup_cons in Hndpost as [Hkpost _].
  assert (Hkpre : k ∉ pre) by (intros Hin; apply (Hdisj k Hin); set_solver).
  rewrite foldl_app.
  destruct (foldl_collapse_total (selection es) false pre (currentContent es) Hwf)
    as (c1 & -> & Hwf1 & Hex1 & Hfr1); [intros; apply Hall; set_solver|].
  cbn [foldl].
  destruct (collapse_step_header (selection es) false c1 k n d t b)
    as (c2 & b' & Hs & Hb' & Hty' & Ht' & Hc'); [by rewrite Hfr1|by apply (Hwf k)|done..|by right|].
  destruct (collapse_step_total (selection es) false c1 k Hwf1) as (c2' & Hs' & Hwf2 & Hex2 & _);
    [rewrite Hfr1 by done; eauto|].
  rewrite Hs in Hs'. injection Hs' as <-. rewrite Hs.
  destruct (foldl_collapse_total (selection es) false post c2 Hwf2) as (c3 & -> & _ & _ & Hfr3);
    [intros; apply Hex2, Hex1, Hall; set_solver|].
  cbn [mbind option_bind]. rewrite <- (Hfr3 k Hkpost) in Hb'.
  assert (Hne : c3 <> currentContent es).
  { intros ->. rewrite Hb' in Hb. injection Hb as ->. apply (f_equal length) in Ht.
    rewrite Ht', length_app, length_replicate in Ht. simpl in Ht. lia. }
  rewrite decide_True by done.
  destruct (performUnUndoableEdits_push es c3 remove_range) as (Hu & _ & Hm).
  eexists _, b'. split; [reflexivity|]. split.
  - rewrite <- Hb'. by apply getBlockForKey_blockMap.
  - split; [congruence|]. split; [done|]. split; [done|]. split; [done|]. done.
Qed.

(** A selection with no edge in block [k] has no edge within any range
    of it. *)
Lemma hasEdgeWithin_elsewhere sel k a e :
  anchorKey sel <> k -> focusKey sel <> k -> hasEdgeWithin sel k a e = false.
Proof.
  intros Ha Hf. unfold hasEdgeWithin, sel_hasEdgeWithin.
  repeat case_bool_decide; simpl; congruence.
Qed.

(** The unforced collapse keeps every block well formed. *)
Lemma collapseBlocks_all_wf es es' :
  all_blocks_wf (currentContent es) -> collapseBlocks es None false = Some es' ->
  all_blocks_wf (currentContent es').
Proof.
  intros Hwf. unfold collapseBlocks. cbn [default].
  destruct (foldl_collapse_total (selection es) false (b_key <$> blockMap (currentContent es))
              (currentContent es) Hwf) as (c' & -> & Hwf' & _); [apply getBlockForKey_of_key|].
  cbn [mbind option_bind]. case_decide; intros [= <-]; [|done].
  destruct (performUnUndoableEdits_push es c' remove_range) as (_ & _ & Hm).
  intros k b Hb. apply (Hwf' k). rewrite <- Hb. symmetry. by apply getBlockForKey_blockMap.
Qed.

(** ** The expand step *)

Lemma inserted_by_cons {A} (f : InsertionEdit -> list A) e edits p :
  inserted_by f (e :: edits) p = (if decide (ie_offset e = p) then f e else []) ++ inserted_by f edits p.
Proof. unfold inserted_by. rewrite filter_cons. by case_decide. Qed.

(** A batch whose edits are all at offset [0] inserts everything there. *)
Lemma inserted_by_at_zero {A} (f : InsertionEdit -> list A) edits :
  Forall (fun e => ie_offset e = O) edits ->
  inserted_by f edits O = mjoin (f <$> edits) /\ forall q, inserted_by f edits (S q) = [].
Proof.
  induction 1 as [|e edits He _ [IH0 IHS]]; [done|].
  rewrite inserted_by_cons, IH0, He, decide_True by done. split; [done|].
  intros q. by rewrite inserted_by_cons, IHS, He, decide_False.
Qed.

Lemma splice_at_zero {A} (orig : list A) g dc :
  (forall q, g (S q) = []) -> (forall q, dc q = O) -> splice orig g dc = g O ++ orig.
Proof.
  intros Hg Hdc. unfold splice. destruct orig as [|x r]; simpl; [by rewrite app_nil_r|].
  rewrite Hdc, bool_decide_true by done.
  rewrite (splice_from_ext r g (fun _ => []) dc (fun _ => O)), splice_from_nothing; [done| |].
  - intros [|q] Hq; [lia|apply Hg].
  - intros q _. apply Hdc.
Qed.

Lemma mjoin_fmap_nil {A B} (f : A -> list B) l : Forall (fun y => f y = []) l -> mjoin (f <$> l) = [].
Proof. induction 1 as [|y l Hy _ IH]; [done|]. by rewrite fmap_cons; simpl; rewrite Hy, IH. Qed.

(** A block no selection edge rests in needs no expansion. *)
Lemma needs_expand_other sel b :
  anchorKey sel = focusKey sel -> b_key b <> focusKey sel -> needs_expand sel b = None.
Proof.
  intros Hk Hne. unfold needs_expand, hasEdgeWithin. rewrite bool_decide_true by done.
  rewrite (bool_decide_false (focusKey sel = b_key b)) by congruence. simpl.
  destruct (blocks (b_type b)); [|done]. by rewrite andb_false_r.
Qed.

(** With unique keys and both selection edges in block [h], the only
    edits of the expand step are those of [h]. *)
Lemma expand_edits_single c sel h b d :
  NoDup (b_key <$> blockMap c) -> getBlockForKey c h = Some b ->
  anchorKey sel = h -> focusKey sel = h -> needs_expand sel b = Some d ->
  mjoin ((fun b => match needs_expand sel b with
                   | Some d => expand_edits d (b_key b)
                   | None => [] end) <$> blockMap c) = expand_edits d h.
Proof.
  intros Hnd Hb HA HF Hd. pose proof (getBlockForKey_key _ _ _ Hb) as Hk.
  unfold getBlockForKey in Hb. apply find_split in Hb as (pre & post & Hbm & Hpre & _).
  rewrite Hbm, fmap_app in Hnd. simpl in Hnd.
  apply NoDup_app in Hnd as (_ & _ & Hnd). apply NoDup_cons in Hnd as [Hkpost _].
  rewrite Hbm, fmap_app, join_app, fmap_cons. simpl. rewrite Hd, Hk.
  rewrite !mjoin_fmap_nil; [by rewrite app_nil_r| |].
  - apply Forall_forall. intros y Hy. rewrite needs_expand_other; [done|congruence|].
    intros Hyk. apply Hkpost. rewrite Hk, <- HF, <- Hyk. by apply list_elem_of_fmap_2.
  - eapply Forall_impl; [exact Hpre|]. intros y Hy. simpl in Hy.
    rewrite needs_expand_other; [done|congruence|]. intros Hyk. rewrite Hyk, HF in Hy.
    by rewrite bool_decide_true in Hy.
Qed.

Lemma prefix_insertions_plain parts b :
  Forall (plain_insertion (b_key b) (b_text b)) (prefix_insertions parts (b_key b)).
Proof.
  unfold prefix_insertions. apply Forall_fmap, Forall_forall. intros p _.
  unfold plain_insertion. simpl. split; [done|]. split; [lia|done].
Qed.

Lemma prefix_insertions_at_zero parts key :
  Forall (fun e => ie_offset e = O) (prefix_insertions parts key).
Proof. unfold prefix_insertions. apply Forall_fmap, Forall_forall. done. Qed.

Lemma block_eq b b' :
  b_key b = b_key b' -> b_type b = b_type b' -> b_text b = b_text b' -> b_chars b = b_chars b' -> b = b'.
Proof. destruct b, b'; simpl; intros; by subst. Qed.

(** The expand step on a collapsed block holding the caret. *)
Lemma expandBlocks_prefix es h (o : nat) b ty pat parts :
  NoDup (b_key <$> blockMap (currentContent es)) ->
  selection es = mkSel h (Z.of_nat o) h (Z.of_nat o) false ->
  getBlockForKey (currentContent es) h = Some b -> block_wf b -> (o <= length (b_text b))%nat ->
  blocks (b_type b) = Some (ExpandableBlock ty pat parts) -> str_match (b_text b) pat = None ->
  exists es' b', expandBlocks es = Some es' /\
    getBlockForKey (currentContent es') h = Some b' /\ b_type b' = b_type b /\
    b_text b' = canonical_text parts ++ b_text b /\
    b_chars b' = canonical_chars parts ++ b_chars b /\
    selection es' = mkSel h (Z.of_nat (o + length (canonical_text parts))) h
                          (Z.of_nat (o + length (canonical_text parts))) false /\
    (forall k', k' <> h -> getBlockForKey (currentContent es') k' = getBlockForKey (currentContent es) k').
Proof.
  intros Hnd Hsel Hb Hwf Ho Hty Hpat. pose proof (getBlockForKey_key _ _ _ Hb) as Hk.
  assert (Hne : needs_expand (selection es) b = Some (ExpandableBlock ty pat parts)).
  { unfold needs_expand, hasEdgeWithin, getLength. rewrite Hty, Hsel. simpl.
    rewrite !bool_decide_true by (done || lia). done. }
  unfold expandBlocks.
  rewrite (expand_edits_single (currentContent es) (selection es) h b _ Hnd Hb ltac:(by rewrite Hsel) ltac:(by rewrite Hsel) Hne).
  replace (expand_edits (ExpandableBlock ty pat parts) h) with (Insertion <$> prefix_insertions parts h)
    by (unfold prefix_insertions; by rewrite <- list_fmap_compose).
  destruct (inserted_by_at_zero ie_text (prefix_insertions parts h) (prefix_insertions_at_zero parts h))
    as [Ht0 HtS].
  destruct (inserted_by_at_zero ie_meta (prefix_insertions parts h) (prefix_insertions_at_zero parts h))
    as [Hc0 HcS].
  assert (Htext : mjoin (ie_text <$> prefix_insertions parts h) = canonical_text parts)
    by (unfold prefix_insertions; by rewrite <- list_fmap_compose).
  assert (Hchars : mjoin (ie_meta <$> prefix_insertions parts h) = canonical_chars parts)
    by (unfold prefix_insertions; by rewrite <- list_fmap_compose).
  case_bool_decide as Hnil.
  - destruct parts; [|done]. exists es, b. rewrite Hsel, Nat.add_0_r. done.
  - subst h. pose proof (plain_insertions_dl _ _ _ (prefix_insertions_plain parts b)) as Hdl.
    destruct (fold_edits_inv (b_key b) (b_type b) (b_text b) (b_chars b) (currentContent es) Hwf []
                (prefix_insertions parts (b_key b)) es counters_empty (edits_inv_initial b es Hb Hwf)
                (Forall_impl _ _ _ (prefix_insertions_plain parts b) (plain_insertion_valid _ _))
                (plain_batch_ok _ Hdl) (Forall_nil_2 _))
      as (es1 & st1 & Hfold & (b1 & Hb1 & Hty1 & Ht1 & Hc1 & _) & Hfr & Hins & Hdel & _).
    unfold performDependentEdits. rewrite foldl_app, Hfold. cbn -[selection_delta].
    rewrite Hsel. cbn [anchorKey focusKey anchorOffset focusOffset isBackward]. rewrite Nat2Z.id.
    rewrite (selection_delta_inv (b_key b) (prefix_insertions parts (b_key b)) st1)
      by (first [exact Hins | intros q; by rewrite Hdel, app_nil_l, deleted_at_plain]).
    eexists _, b1. split; [reflexivity|]. cbn [EditorState_forceSelection currentContent selection].
    unfold inserted_at, inserted_meta in *. rewrite app_nil_l in Ht1, Hc1.
    rewrite splice_at_zero in Ht1 by (done || intros; by apply deleted_count_plain).
    rewrite splice_at_zero in Hc1 by (done || intros; by apply deleted_count_plain).
    rewrite Ht1, Hc1, Ht0, Hc0, Htext, Hchars.
    split; [done|]. split; [done|]. split; [done|]. split; [done|]. split; [|done].
    simpl. rewrite Nat.add_1_r, sum_upto_shift, (sum_upto_ext _ (fun _ => O)), sum_upto_zero
      by (intros; simpl; by rewrite HtS).
    rewrite Ht0, Htext. do 2 f_equal; lia.
Qed.

(** The header definition of level [n] and its canonical prefix: [n]
    hashes with the decorator style, then a plain space. *)
Lemma header_of_level_def n d :
  header_of_level n = Some d -> d = ExpandableBlock (def_type d) (header_pattern n) (header_canonical n).
Proof.
  unfold header_of_level. case_decide as Hn; [|done].
  destruct n as [|[|[|[|[|[|[|n]]]]]]]; try lia; by intros [= <-].
Qed.

Lemma canonical_header n :
  canonical_text (header_canonical n) = replicate n "#"%char ++ [" "%char] /\
  canonical_chars (header_canonical n) = replicate n decorator_char ++ [plain_char].
Proof. unfold canonical_text, canonical_chars. simpl. rewrite ?app_nil_r, ?length_replicate. done. Qed.

(** ** Properties *)

(** The test of spec §8 "collapse/expand inverse", by evaluation (the
    general statement is [collapse_expand_inverse]).  For each of the six
    header levels: a header block left by the caret is collapsed to its
    bare text, and when the caret comes back into it the expand step
    restores the visible prefix with the decorator run on the hashes and a
    plain space, the other block untouched, the caret shifted past the
    restored prefix. *)
Theorem collapse_expand_roundtrip (n : nat) :
  (1 <= n <= 6)%nat ->
  blocks_of (leave_and_return n 1) =
    Some [header_block "h" n ⟪"abc"⟫; plain_block "u" "unstyled" ⟪"xy"⟫] /\
  (selection <$> leave_and_return n 1) = Some (caret "h" (Z.of_nat n + 2)).
Proof.
  intros Hn. destruct n as [|[|[|[|[|[|[|n]]]]]]]; [lia| | | | | | |lia];
    split; vm_compute; reflexivity.
Qed.


(** C10 (invariant, spec §4.4 Collapse).  The unforced collapse never
    touches a block that an edge of the selection rests in: whenever
    [collapseBlocks] returns, such a block is exactly as it was. *)
Theorem collapseBlocks_keeps_touched_block es es' k b :
  getBlockForKey (currentContent es) k = Some b ->
  hasEdgeWithin (selection es) k 0 (getLength b) = true ->
  collapseBlocks es None false = Some es' ->
  getBlockForKey (currentContent es') k = Some b.
Proof.
  intros Hb Hedge. unfold collapseBlocks. cbn [default].
  destruct (foldl _ _ _) as [nc|] eqn:Hf; cbn [mbind option_bind]; [|done].
  pose proof (foldl_collapse_frame _ k b _ _ _ Hb Hedge Hf) as Hnc.
  case_decide; intros [= <-]; [|done].
  rewrite <- Hnc. apply getBlockForKey_blockMap. cbn [EditorState_forceSelection currentContent].
  unfold performUnUndoableEdits. by rewrite EditorState_setAllowUndo_content, EditorState_push_blockMap.
Qed.

Lemma collapseBlocks_keeps_touched_block_witness :
  let es := editor_of [header_block "h" 1 ⟪"abc"⟫; plain_block "u" "unstyled" ⟪"xy"⟫] (caret "h" 2) None in
  getBlockForKey (currentContent es) "h" = Some (header_block "h" 1 ⟪"abc"⟫) /\
  hasEdgeWithin (selection es) "h" 0 (getLength (header_block "h" 1 ⟪"abc"⟫)) = true /\
  collapseBlocks es None false = Some es /\
  getBlockForKey (currentContent es) "h" = Some (header_block "h" 1 ⟪"abc"⟫).
Proof.
  intros es. assert (H1 : getBlockForKey (currentContent es) "h" = Some (header_block "h" 1 ⟪"abc"⟫))
    by reflexivity.
  assert (H2 : hasEdgeWithin (selection es) "h" 0 (getLength (header_block "h" 1 ⟪"abc"⟫)) = true)
    by reflexivity.
  assert (H3 : collapseBlocks es None false = Some es) by (vm_compute; reflexivity).
  split; [done|]. split; [done|]. split; [done|].
  exact (collapseBlocks_keeps_touched_block es es "h" _ H1 H2 H3).
Defined.

(** C23 (safety, finding; spec §3 Selection invariant).  The forced
    collapse of [normalizeCoreBlocks] restores the selection it started
    from.  For every well-formed header block of any level [n] holding
    its trigger and a text [t], with a collapsed caret at any offset [o]
    inside it, the block is collapsed to [t] and the caret is left at [o]:
    every caret that was after the first [length t] characters of the
    block's visible text (for example at its end) now lies past the end of
    a block of length [length t]. *)
Theorem normalizeCoreBlocks_caret_out_of_range es h n d t b (o : Z) :
  header_of_level n = Some d ->
  getBlockForKey (currentContent es) h = Some b -> block_wf b -> b_type b = def_type d ->
  b_text b = replicate n "#"%char ++ " "%char :: t ->
  selection es = caret h o ->
  exists es' b', normalizeCoreBlocks es = Some es' /\
    getBlockForKey (currentContent es') h = Some b' /\ b_text b' = t /\
    selection es' = caret h o /\
    (Z.of_nat (length t) < o -> Z.of_nat (length (b_text b')) < anchorOffset (selection es')).
Proof.
  intros Hd Hb Hwf Hty Ht Hsel.
  unfold normalizeCoreBlocks, collapseBlocksAtSelectionEdges, collapseBlocks. rewrite Hsel.
  cbn [getStartKey getEndKey caret isBackward anchorKey focusKey uniq_from default].
  rewrite bool_decide_false by set_solver. rewrite bool_decide_true by set_solver.
  unfold id. cbn [foldl].
  destruct (collapse_step_header (caret h o) true (currentContent es) h n d t b Hb Hwf Hd Hty Ht)
    as (c' & b' & Hs & Hb' & _ & Ht' & _); [by left|].
  rewrite Hs. cbn [mbind option_bind].
  assert (Hne : c' <> currentContent es).
  { intros ->. rewrite Hb' in Hb. injection Hb as ->. apply (f_equal length) in Ht.
    rewrite Ht', length_app, length_replicate in Ht. simpl in Ht. lia. }
  rewrite decide_True by done.
  destruct (performUnUndoableEdits_push es c' remove_range) as (_ & _ & Hm).
  eexists _, b'. split; [reflexivity|]. split.
  - rewrite <- Hb'. by apply getBlockForKey_blockMap.
  - split; [done|]. split; [done|]. simpl. rewrite Ht'. lia.
Qed.

(** The caret at the end of ["# ab"] (offset [4]) stays at [4] in the
    collapsed ["ab"]. *)
Lemma normalizeCoreBlocks_caret_out_of_range_witness :
  let es := editor_of [header_block "h" 1 ⟪"ab"⟫] (caret "h" 4) None in
  exists es' b', normalizeCoreBlocks es = Some es' /\
    getBlockForKey (currentContent es') "h" = Some b' /\ b_text b' = ⟪"ab"⟫ /\
    selection es' = caret "h" 4 /\
    (Z.of_nat (length ⟪"ab"⟫) < 4 -> Z.of_nat (length (b_text b')) < anchorOffset (selection es')).
Proof.
  intros es. apply (normalizeCoreBlocks_caret_out_of_range es "h" 1 header_one ⟪"ab"⟫ (header_block "h" 1 ⟪"ab"⟫)).
  - reflexivity.
  - reflexivity.
  - reflexivity.
  - reflexivity.
  - reflexivity.
  - reflexivity.
Defined.

(** C9 (functional, spec §4.4 Collapse).  On a content with unique keys
    and well-formed blocks, [collapseBlocks] (all keys, not forced) turns an
    expandable header block of level [n] whose text is [n] hashes, a space
    and [t], and which no selection edge touches, into a block of the same
    type holding exactly [t] and the metadata after the prefix; the
    selection is kept and no undo step is recorded. *)
Theorem collapseBlocks_collapses_header es k n d t b :
  header_of_level n = Some d ->
  NoDup (b_key <$> blockMap (currentContent es)) -> all_blocks_wf (currentContent es) ->
  getBlockForKey (currentContent es) k = Some b -> b_type b = def_type d ->
  b_text b = replicate n "#"%char ++ " "%char :: t ->
  hasEdgeWithin (selection es) k 0 (getLength b) = false ->
  exists es' b', collapseBlocks es None false = Some es' /\
    getBlockForKey (currentContent es') k = Some b' /\ b_type b' = def_type d /\
    b_text b' = t /\ b_chars b' = drop (S n) (b_chars b) /\
    selection es' = selection es /\ undoStack es' = undoStack es.
Proof. apply collapseBlocks_header. Qed.

Lemma collapseBlocks_collapses_header_witness :
  let es := editor_of [header_block "h" 2 ⟪"abc"⟫; plain_block "u" "unstyled" ⟪"xy"⟫]
              (caret "u" 1) None in
  exists es' b', collapseBlocks es None false = Some es' /\
    getBlockForKey (currentContent es') "h" = Some b' /\ b_type b' = def_type header_two /\
    b_text b' = ⟪"abc"⟫ /\ b_chars b' = drop 3 (b_chars (header_block "h" 2 ⟪"abc"⟫)) /\
    selection es' = selection es /\ undoStack es' = undoStack es.
Proof.
  intros es. apply (collapseBlocks_collapses_header es "h" 2 header_two ⟪"abc"⟫ (header_block "h" 2 ⟪"abc"⟫)).
  - reflexivity.
  - apply (bool_decide_unpack _). vm_compute. reflexivity.
  - apply all_blocks_wf_of_Forall. repeat constructor.
  - reflexivity.
  - reflexivity.
  - reflexivity.
  - reflexivity.
Defined.

(** C16 (functional, spec §4.4 Expand).  With unique keys and a caret at
    offset [o] of a block [h] of an expandable type whose text does not
    match its pattern (a collapsed block), the expand step inserts the
    type's canonical prefix at the start of [h]: its text and its
    metadata (each part with its style, no entity) come first, the old
    text and metadata follow unchanged, the caret is moved past the
    prefix, and every other block is untouched. *)
Theorem expandBlocks_restores es h (o : nat) b ty pat parts :
  NoDup (b_key <$> blockMap (currentContent es)) ->
  selection es = mkSel h (Z.of_nat o) h (Z.of_nat o) false ->
  getBlockForKey (currentContent es) h = Some b -> block_wf b -> (o <= length (b_text b))%nat ->
  blocks (b_type b) = Some (ExpandableBlock ty pat parts) -> str_match (b_text b) pat = None ->
  exists es' b', expandBlocks es = Some es' /\
    getBlockForKey (currentContent es') h = Some b' /\ b_type b' = b_type b /\
    b_text b' = canonical_text parts ++ b_text b /\
    b_chars b' = canonical_chars parts ++ b_chars b /\
    selection es' = mkSel h (Z.of_nat (o + length (canonical_text parts))) h
                          (Z.of_nat (o + length (canonical_text parts))) false /\
    (forall k', k' <> h -> getBlockForKey (currentContent es') k' = getBlockForKey (currentContent es) k').
Proof. apply expandBlocks_prefix. Qed.

Lemma expandBlocks_restores_witness :
  let b := mkBlock "h" "header-one" ⟪"abc"⟫ (replicate 3 plain_char) in
  exists es' b', expandBlocks (editor_of [b] (caret "h" 1) None) = Some es' /\
    getBlockForKey (currentContent es') "h" = Some b' /\ b_type b' = b_type b /\
    b_text b' = canonical_text (header_canonical 1) ++ b_text b /\
    b_chars b' = canonical_chars (header_canonical 1) ++ b_chars b /\
    selection es' = mkSel "h" (Z.of_nat (1 + length (canonical_text (header_canonical 1)))) "h"
                          (Z.of_nat (1 + length (canonical_text (header_canonical 1)))) false /\
    (forall k', k' <> "h" -> getBlockForKey (currentContent es') k' =
                            getBlockForKey (currentContent (editor_of [b] (caret "h" 1) None)) k').
Proof.
  intros b.
  apply (expandBlocks_restores (editor_of [b] (caret "h" 1) None) "h" 1 b "header-one" (header_pattern 1)).
  - repeat constructor. set_solver.
  - reflexivity.
  - reflexivity.
  - reflexivity.
  - simpl. lia.
  - reflexivity.
  - vm_compute. reflexivity.
Defined.

(** C15 (roundtrip, spec §8 "collapse/expand inverse").  On a document
    with unique keys and well-formed blocks, a header block of level [n]
    as the convert step leaves it ([n] hashes carrying the decorator, a
    plain space, then [t]) that no selection edge touches is collapsed to
    [t]; when the caret then enters it at any offset [o], the expand step
    gives back exactly the original block and puts the caret at [o] plus
    the prefix, leaving the other blocks as the collapse left them.  The
    text [t] must not itself start with the level's trigger: such a text
    is collapsed again on the next change
    ([collapseBlocks_recollapses_trigger_text]). *)
Theorem collapse_expand_inverse es h n d t b (o : nat) :
  header_of_level n = Some d ->
  NoDup (b_key <$> blockMap (currentContent es)) -> all_blocks_wf (currentContent es) ->
  getBlockForKey (currentContent es) h = Some b -> b_type b = def_type d ->
  b_text b = replicate n "#"%char ++ " "%char :: t ->
  b_chars b = replicate n decorator_char ++ plain_char :: drop (S n) (b_chars b) ->
  hasEdgeWithin (selection es) h 0 (getLength b) = false ->
  str_match t (header_pattern n) = None -> (o <= length t)%nat ->
  exists e1 e2, collapseBlocks es None false = Some e1 /\
    expandBlocks (EditorState_forceSelection e1 (caret h (Z.of_nat o))) = Some e2 /\
    getBlockForKey (currentContent e2) h = Some b /\
    selection e2 = caret h (Z.of_nat (o + S n)) /\
    (forall k', k' <> h -> getBlockForKey (currentContent e2) k' = getBlockForKey (currentContent e1) k').
Proof.
  intros Hd Hnd Hwf Hb Hty Ht Hc Hedge Hpat Ho.
  destruct (collapseBlocks_header es h n d t b Hd Hnd Hwf Hb Hty Ht Hedge)
    as (e1 & b1 & He1 & Hb1 & Hty1 & Ht1 & Hc1 & _ & _).
  pose proof (collapseBlocks_keys _ _ _ _ He1) as Hk1.
  assert (Hwf1 : block_wf b1).
  { pose proof (Hwf h b Hb) as Hw. unfold block_wf in *. rewrite Ht1, Hc1, length_drop, Hw, Ht.
    rewrite length_app, length_replicate. simpl. lia. }
  destruct (expandBlocks_prefix (EditorState_forceSelection e1 (caret h (Z.of_nat o))) h o b1
              (def_type d) (header_pattern n) (header_canonical n))
    as (e2 & b2 & He2 & Hb2 & Hty2 & Ht2 & Hc2 & Hsel2 & Hfr2).
  - cbn [EditorState_forceSelection currentContent]. by rewrite Hk1.
  - done.
  - done.
  - done.
  - by rewrite Ht1.
  - rewrite Hty1, (proj1 (header_of_level_spec n d Hd)). f_equal. by apply header_of_level_def.
  - by rewrite Ht1.
  - destruct (canonical_header n) as [Hct Hcc]. exists e1, e2.
    split; [done|]. split; [done|]. split; [|split; [|done]].
    + rewrite Hb2. f_equal. apply block_eq.
      * by rewrite (getBlockForKey_key _ _ _ Hb2), (getBlockForKey_key _ _ _ Hb).
      * congruence.
      * by rewrite Ht2, Hct, Ht1, Ht, <- app_assoc.
      * rewrite Hc2, Hcc, Hc1, <- app_assoc. symmetry. exact Hc.
    + rewrite Hsel2, Hct, length_app, length_replicate. unfold caret. simpl. do 2 f_equal; lia.
Qed.

Lemma collapse_expand_inverse_witness :
  let es := editor_of [header_block "h" 2 ⟪"abc"⟫; plain_block "u" "unstyled" ⟪"xy"⟫] (caret "u" 1) None in
  exists e1 e2, collapseBlocks es None false = Some e1 /\
    expandBlocks (EditorState_forceSelection e1 (caret "h" (Z.of_nat 1))) = Some e2 /\
    getBlockForKey (currentContent e2) "h" = Some (header_block "h" 2 ⟪"abc"⟫) /\
    selection e2 = caret "h" (Z.of_nat (1 + S 2)) /\
    (forall k', k' <> "h" -> getBlockForKey (currentContent e2) k' = getBlockForKey (currentContent e1) k').
Proof.
  intros es. apply (collapse_expand_inverse es "h" 2 header_two ⟪"abc"⟫).
  - reflexivity.
  - repeat constructor; set_solver.
  - intros k b Hb. unfold getBlockForKey in Hb. simpl in Hb.
    repeat case_bool_decide; simplify_eq; reflexivity.
  - reflexivity.
  - reflexivity.
  - reflexivity.
  - reflexivity.
  - vm_compute. reflexivity.
  - vm_compute. reflexivity.
  - simpl. lia.
Defined.

(** C24 (error, finding; spec §8 "collapse/expand inverse").  The
    collapse strips a header's trigger whenever its text matches the
    pattern, without knowing whether the block is already collapsed.  On
    any document with unique keys and well-formed blocks, a header of any
    level [n] whose own text, after its trigger, starts with the trigger
    again (["# # x"], typed after the promotion) and which the selection
    is not in, is collapsed to [trigger ++ t] by one change and to [t] by
    the next: the user's text loses its trigger, and neither step records
    an undo step. *)
Theorem collapseBlocks_recollapses_trigger_text es h n d t b :
  header_of_level n = Some d ->
  NoDup (b_key <$> blockMap (currentContent es)) -> all_blocks_wf (currentContent es) ->
  getBlockForKey (currentContent es) h = Some b -> b_type b = def_type d ->
  b_text b = replicate n "#"%char ++ " "%char :: replicate n "#"%char ++ " "%char :: t ->
  anchorKey (selection es) <> h -> focusKey (selection es) <> h ->
  exists e1 e2 b1 b2, collapseBlocks es None false = Some e1 /\ collapseBlocks e1 None false = Some e2 /\
    getBlockForKey (currentContent e1) h = Some b1 /\ b_text b1 = replicate n "#"%char ++ " "%char :: t /\
    getBlockForKey (currentContent e2) h = Some b2 /\ b_text b2 = t /\ b_type b2 = def_type d /\
    undoStack e2 = undoStack es.
Proof.
  intros Hd Hnd Hwf Hb Hty Ht Ha Hf.
  destruct (collapseBlocks_header es h n d _ b Hd Hnd Hwf Hb Hty Ht)
    as (e1 & b1 & He1 & Hb1 & Hty1 & Ht1 & _ & Hsel1 & Hu1); [by apply hasEdgeWithin_elsewhere|].
  destruct (collapseBlocks_header e1 h n d t b1 Hd) as (e2 & b2 & He2 & Hb2 & Hty2 & Ht2 & _ & _ & Hu2).
  - by rewrite (collapseBlocks_keys _ _ _ _ He1).
  - by apply (collapseBlocks_all_wf es).
  - done.
  - done.
  - done.
  - apply hasEdgeWithin_elsewhere; by rewrite Hsel1.
  - exists e1, e2, b1, b2. do 7 (split; [done|]). congruence.
Qed.

(** ["# # x"] as a header-one, the caret in the next block: ["# x"], then
    ["x"]. *)
Lemma collapseBlocks_recollapses_trigger_text_witness :
  let b := mkBlock "h" "header-one" ⟪"# # x"⟫ (decorator_char :: replicate 4 plain_char) in
  let es := editor_of [b; plain_block "u" "unstyled" ⟪"yz"⟫] (caret "u" 1) None in
  exists e1 e2 b1 b2, collapseBlocks es None false = Some e1 /\ collapseBlocks e1 None false = Some e2 /\
    getBlockForKey (currentContent e1) "h" = Some b1 /\ b_text b1 = ⟪"# x"⟫ /\
    getBlockForKey (currentContent e2) "h" = Some b2 /\ b_text b2 = ⟪"x"⟫ /\ b_type b2 = "header-one" /\
    undoStack e2 = undoStack es.
Proof.
  intros b es. apply (collapseBlocks_recollapses_trigger_text es "h" 1 header_one ⟪"x"⟫ b).
  - reflexivity.
  - apply (bool_decide_unpack _). vm_compute. reflexivity.
  - apply all_blocks_wf_of_Forall. repeat constructor.
  - reflexivity.
  - reflexivity.
  - reflexivity.
  - discriminate.
  - discriminate.
Defined.
