(* ===== verification/CollapseRuns.v ===== *)
(** * Repeated collapse: the block plugin reaches a stable state

    The block plugin runs the unforced collapse ([CollapseBlocks.collapseBlocks])
    on every change.  When nothing else changes, the runs form a sequence
    of editor states ([collapse_runs]).  The collapse strips a header's
    trigger whenever its text matches the pattern, without knowing whether
    the block was already collapsed, so one run may prepare the next (a
    recorded finding).  The sequence still stabilises: every run either
    returns its input or strictly shortens the total text of the
    document ([text_size]), because a pattern of an expandable block
    consumes at least one character.  After at most [text_size] runs the
    collapse returns its input, and in that state no block the caret is
    outside of still matches its pattern ([fully_collapsed]).  The
    argument is a decreasing measure, as for a fixed-point iteration. *)

From S2P Require Import Prelude Draft Regex DraftUtils DependentEdits Blocks ConvertBlockType.
From S2P Require Import CollapseBlocks.

Open Scope Z_scope.
Open Scope draft_scope.

(** The measure: the total length of the block texts. *)
Definition text_size (c : ContentState) : nat :=
  sum_list_with (fun k => default O ((fun b => length (b_text b)) <$> getBlockForKey c k))
    (b_key <$> blockMap c).

(** [n] runs of the unforced collapse, one per change that touches
    nothing else. *)
Fixpoint collapse_runs (n : nat) (es : EditorState) : option EditorState :=
  match n with
  | O => Some es
  | S n' => e ← collapseBlocks es None false; collapse_runs n' e
  end.

(** No block that a selection edge is outside of still matches the
    pattern of its expandable type. *)
Definition fully_collapsed (es : EditorState) : Prop :=
  forall k b d, getBlockForKey (currentContent es) k = Some b -> blocks (b_type b) = Some d ->
    def_expandable d = true -> hasEdgeWithin (selection es) k 0 (getLength b) = false ->
    str_match (b_text b) (def_pattern d) = None.

(** ** One run *)

(** Every expandable pattern of the registry consumes a character. *)
Lemma blocks_expandable_min ty d :
  blocks ty = Some d -> def_expandable d = true -> (1 <= min_len (re_atoms (def_pattern d)))%nat.
Proof.
  unfold blocks. intros Hd. apply find_some in Hd as [Hin _]. apply list_elem_of_In in Hin.
  assert (Hall : Forall (fun d => def_expandable d = true -> (1 <= min_len (re_atoms (def_pattern d)))%nat)
                   blockValues) by (repeat constructor; simpl; (lia || discriminate)).
  rewrite Forall_forall in Hall. by apply Hall.
Qed.

Lemma text_size_blockMap c c' : blockMap c = blockMap c' -> text_size c = text_size c'.
Proof. unfold text_size, getBlockForKey. by intros ->. Qed.

Lemma all_blocks_wf_blockMap c c' : blockMap c = blockMap c' -> all_blocks_wf c -> all_blocks_wf c'.
Proof. intros Hm Hwf k b Hb. apply (Hwf k). by rewrite (getBlockForKey_blockMap c c'). Qed.

Lemma key_in_keys c k b : getBlockForKey c k = Some b -> k ∈ b_key <$> blockMap c.
Proof.
  intros Hb. apply list_elem_of_fmap. exists b. split; [symmetry; by apply (getBlockForKey_key c)|].
  unfold getBlockForKey in Hb. apply find_some in Hb as [Hin _]. by apply list_elem_of_In.
Qed.

(** Stripping a non-empty prefix from a block shortens the document. *)
Lemma strip_prefix_shrinks c k b (e : nat) c' :
  getBlockForKey c k = Some b -> block_wf b -> (1 <= e <= length (b_text b))%nat ->
  Modifier_replaceText c (createSelectionWithRange k 0 (Z.of_nat e)) [] [] None = Some c' ->
  (text_size c' < text_size c)%nat.
Proof.
  intros Hb Hwf He Hr. unfold createSelectionWithRange in Hr.
  destruct (Modifier_replaceText_in_block c k 0 e b [] [] None Hb Hwf)
    as (c2 & b2 & Hr2 & Hb2 & _ & _ & Ht2 & _); [lia|].
  change (Z.of_nat 0) with 0 in Hr2. rewrite Hr in Hr2. injection Hr2 as <-.
  unfold text_size. rewrite (Modifier_replaceText_keys _ _ _ _ _ _ _ _ Hr).
  apply (sum_list_with_lt _ _ _ k).
  - intros x _. destruct (decide (x = k)) as [->|Hne].
    + rewrite Hb, Hb2. simpl. rewrite Ht2. simpl. rewrite length_drop. lia.
    + by rewrite (Modifier_replaceText_frame c k 0 (Z.of_nat e) [] [] None c' x) by done.
  - by apply (key_in_keys c k b).
  - rewrite Hb, Hb2. simpl. rewrite Ht2. simpl. rewrite length_drop. lia.
Qed.

(** The step at an expandable block it may collapse and whose text
    matches shortens the document. *)
Lemma collapse_step_strips sel force c k b d m c' :
  all_blocks_wf c -> getBlockForKey c k = Some b -> blocks (b_type b) = Some d -> def_expandable d = true ->
  (force || negb (hasEdgeWithin sel k 0 (getLength b))) = true ->
  str_match (b_text b) (def_pattern d) = Some m ->
  collapse_step sel force (Some c) k = Some c' -> (text_size c' < text_size c)%nat.
Proof.
  intros Hwf Hb Hd Hexp Hg Hm. unfold collapse_step. cbn [mbind option_bind]. rewrite Hb.
  cbn [mbind option_bind]. rewrite Hd, Hexp, Hg, Hm. cbn [andb]. intros Hr.
  apply (strip_prefix_shrinks c k b (length (ex_match m))); [done|by apply (Hwf k)| |done].
  split; [|by apply (exec_match_length (def_pattern d))].
  pose proof (exec_match_min _ _ _ Hm). pose proof (blocks_expandable_min _ _ Hd Hexp). lia.
Qed.

(** A run of the step at one key: the content is kept, or the matched
    prefix of the block is stripped and the document is shorter. *)
Lemma collapse_step_progress sel force c key c' :
  all_blocks_wf c -> collapse_step sel force (Some c) key = Some c' ->
  all_blocks_wf c' /\ (c' = c \/ (text_size c' < text_size c)%nat).
Proof.
  intros Hwf H. destruct (getBlockForKey c key) as [b|] eqn:Hb;
    [|unfold collapse_step in H; cbn in H; rewrite Hb in H; done].
  destruct (collapse_step_total sel force c key Hwf) as (c2 & Hc2 & Hwf2 & _); [by rewrite Hb|].
  rewrite Hc2 in H. injection H as <-. split; [done|]. pose proof Hc2 as Hs.
  unfold collapse_step in Hc2. cbn [mbind option_bind] in Hc2. rewrite Hb in Hc2. cbn [mbind option_bind] in Hc2.
  destruct (blocks (b_type b)) as [d|] eqn:Hd; [|left; congruence].
  destruct (def_expandable d) eqn:Hexp; cbn [andb] in Hc2; [|left; congruence].
  destruct (_ || _) eqn:Hg; [|left; congruence].
  destruct (str_match (b_text b) (def_pattern d)) as [m|] eqn:Hm; [|left; congruence].
  right. by apply (collapse_step_strips sel force c key b d m).
Qed.

Lemma foldl_collapse_progress sel force keys c r :
  all_blocks_wf c -> foldl (collapse_step sel force) (Some c) keys = Some r ->
  all_blocks_wf r /\ (r = c \/ (text_size r < text_size c)%nat).
Proof.
  intros Hwf. apply (foldl_opt_invariant (fun a => all_blocks_wf a /\ (a = c \/ (text_size a < text_size c)%nat)));
    [done| |auto].
  intros a key r' [Hwfa Ha] Hs. destruct (collapse_step_progress _ _ _ _ _ Hwfa Hs) as [Hwf' [->|Hlt]].
  - done.
  - split; [done|]. right. destruct Ha as [->|Ha]; lia.
Qed.

(** A run of [collapseBlocks] on a well-formed document returns, and
    either returns its input or a shorter document. *)
Lemma collapseBlocks_progress es :
  all_blocks_wf (currentContent es) ->
  exists es', collapseBlocks es None false = Some es' /\ all_blocks_wf (currentContent es') /\
    (es' = es \/ (text_size (currentContent es') < text_size (currentContent es))%nat).
Proof.
  intros Hwf. unfold collapseBlocks. cbn [default].
  destruct (foldl_collapse_total (selection es) false (b_key <$> blockMap (currentContent es))
              (currentContent es) Hwf) as (nc & Hf & _).
  { intros key Hk. by apply getBlockForKey_of_key. }
  rewrite Hf. cbn [mbind option_bind].
  destruct (foldl_collapse_progress _ _ _ _ _ Hwf Hf) as [Hwfn Hn].
  case_decide as Hne.
  - destruct (performUnUndoableEdits_push es nc remove_range) as (_ & _ & Hm).
    eexists. split; [reflexivity|].
    split; [apply (all_blocks_wf_blockMap nc); [exact (eq_sym Hm)|done]|].
    right. change (currentContent (EditorState_forceSelection ?x _)) with (currentContent x). rewrite (text_size_blockMap _ nc Hm). destruct Hn as [->|Hn]; [done|lia].
  - eexists. split; [reflexivity|]. auto.
Qed.

(** The document is shorter after a run that changed it, never longer. *)
Lemma progress_le (c c' : ContentState) : c' = c \/ (text_size c' < text_size c)%nat -> (text_size c' <= text_size c)%nat.
Proof. intros [->|H]; lia. Qed.

(** A state the collapse returns unchanged is fully collapsed: had a block
    the caret is outside of still matched, the run would have shortened
    the document. *)
Lemma collapseBlocks_fixpoint_collapsed es :
  all_blocks_wf (currentContent es) -> collapseBlocks es None false = Some es -> fully_collapsed es.
Proof.
  intros Hwf Hfix k b d Hb Hd Hexp Hedge.
  destruct (str_match (b_text b) (def_pattern d)) as [m|] eqn:Hm; [exfalso|done].
  set (c := currentContent es) in *.
  unfold collapseBlocks in Hfix. cbn [default] in Hfix. fold c in Hfix.
  destruct (foldl (collapse_step (selection es) false) (Some c) (b_key <$> blockMap c)) as [nc|] eqn:Hf;
    [|done].
  cbn [mbind option_bind] in Hfix.
  destruct (foldl_collapse_progress _ _ _ _ _ Hwf Hf) as [_ Hn].
  assert (Hnc : nc = c).
  { case_decide as Hne; [|done]. destruct Hn as [->|Hlt]; [done|].
    destruct (performUnUndoableEdits_push es nc remove_range) as (_ & _ & Hbm).
    injection Hfix as Hfix.
    assert (text_size c = text_size nc); [|lia].
    unfold c. rewrite <- Hfix. change (currentContent (EditorState_forceSelection ?x _)) with (currentContent x).
    by apply text_size_blockMap. }
  subst nc. destruct (list_elem_of_split_l _ _ (key_in_keys c k b Hb)) as (pre & post & Hsplit & _).
  rewrite Hsplit, foldl_app in Hf. cbn [foldl] in Hf.
  destruct (foldl (collapse_step (selection es) false) (Some c) pre) as [c1|] eqn:Hpre;
    [|by rewrite foldl_collapse_None in Hf].
  destruct (foldl_collapse_progress _ _ _ _ _ Hwf Hpre) as [Hwf1 H1].
  destruct (collapse_step (selection es) false (Some c1) k) as [c2|] eqn:Hk;
    [|by rewrite foldl_collapse_None in Hf].
  destruct (collapse_step_progress _ _ _ _ _ Hwf1 Hk) as [Hwf2 H2].
  destruct (foldl_collapse_progress _ _ _ _ _ Hwf2 Hf) as [_ H3].
  apply progress_le in H2, H3.
  destruct H1 as [->|H1]; [|lia].
  pose proof (collapse_step_strips (selection es) false c k b d m c2 Hwf Hb Hd Hexp) as Hs.
  rewrite Hedge in Hs. specialize (Hs eq_refl Hm Hk). lia.
Qed.

(** ** The runs stabilise *)

(** C17 (liveness, spec §4.4 Collapse and §5).  From any editor state whose
    blocks are well formed, re-running the unforced collapse (once per
    change that touches nothing else) reaches, after at most as many runs
    as the document has characters, a state that the collapse returns
    unchanged; in that state no block the selection is outside of still
    matches the pattern of its expandable type.  Every run returns. *)
Theorem collapseBlocks_stabilises es :
  all_blocks_wf (currentContent es) ->
  exists n e, (n <= text_size (currentContent es))%nat /\ collapse_runs n es = Some e /\
    collapseBlocks e None false = Some e /\ fully_collapsed e.
Proof.
  remember (text_size (currentContent es)) as m eqn:Hm. revert es Hm.
  induction m as [m IH] using lt_wf_ind. intros es -> Hwf.
  destruct (collapseBlocks_progress es Hwf) as (e1 & He1 & Hwf1 & [-> | Hlt]).
  - exists O, es. split; [lia|]. split; [done|]. split; [done|].
    by apply collapseBlocks_fixpoint_collapsed.
  - destruct (IH _ Hlt e1 eq_refl Hwf1) as (n & e & Hn & Hr & Hfix & Hc).
    exists (S n), e. split; [lia|]. cbn [collapse_runs]. by rewrite He1.
Qed.

(** The header ["# # x"] of [CollapseBlocks.collapseBlocks_recollapses_trigger_text]
    with the caret in the other block. *)
Lemma collapseBlocks_stabilises_witness :
  let es := editor_of [mkBlock "h" "header-one" ⟪"# # x"⟫ (decorator_char :: replicate 4 plain_char);
                       plain_block "u" "unstyled" ⟪"yz"⟫] (caret "u" 1) None in
  all_blocks_wf (currentContent es) /\
  exists n e, (n <= text_size (currentContent es))%nat /\ collapse_runs n es = Some e /\
    collapseBlocks e None false = Some e /\ fully_collapsed e.
Proof.
  intros es.
  assert (Hwf : all_blocks_wf (currentContent es)).
  { intros k b Hb. unfold getBlockForKey in Hb. simpl in Hb.
    repeat case_bool_decide; simplify_eq; reflexivity. }
  split; [exact Hwf|]. exact (collapseBlocks_stabilises es Hwf).
Defined.
