(* ===== verification/InlineEntities.v ===== *)
(** * The inline entity reconciler: [src/app/components/Editor.tsx]

    [processChange editorState insertedCharacter] (spec §4.3) strips every
    entity whose type starts with ["core.styling"] from the caret's block,
    splices the pending character into the content, and rescans the block
    text with every registered styling pattern, creating a fresh MUTABLE
    entity and applying it to each match.  The patterns are global regular
    expressions shared by every call: their [lastIndex] is state that
    [processChange] receives and returns ([pats]).  The rescan loop of one
    pattern is [scan_entities], run with [length text + 1] units of fuel:
    every successful [exec] moves [lastIndex] forward by at least one
    character and never past the end of the text, so the loop makes at most
    [length text + 1] calls (lemma [scan_entities_total]).

    [plugin_handleBeforeInput] and [plugin_onChange] are the two handlers
    of the plugin object.

    Theorems: on a well-formed state [processChange] always returns, with
    the pending text spliced in at the caret and every pattern's
    [lastIndex] reset to [0]; the caret is restored on a deletion trigger;
    the entity span of ["say `hello` now"] includes the backticks (a
    finding); reconciling twice is the identity only up to entity keys (a
    finding); typing over a selected range throws, since [Modifier.insertText]
    requires a collapsed selection (a finding).  The general account of
    the annotated spans is in [InlineSpans.v]. *)

From S2P Require Import Prelude Draft Regex DraftUtils.

Open Scope Z_scope.
Open Scope draft_scope.

(** One entry of [stylingEntities]. *)
Record StylingEntity := mkStyling {
  st_name : string;
  st_rawPattern : RegExp;
  st_entityType : string;
  st_mutability : Mutability;
}.

(** [/`([^`]+)`/g] *)
Definition inlineCode_pattern : RegExp :=
  mkRegExp false [ALit "`"; AOpen; APlusNot ["`"%char]; AClose; ALit "`"] true 0.

Definition stylingEntities : list StylingEntity :=
  [mkStyling "inlineCode" inlineCode_pattern "core.styling.inlineCode" MUTABLE].

(** [entity.getType().startsWith('core.styling')]. *)
Definition is_styling_entity (e : DraftEntity) : bool :=
  String.prefix "core.styling" (ent_type e).

(** The [do { ... } while (matchArr)] loop for one pattern. *)
Fixpoint scan_entities (fuel : nat) (re : RegExp) (text : list ascii) (ty : string) (mu : Mutability)
    (sel : SelectionState) (c : ContentState) : option (ContentState * RegExp) :=
  match fuel with
  | O => None
  | S n =>
      let '(r, re') := exec re text in
      match r with
      | None => Some (c, re')
      | Some m =>
          let c1 := createEntity c ty mu in
          let k := getLastCreatedEntityKey c1 in
          let i := Z.of_nat (ex_index m) in
          c2 ← Modifier_applyEntity c1 (sel_with_offsets sel i (i + Z.of_nat (length (ex_match m)))) (Some k);
          scan_entities n re' text ty mu sel c2
      end
  end.

(** [stylingEntities.forEach(...)], threading the patterns' states. *)
Fixpoint scan_all (defs : list StylingEntity) (pats : list RegExp) (text : list ascii)
    (sel : SelectionState) (c : ContentState) : option (ContentState * list RegExp) :=
  match defs, pats with
  | d :: ds, re :: res =>
      '(c1, re') ← scan_entities (S (length text)) re text (st_entityType d) (st_mutability d) sel c;
      '(c2, res') ← scan_all ds res text sel c1;
      Some (c2, re' :: res')
  | _, _ => Some (c, pats)
  end.

(** [processChange(editorState, insertedCharacter)] with the patterns'
    states; [insertedCharacter] is a string, falsy when empty. *)
Definition processChange (pats : list RegExp) (es : EditorState) (inserted : list ascii)
  : option (EditorState * list RegExp) :=
  let sel := selection es in
  let key := getStartKey sel in
  c0 ← stripEntitiesFromBlock (currentContent es) key is_styling_entity;
  c1 ← (if bool_decide (inserted <> []) then Modifier_insertText c0 sel inserted [] None else Some c0);
  blk ← getBlockForKey c1 key;
  '(c2, pats') ← scan_all stylingEntities pats (b_text blk) sel c1;
  let nes := EditorState_push es c2 apply_entity in
  if decide (nes <> es) then
    if bool_decide (inserted <> []) then
      let p := anchorOffset sel + 1 in
      Some (EditorState_forceSelection nes (sel_with_offsets sel p p), pats')
    else Some (EditorState_forceSelection nes sel, pats')
  else Some (nes, pats').

Inductive HandleResult := handled | not_handled.

(** [plugin.handleBeforeInput(character, editorState, { setEditorState })]:
    the answer and the state the host is given. *)
Definition plugin_handleBeforeInput (pats : list RegExp) (ch : list ascii) (es : EditorState)
  : option (HandleResult * EditorState * list RegExp) :=
  '(nes, pats') ← processChange pats es ch;
  if decide (es <> nes) then Some (handled, nes, pats') else Some (not_handled, es, pats').

(** [plugin.onChange(editorState)]. *)
Definition plugin_onChange (pats : list RegExp) (es : EditorState) : option (EditorState * list RegExp) :=
  if bool_decide (lastChangeType es = Some backspace_character) then processChange pats es []
  else Some (es, pats).

(** The patterns' states at start-up. *)
Definition initial_patterns : list RegExp := st_rawPattern <$> stylingEntities.

(** ** Concrete states *)

Definition ex_state (t : list ascii) (o : Z) (ct : option ChangeType) : EditorState :=
  mkEditor (mkContent [mkBlock "a" "unstyled" t (replicate (length t) EMPTY_CHAR)] []
              (mkSel "a" o "a" o false) (mkSel "a" o "a" o false))
    (mkSel "a" o "a" o false) ct true [] [] false.

Definition entities_of (r : option (EditorState * list RegExp))
  : option (list (option nat) * list DraftEntity) :=
  '(es, _) ← r;
  b ← getBlockForKey (currentContent es) "a";
  Some (cm_entity <$> b_chars b, entityMap (currentContent es)).

Definition inline_code_entity : DraftEntity := mkEntity "core.styling.inlineCode" MUTABLE [].

(** The patterns the rescan loop can run: global, and unable to match the
    empty string. *)
Definition regex_ready (re : RegExp) : Prop :=
  re_global re = true /\ (1 <= min_len (re_atoms re))%nat.

(** ** Lemmas *)

Lemma scan_entities_total fuel re text ty mu sel c :
  regex_ready re -> anchorKey sel = focusKey sel -> block_text_at c (anchorKey sel) text ->
  (length text - re_lastIndex re < fuel)%nat ->
  exists c', scan_entities fuel re text ty mu sel c = Some (c', set_lastIndex re O) /\
    block_text_at c' (anchorKey sel) text /\
    forall k', k' <> anchorKey sel -> getBlockForKey c' k' = getBlockForKey c k'.
Proof.
  intros [Hg Hmin] Hkeys. revert re c Hg Hmin.
  induction fuel as [|n IH]; intros re c Hg Hmin Hat Hfuel; [lia|]. simpl.
  destruct (exec re text) as [[m|] re'] eqn:He.
  - destruct (exec_global_Some re text m re' Hg He) as (Hre & Hend & Hb).
    set (k := anchorKey sel) in *.
    match goal with |- context [Modifier_applyEntity _ _ ?ek] =>
      destruct (modify_chars_text_at (createEntity c ty mu) k (Z.of_nat (ex_index m))
                  (Z.of_nat (ex_index m) + Z.of_nat (length (ex_match m))) (isBackward sel)
                  (setEntity ek) text)
        as (c2 & Hc2 & Hat2 & Hfr2 & _); [by apply (block_text_at_blockMap c)|lia|lia|]
    end.
    unfold Modifier_applyEntity, sel_with_offsets. rewrite <- Hkeys. fold k.
    rewrite Hc2. cbn [mbind option_bind].
    destruct (IH re' c2) as (c' & Hs & Hat' & Hfr'); [by rewrite Hre|by rewrite Hre|done|lia|].
    exists c'. rewrite Hs, Hre. split; [done|]. split; [done|].
    intros k' Hne. rewrite Hfr', Hfr2 by done. by apply getBlockForKey_blockMap.
  - pose proof (exec_global_None re text Hg) as Hn. rewrite He in Hn. simpl in Hn. rewrite (Hn eq_refl).
    exists c. done.
Qed.

Lemma scan_all_total defs pats text sel c :
  Forall regex_ready pats -> length pats = length defs -> anchorKey sel = focusKey sel ->
  block_text_at c (anchorKey sel) text ->
  exists c', scan_all defs pats text sel c = Some (c', (fun re => set_lastIndex re O) <$> pats) /\
    block_text_at c' (anchorKey sel) text.
Proof.
  intros Hready Hlen Hkeys. revert pats c Hready Hlen.
  induction defs as [|d ds IH]; intros [|re res] c Hready Hlen Hat; simpl in Hlen; try lia.
  - by exists c.
  - cbn [scan_all]. apply Forall_cons in Hready as [Hre Hres].
    destruct (scan_entities_total (S (length text)) re text (st_entityType d) (st_mutability d) sel c)
      as (c1 & Hs & Hat1 & _); [done|done|done|lia|].
    rewrite Hs. cbn [mbind option_bind].
    destruct (IH res c1) as (c2 & Hs2 & Hat2); [done|lia|done|].
    rewrite Hs2. cbn [mbind option_bind]. by exists c2.
Qed.

(** ** Properties *)

(** An instance of [InlineSpans.processChange_code_spans]: reconciling
    the block ["say `hello` now"] creates exactly one entity, of type
    [core.styling.inlineCode], and annotates the characters [[4, 11)]:
    the annotated run is [match.index] to
    [match.index + match[0].length], backticks included, where the spec
    says [[5, 10)] without the delimiters. *)
Example processChange_inline_code_span :
  entities_of (processChange initial_patterns (ex_state ⟪"say `hello` now"⟫ 15 (Some backspace_character)) [])
  = Some (replicate 4 None ++ replicate 7 (Some 0%nat) ++ replicate 4 None, [inline_code_entity]).
Proof. vm_compute. reflexivity. Qed.

(** (functional, finding; spec §4.3 idempotence).  Re-running the
    reconciler on its own output does not give back its input: the strip
    removes the entity and the rescan allocates a fresh key, so the
    annotated run now points at entity [1] and the entity map has grown;
    the two results agree once keys are renamed. *)
Example processChange_rerun_renames_entity :
  let r1 := processChange initial_patterns (ex_state ⟪"say `hello` now"⟫ 15 (Some backspace_character)) [] in
  let r2 := '(es, p) ← r1; processChange p es [] in
  entities_of r2 = Some (replicate 4 None ++ replicate 7 (Some 1%nat) ++ replicate 4 None,
                         [inline_code_entity; inline_code_entity]) /\
  entities_of r1 <> entities_of r2.
Proof. vm_compute. split; [reflexivity|congruence]. Qed.

(** C13 (safety, spec §4.3 step 4).  On a deletion trigger (no pending
    character) reconciliation never moves the caret: whenever it returns,
    the selection is the one it was given. *)
Theorem processChange_deletion_keeps_selection pats es es' pats' :
  processChange pats es [] = Some (es', pats') -> selection es' = selection es.
Proof.
  unfold processChange. rewrite (bool_decide_false (([] : list ascii) <> [])) by tauto.
  destruct (stripEntitiesFromBlock _ _ _) as [c0|]; cbn [mbind option_bind]; [|done].
  destruct (getBlockForKey c0 _) as [blk|]; cbn [mbind option_bind]; [|done].
  destruct (scan_all stylingEntities pats (b_text blk) (selection es) c0) as [[c2 ps]|];
    cbn [mbind option_bind]; [|done].
  case_decide as Hne; intros H; injection H as <- <-; [done|].
  by rewrite Hne.
Qed.

Lemma processChange_deletion_keeps_selection_witness :
  exists es' pats',
    processChange initial_patterns (ex_state ⟪"say `hello` now"⟫ 15 (Some backspace_character)) []
      = Some (es', pats') /\
    selection es' = selection (ex_state ⟪"say `hello` now"⟫ 15 (Some backspace_character)).
Proof.
  destruct (processChange initial_patterns _ []) as [[es' pats']|] eqn:E;
    [|vm_compute in E; discriminate].
  exists es', pats'. split; [reflexivity|].
  exact (processChange_deletion_keeps_selection _ _ _ _ E).
Defined.

(** C11 (termination; spec §4.3).  Reconciliation always produces a
    result on a well-formed state: when the caret is collapsed inside an
    existing, well-formed block whose entity keys are all registered, and
    the patterns are global and cannot match the empty string,
    [processChange] returns (the [do ... while] loop of every pattern stops
    within [length text + 1] iterations), the caret's block holds its text
    with the pending character spliced in at the caret, and every pattern's
    [lastIndex] is back at [0] for the next call. *)
Theorem processChange_total pats es inserted k (off : nat) bk b :
  Forall regex_ready pats -> length pats = length stylingEntities ->
  selection es = mkSel k (Z.of_nat off) k (Z.of_nat off) bk ->
  getBlockForKey (currentContent es) k = Some b -> block_wf b ->
  entity_refs_valid (currentContent es) b = true -> (off <= length (b_text b))%nat ->
  exists es', processChange pats es inserted = Some (es', (fun re => set_lastIndex re O) <$> pats) /\
    block_text_at (currentContent es') k (take off (b_text b) ++ inserted ++ drop off (b_text b)).
Proof.
  intros Hready Hlen Hsel Hb Hwf Hv Hoff. unfold processChange. rewrite Hsel.
  replace (getStartKey (mkSel k (Z.of_nat off) k (Z.of_nat off) bk)) with k by (by destruct bk).
  destruct (stripEntitiesFromBlock_total (currentContent es) k is_styling_entity b Hb Hwf Hv)
    as (c0 & -> & (b0 & Hb0 & Ht0 & Hwf0) & _ & _).
  cbn [mbind option_bind].
  assert (Hc1 : exists c1, (if bool_decide (inserted <> []) then
      Modifier_insertText c0 (mkSel k (Z.of_nat off) k (Z.of_nat off) bk) inserted [] None
      else Some c0) = Some c1 /\
      block_text_at c1 k (take off (b_text b) ++ inserted ++ drop off (b_text b))).
  { case_bool_decide as Hne.
    - destruct (Modifier_insertText_caret c0 k off bk b0 inserted [] None Hb0 Hwf0)
        as (c1 & H1 & H2 & _); [by rewrite Ht0|].
      exists c1. by rewrite <- Ht0.
    - destruct inserted; [|done]. exists c0. split; [done|]. exists b0.
      by rewrite app_nil_l, take_drop. }
  destruct Hc1 as (c1 & -> & (b1 & Hb1 & Ht1 & Hwf1)). cbn [mbind option_bind]. rewrite Hb1.
  cbn [mbind option_bind].
  destruct (scan_all_total stylingEntities pats (b_text b1) (mkSel k (Z.of_nat off) k (Z.of_nat off) bk) c1)
    as (c2 & -> & Hat2); [done|done|done|by exists b1|].
  cbn [mbind option_bind]. rewrite <- Ht1.
  assert (Hat : block_text_at (currentContent (EditorState_push es c2 apply_entity)) k (b_text b1)).
  { apply (block_text_at_blockMap c2); [by rewrite EditorState_push_blockMap|done]. }
  case_decide; [case_bool_decide|]; eexists; (split; [reflexivity|done]).
Qed.

Lemma processChange_total_witness :
  exists es', processChange initial_patterns (ex_state ⟪"say `hello` now"⟫ 4 None) ⟪"x"⟫ =
      Some (es', (fun re => set_lastIndex re O) <$> initial_patterns) /\
    block_text_at (currentContent es') "a"
      (take 4 ⟪"say `hello` now"⟫ ++ ⟪"x"⟫ ++ drop 4 ⟪"say `hello` now"⟫).
Proof.
  apply (processChange_total _ _ _ "a" 4 false
           (mkBlock "a" "unstyled" ⟪"say `hello` now"⟫ (replicate 15 EMPTY_CHAR))).
  - constructor; [split; [reflexivity|simpl; lia]|constructor].
  - reflexivity.
  - reflexivity.
  - reflexivity.
  - reflexivity.
  - reflexivity.
  - simpl. lia.
Defined.

(** C32 (error, finding; spec §7).  [handleBeforeInput] runs for every
    typed character, also while a range is selected; [processChange] then
    calls [Modifier.insertText] on the expanded selection, whose invariant
    requires a collapsed one: on every editor state whose selection is not
    collapsed, typing any non-empty text throws, whatever the document,
    instead of replacing the selection as the host would. *)
Theorem plugin_handleBeforeInput_expanded_throws pats es ch :
  isCollapsed (selection es) = false -> ch <> [] ->
  plugin_handleBeforeInput pats ch es = None.
Proof.
  intros Hsel Hch. unfold plugin_handleBeforeInput, processChange.
  destruct (stripEntitiesFromBlock _ _ _) as [c0|]; [|done]. cbn [mbind option_bind].
  rewrite bool_decide_true by done. unfold Modifier_insertText. by rewrite Hsel.
Qed.

(** Typing ["x"] over the selected ["ay"] of ["say `hello` now"]. *)
Lemma plugin_handleBeforeInput_expanded_throws_witness :
  let es := mkEditor (currentContent (ex_state ⟪"say `hello` now"⟫ 1 None))
              (mkSel "a" 1 "a" 3 false) None true [] [] false in
  isCollapsed (selection es) = false /\ plugin_handleBeforeInput initial_patterns ⟪"x"⟫ es = None.
Proof. intros es. split; [reflexivity|]. apply plugin_handleBeforeInput_expanded_throws; [reflexivity|discriminate]. Defined.
