(* ===== verification/Link.v ===== *)
(** * The link entity component: [coreEntityPlugin/components/link.tsx]

    [Link] is the decorator component of link entities: it reads the
    entity under its [entityKey] from the content ([getEntity], which
    throws on a key the entity map does not hold) and renders an anchor
    whose [href] is the entity data's [href] field, with the component's
    [onMouseDown] handler and [openExternalOnCmdModifier] as [onClick],
    around the decorated children.  The anchor is a record of the props
    the component sets; the platform flag [isMacOS] of [utils/platform] is
    a section variable, and [openExternalOnCmdModifier] (a module outside
    the repository) is named, not modelled.

    [onMouseDown] is a decision on the platform and the event's modifier
    keys: it cancels the default action (the caret placement) exactly when
    the platform's command modifier is held, so that the click opens the
    link instead. *)

From S2P Require Import Prelude Draft.

(** A mouse event, as far as [onMouseDown] reads it. *)
Record MouseEvent := mkMouseEvent {
  metaKey : bool;
  ctrlKey : bool;
}.

(** [onMouseDown]: whether [event.preventDefault()] is called. *)
Definition link_onMouseDown (isMacOS metaKey ctrlKey : bool) : bool :=
  isMacOS && metaKey || negb isMacOS && ctrlKey.

(** The click handlers an anchor can carry. *)
Inductive ClickHandler := openExternalOnCmdModifier.

(** The props of the rendered [<a>] element. *)
Record Anchor (Child : Type) := mkAnchor {
  a_href : option string;
  a_onMouseDown : MouseEvent -> bool;
  a_onClick : ClickHandler;
  a_children : list Child;
}.
Arguments mkAnchor {Child}.
Arguments a_href {Child}.
Arguments a_onMouseDown {Child}.
Arguments a_onClick {Child}.
Arguments a_children {Child}.

(** A property read [data.key] on the entity's data object; [None] is
    [undefined]. *)
Definition data_get (key : string) (data : list (string * string)) : option string :=
  (fun '(_, kv) => kv.2) <$> list_find (fun kv => kv.1 = key) data.

Section Platform.
Variable isMacOS : bool.

(** [Link({ children, contentState, entityKey })]; [None] is the throw of
    [getEntity] on an unknown key. *)
Definition Link {Child} (contentState : ContentState) (entityKey : nat) (children : list Child)
  : option (Anchor Child) :=
  e ← getEntity contentState entityKey;
  Some (mkAnchor (data_get "href" (ent_data e))
                 (fun ev => link_onMouseDown isMacOS (metaKey ev) (ctrlKey ev))
                 openExternalOnCmdModifier children).

End Platform.

(** ** Lemmas *)

Lemma link_onMouseDown_platform m meta ctrl :
  link_onMouseDown m meta ctrl = if m then meta else ctrl.
Proof. by destruct m, meta, ctrl. Qed.

Lemma data_get_cons_ne key k v d : k <> key -> data_get key ((k, v) :: d) = data_get key d.
Proof.
  intros Hk. unfold data_get. simpl. rewrite decide_False by done.
  destruct (list_find _ d) as [[i kv]|]; done.
Qed.

(** [data.key] is the value of the first field named [key]. *)
Lemma data_get_Some key d v :
  data_get key d = Some v <->
  exists pre post, d = pre ++ (key, v) :: post /\ Forall (fun kv => kv.1 <> key) pre.
Proof.
  induction d as [|[k' v'] d IH].
  - split; [done|]. intros (pre & post & Hd & _). by destruct pre.
  - destruct (decide (k' = key)) as [<-|Hk].
    + unfold data_get. simpl. rewrite decide_True by done. simpl.
      split; [intros [= ->]; by exists [], d|].
      intros ([|[k1 v1] pre] & post & Hd & Hpre); simpl in Hd; simplify_eq; [done|].
      by inversion Hpre.
    + rewrite data_get_cons_ne, IH by done. split.
      * intros (pre & post & -> & Hpre). exists ((k', v') :: pre), post. by split; [|constructor].
      * intros ([|[k1 v1] pre] & post & Hd & Hpre); simpl in Hd; simplify_eq.
        inversion Hpre. by exists pre, post.
Qed.

(** ** Properties *)

(** C33 (functional, error paths included).  [Link] on a key the entity
    map holds renders an anchor around exactly the children it is given,
    whose [href] is the value of the first [href] field of the entity's
    data ([undefined] when it has none), whose click handler is
    [openExternalOnCmdModifier], and whose mouse-down handler cancels the
    default action exactly when the platform's command modifier is held
    (meta on macOS, ctrl elsewhere); on a key the map does not hold,
    [getEntity] throws. *)
Theorem Link_renders {Child} isMacOS (c : ContentState) (k : nat) (children : list Child) :
  match entityMap c !! k with
  | Some e =>
      exists a, Link isMacOS c k children = Some a /\ a_children a = children /\
        a_onClick a = openExternalOnCmdModifier /\
        (forall v, a_href a = Some v <->
           exists pre post, ent_data e = pre ++ ("href", v) :: post /\ Forall (fun kv => kv.1 <> "href") pre) /\
        (forall ev, a_onMouseDown a ev = if isMacOS then metaKey ev else ctrlKey ev)
  | None => Link isMacOS c k children = None
  end.
Proof.
  unfold Link, getEntity. destruct (entityMap c !! k) as [e|]; [|done]. simpl.
  eexists. split; [reflexivity|]. do 2 (split; [done|]). split.
  - intros v. apply data_get_Some.
  - intros ev. apply link_onMouseDown_platform.
Qed.
