(* ===== verification/InlineSpans.v ===== *)
(** * Inline code spans: what the entity reconciler annotates

    The one styling entity of [Editor.tsx] is [inlineCode], with the
    pattern [/`([^`]+)`/g].  A text made of segments, each a run of plain
    characters followed by a backtick-delimited code run, and a plain tail
    ([spans_text]), is scanned by the reconciler's [do ... while] loop
    ([InlineEntities.scan_entities]) segment by segment: every [exec]
    finds the next code span, and the last one finds none and resets
    [lastIndex].  Each span, backticks included, gets an entity of its
    own, created in order ([span_entities]).  Here "plain" means "without
    a backtick": a lone backtick in the tail is not covered. *)

From S2P Require Import Prelude Draft Regex DraftUtils InlineEntities.

Definition tick : ascii := "`".

(** A run of plain characters followed by a code span. *)
Record Segment := mkSegment {
  seg_plain : list ascii;
  seg_code : list ascii;
}.

Definition seg_text (sg : Segment) : list ascii := seg_plain sg ++ tick :: seg_code sg ++ [tick].

Definition seg_ok (sg : Segment) : Prop :=
  tick ∉ seg_plain sg /\ tick ∉ seg_code sg /\ seg_code sg <> [].

Definition spans_text (segs : list Segment) (tail : list ascii) : list ascii :=
  mjoin (seg_text <$> segs) ++ tail.

(** The entity of each character of the segments, the [i]-th span
    carrying the key [k + i]. *)
Fixpoint span_entities (k : nat) (segs : list Segment) : list (option nat) :=
  match segs with
  | [] => []
  | sg :: segs' =>
      replicate (length (seg_plain sg)) None ++ replicate (length (seg_code sg) + 2) (Some k) ++
      span_entities (S k) segs'
  end.

(** ** The pattern on segments *)

Lemma match_inline_not_tick c s pos g :
  c <> tick -> match_here (re_atoms inlineCode_pattern) (c :: s) pos g = None.
Proof. intros Hc. simpl. by rewrite bool_decide_false. Qed.

Lemma match_inline_span code rest pos g :
  code <> [] -> tick ∉ code ->
  match_here (re_atoms inlineCode_pattern) (tick :: code ++ tick :: rest) pos g =
    Some (pos + length code + 2, (Some (S pos), Some (S pos + length code)))%nat.
Proof.
  intros Hne Hnt. cbn [re_atoms inlineCode_pattern match_here]. rewrite bool_decide_true by done.
  cbn [match_here fst snd].
  rewrite (run_not_app ["`"%char] code tick rest)
    by (unfold tick in *; try apply Forall_forall; set_solver).
  destruct code as [|x code']; [done|]. cbn [length try_lengths].
  simpl. rewrite drop_app_length. simpl.
  repeat f_equal; lia.
Qed.

Lemma search_inline_none s i : tick ∉ s -> search (re_atoms inlineCode_pattern) s i = None.
Proof.
  revert i. induction s as [|x s IH]; intros i Hs; [done|]. simpl.
  rewrite bool_decide_false by (intros ->; apply Hs; unfold tick; set_solver).
  apply IH. set_solver.
Qed.

Lemma search_inline_segment sg rest i :
  seg_ok sg ->
  search (re_atoms inlineCode_pattern) (seg_text sg ++ rest) i =
    Some ((i + length (seg_plain sg))%nat,
          (i + length (seg_plain sg) + length (seg_code sg) + 2)%nat,
          (Some (S (i + length (seg_plain sg))), Some (S (i + length (seg_plain sg)) + length (seg_code sg))%nat)).
Proof.
  destruct sg as [p cd]. unfold seg_text, seg_ok. cbn [seg_plain seg_code]. intros (Hp & Hc & Hne).
  rewrite <- app_assoc. cbn [app]. rewrite <- (app_assoc cd [tick] rest). cbn [app].
  rewrite search_skip.
  - apply search_here. by rewrite match_inline_span.
  - intros j Hj. destruct (lookup_lt_is_Some_2 p j) as [y Hy]; [done|].
    rewrite (drop_S p y j Hy). cbn [app]. apply match_inline_not_tick.
    intros ->. apply Hp. by eapply list_elem_of_lookup_2.
Qed.

Lemma length_seg_text sg :
  length (seg_text sg) = (length (seg_plain sg) + length (seg_code sg) + 2)%nat.
Proof. unfold seg_text. rewrite length_app. simpl. rewrite length_app. simpl. lia. Qed.

(** [exec] from [lastIndex = l] finds the code span of the segment that
    starts at [l], and moves [lastIndex] past it. *)
Lemma exec_inline_segment l text sg rest :
  seg_ok sg -> drop l text = seg_text sg ++ rest ->
  exists m, exec (set_lastIndex inlineCode_pattern l) text =
      (Some m, set_lastIndex inlineCode_pattern (l + length (seg_plain sg) + length (seg_code sg) + 2)) /\
    ex_index m = (l + length (seg_plain sg))%nat /\ length (ex_match m) = (length (seg_code sg) + 2)%nat.
Proof.
  intros Hok Hd. pose proof (f_equal length Hd) as HL.
  rewrite length_drop, length_app, length_seg_text in HL.
  unfold exec. cbn [set_lastIndex re_global re_lastIndex re_anchored re_atoms inlineCode_pattern].
  rewrite (proj2 (Nat.ltb_ge _ _)) by lia. rewrite Hd, search_inline_segment by done.
  eexists; split; [reflexivity|]. split; [done|]. simpl. rewrite length_take, length_drop. lia.
Qed.

(** On a tail without backtick, [exec] finds nothing and resets
    [lastIndex]. *)
Lemma exec_inline_tail l text tail :
  tick ∉ tail -> drop l text = tail ->
  exec (set_lastIndex inlineCode_pattern l) text = (None, set_lastIndex inlineCode_pattern O).
Proof.
  intros Ht Hd. unfold exec. cbn [set_lastIndex re_global re_lastIndex re_anchored re_atoms inlineCode_pattern].
  destruct (Nat.ltb_spec (length text) l); [done|]. rewrite Hd, search_inline_none by done. done.
Qed.

(** ** Applying an entity to a span of plain characters *)

Lemma entities_setEntity x (l : list CharacterMetadata) :
  cm_entity <$> (setEntity x <$> l) = replicate (length l) x.
Proof. induction l as [|c l IH]; [done|]. by rewrite !fmap_cons, IH. Qed.

Lemma entities_set_range (cs : list CharacterMetadata) E p q r x :
  cm_entity <$> cs = E ++ replicate p None ++ replicate q None ++ replicate r None ->
  cm_entity <$> update_range (setEntity x) cs (Z.of_nat (length E + p)) (Z.of_nat (length E + p + q)) =
    E ++ replicate p None ++ replicate q x ++ replicate r None.
Proof.
  intros H. pose proof (f_equal length H) as Hl.
  rewrite length_fmap, !length_app, !length_replicate in Hl.
  rewrite update_range_split by lia. rewrite !fmap_app, fmap_take, fmap_drop, H, entities_setEntity.
  rewrite length_take, length_drop.
  rewrite (app_assoc E (replicate p None)), take_app_length' by (rewrite length_app, length_replicate; lia).
  rewrite (app_assoc (E ++ replicate p None) (replicate q None)), drop_app_length'
    by (rewrite !length_app, !length_replicate; lia).
  rewrite <- !app_assoc. do 4 f_equal. lia.
Qed.

Lemma spans_text_cons sg segs tail :
  spans_text (sg :: segs) tail = seg_text sg ++ spans_text segs tail.
Proof. unfold spans_text. simpl. by rewrite app_assoc. Qed.

Lemma length_spans_text_cons sg segs tail :
  length (spans_text (sg :: segs) tail) =
    (length (seg_plain sg) + (length (seg_code sg) + 2) + length (spans_text segs tail))%nat.
Proof. rewrite spans_text_cons, length_app, length_seg_text. lia. Qed.

(** ** The reconciler's loop on a text made of segments *)

Section Scan.
Context (sel : SelectionState) (text : list ascii) (ty : string) (mu : Mutability).
Hypothesis Hkeys : anchorKey sel = focusKey sel.
Hypothesis Hfwd : isBackward sel = false.

(** From [lastIndex = l], where the rest of the text is made of [segs]
    and [tail], the loop gives the [i]-th span the [i]-th new entity and
    ends with [lastIndex = 0]; the characters before [l] keep their
    entities. *)
Lemma scan_spans segs tail : forall fuel l c b E,
  Forall seg_ok segs -> tick ∉ tail ->
  getBlockForKey c (anchorKey sel) = Some b -> block_wf b -> b_text b = text ->
  drop l text = spans_text segs tail ->
  cm_entity <$> b_chars b = E ++ replicate (length (spans_text segs tail)) None -> length E = l ->
  (length segs < fuel)%nat ->
  exists c' b', scan_entities fuel (set_lastIndex inlineCode_pattern l) text ty mu sel c =
      Some (c', set_lastIndex inlineCode_pattern O) /\
    getBlockForKey c' (anchorKey sel) = Some b' /\ b_text b' = text /\ block_wf b' /\
    cm_entity <$> b_chars b' = E ++ span_entities (length (entityMap c)) segs ++ replicate (length tail) None /\
    entityMap c' = entityMap c ++ replicate (length segs) (mkEntity ty mu []) /\
    (forall k', k' <> anchorKey sel -> getBlockForKey c' k' = getBlockForKey c k').
Proof.
  induction segs as [|sg segs IH]; intros fuel l c b E Hok Ht Hb Hwf Htext Hd HE HlE Hfuel;
    (destruct fuel as [|fuel]; [simpl in Hfuel; lia|]).
  - cbn [scan_entities]. rewrite (exec_inline_tail l text tail) by (done || by rewrite Hd).
    exists c, b. split; [done|]. split; [done|]. split; [done|]. split; [done|].
    split; [by rewrite HE|]. split; [by rewrite app_nil_r|done].
  - apply Forall_cons in Hok as [Hsg Hok].
    assert (Hd' : drop l text = seg_text sg ++ spans_text segs tail) by (by rewrite Hd, spans_text_cons).
    destruct (exec_inline_segment l text sg (spans_text segs tail) Hsg Hd') as (m & Hex & Hi & Hm).
    cbn [scan_entities]. rewrite Hex. cbn [fst snd].
    assert (Hlen : length text = (l + length (spans_text (sg :: segs) tail))%nat).
    { unfold block_wf in Hwf. rewrite <- Htext, <- Hwf, <- (length_fmap cm_entity), HE, length_app,
        length_replicate. lia. }
    rewrite length_spans_text_cons in Hlen, HE.
    rewrite (replicate_add (length (seg_plain sg) + (length (seg_code sg) + 2))),
      (replicate_add (length (seg_plain sg))), <- app_assoc in HE.
    set (k := getLastCreatedEntityKey (createEntity c ty mu)).
    assert (Hk : k = length (entityMap c)).
    { unfold k, getLastCreatedEntityKey. simpl. rewrite length_app. simpl. lia. }
    replace (sel_with_offsets sel _ _)
      with (mkSel (anchorKey sel) (Z.of_nat (length E + length (seg_plain sg))) (anchorKey sel)
              (Z.of_nat (length E + length (seg_plain sg) + (length (seg_code sg) + 2))) false)
      by (unfold sel_with_offsets; rewrite <- Hkeys, Hfwd, Hi, Hm, HlE; f_equal; lia).
    assert (Hb1 : getBlockForKey (createEntity c ty mu) (anchorKey sel) = Some b)
      by (rewrite <- Hb; by apply getBlockForKey_blockMap).
    destruct (modify_chars_single (createEntity c ty mu) (anchorKey sel)
                (Z.of_nat (length E + length (seg_plain sg)))
                (Z.of_nat (length E + length (seg_plain sg) + (length (seg_code sg) + 2))) false
                (setEntity (Some k)) b Hb1 Hwf)
      as (c2 & b2 & Hc2 & Hb2 & _ & _ & Ht2 & Hwf2 & Hch2 & Hfr2 & Hem2);
      [unfold getLength; rewrite Htext; lia..|].
    unfold Modifier_applyEntity. rewrite Hc2. cbn [mbind option_bind].
    cbn [getStartOffset getEndOffset isBackward anchorOffset focusOffset] in Hch2.
    destruct (IH fuel (l + length (seg_plain sg) + length (seg_code sg) + 2)%nat c2 b2
                (E ++ replicate (length (seg_plain sg)) None ++ replicate (length (seg_code sg) + 2) (Some k)))
      as (c' & b' & Hsc & Hb' & Ht' & Hwf' & He' & Hem' & Hfr').
    + done.
    + done.
    + done.
    + done.
    + by rewrite Ht2.
    + replace (l + length (seg_plain sg) + length (seg_code sg) + 2)%nat
        with (l + length (seg_text sg))%nat by (rewrite length_seg_text; lia).
      by rewrite <- drop_drop, Hd', drop_app_length.
    + rewrite Hch2, (entities_set_range _ E _ _ (length (spans_text segs tail))) by done.
      by rewrite !app_assoc.
    + rewrite !length_app, !length_replicate. lia.
    + simpl in Hfuel. lia.
    + exists c', b'. split; [done|]. split; [done|]. split; [done|]. split; [done|].
      split.
      * rewrite He', Hem2. simpl. rewrite length_app, Hk. simpl.
        replace (length (entityMap c) + 1)%nat with (S (length (entityMap c))) by lia.
        by rewrite <- !app_assoc.
      * split; [rewrite Hem', Hem2; simpl; by rewrite <- app_assoc|].
        intros k' Hne. rewrite Hfr', Hfr2 by done. by apply getBlockForKey_blockMap.
Qed.

End Scan.

(** ** [processChange] on a block without entities *)

Lemma find_ranges_go_none {A} (areEqual : A -> A -> bool) (filt : A -> bool) rest :
  Forall (fun x => filt x = false) rest ->
  forall value cursor idx, filt value = false -> find_ranges_go areEqual filt value rest cursor idx = [].
Proof.
  induction 1 as [|x rest Hx _ IH]; intros value cursor idx Hv; simpl; [by rewrite Hv|].
  rewrite Hv. destruct (areEqual value x); simpl; auto.
Qed.

Lemma entities_none_replicate (cs : list CharacterMetadata) :
  Forall (fun ch => cm_entity ch = None) cs -> cm_entity <$> cs = replicate (length cs) None.
Proof. induction 1 as [|ch cs Hch _ IH]; [done|]. by rewrite fmap_cons, Hch, IH. Qed.

(** Stripping the styling entities of a block that has no entity changes
    nothing. *)
Lemma stripEntitiesFromBlock_plain c k b filt :
  getBlockForKey c k = Some b -> Forall (fun ch => cm_entity ch = None) (b_chars b) ->
  stripEntitiesFromBlock c k filt = Some c.
Proof.
  intros Hb Hn. unfold stripEntitiesFromBlock. rewrite Hb. cbn [mbind option_bind].
  assert (Hv : entity_refs_valid c b = true).
  { unfold entity_refs_valid. apply forallb_forall. intros ch Hch.
    rewrite Forall_forall in Hn. rewrite Hn by by apply list_elem_of_In. done. }
  rewrite Hv. simpl. unfold findEntityRanges, findRangesImmutable.
  assert (Hf : Forall (fun ch => entity_filter c filt ch = false) (b_chars b)).
  { eapply Forall_impl; [exact Hn|]. intros ch Hch. unfold entity_filter. by rewrite Hch. }
  destruct (b_chars b) as [|ch cs]; [done|]. apply Forall_cons in Hf as [Hch Hcs].
  by rewrite find_ranges_go_none.
Qed.

Lemma EditorState_push_entityMap es c ct :
  entityMap (currentContent (EditorState_push es c ct)) = entityMap c.
Proof.
  unfold EditorState_push. case_decide as Hc; [by subst|].
  destruct (allowUndo es); simpl; [|done].
  repeat case_match; simplify_eq; done.
Qed.

Lemma length_segs_le segs tail : (length segs <= length (spans_text segs tail))%nat.
Proof. induction segs as [|sg segs IH]; simpl; [lia|]. rewrite length_spans_text_cons. lia. Qed.

(** The one-entity [stylingEntities.forEach] is one run of the loop. *)
Lemma scan_all_initial text sel c :
  scan_all stylingEntities initial_patterns text sel c =
    '(c1, re') ← scan_entities (S (length text)) (set_lastIndex inlineCode_pattern O) text
                   "core.styling.inlineCode" MUTABLE sel c;
    Some (c1, [re']).
Proof. reflexivity. Qed.

(** Inserting at a caret of a block without entities: the new characters
    have no entity either. *)
Lemma insert_plain c k (off : nat) b ins :
  getBlockForKey c k = Some b -> block_wf b -> Forall (fun ch => cm_entity ch = None) (b_chars b) ->
  (off <= length (b_text b))%nat ->
  exists c1 b1,
    (if bool_decide (ins <> []) then Modifier_insertText c (mkSel k (Z.of_nat off) k (Z.of_nat off) false) ins [] None
     else Some c) = Some c1 /\
    getBlockForKey c1 k = Some b1 /\ block_wf b1 /\
    b_text b1 = take off (b_text b) ++ ins ++ drop off (b_text b) /\
    Forall (fun ch => cm_entity ch = None) (b_chars b1) /\ entityMap c1 = entityMap c.
Proof.
  intros Hb Hwf Hn Hoff. case_bool_decide as Hins.
  - destruct (Modifier_replaceText_in_block c k off off b ins [] None Hb Hwf)
      as (c1 & b1 & Hc1 & Hb1 & _ & _ & Ht1 & Hch1 & Hem1 & _); [lia|].
    exists c1, b1. unfold Modifier_insertText, isCollapsed. simpl. rewrite !bool_decide_true by done.
    split; [done|]. split; [done|]. unfold block_wf in *. rewrite Ht1, Hch1.
    split; [rewrite !length_app, !length_take, !length_drop, !length_replicate; lia|].
    split; [done|]. split; [|done].
    apply Forall_app; split; [by apply Forall_take|]. apply Forall_app; split; [|by apply Forall_drop].
    by apply Forall_replicate.
  - subst ins. exists c, b. simpl. by rewrite take_drop.
Qed.

(** C12 (functional; spec §7). On a caret in a block without entities,
    [processChange] with the start-up pattern state, typing [ins] (or, with
    [ins] empty, rescanning after a backspace), annotates the new text
    exactly: when the text is a sequence of segments, each a run without
    backtick followed by a backtick-delimited non-empty code run, then a
    tail without backtick, the [i]-th code span, backticks included, gets
    the [i]-th new [core.styling.inlineCode] entity, every other character
    none; one entity per span is created, and the pattern's state is back
    at [lastIndex = 0]. *)
Theorem processChange_code_spans es k (off : nat) b ins segs tail :
  selection es = mkSel k (Z.of_nat off) k (Z.of_nat off) false ->
  getBlockForKey (currentContent es) k = Some b -> block_wf b ->
  Forall (fun ch => cm_entity ch = None) (b_chars b) -> (off <= length (b_text b))%nat ->
  take off (b_text b) ++ ins ++ drop off (b_text b) = spans_text segs tail ->
  Forall seg_ok segs -> tick ∉ tail ->
  exists es' b', processChange initial_patterns es ins = Some (es', initial_patterns) /\
    getBlockForKey (currentContent es') k = Some b' /\ b_text b' = spans_text segs tail /\
    cm_entity <$> b_chars b' =
      span_entities (length (entityMap (currentContent es))) segs ++ replicate (length tail) None /\
    entityMap (currentContent es') =
      entityMap (currentContent es) ++ replicate (length segs) inline_code_entity.
Proof.
  intros Hsel Hb Hwf Hn Hoff Htext Hok Ht. unfold processChange. rewrite Hsel.
  cbn [getStartKey isBackward anchorKey].
  rewrite (stripEntitiesFromBlock_plain _ _ _ _ Hb Hn). cbn [mbind option_bind].
  destruct (insert_plain (currentContent es) k off b ins Hb Hwf Hn Hoff)
    as (c1 & b1 & -> & Hb1 & Hwf1 & Ht1 & Hn1 & Hem1).
  cbn [mbind option_bind]. rewrite Hb1. cbn [mbind option_bind].
  rewrite scan_all_initial. rewrite Htext in Ht1.
  assert (HE1 : cm_entity <$> b_chars b1 = [] ++ replicate (length (spans_text segs tail)) None).
  { rewrite entities_none_replicate by done. unfold block_wf in Hwf1. by rewrite Hwf1, Ht1. }
  assert (Hfuel : (length segs < S (length (b_text b1)))%nat).
  { pose proof (length_segs_le segs tail). rewrite Ht1. lia. }
  destruct (scan_spans (mkSel k (Z.of_nat off) k (Z.of_nat off) false) (b_text b1)
              "core.styling.inlineCode" MUTABLE eq_refl eq_refl segs tail (S (length (b_text b1))) O c1 b1 []
              Hok Ht Hb1 Hwf1 eq_refl (eq_trans (drop_0 _) Ht1) HE1 eq_refl Hfuel)
    as (c' & b' & Hsc & Hb' & Ht' & _ & He' & Hem' & _).
  rewrite Hsc. cbn [mbind option_bind].
    assert (Hpush : forall es', currentContent es' = currentContent (EditorState_push es c' apply_entity) ->
        getBlockForKey (currentContent es') k = Some b' /\ b_text b' = spans_text segs tail /\
        cm_entity <$> b_chars b' =
          span_entities (length (entityMap (currentContent es))) segs ++ replicate (length tail) None /\
        entityMap (currentContent es') =
          entityMap (currentContent es) ++ replicate (length segs) inline_code_entity).
    { intros es' ->. rewrite (getBlockForKey_blockMap _ c'), EditorState_push_entityMap
        by apply EditorState_push_blockMap.
      rewrite Ht', He', Hem', Hem1. simpl. auto. }
    repeat case_match; (eexists _, b'; split; [reflexivity|by apply Hpush]).
Qed.

(** Typing the closing backtick of ["say `hello"] turns ["`hello`"] into
    the first entity's span. *)
Lemma processChange_code_spans_witness :
  exists es' b', processChange initial_patterns (ex_state ⟪"say `hello"⟫ 10 None) ⟪"`"⟫ =
      Some (es', initial_patterns) /\
    getBlockForKey (currentContent es') "a" = Some b' /\
    b_text b' = spans_text [mkSegment ⟪"say "⟫ ⟪"hello"⟫] [] /\
    cm_entity <$> b_chars b' = span_entities 0 [mkSegment ⟪"say "⟫ ⟪"hello"⟫] ++ replicate 0 None /\
    entityMap (currentContent es') = [] ++ replicate 1 inline_code_entity.
Proof.
  apply (processChange_code_spans (ex_state ⟪"say `hello"⟫ 10 None) "a" 10
           (mkBlock "a" "unstyled" ⟪"say `hello"⟫ (replicate 10 EMPTY_CHAR)) ⟪"`"⟫
           [mkSegment ⟪"say "⟫ ⟪"hello"⟫] []).
  - reflexivity.
  - reflexivity.
  - reflexivity.
  - repeat constructor.
  - simpl. lia.
  - reflexivity.
  - repeat constructor; unfold seg_ok, tick; apply (bool_decide_unpack _); vm_compute; reflexivity.
  - unfold tick. apply (bool_decide_unpack _). vm_compute. reflexivity.
Defined.
