(* ===== verification/Pipeline.v ===== *)
(** * The engine as a whole: well-formedness through every entry point

    Every entry point of the engine keeps the document well formed
    ([DraftWf.editor_wf]): the convert, collapse and expand steps of the
    block plugin and their composition [coreBlockPlugin_onChange], the
    forced collapse [normalizeCoreBlocks], the edit compiler
    [performDependentEdits], and the entity plugin's [handleBeforeInput]
    and [onChange].  Each step of the block plugin is an instance of the
    [DraftWf.WfStep] interface, proved by walking the step's code and
    discharging every host call with a lemma of [DraftWf.v] ([wf_auto]);
    the plugin's [onChange] gets its instance by composition, and the
    engine's theorems are proved against the interface. *)

From S2P Require Import Prelude Draft DraftWf Regex DraftUtils DependentEdits Blocks ConvertBlockType.
From S2P Require Import CollapseBlocks InlineEntities.
From stdpp Require Import gmap.

(** ** The editor as a state machine *)

(** The host's own reaction to an input event (draft-js
    [editOnBeforeInput], [keyCommandPlainBackspace], [keyCommandPlainDelete],
    [keyCommandInsertNewline], a click that moves the caret): a [Modifier]
    transform of the current content pushed with its change type. *)
Inductive host_edit (es : EditorState) : EditorState -> Prop :=
  | host_insert txt st c :
      Modifier_replaceText (currentContent es) (selection es) txt st None = Some c ->
      host_edit es (EditorState_push es c insert_characters)
  | host_backspace r c :
      Modifier_removeRange (currentContent es) r = Some c ->
      host_edit es (EditorState_push es c backspace_character)
  | host_delete r c :
      Modifier_removeRange (currentContent es) r = Some c ->
      host_edit es (EditorState_push es c delete_character)
  | host_split kb c :
      Modifier_splitBlock (currentContent es) (selection es) kb = Some c ->
      host_edit es (EditorState_push es c split_block)
  | host_select s :
      host_edit es (EditorState_forceSelection es s).

(** One transition of the engine (spec §6): the stored editor state and
    the entity plugin's pattern states, changed by one of the entry points
    the engine exposes to the host. *)
Inductive engine_step : EditorState * list RegExp -> EditorState * list RegExp -> Prop :=
  | step_block_plugin es e es' pats :
      host_edit es e -> coreBlockPlugin_onChange e es = Some es' ->
      engine_step (es, pats) (es', pats)
  | step_before_input es ch r es' pats pats' :
      plugin_handleBeforeInput pats ch es = Some (r, es', pats') ->
      engine_step (es, pats) (es', pats')
  | step_entity_change es e es' pats pats' :
      host_edit es e -> plugin_onChange pats e = Some (es', pats') ->
      engine_step (es, pats) (es', pats')
  | step_normalize es es' pats :
      normalizeCoreBlocks es = Some es' -> engine_step (es, pats) (es', pats).

(** The engine's invariant: a well-formed document and one ready global
    pattern per styling entity. *)
Definition engine_inv (s : EditorState * list RegExp) : Prop :=
  editor_wf s.1 /\ Forall regex_ready s.2 /\ length s.2 = length stylingEntities.

#[export] Instance engine_inv_dec s : Decision (engine_inv s).
Proof. unfold engine_inv, regex_ready. apply _. Defined.

(** Decompose the binds, matches and conditionals of a hypothesis. *)
Ltac wf_split := repeat (progress opt_inv || case_match); simplify_eq/=.

Lemma performUnUndoableEdits_wf es f :
  (forall d, editor_wf d -> editor_wf (f d)) -> editor_wf es -> editor_wf (performUnUndoableEdits es f).
Proof. intros Hf Hes. unfold performUnUndoableEdits. wf_auto. Qed.

#[export] Hint Resolve performUnUndoableEdits_wf : draft_wf.

Lemma stripEntitiesFromBlock_wf c k f c' :
  stripEntitiesFromBlock c k f = Some c' -> content_wf c -> content_wf c'.
Proof.
  unfold stripEntitiesFromBlock. intros H Hwf. opt_inv. case_match; [done|].
  revert H. apply foldl_opt_invariant; [by intros [s e]| |done].
  intros a [s e] r Ha Hr. wf_auto.
Qed.

#[export] Hint Resolve stripEntitiesFromBlock_wf : draft_wf.

(** ** The block plugin *)

Lemma convert_step_wf p ct acc b acc' :
  convert_step p ct acc b = Some acc' -> content_wf (acc_content acc) -> content_wf (acc_content acc').
Proof.
  unfold convert_step, convert_by_pattern, promote_block, demote_block. intros H Hwf.
  wf_split; wf_auto.
Qed.

Lemma complete_list_wf es prev es' :
  complete_list es prev = Some es' -> editor_wf es -> editor_wf es'.
Proof. unfold complete_list. intros H Hwf. opt_inv. wf_auto. Qed.

#[export] Instance convertBlockType_wf prev : WfStep (fun es => convertBlockType es prev).
Proof.
  intros es es'. unfold convertBlockType. intros H Hwf. case_decide; [by simplify_eq|].
  destruct (didCompleteList prev es) as [[]|]; [by eapply complete_list_wf| |done].
  opt_inv. case_decide; simplify_eq; [|done].
  apply performUnUndoableEdits_wf; [|done]. intros d Hd. apply EditorState_forceSelection_wf.
  apply EditorState_push_preserves_wf; [|done].
  match goal with E : foldl _ _ _ = Some ?r |- content_wf (acc_content ?r) => revert E end.
  apply (foldl_opt_invariant (fun a => content_wf (acc_content a))); [done| |done].
  intros a b r Ha Hr. by eapply convert_step_wf.
Qed.

Lemma collapse_step_wf sel force c key c' :
  collapse_step sel force (Some c) key = Some c' -> content_wf c -> content_wf c'.
Proof. unfold collapse_step. intros H Hwf. wf_split; wf_auto. Qed.

#[export] Instance collapseBlocks_wf ab force : WfStep (fun es => collapseBlocks es ab force).
Proof.
  intros es es'. unfold collapseBlocks. intros H Hwf. opt_inv. case_decide; simplify_eq; [|done].
  apply EditorState_forceSelection_wf, performUnUndoableEdits_wf; [|done].
  intros d Hd. apply EditorState_push_preserves_wf; [|done].
  match goal with E : foldl _ _ _ = Some ?r |- content_wf ?r => revert E end.
  apply foldl_opt_invariant; [done| |done]. intros a b r Ha Hr. by eapply collapse_step_wf.
Qed.

Lemma step_edit_wf acc e r :
  step_edit (Some acc) e = Some r -> editor_wf acc.1 -> editor_wf r.1.
Proof.
  destruct acc as [es st]. unfold step_edit, step_insertion, step_selection. intros H Hwf.
  wf_split; wf_auto.
Qed.

#[export] Instance performDependentEdits_wf edits : WfStep (fun es => performDependentEdits es edits).
Proof.
  intros es es'. unfold performDependentEdits. intros H Hwf.
  destruct (foldl step_edit _ _) as [[r st]|] eqn:E; simplify_eq/=. revert E.
  apply (foldl_opt_invariant (fun a => editor_wf a.1)); [done| |done].
  intros a b r' Ha Hr. by eapply step_edit_wf.
Qed.

#[export] Instance expandBlocks_wf : WfStep expandBlocks.
Proof.
  intros es es'. unfold expandBlocks. case_bool_decide; [by intros [= <-]|].
  apply (wf_step (fun e => performDependentEdits e _)).
Qed.

(** The block plugin's [onChange] is convert, collapse and expand in
    sequence: its guarantee is that of its steps. *)
#[export] Instance coreBlockPlugin_onChange_WfStep prev : WfStep (fun es => coreBlockPlugin_onChange es prev).
Proof. unfold coreBlockPlugin_onChange. apply _. Qed.

#[export] Instance normalizeCoreBlocks_wf : WfStep normalizeCoreBlocks.
Proof.
  intros es es'. unfold normalizeCoreBlocks, collapseBlocksAtSelectionEdges.
  apply (wf_step (fun e => collapseBlocks e _ true)).
Qed.

(** ** The entity plugin *)

(** The rescan keeps the document well formed and hands the pattern back
    with its [lastIndex] reset. *)
Lemma scan_entities_inv fuel re text ty mu sel c c' re' :
  re_global re = true -> scan_entities fuel re text ty mu sel c = Some (c', re') ->
  content_wf c -> content_wf c' /\ re' = set_lastIndex re O.
Proof.
  revert re c. induction fuel as [|fuel IH]; intros re c Hg H Hwf; simpl in H; [done|].
  destruct (exec re text) as [[m|] re1] eqn:Ex.
  - opt_inv. destruct (exec_global_Some re text m re1 Hg Ex) as (Hre1 & _).
    rewrite Hre1 in H. apply IH in H as [Hc' ->]; [|done|wf_auto]. done.
  - simplify_eq. split; [done|]. pose proof (exec_global_None re text Hg) as Hn.
    rewrite Ex in Hn. by apply Hn.
Qed.

Lemma scan_all_inv defs pats text sel c c' pats' :
  Forall regex_ready pats -> scan_all defs pats text sel c = Some (c', pats') -> content_wf c ->
  content_wf c' /\ Forall regex_ready pats' /\ length pats' = length pats.
Proof.
  revert pats c pats'. induction defs as [|d ds IH]; intros pats c pats' Hr H Hwf;
    destruct pats as [|re res]; cbn [scan_all] in H; simplify_eq; try done.
  apply Forall_cons in Hr as [[Hg Hmin] Hres].
  destruct (scan_entities _ _ _ _ _ _ _) as [[c1 re1]|] eqn:E1; cbn [mbind option_bind] in H; [|done].
  destruct (scan_all ds res text sel c1) as [[c2 res2]|] eqn:E2; cbn [mbind option_bind] in H;
    simplify_eq.
  apply scan_entities_inv in E1 as [Hc1 ->]; [|done|done].
  apply IH in E2 as (Hc2 & Hr2 & Hl2); [|done|done].
  split; [done|]. split; [|simpl; lia]. by constructor.
Qed.

Lemma processChange_inv pats es ins es' pats' :
  Forall regex_ready pats -> processChange pats es ins = Some (es', pats') -> editor_wf es ->
  editor_wf es' /\ Forall regex_ready pats' /\ length pats' = length pats.
Proof.
  unfold processChange. intros Hr H Hwf.
  destruct (stripEntitiesFromBlock _ _ _) as [c0|] eqn:E0; cbn [mbind option_bind] in H; [|done].
  destruct (if bool_decide _ then _ else _) as [c1|] eqn:E1; cbn [mbind option_bind] in H; [|done].
  assert (Hc1 : content_wf c1) by (case_bool_decide; simplify_eq; wf_auto).
  destruct (getBlockForKey c1 _) as [blk|]; cbn [mbind option_bind] in H; [|done].
  destruct (scan_all _ _ _ _ _) as [[c2 ps]|] eqn:E2; cbn [mbind option_bind] in H; [|done].
  apply scan_all_inv in E2 as (Hc2 & Hr2 & Hl2); [|done|done].
  repeat case_match; simplify_eq; repeat split; auto with draft_wf.
Qed.

Lemma host_edit_wf es e : host_edit es e -> editor_wf es -> editor_wf e.
Proof. destruct 1; intros; wf_auto. Qed.

Lemma plugin_onChange_inv pats es es' pats' :
  Forall regex_ready pats -> plugin_onChange pats es = Some (es', pats') -> editor_wf es ->
  editor_wf es' /\ Forall regex_ready pats' /\ length pats' = length pats.
Proof.
  unfold plugin_onChange. case_bool_decide; [apply processChange_inv|]. by intros ? [= <- <-].
Qed.

Lemma engine_step_inv s s' : engine_step s s' -> engine_inv s -> engine_inv s'.
Proof.
  unfold engine_inv. destruct 1 as [es e es' pats He H|es ch r es' pats pats' H|
    es e es' pats pats' He H|es es' pats H]; simpl; intros (Hwf & Hr & Hl).
  - split; [|done]. apply (wf_step (fun e => coreBlockPlugin_onChange e es) e es'); [done|].
    by eapply host_edit_wf.
  - unfold plugin_handleBeforeInput in H. opt_inv. destruct p as [nes ps].
    destruct (processChange_inv _ _ _ _ _ Hr E Hwf) as (? & ? & ?).
    case_decide; simplify_eq; repeat split; auto; lia.
  - destruct (plugin_onChange_inv _ _ _ _ Hr H) as (? & ? & ?); [by eapply host_edit_wf|].
    repeat split; auto; lia.
  - split; [|done]. by apply (wf_step normalizeCoreBlocks es es').
Qed.

(** ** The engine's invariant *)

(** Every state the engine reaches from a
    well-formed document with ready patterns, through any sequence of host
    edits followed by the block plugin, the entity plugin's
    [handleBeforeInput] and [onChange], and [normalizeCoreBlocks], is again
    a well-formed document with one ready global pattern per styling
    entity. *)
Theorem engine_reachable_inv s s' : engine_inv s -> rtc engine_step s s' -> engine_inv s'.
Proof.
  intros Hs Hr. induction Hr as [|x y z Hxy _ IH]; [done|]. apply IH. by eapply engine_step_inv.
Qed.

