(* ===== verification/EditorShell.v ===== *)
(** * The editor shell: [Editor.tsx]'s component, the plugins editor and the note store

    [src/app/components/Editor.tsx] ends with the [plugin] object (its two
    hooks are [InlineEntities.plugin_handleBeforeInput] and
    [InlineEntities.plugin_onChange]) and the [Editor] component, which
    renders draft-js-plugins-editor's [DraftEditor] with the note's editor
    state, [updateEditorState] as [onChange] (it dispatches the redux
    action [updateEditor({ noteId, editorState })]) and [plugins={[plugin]}].
    [coreBlockPlugin/index.ts]'s [createCoreBlockPlugin] is the other
    plugin object of the repository.

    The plugins editor is a library the component calls; its hooks are
    modelled from its documented behaviour: [onChange] runs every plugin's
    [onChange] in list order and hands the result to the [onChange] prop;
    [handleBeforeInput] asks the plugins in order until one answers
    ["handled"] ([Array.prototype.some]); a plugin's [setEditorState] is the
    editor's own [onChange].  When no plugin handles the character, draft-js
    inserts it itself ([editOnBeforeInput]) and reports the new state
    through [onChange].  The inline style and entity draft-js gives the
    typed character are section variables: the host's choice, which no
    theorem here depends on.

    The redux store the component is connected to ([editorSelector] and the
    reducer of [updateEditor], outside the repository) is the class
    [NoteStore]: the editor state of a note, and the update the action
    performs, with the two laws of a store keyed by note id.  A [gmap] is
    an instance.  The module state of [Editor.tsx] (the global patterns'
    [lastIndex]) is threaded through every hook as [list RegExp].

    Theorems: every state the shell reaches keeps every note's document
    well formed and the patterns ready (a lemma, by rule induction over
    [shell_step], for any plugin list whose hooks keep them, and so for the
    component as written); an event of one note's component changes the
    store at that note only; a keystroke through the component stores, for
    its note, the state [processChange] computes when it changed the
    document and draft-js's own insertion otherwise; and, since the
    component installs only the entity plugin, no state a keystroke
    dispatches has a block type the document did not have at that block,
    on any document, where the same plugins editor with
    [createCoreBlockPlugin] installed converts a typed header trigger. *)

From S2P Require Import Prelude Draft DraftWf Regex DraftUtils DependentEdits Blocks ConvertBlockType.
From S2P Require Import CollapseBlocks InlineEntities Pipeline.
From stdpp Require Import gmap.

Open Scope Z_scope.
Open Scope draft_scope.

(** ** The plugin interface of draft-js-plugins-editor *)

(** The plugin functions passed to every hook, as far as the repository's
    plugins use them: [getEditorState()] returns the [editorState] prop. *)
Record PluginFunctions := mkPluginFunctions {
  getEditorState : EditorState;
}.

(** A plugin's hooks over the module state [list RegExp]: the answer of
    [handleBeforeInput] with the state it passes to [setEditorState], if
    any (the repository's handlers call it last), and [onChange]'s new
    state.  [None] in a result is a thrown exception. *)
Record Plugin := mkPlugin {
  handleBeforeInput : option (list ascii -> EditorState -> PluginFunctions -> list RegExp ->
                              option (HandleResult * option EditorState * list RegExp));
  onChange : option (EditorState -> PluginFunctions -> list RegExp -> option (EditorState * list RegExp));
  customStyleMap : list (string * list (string * string));
}.

(** [const plugin: Plugin = { handleBeforeInput, onChange }] of
    [Editor.tsx]: [setEditorState(newEditorState)] is called exactly when
    the answer is ["handled"]. *)
Definition plugin : Plugin := {|
  handleBeforeInput := Some (fun ch es _ pats =>
    '(r, nes, pats') ← plugin_handleBeforeInput pats ch es;
    Some (r, (if r is handled then Some nes else None), pats'));
  onChange := Some (fun es _ pats => plugin_onChange pats es);
  customStyleMap := [];
|}.

(** [createCoreBlockPlugin(getEditorState)]: [getEditorState] is read when
    [onChange] runs. *)
Definition createCoreBlockPlugin (getEditorState : unit -> EditorState) : Plugin := {|
  handleBeforeInput := None;
  onChange := Some (fun es _ pats => es' ← coreBlockPlugin_onChange es (getEditorState tt); Some (es', pats));
  customStyleMap := [(core_block_decorator, [("color", "rgba(0, 0, 0, 0.3)")])];
|}.

(** ** The plugins editor *)

(** [onChange]: [plugins.forEach(p => { if (p.onChange) s = p.onChange(s, fns) })]. *)
Fixpoint plugins_onChange (plugins : list Plugin) (fns : PluginFunctions) (es : EditorState)
    (pats : list RegExp) : option (EditorState * list RegExp) :=
  match plugins with
  | [] => Some (es, pats)
  | p :: ps =>
      '(es1, pats1) ← (match onChange p with Some f => f es fns pats | None => Some (es, pats) end);
      plugins_onChange ps fns es1 pats1
  end.

(** ** The [Editor] component and its store *)

(** [EditorProps] of the connected component. *)
Record EditorProps := mkEditorProps {
  editor : EditorState;
  title : string;
  noteId : string;
}.

(** The action [updateEditor({ noteId, editorState })] of [editorActions]. *)
Inductive EditorAction := updateEditor (noteId : string) (editorState : EditorState).

(** [updateEditorState = editorState => this.props.updateEditor({ noteId, editorState })]. *)
Definition updateEditorState (props : EditorProps) (es : EditorState) : EditorAction :=
  updateEditor (noteId props) es.

(** The props the component gives [DraftEditor]. *)
Record DraftEditorProps := mkDraftEditorProps {
  de_editorState : EditorState;
  de_onChange : EditorState -> EditorAction;
  de_plugins : list Plugin;
}.

(** [render()]: [<DraftEditor editorState={this.props.editor}
    onChange={this.updateEditorState} plugins={[plugin]} />]. *)
Definition Editor_render (props : EditorProps) : DraftEditorProps := {|
  de_editorState := editor props;
  de_onChange := updateEditorState props;
  de_plugins := [plugin];
|}.

(** The redux store as the component sees it through [connect]: the
    editor state and title of a note ([editorSelector]) and the reducer of
    [updateEditor], which replaces the note's editor state. *)
Class NoteStore (S : Type) := {
  store_editor : S -> string -> option EditorState;
  store_title : S -> string -> string;
  store_update : S -> string -> EditorState -> S;
  store_editor_update_eq s n es : store_editor (store_update s n es) n = Some es;
  store_editor_update_ne s n m es : m <> n -> store_editor (store_update s n es) m = store_editor s m;
  store_title_update s n m es : store_title (store_update s n es) m = store_title s m;
}.

Section Store.
Context {St : Type} `{!NoteStore St}.

(** [dispatch(action)]. *)
Definition reduce (s : St) (a : EditorAction) : St :=
  match a with updateEditor n es => store_update s n es end.

(** [connect(editorSelector, ...)(Editor)] for note [n]. *)
Definition connected_props (s : St) (n : string) : option EditorProps :=
  (fun es => mkEditorProps es (store_title s n) n) <$> store_editor s n.

End Store.

(** The store as a map from note ids to editor states and titles. *)
#[export] Instance gmap_NoteStore : NoteStore (gmap string EditorState * gmap string string).
Proof.
  refine {| store_editor s n := s.1 !! n;
            store_title s n := default "" (s.2 !! n);
            store_update s n es := (<[n := es]> s.1, s.2) |}; intros; simpl; by simplify_map_eq.
Defined.

(** ** Events of the plugins editor *)

Section Shell.
Context {St : Type} `{!NoteStore St}.
Variable getCurrentInlineStyle : EditorState -> list string.
Variable getEntityKeyForSelection : ContentState -> SelectionState -> option nat.

(** draft-js's [editOnBeforeInput] when no handler took the character:
    [replaceText] at the selection with the current inline style and
    entity, pushed as [insert-characters]. *)
Definition editOnBeforeInput_default (es : EditorState) (ch : list ascii) : option EditorState :=
  c ← Modifier_replaceText (currentContent es) (selection es) ch (getCurrentInlineStyle es)
        (getEntityKeyForSelection (currentContent es) (selection es));
  Some (EditorState_push es c insert_characters).

(** The plugins editor's [onChange]: the plugins' hooks, then the
    [onChange] prop, which yields the action dispatched. *)
Definition pluginsEditor_onChange (p : DraftEditorProps) (es : EditorState) (pats : list RegExp)
  : option (EditorAction * list RegExp) :=
  '(es', pats') ← plugins_onChange (de_plugins p) (mkPluginFunctions (de_editorState p)) es pats;
  Some (de_onChange p es', pats').

(** The [handleBeforeInput] hook: [plugins.some(pl => pl.handleBeforeInput
    && pl.handleBeforeInput(ch, es, fns) === 'handled')]; a handler's
    [setEditorState(s)] runs the editor's [onChange] on [s] before the next
    handler is asked.  The actions dispatched, in order. *)
Fixpoint plugins_handleBeforeInput (p : DraftEditorProps) (plugins : list Plugin) (ch : list ascii)
    (pats : list RegExp) : option (bool * list EditorAction * list RegExp) :=
  let es := de_editorState p in
  match plugins with
  | [] => Some (false, [], pats)
  | pl :: ps =>
      match handleBeforeInput pl with
      | None => plugins_handleBeforeInput p ps ch pats
      | Some h =>
          '(r, set, pats1) ← h ch es (mkPluginFunctions es) pats;
          '(acts, pats2) ← (match set return option (list EditorAction * list RegExp) with
                            | Some s => '(a, q) ← pluginsEditor_onChange p s pats1; Some ([a], q)
                            | None => Some ([], pats1) end);
          if r is handled then Some (true, acts, pats2)
          else '(b, acts', pats3) ← plugins_handleBeforeInput p ps ch pats2;
               Some (b, acts ++ acts', pats3)
      end
  end.

(** A character typed into the editor: the handlers, then, when none
    answered ["handled"], draft-js's own insertion reported through
    [onChange]. *)
Definition pluginsEditor_beforeInput (p : DraftEditorProps) (ch : list ascii) (pats : list RegExp)
  : option (list EditorAction * list RegExp) :=
  '(h, acts, pats1) ← plugins_handleBeforeInput p (de_plugins p) ch pats;
  if h : bool then Some (acts, pats1)
  else e ← editOnBeforeInput_default (de_editorState p) ch;
       '(a, pats2) ← pluginsEditor_onChange p e pats1;
       Some (acts ++ [a], pats2).

(** One event of the application: a character typed into note [n]'s
    editor, or any other change the host makes to it (backspace, delete,
    Enter, a caret move) reported through [onChange]; the store receives
    the dispatched actions in order. *)
Inductive shell_step (render : EditorProps -> DraftEditorProps) (n : string)
  : St * list RegExp -> St * list RegExp -> Prop :=
  | shell_beforeInput s pats props ch acts pats' :
      connected_props s n = Some props ->
      pluginsEditor_beforeInput (render props) ch pats = Some (acts, pats') ->
      shell_step render n (s, pats) (foldl reduce s acts, pats')
  | shell_change s pats props e a pats' :
      connected_props s n = Some props -> host_edit (editor props) e ->
      pluginsEditor_onChange (render props) e pats = Some (a, pats') ->
      shell_step render n (s, pats) (reduce s a, pats').

End Shell.

(** ** Plugins that keep documents well formed *)

(** One ready global pattern per styling entity. *)
Definition pats_ok (pats : list RegExp) : Prop :=
  Forall regex_ready pats /\ length pats = length stylingEntities.

(** The interface a plugin promises the plugins editor: from a well-formed
    document and ready patterns, its hooks give ready patterns and
    well-formed documents, also the one handed to [setEditorState]. *)
Class PluginWf (pl : Plugin) : Prop := {
  plugin_wf_before h ch es fns pats r set pats' :
    handleBeforeInput pl = Some h -> pats_ok pats -> editor_wf es ->
    h ch es fns pats = Some (r, set, pats') -> pats_ok pats' /\ from_option editor_wf True set;
  plugin_wf_change f es fns pats es' pats' :
    onChange pl = Some f -> pats_ok pats -> editor_wf es ->
    f es fns pats = Some (es', pats') -> pats_ok pats' /\ editor_wf es';
}.

#[export] Instance plugin_wf : PluginWf plugin.
Proof.
  split; simpl.
  - intros h ch es fns pats r set pats' [= <-] [Hr Hl] Hwf H. opt_inv. destruct p as [[r0 nes] ps]. unfold plugin_handleBeforeInput in E. opt_inv.
    destruct p as [nes0 ps0]. destruct (processChange_inv _ _ _ _ _ Hr E0 Hwf) as (? & ? & ?).
    case_decide; simplify_eq; simpl; split; try split; auto; lia.
  - intros f es fns pats es' pats' [= <-] [Hr Hl] Hwf H.
    destruct (plugin_onChange_inv _ _ _ _ Hr H Hwf) as (? & ? & ?). split; [split|]; auto; lia.
Qed.

#[export] Instance createCoreBlockPlugin_wf g : PluginWf (createCoreBlockPlugin g).
Proof.
  split; simpl; [done|]. intros ?????? [= <-] Hp Hwf H. opt_inv. split; [done|].
  by apply (wf_step (fun e => coreBlockPlugin_onChange e (g tt)) es).
Qed.

(** The state an action carries to the store. *)
Definition action_state (a : EditorAction) : EditorState :=
  match a with updateEditor _ es => es end.

(** Every note of the store holds a well-formed document. *)
Definition store_wf `{!NoteStore St} (s : St) : Prop :=
  forall n es, store_editor s n = Some es -> editor_wf es.

(** The application's invariant. *)
Definition shell_inv `{!NoteStore St} (sh : St * list RegExp) : Prop :=
  store_wf sh.1 /\ pats_ok sh.2.

(** Props the plugins editor can be given: its plugins keep the
    invariant, its state is well formed and its [onChange] dispatches the
    state it is given. *)
Definition props_ok (p : DraftEditorProps) : Prop :=
  Forall PluginWf (de_plugins p) /\ editor_wf (de_editorState p) /\
  forall e, action_state (de_onChange p e) = e.

Section ShellInv.
Context {St : Type} `{!NoteStore St}.
Variable getCurrentInlineStyle : EditorState -> list string.
Variable getEntityKeyForSelection : ContentState -> SelectionState -> option nat.

Lemma plugins_onChange_wf plugins fns es pats es' pats' :
  Forall PluginWf plugins -> pats_ok pats -> editor_wf es ->
  plugins_onChange plugins fns es pats = Some (es', pats') -> pats_ok pats' /\ editor_wf es'.
Proof.
  intros Hpl. revert es pats. induction Hpl as [|pl pls Hpl _ IH]; intros es pats Hp Hwf H; simpl in H.
  - by simplify_eq.
  - opt_inv. destruct p as [es1 pats1]. apply IH in H; [done| |];
      destruct (onChange pl) as [f|] eqn:Hf; simplify_eq; try done;
      by destruct (plugin_wf_change f es fns pats es1 pats1 Hf Hp Hwf E).
Qed.

Lemma pluginsEditor_onChange_wf p e pats a pats' :
  props_ok p -> pats_ok pats -> editor_wf e ->
  pluginsEditor_onChange p e pats = Some (a, pats') -> pats_ok pats' /\ editor_wf (action_state a).
Proof.
  intros (Hpl & _ & Hon) Hp Hwf H. unfold pluginsEditor_onChange in H. opt_inv. destruct p0 as [es' ps].
  simplify_eq. rewrite Hon. by eapply plugins_onChange_wf.
Qed.

Lemma plugins_handleBeforeInput_wf p pls ch pats b acts pats' :
  props_ok p -> Forall PluginWf pls -> pats_ok pats ->
  plugins_handleBeforeInput p pls ch pats = Some (b, acts, pats') ->
  pats_ok pats' /\ Forall (fun a => editor_wf (action_state a)) acts.
Proof.
  intros Hok Hpls. revert pats b acts pats'.
  induction Hpls as [|pl pls Hpl _ IH]; intros pats b acts pats' Hp H; simpl in H; [by simplify_eq|].
  destruct (handleBeforeInput pl) as [h|] eqn:Hh; [|by eapply IH].
  destruct (h ch _ _ pats) as [[[r set] pats1]|] eqn:E; cbn [mbind option_bind] in H; [|done].
  destruct (match set with Some _ => _ | None => _ end) as [[acts1 pats2]|] eqn:E1;
    cbn [mbind option_bind] in H; [|done].
  destruct (plugin_wf_before h ch _ _ pats r set pats1 Hh Hp (proj1 (proj2 Hok)) E) as [Hp1 Hset].
  assert (Hs : pats_ok pats2 /\ Forall (fun a => editor_wf (action_state a)) acts1).
  { destruct set as [s|]; simpl in *; [|by simplify_eq].
    destruct (pluginsEditor_onChange p s pats1) as [[a q]|] eqn:E2; simpl in E1; [|done].
    destruct (pluginsEditor_onChange_wf p s pats1 a q Hok Hp1 Hset E2). simplify_eq. auto. }
  destruct Hs as [Hp2 Hacts1]. destruct r; simplify_eq; [done|].
  destruct (plugins_handleBeforeInput p pls ch pats2) as [[[b' acts'] pats3]|] eqn:E3;
    cbn [mbind option_bind] in H; [|done]. simplify_eq.
  destruct (IH _ _ _ _ Hp2 E3). split; [done|]. by apply Forall_app.
Qed.

Lemma editOnBeforeInput_default_wf es ch e :
  editor_wf es -> editOnBeforeInput_default getCurrentInlineStyle getEntityKeyForSelection es ch = Some e ->
  editor_wf e.
Proof.
  unfold editOnBeforeInput_default. intros Hwf H. opt_inv.
  apply EditorState_push_preserves_wf; [|done]. by eapply Modifier_replaceText_wf.
Qed.

Lemma pluginsEditor_beforeInput_wf p ch pats acts pats' :
  props_ok p -> pats_ok pats ->
  pluginsEditor_beforeInput getCurrentInlineStyle getEntityKeyForSelection p ch pats = Some (acts, pats') ->
  pats_ok pats' /\ Forall (fun a => editor_wf (action_state a)) acts.
Proof.
  intros Hok Hp H. unfold pluginsEditor_beforeInput in H.
  destruct (plugins_handleBeforeInput p _ ch pats) as [[[h acts1] pats1]|] eqn:E;
    cbn [mbind option_bind] in H; [|done].
  destruct (plugins_handleBeforeInput_wf p _ ch pats h acts1 pats1 Hok (proj1 Hok) Hp E) as [Hp1 Ha1].
  destruct h; [by simplify_eq|].
  destruct (editOnBeforeInput_default _ _ _ _) as [e|] eqn:Ed; cbn [mbind option_bind] in H; [|done].
  destruct (pluginsEditor_onChange p e pats1) as [[a pats2]|] eqn:Ea; cbn [mbind option_bind] in H; [|done].
  injection H as <- <-. destruct (pluginsEditor_onChange_wf p e pats1 a pats2 Hok Hp1) as [? ?]; [|done|].
  - eapply editOnBeforeInput_default_wf; [apply Hok|done].
  - split; [done|]. apply Forall_app. split; [done|]. by constructor.
Qed.

Lemma reduce_wf s a : store_wf s -> editor_wf (action_state a) -> store_wf (reduce s a).
Proof.
  destruct a as [n es]. intros Hs Hwf m e. simpl. destruct (decide (m = n)) as [->|Hne].
  - rewrite store_editor_update_eq. by intros [= <-].
  - rewrite store_editor_update_ne by done. apply Hs.
Qed.

Lemma foldl_reduce_wf s acts :
  store_wf s -> Forall (fun a => editor_wf (action_state a)) acts -> store_wf (foldl reduce s acts).
Proof.
  intros Hs Ha. revert s Hs. induction Ha as [|a acts Ha _ IH]; intros s Hs; [done|].
  simpl. apply IH. by apply reduce_wf.
Qed.

Lemma connected_props_wf s n props :
  store_wf s -> connected_props s n = Some props -> editor_wf (editor props).
Proof.
  unfold connected_props. intros Hs H. destruct (store_editor s n) as [es|] eqn:E; [|done].
  simpl in H. simplify_eq. by apply (Hs n).
Qed.

(** Every step of the shell keeps the invariant, for any rendering whose
    props keep it. *)
Lemma shell_step_inv render n sh sh' :
  (forall props, editor_wf (editor props) -> props_ok (render props)) ->
  shell_step getCurrentInlineStyle getEntityKeyForSelection render n sh sh' -> shell_inv sh -> shell_inv sh'.
Proof.
  intros Hrender. destruct 1 as [s pats props ch acts pats' Hc H|s pats props e a pats' Hc He H];
    intros [Hs Hp]; simpl in *; pose proof (Hrender props (connected_props_wf s n props Hs Hc)) as Hok.
  - destruct (pluginsEditor_beforeInput_wf _ _ _ _ _ Hok Hp H). split; [|done].
    by apply foldl_reduce_wf.
  - destruct (pluginsEditor_onChange_wf _ e _ a pats' Hok Hp) as [? ?]; [|done|].
    + eapply host_edit_wf; [done|]. by eapply connected_props_wf.
    + split; [|done]. by apply reduce_wf.
Qed.

Lemma Editor_render_ok props : editor_wf (editor props) -> props_ok (Editor_render props).
Proof. intros Hwf. split; [repeat (apply Forall_cons; split; [apply _|]); constructor|]. by split. Qed.

End ShellInv.

(** ** The component on a keystroke *)

(** A state [processChange] changed was pushed as [apply-entity]. *)
Lemma processChange_changed_type pats es ch nes pats' :
  processChange pats es ch = Some (nes, pats') -> es <> nes -> lastChangeType nes = Some apply_entity.
Proof.
  unfold processChange. intros H Hne. opt_inv. destruct p as [c2 ps].
  set (pushed := EditorState_push es c2 apply_entity) in H.
  assert (Hp : pushed <> es -> lastChangeType pushed = Some apply_entity).
  { intros Hpe. subst pushed. apply EditorState_push_changed.
    intros Hc. apply Hpe. unfold EditorState_push. by rewrite decide_True. }
  repeat case_match; simplify_eq; try (by apply Hp); congruence.
Qed.

(** The entity plugin's [onChange] leaves a state that is not a
    backspace alone. *)
Lemma plugin_onChange_other pats es :
  lastChangeType es <> Some backspace_character -> plugin_onChange pats es = Some (es, pats).
Proof. intros Hb. unfold plugin_onChange. by rewrite bool_decide_false. Qed.

Lemma connected_props_noteId `{!NoteStore St} (s : St) n props :
  connected_props s n = Some props -> noteId props = n /\ store_editor s n = Some (editor props).
Proof. unfold connected_props. destruct (store_editor s n); simpl; [|done]. by intros [= <-]. Qed.

Section Keystroke.
Context {St : Type} `{!NoteStore St}.
Variable getCurrentInlineStyle : EditorState -> list string.
Variable getEntityKeyForSelection : ContentState -> SelectionState -> option nat.

(** C14 (functional, spec §4.3 and §6 [onBeforeCharacterInput]).  A
    character typed into a note's [Editor] runs the entity plugin's
    [handleBeforeInput]: when [processChange] changed the note's state,
    the plugin answers ["handled"] and its [setEditorState] dispatches
    exactly that state for the note (the plugin's [onChange] keeps an
    [apply-entity] state), with the patterns as [processChange] left
    them; otherwise draft-js inserts the character itself and the state
    dispatched is that insertion after the plugin's [onChange]. *)
Theorem Editor_keystroke (s : St) pats n props ch nes pats' :
  connected_props s n = Some props ->
  processChange pats (editor props) ch = Some (nes, pats') ->
  pluginsEditor_beforeInput getCurrentInlineStyle getEntityKeyForSelection (Editor_render props) ch pats =
    if decide (editor props <> nes) then Some ([updateEditor n nes], pats')
    else e ← editOnBeforeInput_default getCurrentInlineStyle getEntityKeyForSelection (editor props) ch;
         '(e', q) ← plugin_onChange pats' e;
         Some ([updateEditor n e'], q).
Proof.
  intros Hc Hpc. destruct (connected_props_noteId s n props Hc) as [Hn _].
  unfold pluginsEditor_beforeInput, pluginsEditor_onChange. simpl.
  unfold plugin_handleBeforeInput. rewrite Hpc. simpl.
  case_decide as Hne; simpl.
  - unfold pluginsEditor_onChange. simpl.
    rewrite plugin_onChange_other by (erewrite processChange_changed_type; eauto; done).
    simpl. unfold updateEditorState. by rewrite Hn.
  - destruct (editOnBeforeInput_default _ _ _ _) as [e|]; simpl; [|done].
    destruct (plugin_onChange pats' e) as [[e' q]|]; simpl; [|done].
    unfold updateEditorState. by rewrite Hn.
Qed.

End Keystroke.

(** ** Block types through the entity plugin *)

(** The key and type of every block, in document order. *)
Definition block_types (c : ContentState) : list (string * string) :=
  (fun b => (b_key b, b_type b)) <$> blockMap c.

Lemma modify_blocks_types sk ek f started bs bs' :
  (forall b nb, f b = Some nb -> b_key nb = b_key b /\ b_type nb = b_type b) ->
  modify_blocks sk ek f started bs = Some bs' ->
  (fun b => (b_key b, b_type b)) <$> bs' = (fun b => (b_key b, b_type b)) <$> bs.
Proof.
  intros Hf. revert started bs'. induction bs as [|b bs IH]; intros started bs' H; simpl in H.
  - by simplify_eq.
  - destruct (bool_decide (b_key b = ek)), (started || bool_decide (b_key b = sk));
      destruct (f b) as [nb|] eqn:Ef; simpl in H; try discriminate;
      try (destruct (modify_blocks _ _ _ _ bs) as [r|] eqn:Er; simpl in H; [|discriminate]);
      injection H as <-; simpl;
      try (destruct (Hf _ _ Ef) as [-> ->]); try (erewrite IH by eassumption); done.
Qed.

Lemma modify_chars_types c sel op c' :
  modify_chars c sel op = Some c' -> block_types c' = block_types c.
Proof.
  unfold modify_chars, modify_range, block_types. case_match; [|done].
  destruct (modify_blocks _ _ _ _ _) as [bs|] eqn:E; simpl; [|done]. intros [= <-]. simpl.
  eapply modify_blocks_types; [|exact E]. intros b nb Hb.
  cbv beta in Hb. destruct (range_in_block sel b) as [s e].
  destruct (update_chars op (b_chars b) s e); simpl in Hb; [|discriminate]. by injection Hb as <-.
Qed.

Lemma NoDup_keys_unique (bs : list ContentBlock) x y :
  NoDup (b_key <$> bs) -> x ∈ bs -> y ∈ bs -> b_key x = b_key y -> x = y.
Proof.
  induction bs as [|b bs IH]; intros Hnd Hx Hy Hk; [set_solver|].
  rewrite fmap_cons in Hnd. apply NoDup_cons in Hnd as [Hb Hnd].
  rewrite elem_of_cons in Hx, Hy.
  destruct Hx as [->|Hx], Hy as [->|Hy]; [done| | |by apply IH].
  - destruct Hb. rewrite Hk. by apply list_elem_of_fmap_2.
  - destruct Hb. rewrite <- Hk. by apply list_elem_of_fmap_2.
Qed.

(** Replacing, in a document with unique keys, a block by one of the same
    key and type keeps the block types. *)
Lemma set_block_types c k b nb :
  NoDup (b_key <$> blockMap c) -> getBlockForKey c k = Some b ->
  b_key nb = k -> b_type nb = b_type b -> block_types (set_block c nb) = block_types c.
Proof.
  intros Hnd Hb Hk Hty. pose proof (getBlockForKey_elem_of _ _ _ Hb) as Hin.
  pose proof (getBlockForKey_key _ _ _ Hb) as Hbk.
  unfold block_types, set_block. simpl. rewrite <- list_fmap_compose.
  apply list_fmap_ext. intros i x Hx. simpl. case_bool_decide as E; [|done].
  apply list_elem_of_lookup_2 in Hx. rewrite (NoDup_keys_unique _ x b Hnd Hx Hin) by congruence.
  congruence.
Qed.

Lemma block_types_keys c : b_key <$> blockMap c = fst <$> block_types c.
Proof. unfold block_types. by rewrite <- list_fmap_compose. Qed.

Lemma insertTextIntoContentState_types c sel txt m c' :
  NoDup (b_key <$> blockMap c) -> insertTextIntoContentState c sel txt m = Some c' ->
  block_types c' = block_types c.
Proof.
  unfold insertTextIntoContentState. intros Hnd H. repeat case_match; simplify_eq; try done.
  change (block_types (with_selections ?x _ _)) with (block_types x).
  eapply set_block_types; [done|eassumption|simpl; by eapply getBlockForKey_key|done].
Qed.

(** [Modifier.replaceText] at a collapsed selection keeps the block
    types. *)
Lemma Modifier_replaceText_types c r txt st ent c' :
  NoDup (b_key <$> blockMap c) -> isCollapsed r = true ->
  Modifier_replaceText c r txt st ent = Some c' -> block_types c' = block_types c.
Proof.
  unfold Modifier_replaceText. intros Hnd Hr H.
  destruct (removeEntitiesAtEdges c r) as [c1|] eqn:E1; simpl in H; [|done].
  assert (Hc1 : blockMap c1 = blockMap c).
  { unfold removeEntitiesAtEdges in E1. repeat case_match; simplify_eq; done. }
  unfold removeRangeFromContentState in H. rewrite Hr in H. simpl in H.
  apply insertTextIntoContentState_types in H; [|by rewrite Hc1].
  rewrite H. unfold block_types. by rewrite Hc1.
Qed.

Lemma scan_entities_types fuel re text ty mu sel c c' re' :
  scan_entities fuel re text ty mu sel c = Some (c', re') -> block_types c' = block_types c.
Proof.
  revert re c. induction fuel as [|n IH]; intros re c H; simpl in H; [done|].
  destruct (exec re text) as [[m|] r1]; [|by simplify_eq].
  opt_inv. rewrite (IH _ _ H). unfold Modifier_applyEntity in E. by apply modify_chars_types in E.
Qed.

Lemma scan_all_types defs pats text sel c c' pats' :
  scan_all defs pats text sel c = Some (c', pats') -> block_types c' = block_types c.
Proof.
  revert pats c c' pats'. induction defs as [|d ds IH]; intros [|re res] c c' pats' H; cbn [scan_all] in H;
    try by simplify_eq.
  destruct (scan_entities _ re text _ _ sel c) as [[c1 re1]|] eqn:E1; cbn [mbind option_bind] in H; [|done].
  destruct (scan_all ds res text sel c1) as [[c2 res2]|] eqn:E2; cbn [mbind option_bind] in H; [|done].
  injection H as <- _. rewrite (IH _ _ _ _ E2). by eapply scan_entities_types.
Qed.

Lemma stripEntitiesFromBlock_types c k f c' :
  stripEntitiesFromBlock c k f = Some c' -> block_types c' = block_types c.
Proof.
  unfold stripEntitiesFromBlock. intros H. opt_inv. case_match; [done|].
  revert c' H. generalize (findEntityRanges (entity_filter c f) c0) as l.
  induction l as [|[s e] l IH] using rev_ind; intros c' H; simpl in H; [by simplify_eq|].
  rewrite foldl_app in H. simpl in H.
  destruct (foldl _ (Some c) l) as [c1|] eqn:Ef; simpl in H; [|done].
  unfold Modifier_applyEntity in H. apply modify_chars_types in H. rewrite H. by apply IH.
Qed.
Lemma NoDup_keys_types c c' :
  block_types c' = block_types c -> NoDup (b_key <$> blockMap c) -> NoDup (b_key <$> blockMap c').
Proof. intros H. by rewrite !block_types_keys, H. Qed.

Lemma EditorState_push_types es c ct :
  block_types (currentContent (EditorState_push es c ct)) = block_types c.
Proof. unfold block_types. by rewrite EditorState_push_blockMap. Qed.

(** [processChange] never changes a block's key or type. *)
Lemma processChange_types pats es ins es' pats' :
  NoDup (b_key <$> blockMap (currentContent es)) ->
  processChange pats es ins = Some (es', pats') ->
  block_types (currentContent es') = block_types (currentContent es).
Proof.
  unfold processChange. intros Hnd H.
  destruct (stripEntitiesFromBlock _ _ _) as [c0|] eqn:E0; cbn [mbind option_bind] in H; [|done].
  apply stripEntitiesFromBlock_types in E0.
  destruct (if bool_decide _ then _ else _) as [c1|] eqn:E1; cbn [mbind option_bind] in H; [|done].
  assert (H1 : block_types c1 = block_types c0).
  { case_bool_decide; [|by simplify_eq]. unfold Modifier_insertText in E1.
    destruct (isCollapsed _) eqn:Hc; [|done].
    eapply Modifier_replaceText_types; [|exact Hc|exact E1]. by eapply NoDup_keys_types. }
  destruct (getBlockForKey c1 _); cbn [mbind option_bind] in H; [|done].
  destruct (scan_all _ _ _ _ _) as [[c2 ps]|] eqn:E2; cbn [mbind option_bind] in H; [|done].
  apply scan_all_types in E2.
  pose proof (EditorState_push_types es c2 apply_entity) as Hp.
  repeat case_match; simplify_eq; cbn [currentContent EditorState_forceSelection]; congruence.
Qed.

Lemma plugin_onChange_types pats es es' pats' :
  NoDup (b_key <$> blockMap (currentContent es)) ->
  plugin_onChange pats es = Some (es', pats') ->
  block_types (currentContent es') = block_types (currentContent es).
Proof. unfold plugin_onChange. case_bool_decide; [apply processChange_types|]. by intros _ [= <- _]. Qed.

(** ** Which notes an event writes *)

Section Frame.
Context {St : Type} `{!NoteStore St}.
Variable getCurrentInlineStyle : EditorState -> list string.
Variable getEntityKeyForSelection : ContentState -> SelectionState -> option nat.

(** The actions [acts] all come from the [onChange] prop of [p]. *)
Definition from_prop (p : DraftEditorProps) (acts : list EditorAction) : Prop :=
  Forall (fun a => exists e, a = de_onChange p e) acts.

Lemma pluginsEditor_onChange_from_prop p e pats a pats' :
  pluginsEditor_onChange p e pats = Some (a, pats') -> exists e', a = de_onChange p e'.
Proof. unfold pluginsEditor_onChange. intros H. opt_inv. destruct p0. simplify_eq. eauto. Qed.

Lemma plugins_handleBeforeInput_from_prop p pls ch pats b acts pats' :
  plugins_handleBeforeInput p pls ch pats = Some (b, acts, pats') -> from_prop p acts.
Proof.
  revert pats b acts pats'. induction pls as [|pl pls IH]; intros pats b acts pats' H; simpl in H.
  - simplify_eq. constructor.
  - destruct (handleBeforeInput pl) as [h|]; [|by eapply IH].
    destruct (h ch _ _ pats) as [[[r set] pats1]|]; cbn [mbind option_bind] in H; [|done].
    destruct (match set with Some _ => _ | None => _ end) as [[acts1 pats2]|] eqn:E1;
      cbn [mbind option_bind] in H; [|done].
    assert (Ha1 : from_prop p acts1).
    { destruct set as [st|]; [|by simplify_eq; constructor].
      destruct (pluginsEditor_onChange p st pats1) as [[a q]|] eqn:E2; simpl in E1; [|done].
      simplify_eq. constructor; [by eapply pluginsEditor_onChange_from_prop|constructor]. }
    destruct r; [by simplify_eq|].
    destruct (plugins_handleBeforeInput p pls ch pats2) as [[[b' acts'] pats3]|] eqn:E3;
      cbn [mbind option_bind] in H; [|done]. simplify_eq. apply Forall_app. split; [done|]. by eapply IH.
Qed.

Lemma pluginsEditor_beforeInput_from_prop p ch pats acts pats' :
  pluginsEditor_beforeInput getCurrentInlineStyle getEntityKeyForSelection p ch pats = Some (acts, pats') ->
  from_prop p acts.
Proof.
  unfold pluginsEditor_beforeInput. intros H.
  destruct (plugins_handleBeforeInput p _ ch pats) as [[[h acts1] pats1]|] eqn:E;
    cbn [mbind option_bind] in H; [|done].
  apply plugins_handleBeforeInput_from_prop in E. destruct h; [by simplify_eq|].
  destruct (editOnBeforeInput_default _ _ _ _) as [e|]; cbn [mbind option_bind] in H; [|done].
  destruct (pluginsEditor_onChange p e pats1) as [[a pats2]|] eqn:Ea; cbn [mbind option_bind] in H; [|done].
  simplify_eq. apply Forall_app. split; [done|]. constructor; [|constructor].
  by eapply pluginsEditor_onChange_from_prop.
Qed.

(** Actions on note [n] leave every other note's state alone. *)
Lemma foldl_reduce_other s acts n m :
  Forall (fun a => exists e, a = updateEditor n e) acts -> m <> n ->
  store_editor (foldl reduce s acts) m = store_editor s m.
Proof.
  intros Ha Hm. revert s. induction Ha as [|a acts [e ->] _ IH]; intros s; [done|].
  simpl. rewrite IH. by apply store_editor_update_ne.
Qed.

(** The component's [onChange] prop dispatches to its own note. *)
Lemma Editor_render_from_prop props acts :
  from_prop (Editor_render props) acts -> Forall (fun a => exists e, a = updateEditor (noteId props) e) acts.
Proof. intros H. eapply Forall_impl; [exact H|]. intros a [e ->]. by exists e. Qed.

End Frame.

(** ** Concrete stores *)

(** The block [k] of note [n] in store [s]. *)
Definition stored_block `{!NoteStore St} (s : St) (n k : string) : option ContentBlock :=
  store_editor s n ≫= fun es => getBlockForKey (currentContent es) k.

(** A store holding one note [n] with editor state [es]. *)
Definition one_note (n : string) (es : EditorState) : gmap string EditorState * gmap string string :=
  ({[n := es]}, ∅).

(** A host that types with no inline style and no entity. *)
Definition plain_style (_ : EditorState) : list string := [].
Definition no_entity (_ : ContentState) (_ : SelectionState) : option nat := None.

Lemma store_wf_gmap (s : gmap string EditorState * gmap string string) :
  map_Forall (fun _ => editor_wf) s.1 -> store_wf s.
Proof. intros H n es. simpl. apply H. Qed.

(** ** Properties *)

(** Every state the application reaches, from a store whose notes all
    hold well-formed documents and one ready global pattern per styling
    entity, through events on any notes, is again such a state.  (Every
    host operation keeps documents well formed, so this holds of any
    wiring of plugins that are [PluginWf].) *)
Lemma Editor_reachable_inv `{!NoteStore St} gis gek (sh sh' : St * list RegExp) :
  shell_inv sh -> rtc (fun x y => exists n, shell_step gis gek Editor_render n x y) sh sh' -> shell_inv sh'.
Proof.
  intros Hs Hr. induction Hr as [|x y z [n Hxy] _ IH]; [done|].
  apply IH. eapply shell_step_inv; [apply Editor_render_ok|exact Hxy|exact Hs].
Qed.

(** Typing [x] after ["say `hel"] in note [n]: [processChange] re-creates
    the inline-code entity, the plugin handles the character and the
    store receives its state. *)
Lemma Editor_keystroke_witness :
  let s := one_note "n" (ex_state ⟪"say `hello` now"⟫ 8 None) in
  exists props nes ps,
    connected_props s "n" = Some props /\
    processChange initial_patterns (editor props) ⟪"x"⟫ = Some (nes, ps) /\
    editor props <> nes /\
    pluginsEditor_beforeInput plain_style no_entity (Editor_render props) ⟪"x"⟫ initial_patterns =
      Some ([updateEditor "n" nes], ps).
Proof.
  intros s.
  destruct (connected_props s "n") as [props|] eqn:Hc; [|vm_compute in Hc; discriminate].
  destruct (processChange initial_patterns (editor props) ⟪"x"⟫) as [[nes ps]|] eqn:E;
    [|vm_compute in Hc; injection Hc as <-; vm_compute in E; discriminate].
  assert (Hne : editor props <> nes).
  { vm_compute in Hc. injection Hc as <-. vm_compute in E. injection E as <- _. vm_compute. congruence. }
  exists props, nes, ps. split; [done|]. split; [done|]. split; [done|].
  rewrite (Editor_keystroke plain_style no_entity s initial_patterns "n" props ⟪"x"⟫ nes ps Hc E).
  by rewrite decide_True.
Defined.

(** C25 (invariant, finding; spec §2 data flow and §8 header promotion).
    The [Editor] component installs only the entity plugin: a character
    typed into it, on any document with unique block keys and a collapsed
    caret, whatever the character, the module's pattern states and the
    style and entity the host gives typed text, dispatches only states in
    which every block keeps its key and its type, in order.  No block is
    ever converted by typing through the component, so typing a header
    trigger leaves the block unstyled. *)
Theorem Editor_keystroke_keeps_types gis gek props ch pats acts pats' :
  NoDup (b_key <$> blockMap (currentContent (editor props))) ->
  isCollapsed (selection (editor props)) = true ->
  pluginsEditor_beforeInput gis gek (Editor_render props) ch pats = Some (acts, pats') ->
  Forall (fun a => block_types (currentContent (action_state a)) = block_types (currentContent (editor props)))
    acts.
Proof.
  intros Hnd Hsel H. unfold pluginsEditor_beforeInput, pluginsEditor_onChange in H. simpl in H.
  unfold plugin_handleBeforeInput in H.
  destruct (processChange pats (editor props) ch) as [[nes ps]|] eqn:Ep; simpl in H; [|done].
  pose proof (processChange_types _ _ _ _ _ Hnd Ep) as Hnes.
  case_decide; simpl in H.
  - unfold pluginsEditor_onChange in H. simpl in H.
    destruct (plugin_onChange ps nes) as [[e' q]|] eqn:Eo; simpl in H; [|done].
    injection H as <- _. constructor; [|constructor]. simpl.
    rewrite (plugin_onChange_types _ _ _ _ (NoDup_keys_types _ _ Hnes Hnd) Eo). exact Hnes.
  - unfold editOnBeforeInput_default in H.
    destruct (Modifier_replaceText _ _ _ _ _) as [c|] eqn:Ec; simpl in H; [|done].
    pose proof (Modifier_replaceText_types _ _ _ _ _ _ Hnd Hsel Ec) as Hc.
    rewrite <- (EditorState_push_types (editor props) c insert_characters) in Hc.
    destruct (plugin_onChange ps _) as [[e' q]|] eqn:Eo; simpl in H; [|done].
    injection H as <- _. constructor; [|constructor]. simpl.
    rewrite (plugin_onChange_types _ _ _ _ (NoDup_keys_types _ _ Hc Hnd) Eo). exact Hc.
Qed.

(** Typing a space after ["#"] in an unstyled block: the component stores
    the block unstyled as ["# "], while the same plugins editor with
    [createCoreBlockPlugin] installed before [plugin] stores a header-one
    block whose ["#"] carries the decorator. *)
Lemma Editor_keystroke_keeps_types_witness :
  let es := editor_of [plain_block "a" "unstyled" ⟪"#"⟫] (caret "a" 1) None in
  let props := mkEditorProps es "" "n" in
  exists acts ps,
    pluginsEditor_beforeInput plain_style no_entity (Editor_render props) ⟪" "⟫ initial_patterns = Some (acts, ps) /\
    Forall (fun a => block_types (currentContent (action_state a)) = [("a", "unstyled")]) acts /\
    (('(acts2, _) ← pluginsEditor_beforeInput plain_style no_entity
        {| de_editorState := es; de_onChange := updateEditorState props;
           de_plugins := [createCoreBlockPlugin (fun _ => es); plugin] |} ⟪" "⟫ initial_patterns;
      stored_block (foldl reduce (one_note "n" es) acts2) "n" "a")
     = Some (mkBlock "a" "header-one" ⟪"# "⟫ [decorator_char; plain_char])).
Proof.
  intros es props.
  destruct (pluginsEditor_beforeInput plain_style no_entity (Editor_render props) ⟪" "⟫ initial_patterns)
    as [[acts ps]|] eqn:E; [|vm_compute in E; discriminate].
  exists acts, ps. split; [done|]. split; [|vm_compute; reflexivity].
  exact (Editor_keystroke_keeps_types plain_style no_entity props ⟪" "⟫ initial_patterns acts ps
           ltac:(vm_compute; repeat constructor; set_solver) eq_refl E).
Defined.

(** C3 (safety, spec §3 lifecycle and §6).  An event of note [n]'s
    [Editor] (a typed character, with the plugins' handlers, the
    setEditorState they call and draft-js's own insertion, or any other
    change draft-js reports through [onChange]) writes only note [n]:
    every other note of the store keeps exactly the editor state it had. *)
Theorem Editor_event_frame `{!NoteStore St} gis gek n (sh sh' : St * list RegExp) :
  shell_step gis gek Editor_render n sh sh' ->
  forall m, m <> n -> store_editor sh'.1 m = store_editor sh.1 m.
Proof.
  destruct 1 as [s pats props ch acts pats' Hc H|s pats props e a pats' Hc He H]; intros m Hm; simpl;
    destruct (connected_props_noteId s n props Hc) as [Hn _].
  - apply (foldl_reduce_other s acts n m); [|done]. rewrite <- Hn.
    by eapply Editor_render_from_prop, pluginsEditor_beforeInput_from_prop.
  - destruct (pluginsEditor_onChange_from_prop _ _ _ _ _ H) as [e' ->]. simpl.
    unfold updateEditorState. rewrite Hn. by apply store_editor_update_ne.
Qed.

(** Typing ["x"] into note [n] of a store that also holds note [m]. *)
Lemma Editor_event_frame_witness :
  let s : gmap string EditorState * gmap string string :=
    ({["n" := ex_state ⟪"say `hello` now"⟫ 4 None; "m" := ex_state ⟪"a `b`"⟫ 0 None]}, ∅) in
  exists sh', shell_step plain_style no_entity Editor_render "n" (s, initial_patterns) sh' /\
    store_editor sh'.1 "m" = store_editor s "m".
Proof.
  intros s.
  destruct (connected_props s "n") as [props|] eqn:Hc; [|vm_compute in Hc; discriminate].
  destruct (pluginsEditor_beforeInput plain_style no_entity (Editor_render props) ⟪"x"⟫ initial_patterns)
    as [[acts ps]|] eqn:E; [|vm_compute in Hc; injection Hc as <-; vm_compute in E; discriminate].
  assert (Hst : shell_step plain_style no_entity Editor_render "n" (s, initial_patterns) (foldl reduce s acts, ps))
    by (eapply shell_beforeInput; [exact Hc|exact E]).
  exists (foldl reduce s acts, ps). split; [exact Hst|].
  exact (Editor_event_frame plain_style no_entity "n" _ _ Hst "m" ltac:(discriminate)).
Defined.
